(** * Indian Legal Document Analyzer: the analysis engines, embedded and verified

    The development follows the Python sources module by module:

    - [Re]: the fragment of Python's [re] library the sources use
      (a backtracking matcher with Python's priorities, [search],
      [finditer], [findall], [escape]);
    - [Float]: the binary64 operations the sources use;
    - [ContractRiskAnalyzer]: [contract_risk_analyzer.py];
    - [Nx]: the [networkx.DiGraph] operations used by the citation graph;
    - [CitationAnalyzer]: [citation_analyzer.py];
    - [LegalAnalysisTools]: [legal_analyzer_tools.py];
    - [Difflib]: [difflib.SequenceMatcher] as used by
      [legal_document_comparison.py];
    - [DocumentComparison]: [document_comparison.py];
    - [CitationReport], [Suggestions], [ClauseType], [KeyDifferences]:
      the report and the plot labels of [citation_analyzer.py], the
      suggestions of [contract_risk_analyzer.py], the clause types of
      [legal_analyzer_tools.py] and the key differences of
      [legal_document_comparison.py];
    - [DocumentManager]: [document_manager.py];
    - [EnhancedDocumentProcessor]: the metadata extraction of
      [enhanced_document_processor.py].

    The modules whose names end in [Spec] hold the vocabulary of the
    statements.

    Text is a [string] over the code points 0..255; character tables are
    Python's Unicode tables restricted to that range.  The floats of
    [contract_risk_analyzer.py] and [document_comparison.py] are binary64
    doubles ([Float]), and a score is given by the exact value of its
    double; the ratio of the sequence matcher is given as a rational
    number. *)

From Stdlib Require Import List String Ascii Bool Arith Lia ZArith QArith Qminmax Qabs Permutation Sorted.
Import ListNotations.
Local Open Scope string_scope.
Local Open Scope nat_scope.

(* ================================================================== *)
(** * Strings as Python uses them *)

Module Str.

Definition code (c : ascii) : nat := nat_of_ascii c.

Definition between (lo hi : nat) (c : ascii) : bool :=
  (lo <=? code c) && (code c <=? hi).

(** [str.isdecimal] on 0..255. *)
Definition is_digit (c : ascii) : bool := between 48 57 c.

(** [str.isspace] on 0..255. *)
Definition is_space (c : ascii) : bool :=
  between 9 13 c || between 28 32 c || (code c =? 133) || (code c =? 160).

(** [str.isalnum() or c == '_'] on 0..255: the class [\w]. *)
Definition is_word (c : ascii) : bool :=
  is_digit c || between 65 90 c || between 97 122 c || (code c =? 95)
  || (code c =? 170) || (code c =? 178) || (code c =? 179) || (code c =? 181)
  || (code c =? 185) || (code c =? 186) || between 188 190 c
  || between 192 214 c || between 216 246 c || between 248 255 c.

(** [str.lower] on one code point of 0..255. *)
Definition lower_char (c : ascii) : ascii :=
  if between 65 90 c || between 192 214 c || between 216 222 c
  then ascii_of_nat (code c + 32) else c.

Fixpoint lower (s : string) : string :=
  match s with
  | EmptyString => EmptyString
  | String c t => String (lower_char c) (lower t)
  end.

(** [s[i:j]] for [0 <= i], [0 <= j]. *)
Definition slice (s : string) (i j : nat) : string := substring i (j - i) s.

(** [c in s] for a one-character [c]. *)
Fixpoint mem_char (c : ascii) (s : string) : bool :=
  match s with
  | EmptyString => false
  | String x t => Ascii.eqb c x || mem_char c t
  end.

(** [sep.join(l)]. *)
Fixpoint join (sep : string) (l : list string) : string :=
  match l with
  | [] => ""
  | [x] => x
  | x :: t => x ++ sep ++ join sep t
  end.

(** [x in l] for a list of strings. *)
Definition mem (x : string) (l : list string) : bool :=
  existsb (String.eqb x) l.

Definition rev_string (s : string) : string :=
  string_of_list_ascii (rev (list_ascii_of_string s)).

Fixpoint lstrip (s : string) : string :=
  match s with
  | String c t => if is_space c then lstrip t else s
  | EmptyString => EmptyString
  end.

(** [s.strip()]. *)
Definition strip (s : string) : string :=
  rev_string (lstrip (rev_string (lstrip s))).

End Str.

(* ================================================================== *)
(** * The fragment of Python's [re] used by the sources *)

Module Re.
Import Str.

(** ** Abstract syntax *)

Inductive cls : Type := CDigit | CSpace | CWord.

Inductive item : Type :=
| IChar (c : ascii)
| IRange (lo hi : ascii)
| ICls (k : cls).

Inductive re : Type :=
| Empty
| Lit (c : ascii)
| Dot
| Class (k : cls)
| CharSet (neg : bool) (items : list item)
| Seq (a b : re)
| Alt (a b : re)
| Rep (a : re) (lo : nat) (hi : option nat) (greedy : bool)
| Group (idx : nat) (a : re)
| Bol
| Eol
| EndZ
| WordB
| LookAhead (neg : bool) (a : re)
| LookBehind1 (neg : bool) (a : re).

(** [re.IGNORECASE], [re.DOTALL], [re.MULTILINE]. *)
Record flags : Type := Flags { ignorecase : bool; dotall : bool; multiline : bool }.

Definition no_flags : flags := Flags false false false.
Definition IGNORECASE : flags := Flags true false false.
Definition IGNORECASE_DOTALL : flags := Flags true true false.

Definition or_flags (f g : flags) : flags :=
  Flags (ignorecase f || ignorecase g) (dotall f || dotall g)
        (multiline f || multiline g).

(** ** Parsing a pattern string *)

Definition newline : ascii := ascii_of_nat 10.

(** Backslash escapes: the classes and anchors the sources use, and any
    punctuation as itself.  Other letters and digits are not part of the
    fragment. *)
Definition ascii_alnum (c : ascii) : bool :=
  is_digit c || between 65 90 c || between 97 122 c.

Definition escape_atom (c : ascii) : option re :=
  if Ascii.eqb c "d" then Some (Class CDigit)
  else if Ascii.eqb c "s" then Some (Class CSpace)
  else if Ascii.eqb c "w" then Some (Class CWord)
  else if Ascii.eqb c "b" then Some WordB
  else if Ascii.eqb c "Z" then Some EndZ
  else if Ascii.eqb c "n" then Some (Lit newline)
  else if Ascii.eqb c "t" then Some (Lit (ascii_of_nat 9))
  else if ascii_alnum c then None
  else Some (Lit c).

Definition escape_item (c : ascii) : option item :=
  if Ascii.eqb c "d" then Some (ICls CDigit)
  else if Ascii.eqb c "s" then Some (ICls CSpace)
  else if Ascii.eqb c "w" then Some (ICls CWord)
  else if Ascii.eqb c "n" then Some (IChar newline)
  else if Ascii.eqb c "t" then Some (IChar (ascii_of_nat 9))
  else if ascii_alnum c then None
  else Some (IChar c).

(** The items of a set, up to the closing bracket. *)
Fixpoint parse_items (s : string) : option (list item * string) :=
  match s with
  | EmptyString => None
  | String "]" t => Some ([], t)
  | String "\" (String c t) =>
      match escape_item c, parse_items t with
      | Some i, Some (l, r) => Some (i :: l, r)
      | _, _ => None
      end
  | String lo (String "-" (String hi t as t1) as t0) =>
      if Ascii.eqb hi "]" then
        match parse_items t0 with
        | Some (l, r) => Some (IChar lo :: l, r)
        | None => None
        end
      else
        match parse_items t with
        | Some (l, r) => Some (IRange lo hi :: l, r)
        | None => None
        end
  | String c t =>
      match parse_items t with
      | Some (l, r) => Some (IChar c :: l, r)
      | None => None
      end
  end.

Definition parse_set (s : string) : option (re * string) :=
  match s with
  | String "^" t =>
      match parse_items t with
      | Some (l, r) => Some (CharSet true l, r)
      | None => None
      end
  | _ =>
      match parse_items s with
      | Some (l, r) => Some (CharSet false l, r)
      | None => None
      end
  end.

(** A decimal number, if the string starts with one. *)
Fixpoint parse_nat_aux (s : string) (acc : nat) (seen : bool)
  : option nat * string :=
  match s with
  | String c t =>
      if is_digit c then parse_nat_aux t (10 * acc + (code c - 48)) true
      else ((if seen then Some acc else None), s)
  | EmptyString => ((if seen then Some acc else None), s)
  end.

Definition parse_nat (s : string) : option nat * string := parse_nat_aux s 0 false.

(** The bounds of a quantifier that follows an atom, if any. *)
Definition parse_bounds (s : string) : option (nat * option nat * string) :=
  match s with
  | String "*" t => Some (0, None, t)
  | String "+" t => Some (1, None, t)
  | String "?" t => Some (0, Some 1, t)
  | String "{" t =>
      match parse_nat t with
      | (Some lo, String "}" r) => Some (lo, Some lo, r)
      | (Some lo, String "," r) =>
          match parse_nat r with
          | (Some hi, String "}" r') => Some (lo, Some hi, r')
          | (None, String "}" r') => Some (lo, None, r')
          | _ => None
          end
      | _ => None
      end
  | _ => None
  end.

Definition parse_quant (a : re) (s : string) : re * string :=
  match parse_bounds s with
  | Some (lo, hi, String "?" t) => (Rep a lo hi false, t)
  | Some (lo, hi, t) => (Rep a lo hi true, t)
  | None => (a, s)
  end.

(** Can the last atom be one character wide only?  (What a look-behind
    of this fragment accepts.) *)
Definition one_wide (a : re) : bool :=
  match a with
  | Seq (Lit _) Empty | Seq Dot Empty | Seq (Class _) Empty
  | Seq (CharSet _ _) Empty => true
  | _ => false
  end.

Definition close_paren (x : option (re * string * nat)) (wrap : re -> option re)
  : option (re * string * nat) :=
  match x with
  | Some (r, String ")" t, g) =>
      match wrap r with Some r' => Some (r', t, g) | None => None end
  | _ => None
  end.

(** Recursive descent; [g] is the number of capturing groups opened so
    far (groups are numbered by their opening parenthesis).  [fuel]
    bounds the nesting and the number of pieces. *)
Fixpoint parse_alt (fuel : nat) (s : string) (g : nat) {struct fuel}
  : option (re * string * nat) :=
  match fuel with
  | O => None
  | S f =>
      let parse_atom (s : string) (g : nat) : option (re * string * nat) :=
        match s with
        | String "(" (String "?" (String ":" t)) =>
            close_paren (parse_alt f t g) (fun r => Some r)
        | String "(" (String "?" (String "=" t)) =>
            close_paren (parse_alt f t g) (fun r => Some (LookAhead false r))
        | String "(" (String "?" (String "!" t)) =>
            close_paren (parse_alt f t g) (fun r => Some (LookAhead true r))
        | String "(" (String "?" (String "<" (String "!" t))) =>
            close_paren (parse_alt f t g)
              (fun r => if one_wide r then Some (LookBehind1 true r) else None)
        | String "(" (String "?" (String "<" (String "=" t))) =>
            close_paren (parse_alt f t g)
              (fun r => if one_wide r then Some (LookBehind1 false r) else None)
        | String "(" (String "?" _) => None
        | String "(" t =>
            close_paren (parse_alt f t (S g)) (fun r => Some (Group (S g) r))
        | String "[" t =>
            match parse_set t with
            | Some (r, t') => Some (r, t', g)
            | None => None
            end
        | String "." t => Some (Dot, t, g)
        | String "^" t => Some (Bol, t, g)
        | String "$" t => Some (Eol, t, g)
        | String "\" (String c t) =>
            match escape_atom c with
            | Some a => Some (a, t, g)
            | None => None
            end
        | String "\" EmptyString => None
        | String "*" _ | String "+" _ | String "?" _ => None
        | String c t => Some (Lit c, t, g)
        | EmptyString => None
        end in
      let fix parse_seq (n : nat) (s : string) (g : nat) {struct n}
        : option (re * string * nat) :=
        match n with
        | O => None
        | S n' =>
            match s with
            | EmptyString => Some (Empty, s, g)
            | String "|" _ => Some (Empty, s, g)
            | String ")" _ => Some (Empty, s, g)
            | _ =>
                match parse_atom s g with
                | Some (a, s1, g1) =>
                    let (a', s2) := parse_quant a s1 in
                    match parse_seq n' s2 g1 with
                    | Some (r, s3, g3) => Some (Seq a' r, s3, g3)
                    | None => None
                    end
                | None => None
                end
            end
        end in
      match parse_seq (S (String.length s)) s g with
      | Some (r1, String "|" t, g1) =>
          match parse_alt f t g1 with
          | Some (r2, t', g2) => Some (Alt r1 r2, t', g2)
          | None => None
          end
      | other => other
      end
  end.

(** A compiled pattern: the flags set inside the pattern, the number of
    capturing groups and the syntax tree. *)
Record pattern : Type := Pattern { p_flags : flags; p_groups : nat; p_re : re }.

(** [re.compile]; [None] stands for [re.error]. *)
Definition compile (p : string) : option pattern :=
  let (fl, body) :=
    match p with
    | String "(" (String "?" (String "i" (String ")" t))) => (IGNORECASE, t)
    | _ => (no_flags, p)
    end in
  match parse_alt (S (String.length body)) body 0 with
  | Some (r, EmptyString, g) => Some (Pattern fl g r)
  | _ => None
  end.

(** ** Matching *)

(** A position in the text: the character before it, the text from it
    on, its index, and the spans of the groups closed so far (latest
    first). *)
Record state : Type := State {
  prev : option ascii;
  rest : string;
  pos : nat;
  caps : list (nat * (nat * nat))
}.

Definition cls_mem (k : cls) (c : ascii) : bool :=
  match k with
  | CDigit => is_digit c
  | CSpace => is_space c
  | CWord => is_word c
  end.

(** Under [IGNORECASE] the set is lower-cased when it is compiled and
    the character when it is tested. *)
Definition range_lower_mem (lo hi : ascii) (c : ascii) : bool :=
  existsb (fun n => Ascii.eqb (lower_char (ascii_of_nat n)) c)
          (seq (code lo) (S (code hi) - code lo)).

Definition item_mem (ic : bool) (i : item) (c : ascii) : bool :=
  match i with
  | IChar x => if ic then Ascii.eqb (lower_char x) c else Ascii.eqb x c
  | IRange lo hi =>
      if ic then range_lower_mem lo hi c else between (code lo) (code hi) c
  | ICls k => cls_mem k c
  end.

Definition set_mem (fl : flags) (neg : bool) (items : list item) (c : ascii) : bool :=
  let c' := if ignorecase fl then lower_char c else c in
  xorb neg (existsb (fun i => item_mem (ignorecase fl) i c') items).

Definition lit_mem (fl : flags) (x c : ascii) : bool :=
  if ignorecase fl then Ascii.eqb (lower_char x) (lower_char c) else Ascii.eqb x c.

Definition dot_mem (fl : flags) (c : ascii) : bool :=
  dotall fl || negb (Ascii.eqb c newline).

Definition word_before (s : state) : bool :=
  match prev s with Some c => is_word c | None => false end.

Definition word_after (s : state) : bool :=
  match rest s with String c _ => is_word c | EmptyString => false end.

Definition at_bol (fl : flags) (s : state) : bool :=
  match prev s with
  | None => true
  | Some c => multiline fl && Ascii.eqb c newline
  end.

Definition at_eol (fl : flags) (s : state) : bool :=
  match rest s with
  | EmptyString => true
  | String c EmptyString => Ascii.eqb c newline
  | String c _ => multiline fl && Ascii.eqb c newline
  end.

(** One character, if it satisfies [p]. *)
Definition eat (p : ascii -> bool) (k : state -> option state) (s : state)
  : option state :=
  match rest s with
  | String c t => if p c then k (State (Some c) t (S (pos s)) (caps s)) else None
  | EmptyString => None
  end.

Definition below (n : nat) (hi : option nat) : bool :=
  match hi with Some h => n <? h | None => true end.

(** The backtracking matcher, in continuation-passing style: [k] is
    what has to match after [r].  Alternatives are tried left to right,
    a greedy repetition tries one more round before it tries to stop, a
    lazy one the other way round: the first success is Python's match.
    A round of a repetition has to consume a character. *)
Fixpoint m (fl : flags) (r : re) (k : state -> option state) (s : state)
  {struct r} : option state :=
  match r with
  | Empty => k s
  | Lit x => eat (lit_mem fl x) k s
  | Dot => eat (dot_mem fl) k s
  | Class c => eat (cls_mem c) k s
  | CharSet neg items => eat (set_mem fl neg items) k s
  | Seq a b => m fl a (fun s' => m fl b k s') s
  | Alt a b =>
      match m fl a k s with
      | Some e => Some e
      | None => m fl b k s
      end
  | Rep a lo hi greedy =>
      (fix loop (fuel cnt : nat) (s : state) {struct fuel} : option state :=
         match fuel with
         | O => None
         | S fuel' =>
             let more (_ : unit) :=
               if below cnt hi
               then m fl a (fun s' => if pos s <? pos s'
                                      then loop fuel' (S cnt) s' else None) s
               else None in
             let stop (_ : unit) := if lo <=? cnt then k s else None in
             if greedy
             then match more tt with Some e => Some e | None => stop tt end
             else match stop tt with Some e => Some e | None => more tt end
         end) (S (String.length (rest s))) 0 s
  | Group i a =>
      m fl a (fun s' => k (State (prev s') (rest s') (pos s')
                                 ((i, (pos s, pos s')) :: caps s'))) s
  | Bol => if at_bol fl s then k s else None
  | Eol => if at_eol fl s then k s else None
  | EndZ => match rest s with EmptyString => k s | _ => None end
  | WordB => if xorb (word_before s) (word_after s) then k s else None
  | LookAhead neg a =>
      match m fl a Some s with
      | Some s' =>
          if neg then None
          else k (State (prev s) (rest s) (pos s) (caps s'))
      | None => if neg then k s else None
      end
  | LookBehind1 neg a =>
      let hit :=
        match prev s with
        | Some c =>
            match m fl a Some (State None (String c EmptyString) 0 []) with
            | Some _ => true
            | None => false
            end
        | None => false
        end in
      if xorb neg hit then k s else None
  end.

(** ** Match objects *)

Record rmatch : Type := RMatch {
  m_start : nat;
  m_end : nat;
  m_caps : list (nat * (nat * nat))
}.

Fixpoint span_of (i : nat) (l : list (nat * (nat * nat))) : option (nat * nat) :=
  match l with
  | [] => None
  | (j, sp) :: t => if i =? j then Some sp else span_of i t
  end.

(** [match.group(i)] for [i >= 1]; [None] if the group took no part. *)
Definition group (text : string) (mt : rmatch) (i : nat) : option string :=
  match span_of i (m_caps mt) with
  | Some (a, b) => Some (slice text a b)
  | None => None
  end.

(** [match.group(0)]. *)
Definition group0 (text : string) (mt : rmatch) : string :=
  slice text (m_start mt) (m_end mt).

(** A match that starts at the position [s]. *)
Definition match_here (fl : flags) (r : re) (s : state) : option rmatch :=
  match m fl r Some s with
  | Some e => Some (RMatch (pos s) (pos e) (caps e))
  | None => None
  end.

(** The leftmost match from [p] on. *)
Fixpoint search_from (fl : flags) (r : re) (p : option ascii) (t : string) (i : nat)
  : option rmatch :=
  match match_here fl r (State p t i []) with
  | Some mt => Some mt
  | None =>
      match t with
      | String c t' => search_from fl r (Some c) t' (S i)
      | EmptyString => None
      end
  end.

(** All the matches, left to right, without overlap: after a match the
    scan goes on where the match ended ([skip] counts the characters
    still to pass over), one character further after an empty match. *)
Fixpoint scan (fl : flags) (r : re) (p : option ascii) (t : string) (i skip : nat)
  : list rmatch :=
  match skip with
  | S skip' =>
      match t with
      | String c t' => scan fl r (Some c) t' (S i) skip'
      | EmptyString => []
      end
  | O =>
      match match_here fl r (State p t i []) with
      | Some mt =>
          mt :: match t with
                | String c t' => scan fl r (Some c) t' (S i) (pred (m_end mt - i))
                | EmptyString => []
                end
      | None =>
          match t with
          | String c t' => scan fl r (Some c) t' (S i) 0
          | EmptyString => []
          end
      end
  end.

(** ** The module-level functions; [None] stands for [re.error]. *)

Definition search (p : string) (text : string) (fl : flags) : option (option rmatch) :=
  match compile p with
  | Some c => Some (search_from (or_flags fl (p_flags c)) (p_re c) None text 0)
  | None => None
  end.

Definition finditer (p : string) (text : string) (fl : flags) : option (list rmatch) :=
  match compile p with
  | Some c => Some (scan (or_flags fl (p_flags c)) (p_re c) None text 0 0)
  | None => None
  end.

(** What [findall] yields for one match: the whole match when the
    pattern has no group, the group when it has one, else the tuple of
    the groups; a group that took no part counts as the empty string. *)
Inductive found : Type :=
| FStr (s : string)
| FTuple (l : list string).

Definition group_or_empty (text : string) (mt : rmatch) (i : nat) : string :=
  match group text mt i with Some s => s | None => "" end.

Definition found_of (text : string) (ngroups : nat) (mt : rmatch) : found :=
  match ngroups with
  | 0 => FStr (group0 text mt)
  | 1 => FStr (group_or_empty text mt 1)
  | _ => FTuple (map (group_or_empty text mt) (seq 1 ngroups))
  end.

Definition findall (p : string) (text : string) : option (list found) :=
  match compile p with
  | Some c =>
      Some (map (found_of text (p_groups c))
                (scan (p_flags c) (p_re c) None text 0 0))
  | None => None
  end.

(** [re.escape]: a backslash before every character that is special in
    a pattern. *)
Definition special : string := "()[]{}?*+-|^$\.&~# " ++ String (ascii_of_nat 9)
  (String (ascii_of_nat 10) (String (ascii_of_nat 13) (String (ascii_of_nat 11)
  (String (ascii_of_nat 12) EmptyString)))).

Fixpoint escape (s : string) : string :=
  match s with
  | EmptyString => EmptyString
  | String c t =>
      if mem_char c special then String "\" (String c (escape t))
      else String c (escape t)
  end.

End Re.

(* ================================================================== *)
(** * Python dictionaries, in insertion order *)

Module Dict.

Section Dict.
Variable V : Type.

Definition dict : Type := list (string * V).

(** [d.get(k)]. *)
Fixpoint get (d : dict) (k : string) : option V :=
  match d with
  | [] => None
  | (k', v) :: t => if String.eqb k k' then Some v else get t k
  end.

(** [d[k] = v]: the value of an existing key is replaced in place, a
    new key goes to the end. *)
Fixpoint set (d : dict) (k : string) (v : V) : dict :=
  match d with
  | [] => [(k, v)]
  | (k', v') :: t =>
      if String.eqb k k' then (k', v) :: t else (k', v') :: set t k v
  end.

Definition keys (d : dict) : list string := map fst d.
Definition values (d : dict) : list V := map snd d.

End Dict.

Arguments get {V} d k.
Arguments set {V} d k v.
Arguments keys {V} d.
Arguments values {V} d.

End Dict.

(* ================================================================== *)
(** * The float operations of the sources

    A double is given by its exact value [mant / 2^expo].  The
    operations are correctly rounded, as in CPython: the true division
    of two integers gives the double nearest to the quotient, the sum of
    two doubles the double nearest to the exact sum, and [round(x, n)]
    the double nearest to the decimal of [n] places nearest to [x] (ties
    to even in all three). *)

Module Float.
Local Open Scope Z_scope.

(** [a / b] rounded to the nearest integer, ties to even ([0 < b]). *)
Definition rhe (a b : Z) : Z :=
  let q := a / b in
  let r := a mod b in
  match 2 * r ?= b with
  | Lt => q
  | Gt => q + 1
  | Eq => if Z.even q then q else q + 1
  end.

Record double : Type := Double { mant : Z; expo : Z }.

(** The number a double stands for. *)
Definition value (x : double) : Q := inject_Z (mant x) / inject_Z (2 ^ expo x).

(** An integer below [2^53] as a double. *)
Definition of_int (n : Z) : double := Double n 0.

(** [i / u] for integers [0 <= i < 2^53 * u], [0 < u]: the exponent is
    chosen so that the mantissa has 53 bits. *)
Definition true_div (i u : Z) : double :=
  let e0 := 52 + Z.log2 u - Z.log2 i in
  let e := if i * 2 ^ e0 <? 2 ^ 52 * u then e0 + 1 else e0 in
  Double (rhe (i * 2 ^ e) u) e.

(** [x + y] for doubles [0 <= x] and [0 <= y]: the exact sum over the
    common denominator, rounded. *)
Definition add (x y : double) : double :=
  let e := Z.max (expo x) (expo y) in
  true_div (mant x * 2 ^ (e - expo x) + mant y * 2 ^ (e - expo y)) (2 ^ e).

(** [x < n] for an integer [n]. *)
Definition ltb_int (x : double) (n : Z) : bool := mant x <? n * 2 ^ expo x.

(** [min(n, x)] for an integer [n]: [x] when it is smaller, else [n]. *)
Definition min_int (n : Z) (x : double) : double :=
  if ltb_int x n then x else of_int n.

(** [round(x, ndigits)] for [0 <= x]. *)
Definition round (x : double) (ndigits : Z) : double :=
  true_div (rhe (mant x * 10 ^ ndigits) (2 ^ expo x)) (10 ^ ndigits).

End Float.

(* ================================================================== *)
(** * contract_risk_analyzer.py *)

Module ContractRiskAnalyzer.
Import Str.

(** The attributes set by [__init__]. *)
Record self_t : Type := Self {
  risk_patterns : Dict.dict (list string);
  standard_provisions : list string
}.

Definition init : self_t :=
  {| risk_patterns := [
       ("ambiguity",
        ["may"; "might"; "could"; "reasonable efforts"; "commercially reasonable";
         "best efforts"; "good faith"; "timely manner"; "promptly"; "substantial";
         "material"; "adequate"; "appropriate"; "suitable"; "satisfactory"]);
       ("one_sided_terms",
        ["sole discretion"; "unilateral"; "unilaterally"; "at any time";
         "without notice"; "without cause"; "without liability"; "no liability";
         "shall not be liable"; "in its discretion"; "may determine"]);
       ("liability_issues",
        ["unlimited liability"; "sole risk"; "indemnify.*all"; "indemnify.*any";
         "defend and hold harmless"; "to the fullest extent"; "unlimited indemnification";
         "including but not limited to"; "for any reason"]);
       ("missing_provisions", []);
       ("termination_risks",
        ["immediate termination"; "without notice"; "terminate immediately";
         "at its convenience"; "without cause"; "for any reason"; "change of control"]);
       ("confidentiality_risks",
        ["perpetual confidentiality"; "unlimited confidentiality"; "forever";
         "no time limit"; "without restriction"; "sole property"]);
       ("ip_risks",
        ["assign all rights"; "assign all intellectual property"; "work for hire";
         "exclusively own"; "transfer all"; "irrevocably assign"])
     ];
     standard_provisions := [
       "termination"; "confidentiality"; "intellectual property";
       "indemnification"; "governing law"; "dispute resolution";
       "force majeure"; "assignment"; "notices"; "entire agreement"
     ] |}.

(** One entry of a match list: [{"term": ..., "context": ...}]. *)
Record term_match : Type := TermMatch { term : string; context : string }.

(** One entry of [analysis["risk_categories"]]. *)
Record category_entry : Type := CategoryEntry { score : nat; matches : nat }.

Record analysis : Type := Analysis {
  risk_score : Q;
  risk_categories : Dict.dict category_entry;
  ambiguous_clauses : list term_match;
  one_sided_terms : list term_match;
  liability_issues : list term_match;
  missing_provisions : list string;
  other_issues : list term_match
}.

(** [any(c in pattern for c in ".*+?()[]{}|^$")]. *)
Definition is_regex (pattern : string) : bool :=
  existsb (fun c => mem_char c pattern) (list_ascii_of_string ".*+?()[]{}|^$").

(** The body shared by the two [for match in ...] loops: the term, its
    context of 50 characters on each side, and one more point. *)
Definition record_match (text : string) (acc : list term_match * nat) (mt : Re.rmatch)
  : list term_match * nat :=
  let '(matches, category_score) := acc in
  let start := Nat.max 0 (Re.m_start mt - 50) in
  let end_ := Nat.min (String.length text) (Re.m_end mt + 50) in
  ((matches ++ [TermMatch (Re.group0 text mt) (slice text start end_)])%list,
   category_score + 1).

(** One round of [for pattern in patterns]. *)
Definition scan_pattern (text : string) (acc : list term_match * nat) (pattern : string)
  : option (list term_match * nat) :=
  if is_regex pattern then
    match Re.finditer pattern text Re.IGNORECASE with
    | Some regex_matches => Some (fold_left (record_match text) regex_matches acc)
    | None => None
    end
  else
    let keyword_pattern := "\b" ++ Re.escape pattern ++ "\b" in
    match Re.finditer keyword_pattern text Re.IGNORECASE with
    | Some keyword_matches => Some (fold_left (record_match text) keyword_matches acc)
    | None => None
    end.

Fixpoint scan_patterns (text : string) (patterns : list string)
  (acc : list term_match * nat) : option (list term_match * nat) :=
  match patterns with
  | [] => Some acc
  | pattern :: rest =>
      match scan_pattern text acc pattern with
      | Some acc' => scan_patterns text rest acc'
      | None => None
      end
  end.

(** The [if category == ...] chain that files the matches. *)
Definition file_matches (category : string) (found : list term_match) (a : analysis)
  : analysis :=
  if String.eqb category "ambiguity" then
    Analysis (risk_score a) (risk_categories a) found (one_sided_terms a)
             (liability_issues a) (missing_provisions a) (other_issues a)
  else if String.eqb category "one_sided_terms" then
    Analysis (risk_score a) (risk_categories a) (ambiguous_clauses a) found
             (liability_issues a) (missing_provisions a) (other_issues a)
  else if String.eqb category "liability_issues" then
    Analysis (risk_score a) (risk_categories a) (ambiguous_clauses a)
             (one_sided_terms a) found (missing_provisions a) (other_issues a)
  else
    Analysis (risk_score a) (risk_categories a) (ambiguous_clauses a)
             (one_sided_terms a) (liability_issues a) (missing_provisions a)
             (other_issues a ++ found)%list.

Definition set_category (category : string) (e : category_entry) (a : analysis)
  : analysis :=
  Analysis (risk_score a) (Dict.set (risk_categories a) category e)
           (ambiguous_clauses a) (one_sided_terms a) (liability_issues a)
           (missing_provisions a) (other_issues a).

(** One round of [for category, patterns in self.risk_patterns.items()]. *)
Definition scan_category (text : string) (a : analysis)
  (entry : string * list string) : option analysis :=
  let '(category, patterns) := entry in
  if String.eqb category "missing_provisions" then Some a
  else
    match scan_patterns text patterns ([], 0) with
    | Some (found, category_score) =>
        let category_score := Nat.min 100 (category_score * 10) in
        Some (set_category category (CategoryEntry category_score (List.length found))
                (file_matches category found a))
    | None => None
    end.

Fixpoint scan_categories (text : string) (entries : list (string * list string))
  (a : analysis) : option analysis :=
  match entries with
  | [] => Some a
  | entry :: rest =>
      match scan_category text a entry with
      | Some a' => scan_categories text rest a'
      | None => None
      end
  end.

(** [_get_provision_synonyms]. *)
Definition synonyms_table : Dict.dict (list string) := [
  ("termination", ["cancellation"; "expiration"; "discontinuance"]);
  ("confidentiality", ["non-disclosure"; "private information"; "proprietary information"]);
  ("intellectual property", ["ip rights"; "copyrights"; "patents"; "trademarks"]);
  ("indemnification", ["indemnity"; "hold harmless"; "defend"]);
  ("governing law", ["applicable law"; "jurisdiction"; "choice of law"]);
  ("dispute resolution", ["arbitration"; "mediation"; "settlement of disputes"]);
  ("force majeure", ["act of god"; "unforeseen circumstances"; "beyond control"]);
  ("assignment", ["transfer of rights"; "successors"; "assigns"]);
  ("notices", ["notification"; "communication"]);
  ("entire agreement", ["complete agreement"; "integration"; "merger clause"])
].

Definition _get_provision_synonyms (provision : string) : list string :=
  match Dict.get synonyms_table provision with
  | Some l => l
  | None => []
  end.

(** [for synonym in synonyms: ... found = True; break]. *)
Fixpoint synonym_found (text_lower : string) (synonyms : list string) : option bool :=
  match synonyms with
  | [] => Some false
  | synonym :: rest =>
      let synonym_pattern := "\b" ++ Re.escape synonym ++ "\b" in
      match Re.search synonym_pattern text_lower Re.no_flags with
      | Some (Some _) => Some true
      | Some None => synonym_found text_lower rest
      | None => None
      end
  end.

(** The value of [found] at the end of one round of
    [for provision in self.standard_provisions]. *)
Definition provision_found (text_lower : string) (provision : string) : option bool :=
  let provision_lower := lower provision in
  let provision_pattern := "\b" ++ Re.escape provision_lower ++ "\b" in
  let synonyms := _get_provision_synonyms provision_lower in
  match Re.search provision_pattern text_lower Re.no_flags with
  | Some (Some _) => Some true
  | Some None => synonym_found text_lower synonyms
  | None => None
  end.

Fixpoint missing_loop (text_lower : string) (provisions : list string)
  (missing : list string) : option (list string) :=
  match provisions with
  | [] => Some missing
  | provision :: rest =>
      match provision_found text_lower provision with
      | Some found =>
          missing_loop text_lower rest
            (if negb found then (missing ++ [provision])%list else missing)
      | None => None
      end
  end.

Definition find_missing_provisions (self : self_t) (text : string)
  : option (list string) :=
  let text_lower := lower text in
  missing_loop text_lower (standard_provisions self) [].

Definition Qnat (n : nat) : Q := inject_Z (Z.of_nat n).

(** [sum(cat["score"] for cat in ...values())]. *)
Definition total_score (d : Dict.dict category_entry) : nat :=
  list_sum (map score (Dict.values d)).

(** The block under "Calculate overall risk score": a true division of
    two integers, the sum of its result and an integer, and the two
    [min(100, ...)].  The score is given by its exact value. *)
Definition overall_score (a : analysis) (missing : list string) : Q :=
  match risk_categories a with
  | [] => risk_score a
  | _ :: _ =>
      let total_score := total_score (risk_categories a) in
      let s := Float.min_int 100
                 (Float.true_div (Z.of_nat total_score)
                                 (Z.of_nat (List.length (risk_categories a)))) in
      match missing with
      | [] => Float.value s
      | _ :: _ =>
          let s := Float.add s (Float.of_int
                                  (Z.of_nat (Nat.min 20 (List.length missing * 5)))) in
          Float.value (Float.min_int 100 s)
      end
  end.

Definition analyze_contract (self : self_t) (text : string) : option analysis :=
  let a0 := Analysis 0 [] [] [] [] [] [] in
  match scan_categories text (risk_patterns self) a0 with
  | Some a =>
      match find_missing_provisions self text with
      | Some missing =>
          let a := Analysis (risk_score a) (risk_categories a) (ambiguous_clauses a)
                            (one_sided_terms a) (liability_issues a) missing
                            (other_issues a) in
          Some (Analysis (overall_score a missing) (risk_categories a)
                         (ambiguous_clauses a) (one_sided_terms a)
                         (liability_issues a) missing (other_issues a))
      | None => None
      end
  | None => None
  end.

End ContractRiskAnalyzer.
(* ================================================================== *)
(** * Vocabulary of the statements about the risk scorer *)

Module RiskSpec.
Import Str ContractRiskAnalyzer.

(** The regular expression a risk pattern stands for. *)
Definition regex_of (pattern : string) : string :=
  if is_regex pattern then pattern else "\b" ++ Re.escape pattern ++ "\b".

(** How often a risk pattern matches a text. *)
Definition match_count (text pattern : string) : nat :=
  match Re.finditer (regex_of pattern) text Re.IGNORECASE with
  | Some ms => List.length ms
  | None => 0
  end.

(** The raw match count of a list of patterns, and of a category. *)
Definition raw_count (text : string) (patterns : list string) : nat :=
  list_sum (map (match_count text) patterns).

Definition raw_match_count (text category : string) : nat :=
  match Dict.get (risk_patterns init) category with
  | Some patterns => raw_count text patterns
  | None => 0
  end.

Definition capped_score (raw : nat) : nat := Nat.min 100 (raw * 10).

(** The six categories that are scored. *)
Definition scored_categories : list string :=
  ["ambiguity"; "one_sided_terms"; "liability_issues"; "termination_risks";
   "confidentiality_risks"; "ip_risks"].

(** The sum of the capped scores of the scored categories, and their
    mean as a rational number. *)
Definition capped_total (text : string) : nat :=
  list_sum (map (fun c => capped_score (raw_match_count text c)) scored_categories).

Definition mean_score (text : string) : Q :=
  Qnat (list_sum (map (fun c => capped_score (raw_match_count text c))
                      scored_categories))
  / Qnat (List.length scored_categories).

(** The mean of [count] scores that sum to [total], incremented and
    clamped to 100, in binary64 arithmetic. *)
Definition float_score (total count increment : nat) : Float.double :=
  Float.min_int 100
    (Float.add (Float.true_div (Z.of_nat total) (Z.of_nat count))
               (Float.of_int (Z.of_nat increment))).

(** How far the binary64 score can be from the rational one. *)
Definition score_error : Q := 1 # 70368744177664.

Definition compiles (p : string) : bool :=
  match Re.compile p with Some _ => true | None => false end.

(** The last character of [pre], or [p] when [pre] is empty. *)
Fixpoint last_char (p : option ascii) (pre : string) : option ascii :=
  match pre with
  | EmptyString => p
  | String c t => last_char (Some c) t
  end.

Definition ends_nonword (pre : string) : bool :=
  match last_char None pre with Some c => negb (is_word c) | None => true end.

Definition starts_nonword (suf : string) : bool :=
  match suf with String c _ => negb (is_word c) | EmptyString => true end.

(** [w] stands in [s] as a whole word. *)
Definition whole_word (w s : string) : Prop :=
  exists pre suf, s = pre ++ w ++ suf
                  /\ ends_nonword pre = true /\ starts_nonword suf = true.

(** The pattern of a literal: its characters in a row, then [tail]. *)
Fixpoint lits (w : string) (tail : Re.re) : Re.re :=
  match w with
  | EmptyString => tail
  | String c t => Re.Seq (Re.Lit c) (lits t tail)
  end.

(** The categories that get an entry, with what the entry holds. *)
Definition scored_entries (text : string) (entries : list (string * list string))
  : Dict.dict category_entry :=
  map (fun e => (fst e, CategoryEntry (capped_score (raw_count text (snd e)))
                                      (raw_count text (snd e))))
      (filter (fun e => negb (String.eqb (fst e) "missing_provisions")) entries).

(** A provision whose own pattern and whose synonyms' patterns compile. *)
Definition provision_compiles (provision : string) : bool :=
  compiles ("\b" ++ Re.escape (lower provision) ++ "\b")
  && forallb (fun s => compiles ("\b" ++ Re.escape s ++ "\b"))
             (_get_provision_synonyms (lower provision)).

End RiskSpec.

(* ================================================================== *)
(** * The operations of [networkx.DiGraph] the citation graph uses *)

Module Nx.

(** Attribute dictionaries of nodes and edges. *)
Definition attrs : Type := Dict.dict string.

(** [old.update(new)]. *)
Definition update (old new : attrs) : attrs :=
  fold_left (fun d kv => Dict.set d (fst kv) (snd kv)) new old.

Definition edge : Type := (string * string)%type.

Definition edge_eqb (e f : edge) : bool :=
  String.eqb (fst e) (fst f) && String.eqb (snd e) (snd f).

(** A directed graph without parallel edges: every node and every
    ordered pair of nodes has one attribute dictionary at most.  Nodes
    and edges are kept in the order in which they were first added. *)
Record DiGraph : Type := Graph {
  nodes : Dict.dict attrs;
  edges : list (edge * attrs)
}.

Definition empty : DiGraph := Graph [] [].

Fixpoint edge_get (es : list (edge * attrs)) (e : edge) : option attrs :=
  match es with
  | [] => None
  | (f, a) :: t => if edge_eqb e f then Some a else edge_get t e
  end.

Fixpoint edge_set (es : list (edge * attrs)) (e : edge) (a : attrs)
  : list (edge * attrs) :=
  match es with
  | [] => [(e, a)]
  | (f, b) :: t => if edge_eqb e f then (f, a) :: t else (f, b) :: edge_set t e a
  end.

(** [G.has_node(n)]. *)
Definition has_node (G : DiGraph) (n : string) : bool :=
  match Dict.get (nodes G) n with Some _ => true | None => false end.

(** [G.add_node(n, **attr)]: a new node gets [attr], an existing one
    has its attributes updated. *)
Definition add_node (G : DiGraph) (n : string) (attr : attrs) : DiGraph :=
  match Dict.get (nodes G) n with
  | Some old => Graph (Dict.set (nodes G) n (update old attr)) (edges G)
  | None => Graph (Dict.set (nodes G) n (update [] attr)) (edges G)
  end.

(** [G.add_edge(u, v, **attr)]: missing end points become nodes without
    attributes; the attributes of an edge that exists are updated. *)
Definition add_edge (G : DiGraph) (u v : string) (attr : attrs) : DiGraph :=
  let G1 := if has_node G u then G else Graph (Dict.set (nodes G) u []) (edges G) in
  let G2 := if has_node G1 v then G1 else Graph (Dict.set (nodes G1) v []) (edges G1) in
  let datadict :=
    match edge_get (edges G2) (u, v) with Some d => d | None => [] end in
  Graph (nodes G2) (edge_set (edges G2) (u, v) (update datadict attr)).

(** The edges from [u] to [v]. *)
Definition edges_from_to (G : DiGraph) (u v : string) : list (edge * attrs) :=
  filter (fun ea => edge_eqb (fst ea) (u, v)) (edges G).

(** The edges between [u] and [v], in either direction. *)
Definition edges_between (G : DiGraph) (u v : string) : list (edge * attrs) :=
  filter (fun ea => edge_eqb (fst ea) (u, v) || edge_eqb (fst ea) (v, u)) (edges G).

End Nx.

(* ================================================================== *)
(** * citation_analyzer.py *)

Module CitationAnalyzer.
Import Str.

(** The attribute set by [__init__]. *)
Definition patterns : Dict.dict (list string) := [
  ("case_citations",
   ["\(\d{4}\)\s+\d+\s+SCC\s+\d+";
    "\d{4}\s+\(\d+\)\s+SCC\s+\d+";
    "AIR\s+\d{4}\s+SC\s+\d+";
    "\(\d{4}\)\s+\d+\s+SCR\s+\d+"]);
  ("statute_citations",
   ["(?:The\s+)?([A-Z][a-z]+(?:\s+[A-Z][a-z]+)*\s+Act,?\s+(?:of\s+)?\d{4})";
    "(?:The\s+)?([A-Z][a-z]+(?:\s+[A-Z][a-z]+)*\s+Rules,?\s+(?:of\s+)?\d{4})";
    "(?:The\s+)?([A-Z][a-z]+(?:\s+[A-Z][a-z]+)*\s+Regulation,?\s+(?:of\s+)?\d{4})"]);
  ("constitution_citations",
   ["[Aa]rticle\s+(\d+(?:\(\d+\))?(?:\([a-z]\))?)";
    "[Aa]rticle\s+(\d+)(?:\((\d+)(?:\(([a-z])\))?)?\)";
    "[Aa]rticle\s+(\d+(?:\(\d+\))?(?:\([a-z]\))?)\s+of\s+the\s+Constitution"]);
  ("section_citations",
   ["Section\s+(\d+(?:\([a-z]\))?)\s+of\s+the\s+([A-Za-z\s]+)";
    "under\s+[Ss]ection\s+(\d+(?:\([a-z]\))?)"])
].

Definition nonempty (s : string) : bool :=
  match s with EmptyString => false | _ => true end.

(** What is appended to [matches] for one element of [found]. *)
Definition match_string (f : Re.found) : string :=
  match f with
  | Re.FTuple l => join " " (filter nonempty l)
  | Re.FStr s => s
  end.

(** [for pattern in patterns: for match in re.findall(pattern, text)]. *)
Fixpoint collect_matches (text : string) (pats : list string) (matches : list string)
  : option (list string) :=
  match pats with
  | [] => Some matches
  | pattern :: rest =>
      match Re.findall pattern text with
      | Some found =>
          collect_matches text rest
            (fold_left (fun ms f => ms ++ [match_string f])%list found matches)
      | None => None
      end
  end.

(** "Remove duplicates while preserving order". *)
Definition unique_step (unique_matches : list string) (item : string) : list string :=
  if mem item unique_matches then unique_matches
  else (unique_matches ++ [item])%list.

Definition unique_in_order (matches : list string) : list string :=
  fold_left unique_step matches [].

Fixpoint extract_loop (text : string) (entries : list (string * list string))
  (citations : Dict.dict (list string)) : option (Dict.dict (list string)) :=
  match entries with
  | [] => Some citations
  | (citation_type, pats) :: rest =>
      match collect_matches text pats [] with
      | Some matches =>
          extract_loop text rest
            (Dict.set citations citation_type (unique_in_order matches))
      | None => None
      end
  end.

Definition extract_citations (text : string) : option (Dict.dict (list string)) :=
  extract_loop text patterns [].

(** An element of [documents]: [(doc_id, text, metadata)]. *)
Record document : Type := Document {
  doc_id : string;
  doc_text : string;
  metadata : Dict.dict string
}.

(** [metadata.get('filename', doc_id)]. *)
Definition doc_name (d : document) : string :=
  match Dict.get (metadata d) "filename" with
  | Some f => f
  | None => doc_id d
  end.

(** [f"{citation_type}:{citation}"]. *)
Definition citation_str (citation_type citation : string) : string :=
  citation_type ++ ":" ++ citation.

(** The body of [for citation in matches] in the first loop. *)
Definition add_citation (name citation_type : string) (G : Nx.DiGraph)
  (citation : string) : Nx.DiGraph :=
  let s := citation_str citation_type citation in
  let G := if negb (Nx.has_node G s)
           then Nx.add_node G s [("type", citation_type)] else G in
  Nx.add_edge G name s [].

Definition add_citations (name : string) (citations : Dict.dict (list string))
  (G : Nx.DiGraph) : Nx.DiGraph :=
  fold_left (fun G entry => fold_left (add_citation name (fst entry)) (snd entry) G)
            citations G.

(** The first loop: the document nodes, the citation nodes and the
    edges from a document to what it cites. *)
Fixpoint add_documents (documents : list document)
  (st : Nx.DiGraph * Dict.dict (Dict.dict (list string)))
  : option (Nx.DiGraph * Dict.dict (Dict.dict (list string))) :=
  match documents with
  | [] => Some st
  | d :: rest =>
      let '(G, doc_citations) := st in
      let name := doc_name d in
      let G := Nx.add_node G name [("type", "document")] in
      match extract_citations (doc_text d) with
      | Some citations =>
          let doc_citations := Dict.set doc_citations name citations in
          add_documents rest (add_citations name citations G, doc_citations)
      | None => None
      end
  end.

(** [citation_to_docs[citation_str].append(doc_name)] on a
    [defaultdict(list)]. *)
Definition append_doc (name : string) (citation_to_docs : Dict.dict (list string))
  (s : string) : Dict.dict (list string) :=
  match Dict.get citation_to_docs s with
  | Some l => Dict.set citation_to_docs s (l ++ [name])%list
  | None => Dict.set citation_to_docs s [name]
  end.

(** The second loop: the documents that cite each key. *)
Definition index_document (citation_to_docs : Dict.dict (list string))
  (entry : string * Dict.dict (list string)) : Dict.dict (list string) :=
  fold_left (fun ctd e =>
               fold_left (fun ctd citation =>
                            append_doc (fst entry) ctd (citation_str (fst e) citation))
                         (snd e) ctd)
            (snd entry) citation_to_docs.

Definition index_documents (doc_citations : Dict.dict (Dict.dict (list string)))
  : Dict.dict (list string) :=
  fold_left index_document doc_citations [].

(** [for i in range(len(citing_docs)): for j in range(i+1, len(citing_docs))]:
    every document with every later one. *)
Fixpoint connect_pairs (citation : string) (citing_docs : list string) (G : Nx.DiGraph)
  : Nx.DiGraph :=
  match citing_docs with
  | [] => G
  | di :: later =>
      connect_pairs citation later
        (fold_left (fun G dj => Nx.add_edge G di dj [("shared", citation)]) later G)
  end.

(** The third loop: the documents that share a citation. *)
Definition connect (G : Nx.DiGraph) (entry : string * list string) : Nx.DiGraph :=
  let '(citation, citing_docs) := entry in
  if 1 <? List.length citing_docs then connect_pairs citation citing_docs G else G.

Definition build_citation_network (documents : list document) : option Nx.DiGraph :=
  match add_documents documents (Nx.empty, []) with
  | Some (G, doc_citations) =>
      let citation_to_docs := index_documents doc_citations in
      Some (fold_left connect citation_to_docs G)
  | None => None
  end.

End CitationAnalyzer.

(* ================================================================== *)
(** * Vocabulary of the statements about the citation graph *)

Module CitationSpec.
Import Str CitationAnalyzer.

(** The citation keys of an extraction result, in the order in which
    the graph builder meets them. *)
Definition keys_of (citations : Dict.dict (list string)) : list string :=
  flat_map (fun e => map (citation_str (fst e)) (snd e)) citations.

(** The same, each key with its citation type. *)
Definition typed_keys_of (citations : Dict.dict (list string))
  : list (string * string) :=
  flat_map (fun e => map (fun c => (fst e, citation_str (fst e) c)) (snd e)) citations.

(** What [extract_citations] returns for a text. *)
Definition citations_of (text : string) : Dict.dict (list string) :=
  match extract_citations text with
  | Some citations => citations
  | None => []
  end.

(** The citation keys of a document. *)
Definition doc_keys (d : document) : list string :=
  keys_of (citations_of (doc_text d)).

Definition doc_typed_keys (d : document) : list (string * string) :=
  typed_keys_of (citations_of (doc_text d)).

(** The keys two documents share, in the order of the first. *)
Definition shared_keys (d1 d2 : document) : list string :=
  filter (fun k => mem k (doc_keys d2)) (doc_keys d1).

(** The first loop's work for one key [(citation_type, citation_str)]. *)
Definition add_typed (name : string) (G : Nx.DiGraph) (tk : string * string)
  : Nx.DiGraph :=
  let G := if negb (Nx.has_node G (snd tk))
           then Nx.add_node G (snd tk) [("type", fst tk)] else G in
  Nx.add_edge G name (snd tk) [].

(** The first loop's work for one document. *)
Definition add_document (G : Nx.DiGraph) (d : document) : Nx.DiGraph :=
  fold_left (add_typed (doc_name d)) (doc_typed_keys d)
            (Nx.add_node G (doc_name d) [("type", "document")]).

(** The edges from a document to what it cites. *)
Definition doc_edges (d : document) : list (Nx.edge * Nx.attrs) :=
  map (fun k => ((doc_name d, k), [])) (doc_keys d).

(** What the first loop records for a document. *)
Definition doc_entry (d : document) : string * Dict.dict (list string) :=
  (doc_name d, citations_of (doc_text d)).

(** The list a key of [citation_to_docs] maps to, empty for no key. *)
Definition lookup (ctd : Dict.dict (list string)) (k : string) : list string :=
  match Dict.get ctd k with Some l => l | None => [] end.

(** The nodes a document brings: itself, then what it cites. *)
Definition doc_nodes (d : document) : Dict.dict Nx.attrs :=
  (doc_name d, [("type", "document")])
  :: map (fun tk => (snd tk, [("type", fst tk)])) (doc_typed_keys d).

(** The documents that cite [k], by name and in order. *)
Definition citers (k : string) (doc_citations : Dict.dict (Dict.dict (list string)))
  : list string :=
  map fst (filter (fun e => mem k (keys_of (snd e))) doc_citations).

(** The pairs of an element with a later element, in the order of the
    two nested index loops. *)
Fixpoint pairs (l : list string) : list (string * string) :=
  match l with
  | [] => []
  | x :: later => (map (pair x) later ++ pairs later)%list
  end.

(** The co-citation edges the third loop adds, each with its key. *)
Definition co_citations (citation_to_docs : Dict.dict (list string))
  : list (string * (string * string)) :=
  flat_map (fun e => if 1 <? List.length (snd e)
                     then map (pair (fst e)) (pairs (snd e)) else [])
           citation_to_docs.

Definition add_shared (G : Nx.DiGraph) (t : string * (string * string)) : Nx.DiGraph :=
  Nx.add_edge G (fst (snd t)) (snd (snd t)) [("shared", fst t)].

(** The citation keys in the order in which the third loop takes them:
    the keys of [citation_to_docs], as the first two loops build it. *)
Definition processing_order (documents : list document) : list string :=
  match add_documents documents (Nx.empty, []) with
  | Some (_, doc_citations) => Dict.keys (index_documents doc_citations)
  | None => []
  end.

(** An edge that is tagged with a shared citation. *)
Definition is_co_citation (ea : Nx.edge * Nx.attrs) : bool :=
  match Dict.get (snd ea) "shared" with Some _ => true | None => false end.

Definition all_compile (pats : list string) : bool :=
  forallb RiskSpec.compiles pats.

End CitationSpec.

(* ================================================================== *)
(** * legal_analyzer_tools.py *)

Module LegalAnalysisTools.
Import Str.

Record party : Type := Party {
  party_name : string;
  party_type : option string;
  jurisdiction : option string;
  address : option string
}.

Record financial_term : Type := FinancialTerm { amount : string; fin_context : string }.

(** The dictionary [details]; the key "effective_date" may be absent. *)
Record details : Type := Details {
  effective_date : option string;
  parties : list party;
  financial_terms : list financial_term
}.

Definition date_patterns : list string := [
  "effective as of\s+([A-Za-z]+\s+\d{1,2},\s+\d{4})";
  "dated\s+([A-Za-z]+\s+\d{1,2},\s+\d{4})";
  "dated\s+this\s+(\d{1,2}(?:st|nd|rd|th)?\s+day\s+of\s+[A-Za-z]+,\s+\d{4})"
].

(** [for pattern in date_patterns: ... break]: the first pattern that
    matches gives the date. *)
Fixpoint find_date (text : string) (pats : list string) : option (option string) :=
  match pats with
  | [] => Some None
  | pattern :: rest =>
      match Re.search pattern text Re.IGNORECASE with
      | Some (Some mt) => Some (Re.group text mt 1)
      | Some None => find_date text rest
      | None => None
      end
  end.

Definition parties_pattern : string :=
  "between\s+([^,]+),\s+a[n]?\s+([^,]+),?(?:\s+organized\s+under\s+the\s+laws\s+of\s+([^,]+))?[^,]*,\s+(?:with\s+)?(?:its\s+)?(?:principal\s+)?(?:place\s+of\s+business\s+at\s+)?([^,]+)".

(** [match.group(i).strip() if match.group(i) else None]. *)
Definition stripped_group (text : string) (mt : Re.rmatch) (i : nat) : option string :=
  match Re.group text mt i with
  | Some EmptyString => None
  | Some g => Some (strip g)
  | None => None
  end.

(** The body of the [try]; a group 1 that took no part makes
    [.strip()] raise, and the [except] skips the match. *)
Definition add_party (text : string) (ps : list party) (mt : Re.rmatch) : list party :=
  match Re.group text mt 1 with
  | Some g1 =>
      (ps ++ [Party (strip g1) (stripped_group text mt 2) (stripped_group text mt 3)
                    (stripped_group text mt 4)])%list
  | None => ps
  end.

Definition money_pattern : string := "\$\s?(\d{1,3}(?:,\d{3})*(?:\.\d{2})?)".

Definition add_financial_term (text : string) (fs : list financial_term) (mt : Re.rmatch)
  : list financial_term :=
  let start := Nat.max 0 (Re.m_start mt - 50) in
  let end_ := Nat.min (String.length text) (Re.m_end mt + 50) in
  (fs ++ [FinancialTerm (Re.group0 text mt) (slice text start end_)])%list.

Definition extract_contract_details (text : string) : option details :=
  match find_date text date_patterns with
  | Some date =>
      match Re.finditer parties_pattern text Re.IGNORECASE with
      | Some parties_matches =>
          let parties := fold_left (add_party text) parties_matches [] in
          match Re.finditer money_pattern text Re.no_flags with
          | Some money_matches =>
              Some (Details date parties
                      (fold_left (add_financial_term text) money_matches []))
          | None => None
          end
      | None => None
      end
  | None => None
  end.

(** [sub in s]. *)
Fixpoint contains (sub s : string) : bool :=
  prefix sub s ||
  match s with
  | String _ t => contains sub t
  | EmptyString => false
  end.

Definition _determine_document_type (text : string) : string :=
  let text_lower := lower text in
  if contains "consulting agreement" text_lower || contains "consulting services" text_lower
  then "consulting_agreement"
  else if contains "employment agreement" text_lower then "employment_agreement"
  else if contains "software license" text_lower then "license_agreement"
  else if contains "non-disclosure" text_lower || contains "confidentiality agreement" text_lower
  then "nda"
  else if contains "purchase agreement" text_lower || contains "asset purchase" text_lower
  then "purchase_agreement"
  else if contains "lease" text_lower
          && (contains "property" text_lower || contains "premises" text_lower)
  then "lease_agreement"
  else "contract".

Record summary : Type := Summary {
  document_type : string;
  key_sections : list (string * string);       (* number, title *)
  sum_parties : list party;
  dates : list (string * string);              (* type, value *)
  sum_financial_terms : list financial_term;
  governing_law : option string
}.

Definition section_pattern : string := "(?:SECTION|ARTICLE)\s+(\d+(?:\.\d+)?)\.\s+([^\n]+)".

Definition gov_law_pattern : string :=
  "(?:governed by|governing law|subject to).{1,50}(?:laws of|law of)\s+([A-Za-z ]+)".

Definition add_key_section (text : string) (ks : list (string * string)) (mt : Re.rmatch)
  : list (string * string) :=
  (ks ++ [(Re.group_or_empty text mt 1, strip (Re.group_or_empty text mt 2))])%list.

Definition generate_legal_summary (text : string) : option summary :=
  match extract_contract_details text with
  | Some contract_details =>
      let dates :=
        match effective_date contract_details with
        | Some v => [("effective_date", v)]
        | None => []
        end in
      match Re.finditer section_pattern text Re.IGNORECASE with
      | Some section_matches =>
          let key_sections := fold_left (add_key_section text) section_matches [] in
          match Re.search gov_law_pattern text Re.IGNORECASE with
          | Some gov_law_match =>
              Some (Summary (_determine_document_type text) key_sections
                      (parties contract_details) dates
                      (financial_terms contract_details)
                      (match gov_law_match with
                       | Some mt => Some (strip (Re.group_or_empty text mt 1))
                       | None => None
                       end))
          | None => None
          end
      | None => None
      end
  | None => None
  end.

End LegalAnalysisTools.

(* ================================================================== *)
(** * [difflib.SequenceMatcher(None, a, b)] on two strings *)

Module Difflib.

Definition seq_t : Type := list ascii.

(** [b2j]: for each character of [b] the increasing list of its
    positions. *)
Definition b2j_t : Type := list (ascii * list nat).

Fixpoint b2j_get (d : b2j_t) (c : ascii) : list nat :=
  match d with
  | [] => []
  | (x, js) :: t => if Ascii.eqb c x then js else b2j_get t c
  end.

(** [b2j.setdefault(elt, []).append(i)]. *)
Fixpoint b2j_add (d : b2j_t) (c : ascii) (i : nat) : b2j_t :=
  match d with
  | [] => [(c, [i])]
  | (x, js) :: t =>
      if Ascii.eqb c x then (x, (js ++ [i])%list) :: t else (x, js) :: b2j_add t c i
  end.

Fixpoint index_b (b : seq_t) (i : nat) (d : b2j_t) : b2j_t :=
  match b with
  | [] => d
  | elt :: rest => index_b rest (S i) (b2j_add d elt i)
  end.

(** [__chain_b] with [isjunk = None] and [autojunk = True]: no junk; in
    a [b] of 200 elements or more, an element that occurs more than
    [n // 100 + 1] times is popular and leaves [b2j]. *)
Definition chain_b (b : seq_t) : b2j_t :=
  let d := index_b b 0 [] in
  let n := List.length b in
  if 200 <=? n then
    let ntest := n / 100 + 1 in
    filter (fun e => negb (ntest <? List.length (snd e))) d
  else d.

Definition j2len_t : Type := list (nat * nat).

Fixpoint j2len_get (d : j2len_t) (j : nat) : nat :=
  match d with
  | [] => 0
  | (j', k) :: t => if j =? j' then k else j2len_get t j
  end.

(** [j2len.get(j - 1, 0)]; there is no key [-1]. *)
Definition j2len_before (d : j2len_t) (j : nat) : nat :=
  match j with
  | O => 0
  | S j' => j2len_get d j'
  end.

(** A block [(i, j, size)]: [a[i:i+size] == b[j:j+size]]. *)
Definition block : Type := (nat * nat * nat)%type.

Definition size (x : block) : nat := snd x.

(** [for j in b2j.get(a[i], nothing)], with its [continue] and [break]. *)
Fixpoint scan_js (i blo bhi : nat) (j2len : j2len_t) (js : list nat)
  (newj2len : j2len_t) (best : block) : j2len_t * block :=
  match js with
  | [] => (newj2len, best)
  | j :: rest =>
      if j <? blo then scan_js i blo bhi j2len rest newj2len best
      else if bhi <=? j then (newj2len, best)
      else
        let k := j2len_before j2len j + 1 in
        let newj2len := (j, k) :: newj2len in
        let best := if size best <? k then (i + 1 - k, j + 1 - k, k) else best in
        scan_js i blo bhi j2len rest newj2len best
  end.

(** [for i in range(alo, ahi)]; [rest_a] is [a[i:ahi]]. *)
Fixpoint scan_is (b2j : b2j_t) (blo bhi : nat) (rest_a : seq_t) (i : nat)
  (j2len : j2len_t) (best : block) : block :=
  match rest_a with
  | [] => best
  | ai :: rest =>
      let '(newj2len, best) := scan_js i blo bhi j2len (b2j_get b2j ai) [] best in
      scan_is b2j blo bhi rest (S i) newj2len best
  end.

Definition elt (s : seq_t) (i : nat) : option ascii := nth_error s i.

Definition same (x y : option ascii) : bool :=
  match x, y with
  | Some c, Some d => Ascii.eqb c d
  | _, _ => false
  end.

(** The first [while]: the block grows to the left over equal elements. *)
Fixpoint extend_left (fuel : nat) (a b : seq_t) (alo blo : nat) (best : block) : block :=
  match fuel with
  | O => best
  | S fuel' =>
      let '(besti, bestj, bestsize) := best in
      if (alo <? besti) && (blo <? bestj)
         && same (elt a (besti - 1)) (elt b (bestj - 1))
      then extend_left fuel' a b alo blo (besti - 1, bestj - 1, bestsize + 1)
      else best
  end.

(** The second [while]: and to the right. *)
Fixpoint extend_right (fuel : nat) (a b : seq_t) (ahi bhi : nat) (best : block) : block :=
  match fuel with
  | O => best
  | S fuel' =>
      let '(besti, bestj, bestsize) := best in
      if (besti + bestsize <? ahi) && (bestj + bestsize <? bhi)
         && same (elt a (besti + bestsize)) (elt b (bestj + bestsize))
      then extend_right fuel' a b ahi bhi (besti, bestj, bestsize + 1)
      else best
  end.

(** [find_longest_match(alo, ahi, blo, bhi)].  With no junk the two
    loops that extend a block over junk do nothing and are left out.
    The loops over [while] run at most [besti - alo] and
    [ahi - besti - bestsize] times. *)
Definition find_longest_match (a b : seq_t) (b2j : b2j_t) (alo ahi blo bhi : nat)
  : block :=
  let best := scan_is b2j blo bhi (firstn (ahi - alo) (skipn alo a)) alo []
                      (alo, blo, 0) in
  let best := extend_left (fst (fst best) - alo) a b alo blo best in
  extend_right (ahi - (fst (fst best) + size best)) a b ahi bhi best.

(** The blocks [get_matching_blocks] collects, in sorted order: the
    longest block of the range, the blocks to its left before it, those
    to its right after it.  A range of [n] elements of [a] needs no more
    than [n] nested calls. *)
Fixpoint blocks_in (fuel : nat) (a b : seq_t) (b2j : b2j_t) (alo ahi blo bhi : nat)
  : list block :=
  match fuel with
  | O => []
  | S fuel' =>
      let '(i, j, k) := find_longest_match a b b2j alo ahi blo bhi in
      if k =? 0 then []
      else
        ((if (alo <? i) && (blo <? j)
          then blocks_in fuel' a b b2j alo i blo j else [])
         ++ (i, j, k)
         :: (if (i + k <? ahi) && (j + k <? bhi)
             then blocks_in fuel' a b b2j (i + k) ahi (j + k) bhi else []))%list
  end.

(** The pass that merges adjacent blocks. *)
Fixpoint collapse (l : list block) (cur : block) : list block :=
  match l with
  | [] => if size cur =? 0 then [] else [cur]
  | (i2, j2, k2) :: rest =>
      let '(i1, j1, k1) := cur in
      if (i1 + k1 =? i2) && (j1 + k1 =? j2)
      then collapse rest (i1, j1, k1 + k2)
      else ((if k1 =? 0 then [] else [cur]) ++ collapse rest (i2, j2, k2))%list
  end.

Definition get_matching_blocks (a b : seq_t) : list block :=
  let la := List.length a in
  let lb := List.length b in
  let found := blocks_in (S la) a b (chain_b b) 0 la 0 lb in
  (collapse found (0, 0, 0) ++ [(la, lb, 0)])%list.

(** [ratio()]: [2.0 * matches / length], or [1.0] for two empty
    sequences. *)
Definition ratio (a b : seq_t) : Q :=
  let matches := list_sum (map size (get_matching_blocks a b)) in
  let length := List.length a + List.length b in
  match length with
  | O => 1
  | S _ => 2 * inject_Z (Z.of_nat matches) / inject_Z (Z.of_nat length)
  end.

End Difflib.

(* ================================================================== *)
(** * legal_document_comparison.py *)

Module LegalDocumentComparison.
Import Str.

Definition common_sections : list string := [
  "confidentiality"; "intellectual property"; "termination";
  "indemnification"; "liability"; "payment"; "term"; "governing law";
  "dispute resolution"; "warranties"; "force majeure"
].

(** The three patterns of [extract_section], in order. *)
Definition section_patterns (section_name : string) : list string := [
  "(?:SECTION|ARTICLE)\s+\d+(?:\.\d+)*\s*\.\s*" ++ section_name
    ++ "\s*\n(.*?)(?:(?:SECTION|ARTICLE)\s+\d+(?:\.\d+)*\s*\.|$)";
  "\d+(?:\.\d+)*\s*\.\s*" ++ section_name ++ "\s*\n(.*?)(?:\d+(?:\.\d+)*\s*\.|$)";
  "(?i)(?<!\w)" ++ Re.escape section_name
    ++ "(?!\w).*?\n(.*?)(?=\n\s*\n|\n\s*[A-Z]|\Z)"
].

Fixpoint first_section (document : string) (pats : list string)
  : option (option string) :=
  match pats with
  | [] => Some None
  | pattern :: rest =>
      match Re.search pattern document Re.IGNORECASE_DOTALL with
      | Some (Some mt) => Some (Some (strip (Re.group_or_empty document mt 1)))
      | Some None => first_section document rest
      | None => None
      end
  end.

Definition extract_section (document section_name : string) : option (option string) :=
  first_section document (section_patterns section_name).

Definition header_pattern : string :=
  "(?:SECTION|ARTICLE)\s+(\d+(?:\.\d+)*)\s*\.\s*([A-Z][A-Z\s]+)".

Definition next_header_pattern : string := "(?:SECTION|ARTICLE)\s+\d+(?:\.\d+)*\s*\.".

(** [document[start_pos:]]. *)
Definition from (s : string) (i : nat) : string :=
  substring i (String.length s - i) s.

(** "Also try to extract by common alternative names". *)
Definition alias_sections (section_title section_content : string)
  (sections : Dict.dict string) : Dict.dict string :=
  fold_left (fun secs common_section =>
               if LegalAnalysisTools.contains common_section section_title
               then Dict.set secs common_section section_content else secs)
            common_sections sections.

(** One round of [for match in matches]. *)
Definition add_header_section (document : string) (sections : Dict.dict string)
  (mt : Re.rmatch) : option (Dict.dict string) :=
  let section_title := lower (strip (Re.group_or_empty document mt 2)) in
  let start_pos := Re.m_end mt in
  match Re.search next_header_pattern (from document start_pos) Re.no_flags with
  | Some next_section =>
      let section_content :=
        match next_section with
        | Some nx => strip (slice document start_pos (start_pos + Re.m_start nx))
        | None => strip (from document start_pos)
        end in
      Some (alias_sections section_title section_content
              (Dict.set sections section_title section_content))
  | None => None
  end.

Fixpoint add_header_sections (document : string) (ms : list Re.rmatch)
  (sections : Dict.dict string) : option (Dict.dict string) :=
  match ms with
  | [] => Some sections
  | mt :: rest =>
      match add_header_section document sections mt with
      | Some sections' => add_header_sections document rest sections'
      | None => None
      end
  end.

(** "Also try to extract common sections by name if not found by heading". *)
Fixpoint add_named_sections (document : string) (names : list string)
  (sections : Dict.dict string) : option (Dict.dict string) :=
  match names with
  | [] => Some sections
  | section_name :: rest =>
      match Dict.get sections section_name with
      | Some _ => add_named_sections document rest sections
      | None =>
          match extract_section document section_name with
          | Some (Some (String c t)) =>
              add_named_sections document rest
                (Dict.set sections section_name (String c t))
          | Some _ => add_named_sections document rest sections
          | None => None
          end
      end
  end.

Definition _extract_all_sections (document : string) : option (Dict.dict string) :=
  match Re.finditer header_pattern document Re.no_flags with
  | Some matches =>
      match add_header_sections document matches [] with
      | Some sections => add_named_sections document common_sections sections
      | None => None
      end
  | None => None
  end.

(** [difflib.SequenceMatcher(None, text1, text2).ratio() * 100]. *)
Definition _calculate_similarity (text1 text2 : string) : Q :=
  Difflib.ratio (list_ascii_of_string text1) (list_ascii_of_string text2) * 100.

End LegalDocumentComparison.

(* ================================================================== *)
(** * document_comparison.py *)

Module DocumentComparison.
Import Str.

(** [set(re.findall(r'\b\w+\b', text.lower()))], as a list without
    repetition. *)
Definition word_set (text : string) : option (list string) :=
  match Re.findall "\b\w+\b" (lower text) with
  | Some found => Some (nodup string_dec (map CitationAnalyzer.match_string found))
  | None => None
  end.

(** [words1.intersection(words2)] and [words1.union(words2)]. *)
Definition intersection (words1 words2 : list string) : list string :=
  filter (fun w => mem w words2) words1.

Definition union (words1 words2 : list string) : list string :=
  (words1 ++ filter (fun w => negb (mem w words1)) words2)%list.

(** The result is given by its exact value. *)
Definition _calculate_text_similarity (text1 text2 : string) : option Q :=
  match word_set text1, word_set text2 with
  | Some words1, Some words2 =>
      let intersection := List.length (intersection words1 words2) in
      let union := List.length (union words1 words2) in
      Some (if 0 <? union
            then Float.value
                   (Float.round
                      (Float.true_div (Z.of_nat intersection) (Z.of_nat union)) 4)
            else 0%Q)
  | _, _ => None
  end.

End DocumentComparison.

(* ================================================================== *)
(** * Inputs of the scenarios *)

Module Scenario.
Import CitationAnalyzer.

(** The text of the contract-details scenario. *)
Definition agreement : string :=
  "This Agreement, dated January 1, 2023, is governed by the laws of Delaware.".

(** A text that cites one case twice and another case once. *)
Definition twice_cited : string :=
  "In (2020) 5 SCC 123 and AIR 1950 SC 27 the Court held; see (2020) 5 SCC 123 again.".

(** Two documents that share two citation keys. *)
Definition two_sharing : list document := [
  Document "1" twice_cited [("filename", "a.txt")];
  Document "2" "Relying on AIR 1950 SC 27 and (2020) 5 SCC 123." [("filename", "b.txt")]
].

(** Two documents with distinct names and no shared citation key, the
    first of which is named like the key the second cites. *)
Definition named_like_key : list document := [
  Document "case_citations:(2020) 5 SCC 123" "" [];
  Document "2" "See (2020) 5 SCC 123." [("filename", "b.txt")]
].

(** Two documents with distinct names that share no citation key. *)
Definition two_apart : list document := [
  Document "1" "See (2020) 5 SCC 123 and Article 21." [("filename", "a.txt")];
  Document "2" "Relying on AIR 1950 SC 27." [("filename", "b.txt")]
].

End Scenario.

(* ================================================================== *)
(** * Vocabulary of the statements about the word-set similarity *)

Module SimilaritySpec.
Import Str.

(** Does the text contain a word character? *)
Fixpoint has_word_char (s : string) : bool :=
  match s with
  | EmptyString => false
  | String c t => is_word c || has_word_char t
  end.


(** The pattern [\b\w+\b], compiled. *)
Definition word_re : Re.re :=
  Re.Seq Re.WordB
    (Re.Seq (Re.Rep (Re.Class Re.CWord) 1 None true) (Re.Seq Re.WordB Re.Empty)).


End SimilaritySpec.

(* ================================================================== *)
(** * What the nodes of a citation graph carry *)

Module GraphSpec.
Import CitationAnalyzer CitationSpec.

(** The graph the three loops build, for documents with pairwise
    distinct names. *)
Definition network (documents : list document) : Nx.DiGraph :=
  fold_left add_shared (co_citations (index_documents (map doc_entry documents)))
            (fold_left add_document documents Nx.empty).

(** The node [n] is there with the type [document]. *)
Definition typed_document (G : Nx.DiGraph) (n : string) : Prop :=
  exists a, Dict.get (Nx.nodes G) n = Some a /\ Dict.get a "type" = Some "document".

(** The node [k], if it is there, has one attribute: the type of the
    citation key [k] of some document. *)
Definition typed_citation (documents : list document) (G : Nx.DiGraph) (k : string) : Prop :=
  forall a, Dict.get (Nx.nodes G) k = Some a ->
            exists t d, In d documents /\ In (t, k) (doc_typed_keys d) /\ a = [("type", t)].

End GraphSpec.

(* ================================================================== *)
(** * Vocabulary of the statements about missing provisions *)

Module ProvisionSpec.
Import Str ContractRiskAnalyzer RiskSpec.

(** A word that begins and ends with a word character and whose
    pattern [\b + re.escape(w) + \b] compiles to the characters of [w]
    between two word boundaries. *)
Definition plain_word (w : string) : Prop :=
  Re.compile ("\b" ++ Re.escape w ++ "\b")
  = Some (Re.Pattern Re.no_flags 0
            (Re.Seq Re.WordB (lits w (Re.Seq Re.WordB Re.Empty))))
  /\ exists c0 t c1,
       w = String c0 t /\ is_word c0 = true
       /\ last_char None w = Some c1 /\ is_word c1 = true.

(** The provision, or one of its synonyms, stands in the text as a
    whole word. *)
Definition mentioned (provision text_lower : string) : Prop :=
  whole_word provision text_lower
  \/ exists s, In s (_get_provision_synonyms provision) /\ whole_word s text_lower.

End ProvisionSpec.

(* ================================================================== *)
(** * Vocabulary of the statements about the match lists *)

Module MatchSpec.
Import Str ContractRiskAnalyzer RiskSpec.

(** The entry the loop body records for a match: the matched term and
    up to 50 characters of the text on each side of it. *)
Definition entry_of (text : string) (mt : Re.rmatch) : term_match :=
  TermMatch (Re.group0 text mt)
            (slice text (Nat.max 0 (Re.m_start mt - 50))
                   (Nat.min (String.length text) (Re.m_end mt + 50))).

(** The matches of a risk pattern in a text, left to right. *)
Definition matches_of (text pattern : string) : list Re.rmatch :=
  match Re.finditer (regex_of pattern) text Re.IGNORECASE with
  | Some ms => ms
  | None => []
  end.

(** The entries of a list of patterns: pattern by pattern, and for
    each pattern left to right. *)
Definition found_in (text : string) (patterns : list string) : list term_match :=
  flat_map (fun p => map (entry_of text) (matches_of text p)) patterns.

Definition category_matches (text category : string) : list term_match :=
  match Dict.get (risk_patterns init) category with
  | Some patterns => found_in text patterns
  | None => []
  end.

(** The context of an entry is a piece of the text: the term, with 50
    characters at most before it and after it. *)
Definition in_context (text : string) (tm : term_match) : Prop :=
  exists before after,
    context tm = before ++ term tm ++ after
    /\ String.length before <= 50 /\ String.length after <= 50
    /\ exists x y, text = x ++ context tm ++ y.

End MatchSpec.

(* ================================================================== *)
(** * citation_analyzer.py: the report and the plot's colours and labels *)

Module CitationReport.
Import Str CitationAnalyzer.

(** An element of [all_citations]: [(citation_type, citation)]. *)
Definition citation_key : Type := (string * string)%type.

Definition key_eqb (a b : citation_key) : bool :=
  String.eqb (fst a) (fst b) && String.eqb (snd a) (snd b).

(** [citation_frequency[citation] += 1] on a [defaultdict(int)]. *)
Fixpoint bump (freq : list (citation_key * nat)) (c : citation_key)
  : list (citation_key * nat) :=
  match freq with
  | [] => [(c, 1)]
  | (k, n) :: t => if key_eqb c k then (k, n + 1) :: t else (k, n) :: bump t c
  end.

(** [sorted(items, key=lambda x: x[1], reverse=True)]: larger counts
    first, items of equal count in their original order (the sort is
    stable, also with [reverse]). *)
Fixpoint insert_desc (x : citation_key * nat) (l : list (citation_key * nat))
  : list (citation_key * nat) :=
  match l with
  | [] => [x]
  | y :: t => if snd y <=? snd x then x :: y :: t else y :: insert_desc x t
  end.

Definition sorted_desc (l : list (citation_key * nat)) : list (citation_key * nat) :=
  fold_right insert_desc [] l.

Record report : Type := Report {
  citation_counts : Dict.dict nat;
  total_citations : nat;
  top_citations : list (citation_key * nat);
  all_citations : Dict.dict (list string)
}.

(** The list [all_citations] of the function body. *)
Definition citation_pairs (citations : Dict.dict (list string)) : list citation_key :=
  flat_map (fun e => map (pair (fst e)) (snd e)) citations.

Definition generate_citation_report (text : string) : option report :=
  match extract_citations text with
  | Some citations =>
      let citation_counts := map (fun e => (fst e, List.length (snd e))) citations in
      let total_citations := list_sum (Dict.values citation_counts) in
      let all_citations := citation_pairs citations in
      let citation_frequency := fold_left bump all_citations [] in
      let top_citations := firstn 5 (sorted_desc citation_frequency) in
      Some (Report citation_counts total_citations top_citations citations)
  | None => None
  end.

(** ** [plot_citation_network]: the colour and the label of a node *)

Definition node_color (node_type : string) : string :=
  if String.eqb node_type "document" then "skyblue"
  else if String.eqb node_type "case_citations" then "tomato"
  else if String.eqb node_type "statute_citations" then "lightgreen"
  else if String.eqb node_type "constitution_citations" then "gold"
  else if String.eqb node_type "section_citations" then "orchid"
  else "gray".

(** [graph.nodes[node].get('type', '')]. *)
Definition node_type (G : Nx.DiGraph) (node : string) : string :=
  match Dict.get (Nx.nodes G) node with
  | Some a => match Dict.get a "type" with Some t => t | None => "" end
  | None => ""
  end.

(** The list [colors], one entry for each node. *)
Definition colors (G : Nx.DiGraph) : list string :=
  map (fun node => node_color (node_type G node)) (Dict.keys (Nx.nodes G)).

Definition label (node : string) : string :=
  if 30 <? String.length node then slice node 0 27 ++ "..." else node.

(** The dictionary [labels]. *)
Definition labels (G : Nx.DiGraph) : Dict.dict string :=
  fold_left (fun d node => Dict.set d node (label node)) (Dict.keys (Nx.nodes G)) [].

End CitationReport.

(* ================================================================== *)
(** * contract_risk_analyzer.py: the suggestions *)

Module Suggestions.
Import Str ContractRiskAnalyzer.

Record suggestions : Type := Suggestions {
  general_advice : list string;
  specific_suggestions : list string
}.

Definition low_risk_advice : string :=
  "This contract appears to have a relatively low risk profile, but consider reviewing the specific issues identified.".

Definition moderate_risk_advice : string :=
  "This contract has a moderate risk profile. Address the identified issues, especially any missing provisions and ambiguous terms.".

Definition high_risk_advice : string :=
  "This contract has a high risk profile. Consider comprehensive revision to address the numerous issues identified.".

Definition ambiguity_advice : string :=
  "Replace ambiguous terms with specific, measurable obligations and deadlines.".

Definition one_sided_advice : string :=
  "Review and negotiate one-sided terms to ensure more balanced risk allocation.".

Definition liability_advice : string :=
  "Address liability concerns, especially any provisions for unlimited liability or overly broad indemnification.".

Definition replace_term (term : string) : string :=
  "Replace ambiguous term '" ++ term
  ++ "' with more specific language defining exact obligations or timelines.".

Definition add_provision (provision : string) : string :=
  "Add a " ++ provision
  ++ " provision to address this important area not currently covered in the contract.".

(** [analysis["risk_score"] < n]. *)
Definition score_below (a : analysis) (n : Z) : bool :=
  match (risk_score a ?= inject_Z n)%Q with Lt => true | _ => false end.

Definition nonempty {A : Type} (l : list A) : bool :=
  match l with [] => false | _ :: _ => true end.

Definition suggest_improvements (a : analysis) : suggestions :=
  let general_advice :=
    if score_below a 30 then [low_risk_advice]
    else if score_below a 60 then [moderate_risk_advice]
    else [high_risk_advice] in
  let '(general_advice, specific_suggestions) :=
    if nonempty (ambiguous_clauses a)
    then ((general_advice ++ [ambiguity_advice])%list,
          map (fun item => replace_term (term item)) (firstn 3 (ambiguous_clauses a)))
    else (general_advice, []) in
  let general_advice :=
    if nonempty (one_sided_terms a)
    then (general_advice ++ [one_sided_advice])%list else general_advice in
  let general_advice :=
    if nonempty (liability_issues a)
    then (general_advice ++ [liability_advice])%list else general_advice in
  let specific_suggestions :=
    (specific_suggestions ++ map add_provision (missing_provisions a))%list in
  Suggestions general_advice specific_suggestions.

End Suggestions.

(* ================================================================== *)
(** * legal_analyzer_tools.py: the type of a clause *)

Module ClauseType.
Import Str LegalAnalysisTools.

Definition clause_keywords : Dict.dict (list string) := [
  ("confidentiality",
   ["confidential"; "disclose"; "non-disclosure"; "proprietary"; "secret"]);
  ("intellectual_property",
   ["intellectual property"; "copyright"; "patent"; "trademark"; "ownership"; "license"]);
  ("termination",
   ["terminate"; "termination"; "cancellation"; "expiration"; "discontinue"]);
  ("payment", ["payment"; "fee"; "compensation"; "invoice"; "expense"]);
  ("liability",
   ["liability"; "limitation"; "indemnification"; "indemnify"; "warranty"]);
  ("governing_law",
   ["governing law"; "jurisdiction"; "arbitration"; "dispute"; "venue"])
].

(** [sum(1 for keyword in keywords if keyword.lower() in text_lower)]. *)
Definition count_keywords (text_lower : string) (keywords : list string) : nat :=
  list_sum (map (fun keyword => 1)
                (filter (fun keyword => contains (lower keyword) text_lower) keywords)).

(** The loop that fills [matches]. *)
Definition count_matches (text_lower : string) (table : Dict.dict (list string))
  : Dict.dict nat :=
  fold_left (fun matches e => Dict.set matches (fst e) (count_keywords text_lower (snd e)))
            table [].

(** [max(values)]. *)
Definition max_value (values : list nat) : nat := fold_right Nat.max 0 values.

(** [max(items, key=lambda x: x[1])]: the first item with the largest
    count. *)
Fixpoint max_item (best : string * nat) (items : list (string * nat)) : string * nat :=
  match items with
  | [] => best
  | x :: rest => max_item (if snd best <? snd x then x else best) rest
  end.

Record clause : Type := Clause { clause_type : string; confidence : nat }.

Definition classify (matches : Dict.dict nat) : clause :=
  match matches with
  | [] => Clause "unknown" 0
  | first :: rest =>
      if max_value (Dict.values matches) =? 0 then Clause "unknown" 0
      else
        let best_match := max_item first rest in
        Clause (fst best_match) (Nat.min 100 (snd best_match * 20))
  end.

Definition identify_clause_type (text : string) : clause :=
  let text_lower := lower text in
  classify (count_matches text_lower clause_keywords).

End ClauseType.

(* ================================================================== *)
(** * legal_document_comparison.py: the key differences of a diff *)

Module KeyDifferences.
Import Str.

Record key_diffs : Type := KeyDiffs { added : list string; removed : list string }.

(** The state of the loop: the result so far and the two runs. *)
Record loop_state : Type := LoopState {
  result : key_diffs;
  current_addition : list string;
  current_removal : list string
}.

(** [item[2:]]. *)
Definition payload (item : string) : string := slice item 2 (String.length item).

(** [if current and len(current) > 2: diffs.append(' '.join(current))]. *)
Definition flush (diffs current : list string) : list string :=
  match current with
  | [] => diffs
  | _ :: _ => if 2 <? List.length current then (diffs ++ [join " " current])%list
              else diffs
  end.

Definition step (st : loop_state) (item : string) : loop_state :=
  let '(LoopState (KeyDiffs added removed) current_addition current_removal) := st in
  if prefix "+ " item then
    let current_addition := (current_addition ++ [payload item])%list in
    match current_removal with
    | [] => LoopState (KeyDiffs added removed) current_addition current_removal
    | _ :: _ =>
        LoopState (KeyDiffs added (flush removed current_removal)) current_addition []
    end
  else if prefix "- " item then
    let current_removal := (current_removal ++ [payload item])%list in
    match current_addition with
    | [] => LoopState (KeyDiffs added removed) current_addition current_removal
    | _ :: _ =>
        LoopState (KeyDiffs (flush added current_addition) removed) [] current_removal
    end
  else
    LoopState (KeyDiffs (flush added current_addition) (flush removed current_removal))
              [] [].

Definition _extract_key_differences (diff : list string) : key_diffs :=
  let st := fold_left step diff (LoopState (KeyDiffs [] []) [] []) in
  KeyDiffs (flush (added (result st)) (current_addition st))
           (flush (removed (result st)) (current_removal st)).

(** ** The runs of a diff *)

Inductive kind : Type := Addition | Removal.

Definition of_kind (k : kind) (item : string) : bool :=
  match k with
  | Addition => prefix "+ " item
  | Removal => negb (prefix "+ " item) && prefix "- " item
  end.

(** The maximal runs of consecutive items of one kind, without their
    two-character marks and in the order of the diff; [current] is the
    run that is open at the start. *)
Fixpoint runs (k : kind) (current : list string) (diff : list string)
  : list (list string) :=
  match diff with
  | [] => [current]
  | item :: rest =>
      if of_kind k item then runs k (current ++ [payload item])%list rest
      else current :: runs k [] rest
  end.

(** A run of more than two items. *)
Definition significant (run : list string) : bool := 2 <? List.length run.

End KeyDifferences.

(* ================================================================== *)
(** * document_manager.py *)

Module DocumentManager.
Import Str.

Record metadata : Type := Metadata {
  file_path : string;
  filename : string;
  doc_type : string;
  char_count : nat;
  added_at : string
}.

Record self_t : Type := Self {
  documents : Dict.dict string;
  document_metadata : Dict.dict metadata;
  current_document_id : option string
}.

Definition init : self_t := Self [] [] None.

(** [os.path.basename] of [posixpath]: what follows the last slash. *)
Fixpoint basename_from (tail : string) (p : string) : string :=
  match p with
  | EmptyString => tail
  | String c t =>
      if Ascii.eqb c "/" then basename_from t t else basename_from tail t
  end.

Definition basename (p : string) : string := basename_from p p.

(** [del d[k]]; [None] stands for [KeyError]. *)
Fixpoint del {V : Type} (d : Dict.dict V) (k : string) : option (Dict.dict V) :=
  match d with
  | [] => None
  | (k', v) :: t =>
      if String.eqb k k' then Some t
      else match del t k with
           | Some t' => Some ((k', v) :: t')
           | None => None
           end
  end.

(** [add_document]; [uuid4] and [uuid1] stand for [str(uuid.uuid4())]
    and [str(uuid.uuid1())], which the environment draws. *)
Definition add_document (self : self_t) (document_text file_path doc_type : string)
  (uuid4 uuid1 : string) : self_t * string :=
  let doc_id := slice uuid4 0 8 in
  let documents := Dict.set (documents self) doc_id document_text in
  let filename := basename file_path in
  let document_metadata :=
    Dict.set (document_metadata self) doc_id
             (Metadata file_path filename doc_type (String.length document_text) uuid1) in
  (Self documents document_metadata (Some doc_id), doc_id).

(** [get_document]; the outer [None] stands for [KeyError]. *)
Definition get_document (self : self_t) (doc_id : option string)
  : option (option string * option metadata) :=
  let doc_id :=
    match doc_id with
    | None => current_document_id self
    | Some d => Some d
    end in
  match doc_id with
  | None => Some (None, None)
  | Some d =>
      match Dict.get (documents self) d with
      | None => Some (None, None)
      | Some text =>
          match Dict.get (document_metadata self) d with
          | Some meta => Some (Some text, Some meta)
          | None => None
          end
      end
  end.

(** [list_documents]; [None] stands for [KeyError]. *)
Fixpoint list_from (meta : Dict.dict metadata) (ids : list string)
  : option (list (string * metadata)) :=
  match ids with
  | [] => Some []
  | doc_id :: rest =>
      match Dict.get meta doc_id, list_from meta rest with
      | Some md, Some l => Some ((doc_id, md) :: l)
      | _, _ => None
      end
  end.

Definition list_documents (self : self_t) : option (list (string * metadata)) :=
  list_from (document_metadata self) (Dict.keys (documents self)).

(** [remove_document]; [None] stands for [KeyError]. *)
Definition remove_document (self : self_t) (doc_id : string) : option self_t :=
  match Dict.get (documents self) doc_id with
  | Some _ =>
      match del (documents self) doc_id, del (document_metadata self) doc_id with
      | Some documents, Some document_metadata =>
          let current :=
            match current_document_id self with
            | Some c =>
                if String.eqb c doc_id
                then match documents with
                     | (first, _) :: _ => Some first
                     | [] => None
                     end
                else Some c
            | None => None
            end in
          Some (Self documents document_metadata current)
      | _, _ => None
      end
  | None => Some self
  end.

(** The states of a manager that starts empty. *)
Inductive reachable : self_t -> Prop :=
| reach_init : reachable init
| reach_add (self : self_t) (document_text file_path doc_type uuid4 uuid1 : string) :
    reachable self ->
    reachable (fst (add_document self document_text file_path doc_type uuid4 uuid1))
| reach_remove (self self' : self_t) (doc_id : string) :
    reachable self -> remove_document self doc_id = Some self' -> reachable self'.

End DocumentManager.

(* ================================================================== *)
(** * enhanced_document_processor.py: the metadata of a text *)

Module EnhancedDocumentProcessor.
Import Str.

Record metadata : Type := Metadata {
  sections : list (string * string);           (* number, title *)
  entities : list string;
  dates : list string;
  statutes : list string;
  case_citations : list string
}.

Definition section_pattern : string :=
  "(?i)(?:section|article)\s+(\d+(?:\.\d+)*)\s*[\.:]?\s*([^\n]+)".

Definition simple_section_pattern : string := "^(\d+)\.?\s+([A-Z][^\n]+)".

Definition date_pattern : string :=
  "(?:\d{1,2}(?:st|nd|rd|th)?\s+(?:of\s+)?(?:January|February|March|April|May|June|July|August|September|October|November|December),?\s+\d{4})|(?:[A-Z][a-z]+\s+\d{1,2},\s+\d{4})".

Definition entity_pattern : string :=
  "([A-Z][a-z]+(?:\s+[A-Z][a-z]+)*(?:\s+(?:Inc\.|LLC|Ltd\.|Corporation|Company|Limited)))|([A-Z][a-z]*(?:\s+[A-Z][a-z]+)*\s+(?:Authority|Ministry|Board|Commission|Council|Court|Tribunal|Department))".

Definition statute_pattern : string :=
  "(?:The\s+)?([A-Z][a-z]+(?:\s+[A-Z][a-z]+)*\s+Act,?\s+(?:of\s+)?\d{4})".

Definition case_pattern : string :=
  "\(\d{4}\)\s+\d+\s+SCC\s+\d+|\d{4}\s+\(\d+\)\s+SCC\s+\d+".

(** The integer value of [re.MULTILINE]. *)
Definition MULTILINE : nat := 8.

(** The text from the position [n] on, with the character before it. *)
Fixpoint drop_to (p : option ascii) (t : string) (n : nat) : option ascii * string :=
  match n, t with
  | S n', String c t' => drop_to (Some c) t' n'
  | _, _ => (p, t)
  end.

(** [pattern.finditer(text)] and [pattern.finditer(text, pos)] of a
    compiled pattern: the second scans from [pos] on, at most the
    length of the text, and still sees the text before [pos]. *)
Definition finditer_compiled (c : Re.pattern) (text : string) : list Re.rmatch :=
  Re.scan (Re.p_flags c) (Re.p_re c) None text 0 0.

Definition finditer_pos (c : Re.pattern) (text : string) (pos : nat) : list Re.rmatch :=
  let pos := Nat.min pos (String.length text) in
  let '(p, t) := drop_to None text pos in
  Re.scan (Re.p_flags c) (Re.p_re c) p t pos 0.

(** The body of the two loops over sections; both groups take part in
    every match of the two patterns. *)
Definition add_section (text : string) (l : list (string * string)) (mt : Re.rmatch)
  : list (string * string) :=
  (l ++ [(Re.group_or_empty text mt 1, strip (Re.group_or_empty text mt 2))])%list.

(** [if x and x not in l: l.append(x)] for [x = match.group(0)]. *)
Definition add_unique (text : string) (l : list string) (mt : Re.rmatch) : list string :=
  match Re.group0 text mt with
  | EmptyString => l
  | x => if mem x l then l else (l ++ [x])%list
  end.

Definition extract_metadata (text : string) : option metadata :=
  match Re.compile section_pattern, Re.compile simple_section_pattern with
  | Some section_re, Some simple_section_re =>
      let sections := fold_left (add_section text) (finditer_compiled section_re text) [] in
      let sections :=
        fold_left (add_section text) (finditer_pos simple_section_re text MULTILINE)
                  sections in
      match Re.compile date_pattern, Re.compile entity_pattern with
      | Some date_re, Some entity_re =>
          let dates :=
            fold_left (fun l mt => l ++ [Re.group0 text mt])%list
                      (finditer_compiled date_re text) [] in
          let entities :=
            fold_left (add_unique text) (finditer_compiled entity_re text) [] in
          match Re.compile statute_pattern, Re.compile case_pattern with
          | Some statute_re, Some case_re =>
              let statute_references :=
                fold_left (add_unique text) (finditer_compiled statute_re text) [] in
              let case_citations :=
                fold_left (add_unique text) (finditer_compiled case_re text) [] in
              Some (Metadata sections entities dates statute_references case_citations)
          | _, _ => None
          end
      | _, _ => None
      end
  | _, _ => None
  end.

End EnhancedDocumentProcessor.

(* ================================================================== *)
(** * Vocabulary of the statements about matching blocks *)

Module BlockSpec.
Import Difflib.

Section Window.
Variables alo blo bhi : nat.

(** What [j2len] holds for the row before [i]: lengths of matches that
    end in that row and fit into the window. *)
Definition row_fits (i : nat) (d : j2len_t) : Prop :=
  forall j k, In (j, k) d -> 1 <= k /\ k + alo <= i /\ k + blo <= j + 1 /\ j < bhi.

(** A block that lies in the window, up to [hi] in the first sequence. *)
Definition block_fits (hi : nat) (x : block) : Prop :=
  alo <= fst (fst x) /\ fst (fst x) + size x <= hi
  /\ blo <= snd (fst x) /\ snd (fst x) + size x <= bhi.

End Window.

(** The increasing list of the positions of [c] in [b], counted from
    [i0]. *)
Fixpoint positions (c : ascii) (b : seq_t) (i0 : nat) : list nat :=
  match b with
  | [] => []
  | x :: t =>
      if Ascii.eqb c x then i0 :: positions c t (S i0) else positions c t (S i0)
  end.

(** An element that [b2j] knows: one that is not popular. *)
Definition indexed (b2j : b2j_t) (c : ascii) : bool :=
  match b2j_get b2j c with [] => false | _ :: _ => true end.

Definition indexed_at (b2j : b2j_t) (a : seq_t) (m : nat) : bool :=
  match nth_error a m with
  | Some c => indexed b2j c
  | None => false
  end.

(** The number of consecutive indexed elements of [a] that end just
    before the position [m]. *)
Fixpoint run_before (b2j : b2j_t) (a : seq_t) (m : nat) : nat :=
  match m with
  | O => 0
  | S m' => if indexed_at b2j a m' then run_before b2j a m' + 1 else 0
  end.

(** A block on the diagonal. *)
Definition diagonal (x : block) : Prop := fst (fst x) = snd (fst x).

End BlockSpec.

(* ================================================================== *)
(** * Theorems *)

(* ================================================================== *)
(** * Facts about strings, dictionaries and the matcher *)

Section StrFacts.
Import Str.

Lemma mem_In (x : string) (l : list string) : mem x l = true <-> In x l.
Proof.
  unfold mem. rewrite existsb_exists. split.
  - intros [y [Hy He]]. apply String.eqb_eq in He. now subst.
  - intros H. exists x. split; [assumption | apply String.eqb_refl].
Qed.

Lemma mem_false (x : string) (l : list string) : mem x l = false <-> ~ In x l.
Proof.
  rewrite <- mem_In. destruct (mem x l); split; intros; congruence.
Qed.

End StrFacts.

Section DictFacts.
Variable V : Type.

Lemma dict_set_fresh (d : Dict.dict V) (k : string) (v : V) :
  ~ In k (Dict.keys d) -> Dict.set d k v = (d ++ [(k, v)])%list.
Proof.
  induction d as [|[k' v'] d IH]; simpl; intros H.
  - reflexivity.
  - destruct (String.eqb_spec k k') as [->|Hne].
    + exfalso. apply H. now left.
    + f_equal. apply IH. intros Hin. apply H. now right.
Qed.

Lemma dict_keys_app (d e : Dict.dict V) :
  Dict.keys (d ++ e)%list = (Dict.keys d ++ Dict.keys e)%list.
Proof. unfold Dict.keys. apply map_app. Qed.

End DictFacts.

Section ReFacts.
Import Re.

Lemma finditer_compiles (p text : string) (fl : flags) :
  RiskSpec.compiles p = true -> exists ms, finditer p text fl = Some ms.
Proof.
  unfold RiskSpec.compiles, finditer. destruct (compile p); [eauto | discriminate].
Qed.

Lemma search_compiles (p text : string) (fl : flags) :
  RiskSpec.compiles p = true -> exists r, search p text fl = Some r.
Proof.
  unfold RiskSpec.compiles, search. destruct (compile p); [eauto | discriminate].
Qed.

(** A match at a split of the text is found by the search, unless the
    search meets an earlier one. *)
Lemma search_from_split (fl : flags) (r : re) (pre suf : string) :
  forall (p : option ascii) (i : nat),
    match_here fl r (State (RiskSpec.last_char p pre) suf (i + String.length pre) [])
      <> None ->
    search_from fl r p (pre ++ suf) i <> None.
Proof.
  induction pre as [|c pre IH]; intros p i H.
  - simpl in *. rewrite Nat.add_0_r in H.
    destruct suf; simpl;
      destruct (match_here fl r _); congruence.
  - simpl. destruct (match_here fl r (State p _ i [])); [discriminate|].
    apply IH. simpl in H. now rewrite <- plus_n_Sm in H.
Qed.

(** Without [IGNORECASE] the characters of a literal are consumed one
    by one. *)
Lemma m_lits (fl : flags) (w : string) (tail : re) (k : state -> option state) :
  ignorecase fl = false ->
  forall (p : option ascii) (suf : string) (i : nat) (cs : list (nat * (nat * nat))),
    m fl (RiskSpec.lits w tail) k (State p (w ++ suf) i cs)
    = m fl tail k (State (RiskSpec.last_char p w) suf (i + String.length w) cs).
Proof.
  intros Hic. induction w as [|c w IH]; intros p suf i cs; simpl.
  - now rewrite Nat.add_0_r.
  - unfold eat. simpl. unfold lit_mem. rewrite Hic, Ascii.eqb_refl.
    rewrite IH. now rewrite <- plus_n_Sm.
Qed.

End ReFacts.

Section ListFacts.
Variables A B C : Type.

Lemma fold_left_flat_map (f : C -> B -> C) (g : A -> list B) (l : list A) :
  forall c, fold_left f (flat_map g l) c
            = fold_left (fun c x => fold_left f (g x) c) l c.
Proof.
  induction l as [|x l IH]; intros c; simpl.
  - reflexivity.
  - now rewrite fold_left_app, IH.
Qed.

Lemma fold_left_map (f : C -> B -> C) (h : A -> B) (l : list A) :
  forall c, fold_left f (map h l) c = fold_left (fun c x => f c (h x)) l c.
Proof.
  induction l as [|x l IH]; intros c; simpl; [reflexivity | apply IH].
Qed.

Lemma fold_left_ext (f g : C -> B -> C) (l : list B) :
  (forall c x, f c x = g c x) -> forall c, fold_left f l c = fold_left g l c.
Proof.
  intros H. induction l as [|x l IH]; intros c; simpl; [reflexivity|].
  now rewrite H, IH.
Qed.

Lemma NoDup_map_eq (f : A -> B) (l : list A) (x y : A) :
  NoDup (map f l) -> In x l -> In y l -> f x = f y -> x = y.
Proof.
  induction l as [|a l IH]; simpl; intros Hnd Hx Hy E; [contradiction|].
  inversion Hnd as [|? ? Hn Hnd']; subst.
  destruct Hx as [->|Hx], Hy as [->|Hy]; auto.
  - exfalso. apply Hn. rewrite E. now apply in_map.
  - exfalso. apply Hn. rewrite <- E. now apply in_map.
Qed.

End ListFacts.

Section DictFacts2.
Variable V : Type.

Lemma dict_get_set_same (d : Dict.dict V) (k : string) (v : V) :
  Dict.get (Dict.set d k v) k = Some v.
Proof.
  induction d as [|[k' v'] d IH]; simpl.
  - now rewrite String.eqb_refl.
  - destruct (String.eqb_spec k k') as [->|Hne]; simpl.
    + now rewrite String.eqb_refl.
    + destruct (String.eqb_spec k k'); [contradiction | exact IH].
Qed.

Lemma dict_get_set_other (d : Dict.dict V) (k k' : string) (v : V) :
  k <> k' -> Dict.get (Dict.set d k v) k' = Dict.get d k'.
Proof.
  intros Hne. induction d as [|[k0 v0] d IH]; simpl.
  - destruct (String.eqb_spec k' k); [congruence | reflexivity].
  - destruct (String.eqb_spec k k0) as [->|H0]; simpl.
    + destruct (String.eqb_spec k' k0); [congruence | reflexivity].
    + destruct (String.eqb_spec k' k0); [reflexivity | exact IH].
Qed.

Lemma dict_keys_set (d : Dict.dict V) (k : string) (v : V) (k' : string) :
  In k' (Dict.keys (Dict.set d k v)) <-> k' = k \/ In k' (Dict.keys d).
Proof.
  induction d as [|[k0 v0] d IH]; simpl.
  - intuition.
  - destruct (String.eqb_spec k k0) as [->|H0]; simpl.
    + intuition.
    + rewrite IH. intuition.
Qed.

Lemma dict_set_NoDup (d : Dict.dict V) (k : string) (v : V) :
  NoDup (Dict.keys d) -> NoDup (Dict.keys (Dict.set d k v)).
Proof.
  induction d as [|[k0 v0] d IH]; simpl; intros H.
  - repeat constructor. simpl. tauto.
  - inversion H as [|? ? Hn Hd]; subst.
    destruct (String.eqb_spec k k0) as [->|H0]; simpl.
    + now constructor.
    + constructor; [|auto]. intros Hin.
      apply (proj1 (dict_keys_set d k v k0)) in Hin.
      destruct Hin as [E|E]; [congruence | contradiction].
Qed.

Lemma dict_get_In (d : Dict.dict V) (k : string) (v : V) :
  Dict.get d k = Some v -> In (k, v) d.
Proof.
  induction d as [|[k0 v0] d IH]; simpl; [discriminate|].
  destruct (String.eqb_spec k k0) as [->|H0].
  - intros E. injection E as ->. now left.
  - intros E. right. auto.
Qed.

Lemma dict_In_get (d : Dict.dict V) (k : string) (v : V) :
  NoDup (Dict.keys d) -> In (k, v) d -> Dict.get d k = Some v.
Proof.
  induction d as [|[k0 v0] d IH]; simpl; intros Hnd Hin; [contradiction|].
  inversion Hnd as [|? ? Hn Hd]; subst.
  destruct Hin as [E|Hin].
  - injection E as -> ->. now rewrite String.eqb_refl.
  - destruct (String.eqb_spec k k0) as [->|H0].
    + exfalso. apply Hn. change k0 with (fst (k0, v)). now apply in_map.
    + auto.
Qed.

Lemma dict_get_None (d : Dict.dict V) (k : string) :
  Dict.get d k = None <-> ~ In k (Dict.keys d).
Proof.
  induction d as [|[k0 v0] d IH]; simpl.
  - tauto.
  - destruct (String.eqb_spec k k0) as [->|H0].
    + split; [discriminate | intros H; exfalso; apply H; now left].
    + rewrite IH. intuition congruence.
Qed.

End DictFacts2.

(* ================================================================== *)
(** * contract_risk_analyzer.py: the score *)

Section RiskFacts.
Import Str ContractRiskAnalyzer RiskSpec.

Lemma record_matches (text : string) (ms : list Re.rmatch) :
  forall (l : list term_match) (n : nat),
    exists found,
      fold_left (record_match text) ms (l, n) = ((l ++ found)%list, n + List.length ms)
      /\ List.length found = List.length ms.
Proof.
  induction ms as [|mt ms IH]; intros l n; simpl.
  - exists []. now rewrite app_nil_r, Nat.add_0_r.
  - destruct (IH (l ++ [TermMatch (Re.group0 text mt)
                          (slice text (Re.m_start mt - 50)
                             (Nat.min (String.length text) (Re.m_end mt + 50)))])%list
                 (n + 1)) as [found [E L]].
    eexists (_ :: found). split.
    + rewrite E. rewrite <- app_assoc. simpl. f_equal. lia.
    + simpl. now rewrite L.
Qed.

Lemma scan_pattern_counts (text pattern : string) (l : list term_match) (n : nat) :
  compiles (regex_of pattern) = true ->
  exists found,
    scan_pattern text (l, n) pattern
    = Some ((l ++ found)%list, n + match_count text pattern)
    /\ List.length found = match_count text pattern.
Proof.
  intros Hc. unfold scan_pattern, match_count, regex_of in *.
  destruct (is_regex pattern);
    destruct (finditer_compiles _ text Re.IGNORECASE Hc) as [ms ->];
    destruct (record_matches text ms l n) as [found [E L]];
    exists found; now rewrite E.
Qed.

Lemma scan_patterns_counts (text : string) (patterns : list string) :
  forallb (fun p => compiles (regex_of p)) patterns = true ->
  forall (l : list term_match) (n : nat),
    exists found,
      scan_patterns text patterns (l, n)
      = Some ((l ++ found)%list, n + raw_count text patterns)
      /\ List.length found = raw_count text patterns.
Proof.
  unfold raw_count.
  induction patterns as [|p ps IH]; simpl; intros Hc l n.
  - exists []. now rewrite app_nil_r, Nat.add_0_r.
  - apply andb_prop in Hc. destruct Hc as [Hp Hps].
    destruct (scan_pattern_counts text p l n Hp) as [f1 [E1 L1]].
    rewrite E1.
    destruct (IH Hps (l ++ f1)%list (n + match_count text p)) as [f2 [E2 L2]].
    exists (f1 ++ f2)%list. split.
    + rewrite E2. rewrite app_assoc. f_equal. f_equal. lia.
    + rewrite length_app. lia.
Qed.

Lemma file_matches_keeps (category : string) (found : list term_match) (a : analysis) :
  risk_score (file_matches category found a) = risk_score a
  /\ risk_categories (file_matches category found a) = risk_categories a.
Proof.
  unfold file_matches.
  destruct (String.eqb category "ambiguity"); [now split|].
  destruct (String.eqb category "one_sided_terms"); [now split|].
  destruct (String.eqb category "liability_issues"); now split.
Qed.

Lemma scored_entries_keys (text : string) (entries : list (string * list string)) :
  forall k, In k (Dict.keys (scored_entries text entries)) -> In k (Dict.keys entries).
Proof.
  unfold scored_entries, Dict.keys. intros k H.
  rewrite map_map in H. simpl in H. apply in_map_iff in H.
  destruct H as [e [<- He]]. apply filter_In in He. apply in_map. tauto.
Qed.

Lemma scan_categories_entries (text : string) (entries : list (string * list string)) :
  forallb (fun e => forallb (fun p => compiles (regex_of p)) (snd e)) entries = true ->
  NoDup (Dict.keys entries) ->
  forall a : analysis,
    (forall k, In k (Dict.keys entries) -> ~ In k (Dict.keys (risk_categories a))) ->
    exists a',
      scan_categories text entries a = Some a'
      /\ risk_score a' = risk_score a
      /\ risk_categories a' = (risk_categories a ++ scored_entries text entries)%list.
Proof.
  induction entries as [|[category patterns] rest IH]; simpl; intros Hc Hnd a Hfresh.
  - exists a. now rewrite app_nil_r.
  - apply andb_prop in Hc. destruct Hc as [Hp Hrest].
    inversion Hnd as [|? ? Hnotin Hnd']; subst.
    unfold scored_entries. simpl.
    destruct (String.eqb category "missing_provisions") eqn:Em; simpl.
    + apply IH; auto.
    + destruct (scan_patterns_counts text patterns Hp [] 0) as [found [E L]].
      rewrite E. simpl.
      destruct (file_matches_keeps category found a) as [Hs Hk].
      set (a1 := set_category category _ _).
      assert (H1 : risk_categories a1
                   = (risk_categories a
                      ++ [(category, CategoryEntry (capped_score (raw_count text patterns))
                                                   (raw_count text patterns))])%list).
      { unfold a1, set_category. simpl. rewrite Hk.
        rewrite dict_set_fresh by (apply Hfresh; now left).
        rewrite L. reflexivity. }
      destruct (IH Hrest Hnd' a1) as [a' [E' [S' K']]].
      { intros k Hk'. rewrite H1, dict_keys_app. simpl. intros Hin.
        apply in_app_or in Hin. destruct Hin as [Hin|[->|[]]].
        - revert Hin. apply Hfresh. now right.
        - now apply Hnotin. }
      exists a'. split; [exact E'|]. split.
      * rewrite S'. unfold a1, set_category. simpl. exact Hs.
      * rewrite K', H1. rewrite <- app_assoc. reflexivity.
Qed.

Lemma synonym_found_total (text_lower : string) (synonyms : list string) :
  forallb (fun s => compiles ("\b" ++ Re.escape s ++ "\b")) synonyms = true ->
  exists b, synonym_found text_lower synonyms = Some b.
Proof.
  induction synonyms as [|s rest IH]; simpl; intros Hc.
  - eauto.
  - apply andb_prop in Hc. destruct Hc as [Hs Hrest].
    destruct (search_compiles _ text_lower Re.no_flags Hs) as [[mt|] ->]; eauto.
Qed.

Lemma provision_found_total (text_lower provision : string) :
  provision_compiles provision = true ->
  exists b, provision_found text_lower provision = Some b.
Proof.
  unfold provision_compiles, provision_found. intros Hc.
  apply andb_prop in Hc. destruct Hc as [H1 H2].
  destruct (search_compiles _ text_lower Re.no_flags H1) as [[mt|] ->]; eauto.
  now apply synonym_found_total.
Qed.

Lemma missing_loop_total (text_lower : string) (provisions : list string) :
  forallb provision_compiles provisions = true ->
  forall missing, exists missing',
    missing_loop text_lower provisions missing = Some missing'.
Proof.
  induction provisions as [|p rest IH]; simpl; intros Hc missing.
  - eauto.
  - apply andb_prop in Hc. destruct Hc as [Hp Hrest].
    destruct (provision_found_total text_lower p Hp) as [b ->]. now apply IH.
Qed.

Lemma find_missing_provisions_total (text : string) :
  exists missing, find_missing_provisions init text = Some missing.
Proof.
  unfold find_missing_provisions. apply missing_loop_total.
  vm_compute. reflexivity.
Qed.

End RiskFacts.

Section RiskScore.
Import Str ContractRiskAnalyzer RiskSpec.

Lemma init_patterns_compile :
  forallb (fun e => forallb (fun p => compiles (regex_of p)) (snd e))
          (risk_patterns init) = true.
Proof. vm_compute. reflexivity. Qed.

Lemma init_categories_distinct : NoDup (Dict.keys (risk_patterns init)).
Proof.
  unfold Dict.keys. simpl.
  repeat (constructor; [simpl; intuition discriminate|]). constructor.
Qed.

Lemma init_scored_entries (text : string) :
  scored_entries text (risk_patterns init)
  = map (fun c => (c, CategoryEntry (capped_score (raw_match_count text c))
                                    (raw_match_count text c)))
        scored_categories.
Proof. reflexivity. Qed.

Lemma total_score_entries (text : string) :
  total_score (map (fun c => (c, CategoryEntry (capped_score (raw_match_count text c))
                                               (raw_match_count text c)))
                   scored_categories)
  = list_sum (map (fun c => capped_score (raw_match_count text c)) scored_categories).
Proof.
  unfold total_score, Dict.values. now rewrite !map_map.
Qed.

Lemma capped_sum_le (f : string -> nat) (l : list string) :
  list_sum (map (fun c => capped_score (f c)) l) <= 100 * List.length l.
Proof.
  induction l as [|c l IH]; simpl; [lia|].
  unfold capped_score at 1. lia.
Qed.

Lemma Qnat_nonneg (n : nat) : (0 <= Qnat n)%Q.
Proof.
  unfold Qnat. change 0%Q with (inject_Z 0). rewrite <- Zle_Qle. lia.
Qed.

Lemma Qnat_le (a b : nat) : a <= b -> (Qnat a <= Qnat b)%Q.
Proof. intros H. unfold Qnat. rewrite <- Zle_Qle. lia. Qed.

Lemma mean_score_bounds (text : string) :
  (0 <= mean_score text)%Q /\ (mean_score text <= 100)%Q.
Proof.
  unfold mean_score. split.
  - apply Qle_shift_div_l.
    + reflexivity.
    + rewrite Qmult_0_l. apply Qnat_nonneg.
  - apply Qle_shift_div_r.
    + reflexivity.
    + change (100 * Qnat (List.length scored_categories))%Q
        with (Qnat (100 * List.length scored_categories)).
      apply Qnat_le. apply capped_sum_le.
Qed.

Lemma overall_score_nonempty (a : analysis) (missing : list string) :
  risk_categories a <> [] ->
  overall_score a missing
  = let s := Float.min_int 100
               (Float.true_div (Z.of_nat (total_score (risk_categories a)))
                               (Z.of_nat (List.length (risk_categories a)))) in
    match missing with
    | [] => Float.value s
    | _ :: _ =>
        Float.value
          (Float.min_int 100
             (Float.add s (Float.of_int
                             (Z.of_nat (Nat.min 20 (List.length missing * 5))))))
    end.
Proof.
  unfold overall_score. destruct (risk_categories a); [congruence|].
  intros _. destruct missing; reflexivity.
Qed.

(** The sum of the capped scores is a multiple of ten, the increment a
    multiple of five. *)
Lemma capped_sum_tens (f : string -> nat) (l : list string) :
  exists t,
    t <= 10 * List.length l
    /\ list_sum (map (fun c => capped_score (f c)) l) = 10 * t.
Proof.
  induction l as [|c l [t [Ht E]]]; cbn [map list_sum List.length fold_right].
  - exists 0. split; reflexivity.
  - exists (Nat.min 10 (f c) + t). fold (list_sum (map (fun c => capped_score (f c)) l)).
    rewrite E. unfold capped_score. split; lia.
Qed.

Lemma increment_fives (n : nat) : Nat.min 20 (n * 5) = 5 * Nat.min 4 n.
Proof. lia. Qed.

(** The binary64 operations of the overall score, on every sum of six
    capped scores and every increment: the first clamp changes nothing,
    and the result lies in [0, 100], within [score_error] of the
    rational value. *)
Lemma score_table :
  forallb
    (fun t =>
       forallb
         (fun j =>
            let x := Float.true_div (Z.of_nat (10 * t)) (Z.of_nat 6) in
            let r := Float.value (float_score (10 * t) 6 (5 * j)) in
            Qeq_bool (Float.value (Float.min_int 100 x)) (Float.value (float_score (10 * t) 6 0))
            && Qeq_bool (Float.value
                           (Float.min_int 100
                              (Float.add (Float.min_int 100 x)
                                         (Float.of_int (Z.of_nat (5 * j)))))) r
            && Qle_bool (Qabs (r - Qmin 100 (Qnat (10 * t) / Qnat 6 + Qnat (5 * j))))
                        score_error
            && Qle_bool 0 r && Qle_bool r 100)
         (seq 0 5))
    (seq 0 61) = true.
Proof. vm_compute. reflexivity. Qed.

Lemma score_cases (t j : nat) :
  t <= 60 -> j <= 4 ->
  let x := Float.true_div (Z.of_nat (10 * t)) (Z.of_nat 6) in
  let r := Float.value (float_score (10 * t) 6 (5 * j)) in
  (Float.value (Float.min_int 100 x) == Float.value (float_score (10 * t) 6 0))%Q
  /\ (Float.value
        (Float.min_int 100
           (Float.add (Float.min_int 100 x) (Float.of_int (Z.of_nat (5 * j))))) == r)%Q
  /\ (Qabs (r - Qmin 100 (Qnat (10 * t) / Qnat 6 + Qnat (5 * j))) <= score_error)%Q
  /\ (0 <= r)%Q /\ (r <= 100)%Q.
Proof.
  intros Ht Hj. pose proof score_table as H.
  rewrite forallb_forall in H. specialize (H t ltac:(apply in_seq; lia)).
  rewrite forallb_forall in H. specialize (H j ltac:(apply in_seq; lia)).
  cbv zeta in H. rewrite !andb_true_iff in H.
  destruct H as [[[[H1 H2] H3] H4] H5]. cbv zeta.
  split; [now apply Qeq_bool_iff|]. split; [now apply Qeq_bool_iff|].
  split; [now apply Qle_bool_iff|]. split; now apply Qle_bool_iff.
Qed.

(** The closed form of the result of [analyze_contract]. *)
Lemma analyze_contract_closed_form (text : string) :
  exists a missing,
    analyze_contract init text = Some a
    /\ find_missing_provisions init text = Some missing
    /\ missing_provisions a = missing
    /\ risk_categories a
       = map (fun c => (c, CategoryEntry (capped_score (raw_match_count text c))
                                         (raw_match_count text c)))
             scored_categories
    /\ (risk_score a
        == Float.value (float_score (capped_total text) (List.length scored_categories)
                                    (Nat.min 20 (List.length missing * 5))))%Q
    /\ (Qabs (risk_score a
              - Qmin 100 (mean_score text + Qnat (Nat.min 20 (List.length missing * 5))))
        <= score_error)%Q
    /\ (0 <= risk_score a)%Q /\ (risk_score a <= 100)%Q.
Proof.
  destruct (scan_categories_entries text (risk_patterns init)
              init_patterns_compile init_categories_distinct
              (Analysis 0 [] [] [] [] [] []))
    as [a1 [E1 [S1 K1]]].
  { intros k _ []. }
  destruct (find_missing_provisions_total text) as [missing Em].
  unfold analyze_contract. rewrite E1, Em.
  eexists. exists missing. split; [reflexivity|]. split; [reflexivity|].
  split; [reflexivity|]. simpl risk_categories. simpl missing_provisions.
  simpl in K1. rewrite init_scored_entries in K1.
  split; [exact K1|].
  cbn [risk_score].
  rewrite overall_score_nonempty by (simpl risk_categories; rewrite K1; discriminate).
  simpl risk_categories. rewrite K1, total_score_entries, length_map.
  unfold mean_score. fold (capped_total text).
  destruct (capped_sum_tens (raw_match_count text) scored_categories) as [t [Ht Et]].
  fold (capped_total text) in Et. rewrite Et.
  change (List.length scored_categories) with 6 in *.
  destruct missing as [|p missing].
  - change (Nat.min 20 (List.length (@nil string) * 5)) with (5 * 0).
    destruct (score_cases t 0 ltac:(lia) ltac:(lia)) as [H1 [_ [H3 [H4 H5]]]].
    cbv zeta in *. change (5 * 0) with 0 in *. rewrite H1.
    split; [reflexivity|]. split; [exact H3|]. split; assumption.
  - rewrite increment_fives.
    destruct (score_cases t (Nat.min 4 (List.length (p :: missing))) ltac:(lia) ltac:(lia))
      as [_ [H2 [H3 [H4 H5]]]].
    cbv zeta in *. rewrite H2.
    split; [reflexivity|]. split; [exact H3|]. split; assumption.
Qed.

End RiskScore.

Section RiskClaims.
Import Str ContractRiskAnalyzer RiskSpec.

(** C1. For every text, [analyze_contract] returns an analysis whose
    [risk_score] is the mean over the six scored categories of the capped
    category scores [min(100, raw_match_count * 10)], incremented by
    [min(20, missing_provision_count * 5)] where the count is the length
    of [find_missing_provisions(text)], and clamped to 100; the entry of
    each category holds its capped score and its raw match count.  The
    mean and the sum are the binary64 operations of the code (a true
    division and a float addition, [float_score]), so the score is a
    double: it is within [score_error], which is 2^-46, of the rational
    number that the same steps give without rounding. *)
Theorem analyze_contract_risk_score (text : string) :
  exists a missing,
    analyze_contract init text = Some a
    /\ find_missing_provisions init text = Some missing
    /\ missing_provisions a = missing
    /\ risk_categories a
       = map (fun c => (c, CategoryEntry (capped_score (raw_match_count text c))
                                         (raw_match_count text c)))
             scored_categories
    /\ (risk_score a
        == Float.value
             (float_score (capped_total text) (List.length scored_categories)
                          (Nat.min 20 (List.length missing * 5))))%Q
    /\ (Qabs (risk_score a
              - Qmin 100 (mean_score text + Qnat (Nat.min 20 (List.length missing * 5))))
        <= score_error)%Q.
Proof.
  destruct (analyze_contract_closed_form text)
    as [a [missing [E [Em [Hm [Hc [Hs [Hq _]]]]]]]].
  exists a, missing. split; [exact E|]. split; [exact Em|]. split; [exact Hm|].
  split; [exact Hc|]. split; [exact Hs | exact Hq].
Qed.

(** C7. For every text, the [risk_score] returned by [analyze_contract]
    lies between 0 and 100. *)
Theorem analyze_contract_score_bound (text : string) :
  exists a,
    analyze_contract init text = Some a
    /\ (0 <= risk_score a)%Q /\ (risk_score a <= 100)%Q.
Proof.
  destruct (analyze_contract_closed_form text)
    as [a [missing [E [_ [_ [_ [_ [_ [H0 H100]]]]]]]]].
  exists a. split; [exact E|]. split; assumption.
Qed.

(** The score of a text with one ambiguous term and none of the ten
    provisions: the sum of the capped scores is 10, the increment 20,
    and the score the double 21.666666666666668, which is
    6098624495397547 / 2^48 and not the rational number 65/3. *)
Example parties_may_agree_score :
  exists a,
    analyze_contract init "The parties may agree" = Some a
    /\ capped_total "The parties may agree" = 10
    /\ List.length (missing_provisions a) = 10
    /\ (risk_score a == 6098624495397547 # 281474976710656)%Q
    /\ ~ (risk_score a == 65 # 3)%Q.
Proof.
  eexists. split; [vm_compute; reflexivity|].
  split; [vm_compute; reflexivity|]. split; [reflexivity|].
  split; [vm_compute; reflexivity | vm_compute; discriminate].
Qed.

Lemma last_char_cons (p : option ascii) (c : ascii) (t : string) :
  last_char p (String c t) = last_char None (String c t).
Proof. reflexivity. Qed.

(** The pattern [\b w \b] matches where [w] stands as a whole word. *)
Lemma match_here_word (fl : Re.flags) (w pre suf : string) (c0 c1 : ascii) (t : string)
  (i : nat) :
  Re.ignorecase fl = false ->
  w = String c0 t -> is_word c0 = true ->
  last_char None w = Some c1 -> is_word c1 = true ->
  ends_nonword pre = true -> starts_nonword suf = true ->
  Re.match_here fl (Re.Seq Re.WordB (lits w (Re.Seq Re.WordB Re.Empty)))
    (Re.State (last_char None pre) (w ++ suf) i []) <> None.
Proof.
  intros Hic Hw H0 Hl H1 Hpre Hsuf. unfold Re.match_here.
  cbn [Re.m].
  assert (Hb : xorb (Re.word_before (Re.State (last_char None pre) (w ++ suf) i []))
                    (Re.word_after (Re.State (last_char None pre) (w ++ suf) i []))
               = true).
  { unfold Re.word_before, Re.word_after. cbn [Re.prev Re.rest].
    unfold ends_nonword in Hpre. rewrite Hw. cbn [append]. rewrite H0.
    destruct (last_char None pre); [|reflexivity].
    apply negb_true_iff in Hpre. now rewrite Hpre. }
  rewrite Hb. rewrite m_lits by exact Hic. cbn [Re.m].
  assert (He : xorb (Re.word_before (Re.State (last_char (last_char None pre) w) suf
                                       (i + String.length w) []))
                    (Re.word_after (Re.State (last_char (last_char None pre) w) suf
                                      (i + String.length w) []))
               = true).
  { unfold Re.word_before, Re.word_after. cbn [Re.prev Re.rest].
    rewrite Hw, last_char_cons, <- Hw, Hl, H1.
    unfold starts_nonword in Hsuf. destruct suf; [reflexivity|].
    apply negb_true_iff in Hsuf. now rewrite Hsuf. }
  rewrite He. discriminate.
Qed.

Lemma search_non_disclosure (text_lower : string) :
  whole_word "non-disclosure" text_lower ->
  exists mt,
    Re.search ("\b" ++ Re.escape "non-disclosure" ++ "\b") text_lower Re.no_flags
    = Some (Some mt).
Proof.
  intros [pre [suf [-> [Hpre Hsuf]]]].
  assert (Hc : Re.compile ("\b" ++ Re.escape "non-disclosure" ++ "\b")
               = Some (Re.Pattern Re.no_flags 0
                         (Re.Seq Re.WordB
                            (lits "non-disclosure" (Re.Seq Re.WordB Re.Empty)))))
    by (vm_compute; reflexivity).
  unfold Re.search. rewrite Hc. cbn [Re.p_flags Re.p_re].
  destruct (Re.search_from _ _ None (pre ++ "non-disclosure" ++ suf) 0) eqn:E.
  - eauto.
  - exfalso. revert E. apply search_from_split.
    eapply match_here_word; try eassumption; reflexivity.
Qed.

Lemma missing_loop_In (text_lower : string) (provisions : list string) :
  forall (missing missing' : list string) (p : string),
    missing_loop text_lower provisions missing = Some missing' ->
    In p missing' ->
    In p missing \/ (In p provisions /\ provision_found text_lower p = Some false).
Proof.
  induction provisions as [|q rest IH]; simpl; intros missing missing' p E Hin.
  - inversion E; subst. now left.
  - destruct (provision_found text_lower q) as [found|] eqn:Ef; [|discriminate].
    destruct (IH _ _ _ E Hin) as [H|[H1 H2]].
    + destruct found; simpl in H.
      * now left.
      * apply in_app_or in H. destruct H as [H|[->|[]]]; [now left|].
        right. split; [now left | exact Ef].
    + right. split; [now right | exact H2].
Qed.

Lemma confidentiality_found (text_lower : string) :
  whole_word "non-disclosure" text_lower ->
  provision_found text_lower "confidentiality" = Some true.
Proof.
  intros H. unfold provision_found.
  change (lower "confidentiality") with "confidentiality".
  destruct (search_compiles ("\b" ++ Re.escape "confidentiality" ++ "\b")
              text_lower Re.no_flags) as [[mt|] ->]; try reflexivity.
  change (_get_provision_synonyms "confidentiality")
    with ["non-disclosure"; "private information"; "proprietary information"].
  cbn [synonym_found].
  destruct (search_non_disclosure text_lower H) as [mt ->]. reflexivity.
Qed.

(** C5. For every text that contains the whole word "non-disclosure"
    (in any letter case), [find_missing_provisions] returns a list that
    does not include "confidentiality"; whether the text also contains
    the word "confidentiality" plays no role. *)
Theorem non_disclosure_counts_as_confidentiality (text : string) :
  whole_word "non-disclosure" (lower text) ->
  exists missing,
    find_missing_provisions init text = Some missing
    /\ ~ In "confidentiality" missing.
Proof.
  intros H. destruct (find_missing_provisions_total text) as [missing E].
  exists missing. split; [exact E|]. intros Hin.
  unfold find_missing_provisions in E.
  destruct (missing_loop_In _ _ _ _ _ E Hin) as [[]|[_ Hf]].
  rewrite (confidentiality_found _ H) in Hf. discriminate.
Qed.

Lemma non_disclosure_counts_as_confidentiality_witness :
  whole_word "non-disclosure" (lower "A mutual Non-Disclosure undertaking.")
  /\ exists missing,
       find_missing_provisions init "A mutual Non-Disclosure undertaking." = Some missing
       /\ ~ In "confidentiality" missing.
Proof.
  assert (H : whole_word "non-disclosure" (lower "A mutual Non-Disclosure undertaking.")).
  { exists "a mutual ", " undertaking.". repeat split; reflexivity. }
  split; [exact H|].
  apply (non_disclosure_counts_as_confidentiality "A mutual Non-Disclosure undertaking." H).
Defined.

End RiskClaims.

(* ================================================================== *)
(** * citation_analyzer.py: extraction *)

Section ExtractFacts.
Import Str CitationAnalyzer CitationSpec.

Lemma findall_compiles (p text : string) :
  RiskSpec.compiles p = true -> exists found, Re.findall p text = Some found.
Proof.
  unfold RiskSpec.compiles, Re.findall. destruct (Re.compile p); [eauto | discriminate].
Qed.

Lemma collect_matches_total (text : string) (pats : list string) :
  all_compile pats = true ->
  forall matches, exists matches', collect_matches text pats matches = Some matches'.
Proof.
  unfold all_compile. induction pats as [|p rest IH]; simpl; intros Hc matches.
  - eauto.
  - apply andb_prop in Hc. destruct Hc as [Hp Hrest].
    destruct (findall_compiles p text Hp) as [found ->]. now apply IH.
Qed.

(** The de-duplication loop, from any value of [unique_matches]. *)
Lemma unique_extends (l : list string) :
  forall acc, exists ext, fold_left unique_step l acc = (acc ++ ext)%list.
Proof.
  induction l as [|x l IH]; intros acc; simpl.
  - exists []. now rewrite app_nil_r.
  - unfold unique_step at 2. destruct (mem x acc).
    + apply IH.
    + destruct (IH (acc ++ [x])%list) as [ext ->].
      exists (x :: ext). now rewrite <- app_assoc.
Qed.

Lemma unique_In (l : list string) :
  forall acc x, In x (fold_left unique_step l acc) <-> In x acc \/ In x l.
Proof.
  induction l as [|y l IH]; intros acc x; simpl.
  - tauto.
  - rewrite IH. unfold unique_step. destruct (mem y acc) eqn:E.
    + apply mem_In in E. split; [tauto|]. intros [H|[->|H]]; tauto.
    + rewrite in_app_iff. simpl. tauto.
Qed.

Lemma unique_NoDup (l : list string) :
  forall acc, NoDup acc -> NoDup (fold_left unique_step l acc).
Proof.
  induction l as [|y l IH]; intros acc H; simpl.
  - exact H.
  - apply IH. unfold unique_step. destruct (mem y acc) eqn:E.
    + exact H.
    + apply mem_false in E. apply NoDup_app; [exact H | repeat constructor; simpl; tauto|].
      intros a Ha [<-|[]]. contradiction.
Qed.

Lemma unique_in_order_NoDup (l : list string) : NoDup (unique_in_order l).
Proof. apply unique_NoDup. constructor. Qed.

(** A string first met after [pre] stands right after the distinct
    strings of [pre], and nowhere else. *)
Lemma unique_first_occurrence (pre post : list string) (c : string) :
  ~ In c pre ->
  exists rest,
    unique_in_order (pre ++ c :: post) = (unique_in_order pre ++ c :: rest)%list
    /\ ~ In c (unique_in_order pre) /\ ~ In c rest.
Proof.
  intros Hpre. unfold unique_in_order. rewrite fold_left_app. simpl.
  assert (Hn : ~ In c (fold_left unique_step pre [])).
  { rewrite unique_In. simpl. tauto. }
  unfold unique_step at 2. rewrite (proj2 (mem_false _ _) Hn).
  destruct (unique_extends post (fold_left unique_step pre [] ++ [c])%list) as [ext E].
  exists ext. rewrite E, <- app_assoc. split; [reflexivity|]. split; [exact Hn|].
  assert (Hd : NoDup ((fold_left unique_step pre [] ++ [c]) ++ ext)%list).
  { rewrite <- E. apply unique_NoDup. apply NoDup_app.
    - apply unique_NoDup. constructor.
    - repeat constructor; simpl; tauto.
    - intros a Ha [<-|[]]. contradiction. }
  intros Hin. rewrite <- app_assoc in Hd. apply NoDup_remove_2 in Hd.
  apply Hd. rewrite in_app_iff. now right.
Qed.

Lemma patterns_compile :
  forallb (fun e => all_compile (snd e)) patterns = true.
Proof. vm_compute. reflexivity. Qed.

(** The shape of the result of [extract_citations]: the four categories,
    each with the de-duplicated stream of its matches. *)
Lemma extract_citations_shape (text : string) :
  exists m1 m2 m3 m4,
    map (fun e => collect_matches text (snd e) []) patterns
    = [Some m1; Some m2; Some m3; Some m4]
    /\ extract_citations text
       = Some [("case_citations", unique_in_order m1);
               ("statute_citations", unique_in_order m2);
               ("constitution_citations", unique_in_order m3);
               ("section_citations", unique_in_order m4)].
Proof.
  pose proof patterns_compile as Hc. unfold patterns in *.
  cbn [forallb snd] in Hc.
  repeat (apply andb_prop in Hc; destruct Hc as [?H Hc]).
  unfold extract_citations, patterns. cbn [map snd extract_loop].
  destruct (collect_matches_total text _ H []) as [m1 E1].
  destruct (collect_matches_total text _ H0 []) as [m2 E2].
  destruct (collect_matches_total text _ H1 []) as [m3 E3].
  destruct (collect_matches_total text _ H2 []) as [m4 E4].
  exists m1, m2, m3, m4. rewrite E1, E2, E3, E4. split; reflexivity.
Qed.

End ExtractFacts.

Section ExtractClaims.
Import Str CitationAnalyzer CitationSpec.

(** C6. For every text and every citation category, a string [c] of the
    match stream of the category (the list [matches] before the
    de-duplication), met for the first time after the prefix [pre] of the
    stream, stands in the list returned by [extract_citations] exactly
    once: right after the distinct strings of [pre], in order of first
    occurrence, however often it is matched again. *)
Theorem extract_citations_dedup (text category : string) (pats stream pre post : list string)
  (c : string) :
  In (category, pats) patterns ->
  collect_matches text pats [] = Some stream ->
  stream = (pre ++ c :: post)%list ->
  ~ In c pre ->
  exists citations rest,
    extract_citations text = Some citations
    /\ Dict.get citations category = Some (unique_in_order pre ++ c :: rest)%list
    /\ ~ In c (unique_in_order pre) /\ ~ In c rest.
Proof.
  intros Hin Hs -> Hpre.
  destruct (extract_citations_shape text) as [m1 [m2 [m3 [m4 [Hm E]]]]].
  destruct (unique_first_occurrence pre post c Hpre) as [rest [Hu [H1 H2]]].
  exists [("case_citations", unique_in_order m1);
          ("statute_citations", unique_in_order m2);
          ("constitution_citations", unique_in_order m3);
          ("section_citations", unique_in_order m4)], rest.
  split; [exact E|]. split; [|now split].
  rewrite <- Hu. clear Hu E.
  unfold patterns in Hin, Hm. cbn [map snd] in Hm.
  pose proof (f_equal (fun l => nth 0 l None) Hm) as E1.
  pose proof (f_equal (fun l => nth 1 l None) Hm) as E2.
  pose proof (f_equal (fun l => nth 2 l None) Hm) as E3.
  pose proof (f_equal (fun l => nth 3 l None) Hm) as E4.
  cbv beta in E1, E2, E3, E4. cbn [nth] in E1, E2, E3, E4. clear Hm.
  destruct Hin as [Hin|[Hin|[Hin|[Hin|[]]]]];
    pose proof (f_equal fst Hin) as Hc; pose proof (f_equal snd Hin) as Hp;
    cbn [fst snd] in Hc, Hp; subst category pats.
  - rewrite E1 in Hs. apply (f_equal (fun o => match o with Some l => l | None => [] end))
      in Hs. cbv beta iota in Hs. subst m1. reflexivity.
  - rewrite E2 in Hs. apply (f_equal (fun o => match o with Some l => l | None => [] end))
      in Hs. cbv beta iota in Hs. subst m2. reflexivity.
  - rewrite E3 in Hs. apply (f_equal (fun o => match o with Some l => l | None => [] end))
      in Hs. cbv beta iota in Hs. subst m3. reflexivity.
  - rewrite E4 in Hs. apply (f_equal (fun o => match o with Some l => l | None => [] end))
      in Hs. cbv beta iota in Hs. subst m4. reflexivity.
Qed.

Lemma extract_citations_dedup_witness :
  exists citations rest,
    extract_citations Scenario.twice_cited = Some citations
    /\ Dict.get citations "case_citations"
       = Some (unique_in_order [] ++ "(2020) 5 SCC 123" :: rest)%list
    /\ ~ In "(2020) 5 SCC 123" (unique_in_order []) /\ ~ In "(2020) 5 SCC 123" rest.
Proof.
  apply (extract_citations_dedup Scenario.twice_cited "case_citations"
           ["\(\d{4}\)\s+\d+\s+SCC\s+\d+"; "\d{4}\s+\(\d+\)\s+SCC\s+\d+";
            "AIR\s+\d{4}\s+SC\s+\d+"; "\(\d{4}\)\s+\d+\s+SCR\s+\d+"]
           ["(2020) 5 SCC 123"; "(2020) 5 SCC 123"; "AIR 1950 SC 27"]
           [] ["(2020) 5 SCC 123"; "AIR 1950 SC 27"] "(2020) 5 SCC 123").
  - left. reflexivity.
  - vm_compute. reflexivity.
  - reflexivity.
  - simpl. tauto.
Defined.

(** C9. On the empty text the extraction functions return empty results
    of the right shape and do not raise: [extract_citations] returns a
    dictionary with all four citation categories, each with an empty
    list; [extract_contract_details] no date, no parties, no financial
    terms; [generate_legal_summary] empty lists; [_extract_all_sections]
    an empty dictionary; [extract_section] nothing for every common
    section; the word set of the comparison is empty. *)
Theorem extract_empty_text :
  extract_citations ""
  = Some [("case_citations", []); ("statute_citations", []);
          ("constitution_citations", []); ("section_citations", [])]
  /\ LegalAnalysisTools.extract_contract_details ""
     = Some (LegalAnalysisTools.Details None [] [])
  /\ LegalAnalysisTools.generate_legal_summary ""
     = Some (LegalAnalysisTools.Summary "contract" [] [] [] [] None)
  /\ LegalDocumentComparison._extract_all_sections "" = Some []
  /\ map (LegalDocumentComparison.extract_section "")
         LegalDocumentComparison.common_sections
     = map (fun _ => Some None) LegalDocumentComparison.common_sections
  /\ DocumentComparison.word_set "" = Some [].
Proof. repeat split; vm_compute; reflexivity. Qed.

End ExtractClaims.

Section DetailsClaims.
Import LegalAnalysisTools.

(** C3, as stated, fails: for the text of the scenario the key
    "effective_date" is not absent from the result of
    [extract_contract_details]. *)
Lemma agreement_effective_date_not_absent :
  ~ (exists d, extract_contract_details Scenario.agreement = Some d
               /\ effective_date d = None).
Proof.
  intros [d [E H]]. vm_compute in E. injection E as <-. discriminate.
Qed.

(** C3, amended.  For the text "This Agreement, dated January 1, 2023,
    is governed by the laws of Delaware.", [extract_contract_details]
    returns the effective date "January 1, 2023" (the second date
    pattern matches "dated January 1, 2023"), no parties and no
    financial terms, and the governing law found by
    [generate_legal_summary] is "Delaware". *)
Theorem agreement_details :
  extract_contract_details Scenario.agreement
  = Some (Details (Some "January 1, 2023") [] [])
  /\ exists s, generate_legal_summary Scenario.agreement = Some s
               /\ governing_law s = Some "Delaware"
               /\ dates s = [("effective_date", "January 1, 2023")].
Proof.
  split; [vm_compute; reflexivity|].
  eexists. split; [vm_compute; reflexivity|]. split; reflexivity.
Qed.

End DetailsClaims.

(* ================================================================== *)
(** * The graph operations *)

Section NxFacts.
Import Nx.

Lemma edge_eqb_eq (e f : edge) : edge_eqb e f = true <-> e = f.
Proof.
  destruct e as [a b], f as [c d]. unfold edge_eqb. simpl.
  rewrite andb_true_iff, !String.eqb_eq. split.
  - intros [-> ->]. reflexivity.
  - intros E. injection E as -> ->. now split.
Qed.

Lemma edge_eqb_refl (e : edge) : edge_eqb e e = true.
Proof. now apply edge_eqb_eq. Qed.

Lemma edge_eqb_neq (e f : edge) : e <> f -> edge_eqb e f = false.
Proof.
  intros H. destruct (edge_eqb e f) eqn:E; [|reflexivity].
  apply edge_eqb_eq in E. contradiction.
Qed.

Lemma edge_get_set_same (es : list (edge * attrs)) (e : edge) (a : attrs) :
  edge_get (edge_set es e a) e = Some a.
Proof.
  induction es as [|[f b] es IH]; simpl.
  - now rewrite edge_eqb_refl.
  - destruct (edge_eqb e f) eqn:E; simpl; rewrite E; [reflexivity | exact IH].
Qed.

Lemma edge_get_set_other (es : list (edge * attrs)) (e e' : edge) (a : attrs) :
  e <> e' -> edge_get (edge_set es e a) e' = edge_get es e'.
Proof.
  intros Hne. induction es as [|[f b] es IH]; simpl.
  - rewrite edge_eqb_neq by congruence. reflexivity.
  - destruct (edge_eqb e f) eqn:E; simpl.
    + apply edge_eqb_eq in E. subst f.
      rewrite (edge_eqb_neq e' e) by congruence. reflexivity.
    + destruct (edge_eqb e' f); [reflexivity | exact IH].
Qed.

Lemma edge_set_keys (es : list (edge * attrs)) (e : edge) (a : attrs) (f : edge) :
  In f (map fst (edge_set es e a)) <-> f = e \/ In f (map fst es).
Proof.
  induction es as [|[g b] es IH]; simpl.
  - intuition.
  - destruct (edge_eqb e g) eqn:E; simpl.
    + apply edge_eqb_eq in E. subst g. intuition.
    + rewrite IH. intuition.
Qed.

Lemma edge_set_NoDup (es : list (edge * attrs)) (e : edge) (a : attrs) :
  NoDup (map fst es) -> NoDup (map fst (edge_set es e a)).
Proof.
  induction es as [|[g b] es IH]; simpl; intros H.
  - repeat constructor. simpl. tauto.
  - inversion H as [|? ? Hn Hd]; subst.
    destruct (edge_eqb e g) eqn:E; simpl.
    + now constructor.
    + constructor; [|auto]. intros Hin.
      apply (proj1 (edge_set_keys es e a g)) in Hin.
      destruct Hin as [->|Hin]; [|contradiction].
      rewrite edge_eqb_refl in E. discriminate.
Qed.

Lemma edge_set_fresh (es : list (edge * attrs)) (e : edge) (a : attrs) :
  ~ In e (map fst es) -> edge_set es e a = (es ++ [(e, a)])%list.
Proof.
  induction es as [|[g b] es IH]; simpl; intros H; [reflexivity|].
  rewrite edge_eqb_neq by (intros ->; apply H; now left).
  f_equal. apply IH. tauto.
Qed.

Lemma edge_get_None (es : list (edge * attrs)) (e : edge) :
  ~ In e (map fst es) -> edge_get es e = None.
Proof.
  induction es as [|[g b] es IH]; simpl; intros H; [reflexivity|].
  rewrite edge_eqb_neq by (intros ->; apply H; now left). apply IH. tauto.
Qed.

Lemma edge_eqb_sym (e f : edge) : edge_eqb e f = edge_eqb f e.
Proof.
  destruct (edge_eqb f e) eqn:E.
  - apply edge_eqb_eq in E. subst. apply edge_eqb_refl.
  - apply edge_eqb_neq. intros ->. rewrite edge_eqb_refl in E. discriminate.
Qed.

Lemma edges_to_absent (es : list (edge * attrs)) (e : edge) :
  ~ In e (map fst es) -> filter (fun ea => edge_eqb (fst ea) e) es = [].
Proof.
  induction es as [|[g b] es IH]; simpl; intros H; [reflexivity|].
  rewrite edge_eqb_neq by (intros ->; apply H; now left). apply IH. tauto.
Qed.

(** With one attribute dictionary per edge, the edges from [u] to [v]
    are the one that [edge_get] finds. *)
Lemma edges_from_to_one (G : DiGraph) (u v : string) (a : attrs) :
  NoDup (map fst (edges G)) ->
  edge_get (edges G) (u, v) = Some a ->
  edges_from_to G u v = [((u, v), a)].
Proof.
  unfold edges_from_to. induction (edges G) as [|[g b] es IH]; simpl; intros Hnd Hg.
  - discriminate.
  - inversion Hnd as [|? ? Hn Hd]; subst.
    rewrite edge_eqb_sym. destruct (edge_eqb (u, v) g) eqn:E.
    + apply edge_eqb_eq in E. subst g. injection Hg as ->.
      now rewrite edges_to_absent.
    + auto.
Qed.

Lemma add_node_edges (G : DiGraph) (n : string) (a : attrs) :
  edges (add_node G n a) = edges G.
Proof. unfold add_node. destruct (Dict.get (nodes G) n); reflexivity. Qed.

Lemma add_edge_edges (G : DiGraph) (u v : string) (a : attrs) :
  edges (add_edge G u v a)
  = edge_set (edges G) (u, v)
      (update (match edge_get (edges G) (u, v) with Some d => d | None => [] end) a).
Proof.
  unfold add_edge. destruct (has_node G u); simpl;
    match goal with |- context [if ?b then _ else _] => destruct b end; reflexivity.
Qed.

Lemma add_node_fresh (G : DiGraph) (n : string) (a : attrs) :
  ~ In n (Dict.keys (nodes G)) ->
  nodes (add_node G n a) = (nodes G ++ [(n, update [] a)])%list.
Proof.
  intros H. unfold add_node.
  rewrite (proj2 (dict_get_None _ (nodes G) n) H). simpl.
  now apply dict_set_fresh.
Qed.

Lemma has_node_In (G : DiGraph) (n : string) :
  has_node G n = true <-> In n (Dict.keys (nodes G)).
Proof.
  unfold has_node. destruct (Dict.get (nodes G) n) eqn:E.
  - split; [intros _ | reflexivity].
    apply dict_get_In in E. change n with (fst (n, a)). now apply in_map.
  - apply dict_get_None in E. split; [discriminate | contradiction].
Qed.

Lemma add_edge_nodes_present (G : DiGraph) (u v : string) (a : attrs) :
  In u (Dict.keys (nodes G)) -> In v (Dict.keys (nodes G)) ->
  nodes (add_edge G u v a) = nodes G.
Proof.
  intros Hu Hv. unfold add_edge.
  rewrite (proj2 (has_node_In G u) Hu). rewrite (proj2 (has_node_In G v) Hv).
  reflexivity.
Qed.

End NxFacts.

(* ================================================================== *)
(** * citation_analyzer.py: the three loops of the graph builder *)

Section GraphPhases.
Import Str CitationAnalyzer CitationSpec.

Lemma extract_citations_total (text : string) :
  extract_citations text = Some (citations_of text).
Proof.
  unfold citations_of.
  destruct (extract_citations_shape text) as [m1 [m2 [m3 [m4 [_ E]]]]].
  now rewrite E.
Qed.

Lemma citations_of_shape (text : string) :
  exists u1 u2 u3 u4,
    citations_of text
    = [("case_citations", u1); ("statute_citations", u2);
       ("constitution_citations", u3); ("section_citations", u4)]
    /\ NoDup u1 /\ NoDup u2 /\ NoDup u3 /\ NoDup u4.
Proof.
  unfold citations_of.
  destruct (extract_citations_shape text) as [m1 [m2 [m3 [m4 [_ E]]]]].
  rewrite E. do 4 eexists. split; [reflexivity|].
  repeat split; apply unique_in_order_NoDup.
Qed.

Lemma append_inj (p a b : string) : (p ++ a = p ++ b)%string -> a = b.
Proof.
  induction p as [|c p IH]; simpl; intros H; [exact H|].
  injection H as H. auto.
Qed.

Lemma citation_str_inj (t c1 c2 : string) :
  citation_str t c1 = citation_str t c2 -> c1 = c2.
Proof.
  unfold citation_str. intros H. apply append_inj in H.
  simpl in H. now injection H.
Qed.

Lemma citation_keys_NoDup (t : string) (l : list string) :
  NoDup l -> NoDup (map (citation_str t) l).
Proof.
  induction l as [|c l IH]; simpl; intros H; [constructor|].
  inversion H as [|? ? Hn Hd]; subst. constructor; [|auto].
  intros Hin. apply in_map_iff in Hin. destruct Hin as [c' [E Hc']].
  apply citation_str_inj in E. subst. contradiction.
Qed.

Lemma keys_of_NoDup (text : string) : NoDup (keys_of (citations_of text)).
Proof.
  destruct (citations_of_shape text) as [u1 [u2 [u3 [u4 [-> [H1 [H2 [H3 H4]]]]]]]].
  unfold keys_of. cbn [flat_map fst snd]. rewrite app_nil_r.
  repeat (apply NoDup_app; [now apply citation_keys_NoDup | |]);
    try now apply citation_keys_NoDup.
  all: intros k Hk; rewrite ?in_app_iff; rewrite !in_map_iff;
    apply in_map_iff in Hk; destruct Hk as [c [<- _]];
    unfold citation_str; simpl;
    intros H; repeat destruct H as [H|H]; destruct H as [c' [H _]]; discriminate.
Qed.

Opaque CitationSpec.citations_of CitationAnalyzer.extract_citations.

Lemma typed_keys_snd (citations : Dict.dict (list string)) :
  map snd (typed_keys_of citations) = keys_of citations.
Proof.
  unfold typed_keys_of, keys_of.
  induction citations as [|e l IH]; simpl; [reflexivity|].
  rewrite map_app, IH, map_map. reflexivity.
Qed.

Lemma add_citations_eq (name : string) (citations : Dict.dict (list string))
  (G : Nx.DiGraph) :
  add_citations name citations G
  = fold_left (add_typed name) (typed_keys_of citations) G.
Proof.
  unfold add_citations, typed_keys_of. rewrite fold_left_flat_map.
  apply fold_left_ext. intros c e. rewrite fold_left_map. reflexivity.
Qed.

Lemma add_documents_eq (documents : list document) :
  forall G dc,
    add_documents documents (G, dc)
    = Some (fold_left add_document documents G,
            fold_left (fun dc d => Dict.set dc (fst (doc_entry d)) (snd (doc_entry d)))
                      documents dc).
Proof.
  induction documents as [|d rest IH]; intros G dc.
  - reflexivity.
  - cbn [add_documents fold_left].
    rewrite extract_citations_total, add_citations_eq. apply IH.
Qed.

Lemma doc_citations_entries (documents : list document) :
  forall dc,
    NoDup (Dict.keys dc ++ map doc_name documents)%list ->
    fold_left (fun dc d => Dict.set dc (fst (doc_entry d)) (snd (doc_entry d)))
              documents dc
    = (dc ++ map doc_entry documents)%list.
Proof.
  induction documents as [|d rest IH]; intros dc H; simpl.
  - now rewrite app_nil_r.
  - rewrite dict_set_fresh.
    + rewrite IH.
      * now rewrite <- app_assoc.
      * rewrite dict_keys_app. simpl. rewrite <- app_assoc. exact H.
    + simpl in H. apply NoDup_remove_2 in H. intros Hin. apply H.
      rewrite in_app_iff. now left.
Qed.

(** ** One attribute dictionary per edge *)

Lemma add_edge_wf (G : Nx.DiGraph) (u v : string) (a : Nx.attrs) :
  NoDup (map fst (Nx.edges G)) -> NoDup (map fst (Nx.edges (Nx.add_edge G u v a))).
Proof. intros H. rewrite add_edge_edges. now apply edge_set_NoDup. Qed.

Lemma add_typed_wf (name : string) (G : Nx.DiGraph) (tk : string * string) :
  NoDup (map fst (Nx.edges G)) -> NoDup (map fst (Nx.edges (add_typed name G tk))).
Proof.
  intros H. unfold add_typed. apply add_edge_wf.
  destruct (negb (Nx.has_node G (snd tk))); [now rewrite add_node_edges | exact H].
Qed.

Lemma fold_wf (A : Type) (f : Nx.DiGraph -> A -> Nx.DiGraph) (l : list A) :
  (forall G x, NoDup (map fst (Nx.edges G)) -> NoDup (map fst (Nx.edges (f G x)))) ->
  forall G, NoDup (map fst (Nx.edges G)) ->
            NoDup (map fst (Nx.edges (fold_left f l G))).
Proof.
  intros Hf. induction l as [|x l IH]; intros G H; simpl; [exact H|].
  apply IH, Hf, H.
Qed.

Lemma add_document_wf (G : Nx.DiGraph) (d : document) :
  NoDup (map fst (Nx.edges G)) -> NoDup (map fst (Nx.edges (add_document G d))).
Proof.
  intros H. unfold add_document. apply fold_wf.
  - intros. now apply add_typed_wf.
  - now rewrite add_node_edges.
Qed.

Lemma add_shared_wf (G : Nx.DiGraph) (t : string * (string * string)) :
  NoDup (map fst (Nx.edges G)) -> NoDup (map fst (Nx.edges (add_shared G t))).
Proof. apply add_edge_wf. Qed.

(** ** The first loop when every node is new *)

Lemma add_typed_fresh (name : string) (G : Nx.DiGraph) (t s : string) :
  In name (Dict.keys (Nx.nodes G)) ->
  ~ In s (Dict.keys (Nx.nodes G)) ->
  ~ In (name, s) (map fst (Nx.edges G)) ->
  add_typed name G (t, s)
  = Nx.Graph (Nx.nodes G ++ [(s, [("type", t)])])%list
             (Nx.edges G ++ [((name, s), [])])%list.
Proof.
  intros Hname Hs He. unfold add_typed. cbn [fst snd].
  destruct (Nx.has_node G s) eqn:E.
  { apply has_node_In in E. contradiction. }
  cbn [negb].
  assert (Hn : Nx.nodes (Nx.add_node G s [("type", t)])
               = (Nx.nodes G ++ [(s, [("type", t)])])%list)
    by (now rewrite add_node_fresh).
  destruct (Nx.add_edge (Nx.add_node G s [("type", t)]) name s []) as [ns es] eqn:Ea.
  assert (E1 : ns = Nx.nodes (Nx.add_edge (Nx.add_node G s [("type", t)]) name s []))
    by now rewrite Ea.
  assert (E2 : es = Nx.edges (Nx.add_edge (Nx.add_node G s [("type", t)]) name s []))
    by now rewrite Ea.
  rewrite add_edge_nodes_present in E1.
  - rewrite add_edge_edges, add_node_edges in E2.
    rewrite (edge_get_None _ _ He) in E2.
    rewrite edge_set_fresh in E2 by exact He.
    subst. now rewrite Hn.
  - rewrite Hn, dict_keys_app, in_app_iff. now left.
  - rewrite Hn, dict_keys_app, in_app_iff. right. now left.
Qed.

Lemma add_typed_fold (name : string) (tks : list (string * string)) :
  forall G,
    In name (Dict.keys (Nx.nodes G)) ->
    NoDup (Dict.keys (Nx.nodes G) ++ map snd tks)%list ->
    (forall s, In s (map snd tks) -> ~ In (name, s) (map fst (Nx.edges G))) ->
    fold_left (add_typed name) tks G
    = Nx.Graph (Nx.nodes G ++ map (fun tk => (snd tk, [("type", fst tk)])) tks)%list
               (Nx.edges G ++ map (fun tk => ((name, snd tk), [])) tks)%list.
Proof.
  induction tks as [|[t s] tks IH]; intros G Hname Hnd He.
  - simpl. rewrite !app_nil_r. now destruct G.
  - cbn [fold_left]. simpl in Hnd.
    assert (Hs : ~ In s (Dict.keys (Nx.nodes G))).
    { apply NoDup_remove_2 in Hnd. intros H. apply Hnd. rewrite in_app_iff. now left. }
    rewrite add_typed_fresh; auto; [|apply He; now left].
    rewrite IH; cbn [Nx.nodes Nx.edges].
    + cbn [map fst snd]. rewrite <- !app_assoc. reflexivity.
    + rewrite dict_keys_app, in_app_iff. now left.
    + rewrite dict_keys_app. simpl. rewrite <- app_assoc. exact Hnd.
    + intros s' Hs'. rewrite map_app, in_app_iff. simpl. intros [H|[H|[]]].
      * revert H. apply He. now right.
      * injection H as <-. apply NoDup_remove_2 in Hnd. apply Hnd.
        rewrite in_app_iff. now right.
Qed.

Lemma doc_nodes_keys (d : document) :
  map fst (doc_nodes d) = doc_name d :: doc_keys d.
Proof.
  unfold doc_nodes, doc_keys, doc_typed_keys. cbn [map fst]. f_equal.
  rewrite map_map. cbn [fst]. apply typed_keys_snd.
Qed.

Lemma typed_edges_source (name u s : string) (tks : list (string * string)) :
  In (u, s) (map fst (map (fun tk : string * string => ((name, snd tk), @nil (string * string))) tks)) ->
  u = name.
Proof.
  induction tks as [|tk tks IH]; cbn [map fst In]; [contradiction|].
  intros [H|H]; [|exact (IH H)].
  exact (eq_sym (f_equal fst H)).
Qed.

Lemma doc_edges_typed (d : document) :
  doc_edges d = map (fun tk => ((doc_name d, snd tk), [])) (doc_typed_keys d).
Proof.
  unfold doc_edges, doc_keys, doc_typed_keys.
  now rewrite <- typed_keys_snd, map_map.
Qed.

Lemma add_document_fold (documents : list document) :
  forall G,
    NoDup (Dict.keys (Nx.nodes G)
           ++ flat_map (fun d => doc_name d :: doc_keys d) documents)%list ->
    (forall d s, In d documents -> ~ In (doc_name d, s) (map fst (Nx.edges G))) ->
    fold_left add_document documents G
    = Nx.Graph (Nx.nodes G ++ flat_map doc_nodes documents)%list
               (Nx.edges G ++ flat_map doc_edges documents)%list.
Proof.
  induction documents as [|d rest IH]; intros G Hnd He.
  - simpl. rewrite !app_nil_r. now destruct G.
  - cbn [fold_left flat_map] in *. unfold add_document at 2.
    assert (Hname : ~ In (doc_name d) (Dict.keys (Nx.nodes G))).
    { simpl in Hnd. apply NoDup_remove_2 in Hnd. intros H. apply Hnd.
      rewrite in_app_iff. now left. }
    assert (Hn : Nx.nodes (Nx.add_node G (doc_name d) [("type", "document")])
                 = (Nx.nodes G ++ [(doc_name d, [("type", "document")])])%list)
      by (now rewrite add_node_fresh).
    assert (Hnd' : NoDup ((Dict.keys (Nx.nodes G) ++ [doc_name d])
                          ++ doc_keys d
                          ++ flat_map (fun d => doc_name d :: doc_keys d) rest)%list).
    { rewrite <- app_assoc. exact Hnd. }
    rewrite add_typed_fold.
    + rewrite IH; cbn [Nx.nodes Nx.edges].
      * rewrite Hn, add_node_edges, doc_edges_typed. unfold doc_nodes.
        rewrite <- !app_assoc. reflexivity.
      * rewrite Hn, dict_keys_app. unfold Dict.keys at 2. rewrite map_map.
        change (map (fun x : string * string => fst (snd x, [("type", fst x)]))
                    (doc_typed_keys d))
          with (map snd (doc_typed_keys d)).
        unfold doc_typed_keys. rewrite typed_keys_snd. fold (doc_keys d).
        cbn [Dict.keys map fst]. rewrite <- (app_assoc _ (doc_keys d)).
        rewrite dict_keys_app. exact Hnd'.
      * intros d' s Hd'. rewrite add_node_edges, map_app, in_app_iff.
        intros [H|H]; [revert H; apply He; now right|].
        apply typed_edges_source in H.
        cbn [app] in Hnd. apply NoDup_remove_2 in Hnd. apply Hnd.
        rewrite in_app_iff. right. rewrite in_app_iff. right.
        apply in_flat_map. exists d'. split; [exact Hd'|]. left. exact H.
    + rewrite Hn, dict_keys_app, in_app_iff. right. now left.
    + rewrite Hn, dict_keys_app. unfold doc_typed_keys. rewrite typed_keys_snd.
      fold (doc_keys d). cbn [Dict.keys map fst].
      apply NoDup_app_remove_r with (l' := flat_map (fun d => doc_name d :: doc_keys d) rest).
      rewrite <- app_assoc. exact Hnd'.
    + intros s _. rewrite add_node_edges. apply He. now left.
Qed.

End GraphPhases.

Section GraphIndex.
Opaque CitationSpec.citations_of CitationAnalyzer.extract_citations.
Import Str CitationAnalyzer CitationSpec.

(** ** The second loop *)

Lemma index_document_eq (ctd : Dict.dict (list string))
  (e : string * Dict.dict (list string)) :
  index_document ctd e = fold_left (append_doc (fst e)) (keys_of (snd e)) ctd.
Proof.
  unfold index_document, keys_of. rewrite fold_left_flat_map.
  apply fold_left_ext. intros c x. rewrite fold_left_map. reflexivity.
Qed.

Lemma lookup_append_doc (name : string) (ctd : Dict.dict (list string)) (s k : string) :
  lookup (append_doc name ctd s) k
  = if String.eqb k s then (lookup ctd s ++ [name])%list else lookup ctd k.
Proof.
  unfold lookup, append_doc. destruct (String.eqb_spec k s) as [->|Hne].
  - destruct (Dict.get ctd s); now rewrite dict_get_set_same.
  - destruct (Dict.get ctd s); rewrite dict_get_set_other by congruence; reflexivity.
Qed.

Lemma append_doc_NoDup (name : string) (ctd : Dict.dict (list string)) (s : string) :
  NoDup (Dict.keys ctd) -> NoDup (Dict.keys (append_doc name ctd s)).
Proof.
  intros H. unfold append_doc. destruct (Dict.get ctd s); now apply dict_set_NoDup.
Qed.

Lemma lookup_append_docs (name : string) (ks : list string) (k : string) :
  NoDup ks ->
  forall ctd,
    lookup (fold_left (append_doc name) ks ctd) k
    = if mem k ks then (lookup ctd k ++ [name])%list else lookup ctd k.
Proof.
  induction ks as [|s ks IH]; intros Hnd ctd; simpl.
  - reflexivity.
  - inversion Hnd as [|? ? Hn Hd]; subst.
    rewrite IH by exact Hd. rewrite lookup_append_doc.
    destruct (String.eqb_spec k s) as [->|Hne]; simpl.
    + rewrite (proj2 (mem_false s ks) Hn). reflexivity.
    + reflexivity.
Qed.

Lemma lookup_index_documents (dcs : Dict.dict (Dict.dict (list string))) (k : string) :
  (forall e, In e dcs -> NoDup (keys_of (snd e))) ->
  forall ctd,
    lookup (fold_left index_document dcs ctd) k
    = (lookup ctd k ++ citers k dcs)%list.
Proof.
  unfold citers.
  induction dcs as [|e dcs IH]; intros Hnd ctd; simpl.
  - now rewrite app_nil_r.
  - rewrite IH by (intros; apply Hnd; now right).
    rewrite index_document_eq, lookup_append_docs by (apply Hnd; now left).
    destruct (mem k (keys_of (snd e))); simpl.
    + now rewrite <- app_assoc.
    + reflexivity.
Qed.

Lemma index_documents_NoDup (dcs : Dict.dict (Dict.dict (list string))) :
  forall ctd, NoDup (Dict.keys ctd) ->
              NoDup (Dict.keys (fold_left index_document dcs ctd)).
Proof.
  induction dcs as [|e dcs IH]; intros ctd H; simpl; [exact H|].
  apply IH. rewrite index_document_eq.
  generalize dependent ctd.
  induction (keys_of (snd e)) as [|s ks IHk]; intros ctd H; simpl; [exact H|].
  apply IHk. now apply append_doc_NoDup.
Qed.

(** The entries of [citation_to_docs]: each key with its citers. *)
Lemma index_documents_entry (dcs : Dict.dict (Dict.dict (list string)))
  (k : string) (l : list string) :
  (forall e, In e dcs -> NoDup (keys_of (snd e))) ->
  In (k, l) (index_documents dcs) -> l = citers k dcs.
Proof.
  intros Hnd Hin. unfold index_documents in *.
  apply dict_In_get in Hin; [|apply index_documents_NoDup; constructor].
  pose proof (lookup_index_documents dcs k Hnd []) as H.
  unfold lookup at 1 in H. rewrite Hin in H. exact H.
Qed.

Lemma index_documents_cited (dcs : Dict.dict (Dict.dict (list string))) (k : string) :
  (forall e, In e dcs -> NoDup (keys_of (snd e))) ->
  citers k dcs <> [] -> In (k, citers k dcs) (index_documents dcs).
Proof.
  intros Hnd Hne. unfold index_documents.
  pose proof (lookup_index_documents dcs k Hnd []) as H.
  unfold lookup at 1 in H. simpl in H.
  destruct (Dict.get (fold_left index_document dcs []) k) eqn:E.
  - apply dict_get_In in E. now rewrite <- H.
  - symmetry in H. contradiction.
Qed.

(** ** The third loop *)

Lemma connect_pairs_eq (citation : string) (citing_docs : list string) :
  forall G,
    connect_pairs citation citing_docs G
    = fold_left add_shared (map (pair citation) (pairs citing_docs)) G.
Proof.
  induction citing_docs as [|di later IH]; intros G; simpl.
  - reflexivity.
  - rewrite IH, map_app, fold_left_app. f_equal.
    rewrite map_map, fold_left_map. reflexivity.
Qed.

Lemma connect_eq (ctd : Dict.dict (list string)) (G : Nx.DiGraph) :
  fold_left connect ctd G = fold_left add_shared (co_citations ctd) G.
Proof.
  unfold co_citations. rewrite fold_left_flat_map.
  apply fold_left_ext. intros c [citation citing_docs]. unfold connect. cbn [fst snd].
  destruct (1 <? List.length citing_docs); [apply connect_pairs_eq | reflexivity].
Qed.

Lemma get_update_shared (d : Nx.attrs) (k : string) :
  Dict.get (Nx.update d [("shared", k)]) "shared" = Some k.
Proof. unfold Nx.update. simpl. apply dict_get_set_same. Qed.

(** After the third loop an edge that one of the added co-citations
    hits carries the key of one of them. *)
Lemma shared_edge_tagged (u v : string) (ts : list (string * (string * string))) :
  forall G,
    (exists k, In (k, (u, v)) ts) ->
    exists a k,
      Nx.edge_get (Nx.edges (fold_left add_shared ts G)) (u, v) = Some a
      /\ Dict.get a "shared" = Some k /\ In (k, (u, v)) ts.
Proof.
  induction ts as [|t ts IH] using rev_ind; intros G [k Hk]; [contradiction|].
  rewrite fold_left_app. cbn [fold_left]. destruct t as [kt [x y]].
  unfold add_shared at 1. cbn [fst snd]. rewrite add_edge_edges.
  destruct (Nx.edge_eqb (x, y) (u, v)) eqn:E.
  - apply edge_eqb_eq in E. injection E as -> ->.
    rewrite edge_get_set_same. do 2 eexists. split; [reflexivity|].
    split; [apply get_update_shared|]. rewrite in_app_iff. right. now left.
  - assert (Hne : (x, y) <> (u, v)).
    { intros H. rewrite H, edge_eqb_refl in E. discriminate. }
    rewrite edge_get_set_other by exact Hne.
    apply in_app_or in Hk. destruct Hk as [Hk|[Hk|[]]]; [|congruence].
    destruct (IH G (ex_intro _ k Hk)) as [a [k' [H1 [H2 H3]]]].
    exists a, k'. split; [exact H1|]. split; [exact H2|].
    rewrite in_app_iff. now left.
Qed.

(** After the third loop an edge carries the key of the last of the
    added co-citations that hit it. *)
Lemma shared_edge_last (u v k : string) (t1 t2 : list (string * (string * string))) :
  forall G,
    (forall k0, In (k0, (u, v)) t2 -> k0 = k) ->
    exists a,
      Nx.edge_get (Nx.edges (fold_left add_shared (t1 ++ (k, (u, v)) :: t2) G)) (u, v)
      = Some a
      /\ Dict.get a "shared" = Some k.
Proof.
  induction t2 as [|t t2 IH] using rev_ind; intros G Hlast.
  - rewrite fold_left_app. cbn [fold_left]. unfold add_shared at 1. cbn [fst snd].
    rewrite add_edge_edges, edge_get_set_same. eexists. split; [reflexivity|].
    apply get_update_shared.
  - replace (t1 ++ (k, (u, v)) :: t2 ++ [t])%list
      with ((t1 ++ (k, (u, v)) :: t2) ++ [t])%list
      by (rewrite <- app_assoc; reflexivity).
    rewrite fold_left_app. cbn [fold_left]. destruct t as [kt [x y]].
    unfold add_shared at 1. cbn [fst snd]. rewrite add_edge_edges.
    destruct (Nx.edge_eqb (x, y) (u, v)) eqn:E.
    + apply edge_eqb_eq in E. injection E as -> ->.
      rewrite edge_get_set_same. eexists. split; [reflexivity|].
      rewrite (Hlast kt); [apply get_update_shared|].
      rewrite in_app_iff. right. now left.
    + assert (Hne : (x, y) <> (u, v)).
      { intros H. rewrite H, edge_eqb_refl in E. discriminate. }
      rewrite edge_get_set_other by exact Hne.
      apply IH. intros k0 H0. apply Hlast. rewrite in_app_iff. now left.
Qed.

(** The last element of a list that satisfies a test. *)
Lemma last_true_split (A : Type) (f : A -> bool) (l : list A) :
  (exists x, In x l /\ f x = true) ->
  exists l1 y l2,
    l = (l1 ++ y :: l2)%list /\ f y = true /\ forall z, In z l2 -> f z = false.
Proof.
  induction l as [|a l IH]; intros [x [Hin Hx]]; [contradiction|].
  destruct (existsb f l) eqn:E.
  - apply existsb_exists in E. destruct (IH E) as [l1 [y [l2 [-> [Hy Hl2]]]]].
    exists (a :: l1), y, l2. split; [reflexivity|]. split; assumption.
  - assert (Hall : forall z, In z l -> f z = false).
    { intros z Hz. destruct (f z) eqn:Ez; [|reflexivity].
      rewrite <- E. symmetry. apply existsb_exists. now exists z. }
    exists [], a, l. split; [reflexivity|]. split; [|exact Hall].
    destruct Hin as [->|Hin]; [exact Hx|]. rewrite (Hall x Hin) in Hx. discriminate.
Qed.

(** A list of pairs whose first components split splits with them. *)
Lemma map_fst_split (A B : Type) (l : list (A * B)) (l1 l2 : list A) (y : A) :
  map fst l = (l1 ++ y :: l2)%list ->
  exists c1 b c2,
    l = (c1 ++ (y, b) :: c2)%list /\ map fst c1 = l1 /\ map fst c2 = l2.
Proof.
  revert l. induction l1 as [|a l1 IH]; intros l H.
  - destruct l as [|[a0 b0] l]; [discriminate|]. cbn [map fst app] in H.
    exists [], b0, l. split; [|split; [reflexivity|]].
    + cbn [app]. f_equal. f_equal. exact (f_equal (hd y) H).
    + exact (f_equal (@tl A) H).
  - destruct l as [|[a0 b0] l]; [discriminate|]. cbn [map fst app] in H.
    destruct (IH l (f_equal (@tl A) H)) as [c1 [b [c2 [-> [E1 E2]]]]].
    exists ((a0, b0) :: c1), b, c2. split; [reflexivity|]. split; [|exact E2].
    cbn [map fst]. rewrite E1. f_equal. exact (f_equal (hd y) H).
Qed.

Lemma pairs_In (l : list string) (x y : string) :
  In (x, y) (pairs l) -> In x l /\ In y l.
Proof.
  induction l as [|a l IH]; simpl; [contradiction|].
  rewrite in_app_iff. intros [H|H].
  - apply in_map_iff in H. destruct H as [b [E Hb]]. injection E as -> ->. tauto.
  - apply IH in H. tauto.
Qed.

Lemma pairs_before (l1 l2 l3 : list string) (x y : string) :
  In (x, y) (pairs (l1 ++ x :: l2 ++ y :: l3)).
Proof.
  induction l1 as [|a l1 IH]; simpl; rewrite in_app_iff.
  - left. apply in_map. rewrite in_app_iff. right. now left.
  - now right.
Qed.

End GraphIndex.

Section GraphClaims.
Opaque CitationSpec.citations_of CitationAnalyzer.extract_citations.
Import Str CitationAnalyzer CitationSpec.

Lemma NoDup_app_disjoint (A : Type) (l l' : list A) (a : A) :
  NoDup (l ++ l') -> In a l -> ~ In a l'.
Proof.
  induction l as [|x l IH]; simpl; intros H Hin; [contradiction|].
  inversion H as [|? ? Hn Hd]; subst. destruct Hin as [->|Hin].
  - intros Ha. apply Hn. rewrite in_app_iff. now right.
  - now apply IH.
Qed.

Lemma doc_entries_NoDup (documents : list document) :
  forall e, In e (map doc_entry documents) -> NoDup (keys_of (snd e)).
Proof.
  intros e H. apply in_map_iff in H. destruct H as [d [<- _]]. apply keys_of_NoDup.
Qed.

(** A name among the citers of [k] is the name of a document that
    cites [k]. *)
Lemma citers_In (documents : list document) (k name : string) :
  In name (citers k (map doc_entry documents)) ->
  exists d, In d documents /\ doc_name d = name /\ In k (doc_keys d).
Proof.
  unfold citers. rewrite in_map_iff. intros [e [<- He]].
  apply filter_In in He. destruct He as [He Hm].
  apply in_map_iff in He. destruct He as [d [<- Hd]].
  exists d. split; [exact Hd|]. split; [reflexivity|]. now apply mem_In.
Qed.

Lemma citers_app (k : string) (l1 l2 : Dict.dict (Dict.dict (list string))) :
  citers k (l1 ++ l2)%list = (citers k l1 ++ citers k l2)%list.
Proof. unfold citers. now rewrite filter_app, map_app. Qed.

Lemma citers_cons_citing (k : string) (d : document)
  (l : Dict.dict (Dict.dict (list string))) :
  In k (doc_keys d) -> citers k (doc_entry d :: l) = doc_name d :: citers k l.
Proof.
  intros H. unfold citers. cbn [filter map snd fst doc_entry].
  fold (doc_keys d). now rewrite (proj2 (mem_In k (doc_keys d)) H).
Qed.

(** The result of the builder, loop by loop. *)
Lemma build_citation_network_eq (documents : list document) :
  NoDup (map doc_name documents) ->
  build_citation_network documents
  = Some (fold_left add_shared
            (co_citations (index_documents (map doc_entry documents)))
            (fold_left add_document documents Nx.empty)).
Proof.
  intros Hnd. unfold build_citation_network.
  rewrite add_documents_eq, doc_citations_entries by exact Hnd.
  now rewrite connect_eq.
Qed.

Lemma processing_order_eq (documents : list document) :
  NoDup (map doc_name documents) ->
  processing_order documents = Dict.keys (index_documents (map doc_entry documents)).
Proof.
  intros Hnd. unfold processing_order.
  rewrite add_documents_eq, doc_citations_entries by exact Hnd. reflexivity.
Qed.

(** Two documents of the list that both cite [k] are both among the
    citers of [k], in the order of the list. *)
Lemma citers_of_shared (l1 l2 l3 : list document) (d1 d2 : document) (k : string) :
  In k (doc_keys d1) -> In k (doc_keys d2) ->
  exists c1 c2 c3,
    citers k (map doc_entry (l1 ++ d1 :: l2 ++ d2 :: l3))
    = (c1 ++ doc_name d1 :: c2 ++ doc_name d2 :: c3)%list.
Proof.
  intros Hk1 Hk2. rewrite map_app. cbn [map]. rewrite map_app. cbn [map].
  rewrite citers_app, citers_cons_citing, citers_app, citers_cons_citing by assumption.
  eauto.
Qed.

Lemma shared_keys_In (d1 d2 : document) (k : string) :
  In k (shared_keys d1 d2) <-> In k (doc_keys d1) /\ In k (doc_keys d2).
Proof.
  unfold shared_keys. generalize (doc_keys d1) (doc_keys d2). intros ks1 ks2.
  rewrite filter_In, mem_In. reflexivity.
Qed.

(** A co-citation of the names of two documents is under a key that
    both cite. *)
Lemma co_citation_shared (documents : list document) (d1 d2 : document) (k : string)
  (l : list string) :
  NoDup (map doc_name documents) ->
  In d1 documents -> In d2 documents ->
  In (k, l) (index_documents (map doc_entry documents)) ->
  In (doc_name d1, doc_name d2) (pairs l) ->
  In k (shared_keys d1 d2).
Proof.
  intros Hnd Hin1 Hin2 He Hp.
  apply index_documents_entry in He; [|apply doc_entries_NoDup]. subst l.
  apply pairs_In in Hp. destruct Hp as [Hu Hv].
  apply citers_In in Hu. destruct Hu as [e1 [He1 [Hn1 Hc1]]].
  apply citers_In in Hv. destruct Hv as [e2 [He2 [Hn2 Hc2]]].
  assert (e1 = d1) by (eapply NoDup_map_eq; eauto). subst e1.
  assert (e2 = d2) by (eapply NoDup_map_eq; eauto). subst e2.
  apply (proj2 (shared_keys_In d1 d2 k)). split; assumption.
Qed.

(** C2, amended.  For every list of documents with pairwise distinct
    names, and every two of them that share at least one citation key,
    the graph returned by [build_citation_network] has exactly one edge
    from the earlier document to the later one, however many keys they
    share.  The edge is tagged with the shared key that the third loop
    takes last: every other shared key comes earlier among the keys of
    [citation_to_docs], and no key that comes later is shared. *)
Theorem co_citation_single_edge (documents l1 l2 l3 : list document)
  (d1 d2 : document) (k : string) :
  documents = (l1 ++ d1 :: l2 ++ d2 :: l3)%list ->
  NoDup (map doc_name documents) ->
  In k (doc_keys d1) -> In k (doc_keys d2) ->
  exists G a k',
    build_citation_network documents = Some G
    /\ Nx.edges_from_to G (doc_name d1) (doc_name d2)
       = [((doc_name d1, doc_name d2), a)]
    /\ Dict.get a "shared" = Some k'
    /\ In k' (shared_keys d1 d2)
    /\ exists earlier later,
         processing_order documents = (earlier ++ k' :: later)%list
         /\ (forall k0, In k0 (shared_keys d1 d2) -> In k0 (earlier ++ [k'])%list)
         /\ (forall k0, In k0 later -> ~ In k0 (shared_keys d1 d2)).
Proof.
  intros Hdocs Hnd Hk1 Hk2.
  rewrite (build_citation_network_eq documents Hnd).
  rewrite (processing_order_eq documents Hnd).
  set (dcs := map doc_entry documents).
  set (G1 := fold_left add_document documents Nx.empty).
  assert (Hkeys : forall e, In e dcs -> NoDup (keys_of (snd e)))
    by apply doc_entries_NoDup.
  assert (Hin1 : In d1 documents).
  { rewrite Hdocs, in_app_iff. right. now left. }
  assert (Hin2 : In d2 documents).
  { rewrite Hdocs, in_app_iff. right. right. rewrite in_app_iff. right. now left. }
  (* a shared key is a key of [citation_to_docs], with both names among its citers *)
  assert (Hshared : forall k0, In k0 (shared_keys d1 d2) ->
            In (k0, citers k0 dcs) (index_documents dcs)
            /\ In (doc_name d1, doc_name d2) (pairs (citers k0 dcs))
            /\ (1 <? List.length (citers k0 dcs)) = true).
  { intros k0 H0. destruct (proj1 (shared_keys_In d1 d2 k0) H0) as [H01 H02].
    destruct (citers_of_shared l1 l2 l3 d1 d2 k0 H01 H02) as [c1 [c2 [c3 Hc]]].
    rewrite <- Hdocs in Hc. fold dcs in Hc. split; [|split].
    - apply index_documents_cited; [exact Hkeys|]. rewrite Hc. destruct c1; discriminate.
    - rewrite Hc. apply pairs_before.
    - rewrite Hc. apply Nat.ltb_lt. rewrite length_app. cbn [List.length].
      rewrite length_app. cbn [List.length]. lia. }
  assert (Hk : In k (shared_keys d1 d2)).
  { apply (proj2 (shared_keys_In d1 d2 k)). split; assumption. }
  (* the last key of [citation_to_docs] that the two documents share *)
  destruct (last_true_split string (fun k0 => mem k0 (shared_keys d1 d2))
              (Dict.keys (index_documents dcs)))
    as [earlier [k' [later [Hsplit [Hk' Hlater]]]]].
  { exists k. split; [|now apply mem_In].
    unfold Dict.keys. apply in_map_iff. exists (k, citers k dcs).
    split; [reflexivity|]. exact (proj1 (Hshared k Hk)). }
  apply mem_In in Hk'.
  destruct (map_fst_split _ _ _ _ _ _ Hsplit) as [e1 [l' [e2 [Hctd [_ He2]]]]].
  destruct (Hshared k' Hk') as [Hentry [Hpair Hlen]].
  assert (El : l' = citers k' dcs).
  { apply index_documents_entry; [exact Hkeys|].
    rewrite Hctd, in_app_iff. right. now left. }
  subst l'.
  destruct (in_split _ _ (in_map (pair k') _ _ Hpair)) as [p1 [p2 Hp]].
  assert (Hco : co_citations (index_documents dcs)
                = ((co_citations e1 ++ p1)
                   ++ (k', (doc_name d1, doc_name d2)) :: (p2 ++ co_citations e2))%list).
  { rewrite Hctd. unfold co_citations. rewrite flat_map_app. cbn [flat_map fst snd].
    rewrite Hlen, Hp, <- !app_assoc. reflexivity. }
  destruct (shared_edge_last (doc_name d1) (doc_name d2) k'
              (co_citations e1 ++ p1) (p2 ++ co_citations e2) G1)
    as [a [Hget Htag]].
  { intros k0 H0. apply in_app_or in H0. destruct H0 as [H0|H0].
    - assert (H1 : In (k0, (doc_name d1, doc_name d2))
                      (map (pair k') (pairs (citers k' dcs)))).
      { rewrite Hp, in_app_iff. right. now right. }
      apply in_map_iff in H1. destruct H1 as [p [E _]].
      exact (eq_sym (f_equal fst E)).
    - exfalso. unfold co_citations in H0. apply in_flat_map in H0.
      destruct H0 as [[k1 l] [He Hpl]]. cbn [fst snd] in Hpl.
      destruct (1 <? List.length l); [|contradiction].
      apply in_map_iff in Hpl. destruct Hpl as [p [E Hpl]].
      assert (Ek : k1 = k0) by exact (f_equal fst E).
      assert (Ep : p = (doc_name d1, doc_name d2)) by exact (f_equal snd E).
      subst k1 p.
      assert (Hs : In k0 (shared_keys d1 d2)).
      { apply (co_citation_shared documents d1 d2 k0 l Hnd Hin1 Hin2); [|exact Hpl].
        fold dcs. rewrite Hctd, in_app_iff. right. now right. }
      assert (Hl : In k0 later).
      { rewrite <- He2. apply in_map_iff. exists (k0, l). now split. }
      apply Hlater in Hl. apply mem_false in Hl. contradiction. }
  rewrite <- Hco in Hget.
  exists (fold_left add_shared (co_citations (index_documents dcs)) G1), a, k'.
  split; [reflexivity|]. split; [|split; [exact Htag|split; [exact Hk'|]]].
  - apply edges_from_to_one; [|exact Hget].
    apply fold_wf; [intros; now apply add_shared_wf|].
    unfold G1. apply fold_wf; [intros; now apply add_document_wf | constructor].
  - exists earlier, later. split; [exact Hsplit|]. split.
    + intros k0 H0. pose proof (proj1 (Hshared k0 H0)) as He.
      assert (Hin : In k0 (Dict.keys (index_documents dcs))).
      { unfold Dict.keys. apply in_map_iff. exists (k0, citers k0 dcs). now split. }
      rewrite Hsplit in Hin. rewrite in_app_iff in *. cbn [In] in *.
      destruct Hin as [Hin|[Hin|Hin]]; [now left | right; now left |].
      apply Hlater in Hin. apply mem_false in Hin. contradiction.
    + intros k0 H0. apply mem_false. now apply Hlater.
Qed.

Lemma interleaved_NoDup (documents : list document) :
  NoDup (map doc_name documents) ->
  NoDup (flat_map doc_keys documents) ->
  (forall d d', In d documents -> In d' documents -> ~ In (doc_name d) (doc_keys d')) ->
  NoDup (flat_map (fun d => doc_name d :: doc_keys d) documents).
Proof.
  induction documents as [|d rest IH]; cbn [map flat_map]; intros Hn Hk Hx.
  - constructor.
  - inversion Hn as [|? ? Hn1 Hn2]; subst.
    assert (Hrest : NoDup (flat_map (fun d => doc_name d :: doc_keys d) rest)).
    { apply IH; [exact Hn2 | exact (NoDup_app_remove_l _ _ Hk) |].
      intros a b Ha Hb. apply Hx; now right. }
    cbn [app]. constructor.
    + rewrite in_app_iff. intros [H|H].
      * revert H. apply Hx; now left.
      * apply in_flat_map in H. destruct H as [d' [Hd' [H|H]]].
        -- apply Hn1. rewrite <- H. now apply in_map.
        -- revert H. apply Hx; [now left | now right].
    + apply NoDup_app; [exact (NoDup_app_remove_r _ _ Hk) | exact Hrest |].
      intros k Hkd H. apply in_flat_map in H. destruct H as [d' [Hd' [H|H]]].
      * revert Hkd. rewrite <- H. apply Hx; [now right | now left].
      * apply (NoDup_app_disjoint _ _ _ k Hk Hkd).
        apply in_flat_map. exists d'. now split.
Qed.

Lemma citers_at_most_one (documents : list document) (k : string) :
  NoDup (flat_map doc_keys documents) ->
  List.length (citers k (map doc_entry documents)) <= 1.
Proof.
  induction documents as [|d rest IH]; cbn [map flat_map]; intros H.
  - unfold citers. cbn [filter map List.length]. lia.
  - destruct (mem k (doc_keys d)) eqn:E.
    + apply mem_In in E. rewrite citers_cons_citing by exact E.
      replace (citers k (map doc_entry rest)) with (@nil string); [simpl; lia|].
      symmetry. destruct (citers k (map doc_entry rest)) as [|n l] eqn:Ec; [reflexivity|].
      exfalso. assert (Hn : In n (citers k (map doc_entry rest))) by (rewrite Ec; now left).
      apply citers_In in Hn. destruct Hn as [d' [Hd' [_ Hk']]].
      apply (NoDup_app_disjoint _ _ _ k H E). apply in_flat_map. exists d'. now split.
    + unfold citers in *. cbn [filter map snd fst doc_entry]. fold (doc_keys d).
      rewrite E. apply IH. exact (NoDup_app_remove_l _ _ H).
Qed.

Lemma co_citations_none (documents : list document) :
  NoDup (flat_map doc_keys documents) ->
  co_citations (index_documents (map doc_entry documents)) = [].
Proof.
  intros H. unfold co_citations.
  assert (Hall : forall e, In e (index_documents (map doc_entry documents)) ->
                           (1 <? List.length (snd e)) = false).
  { intros [k l] He. apply index_documents_entry in He; [|apply doc_entries_NoDup].
    subst l. cbn [snd]. apply Nat.ltb_ge. now apply citers_at_most_one. }
  induction (index_documents (map doc_entry documents)) as [|e l IH]; [reflexivity|].
  cbn [flat_map]. rewrite (Hall e (or_introl eq_refl)). cbn [app].
  apply IH. intros e' He'. apply Hall. now right.
Qed.

Lemma doc_nodes_length (documents : list document) :
  List.length (flat_map doc_nodes documents)
  = List.length documents
    + list_sum (map (fun d => List.length (doc_keys d)) documents).
Proof.
  induction documents as [|d rest IH]; cbn [flat_map map list_sum List.length];
    [reflexivity|].
  rewrite length_app, IH.
  assert (E : List.length (doc_nodes d) = S (List.length (doc_keys d))).
  { rewrite <- (length_map fst), doc_nodes_keys. reflexivity. }
  rewrite E. unfold list_sum. cbn [fold_right]. fold (list_sum (map (fun d0 => List.length (doc_keys d0)) rest)). lia.
Qed.

Lemma doc_edges_In (name u v : string) (a : Nx.attrs) (ks : list string) :
  In ((u, v), a) (map (fun k : string => ((name, k), @nil (string * string))) ks) ->
  u = name /\ In v ks.
Proof.
  induction ks as [|k ks IH]; cbn [map In]; [contradiction|].
  intros [H|H].
  - split.
    + exact (eq_sym (f_equal (fun x => fst (fst x)) H)).
    + left. exact (f_equal (fun x => snd (fst x)) H).
  - destruct (IH H) as [Hu Hv]. split; [exact Hu | now right].
Qed.

Lemma doc_edges_untagged (documents : list document) :
  filter is_co_citation (flat_map doc_edges documents) = [].
Proof.
  induction documents as [|d rest IH]; cbn [flat_map]; [reflexivity|].
  rewrite filter_app, IH, app_nil_r. unfold doc_edges.
  induction (doc_keys d) as [|k l IHl]; [reflexivity | exact IHl].
Qed.

(** C4, amended.  For every list of N documents with pairwise distinct
    names, no citation key shared between two documents and no document
    named like a citation key of the list, [build_citation_network]
    returns the graph whose nodes are, document by document, the
    document node and one node per distinct citation key of the document
    (N plus the sum of the per-document key counts in all), whose edges
    lead from each document to its keys, and which has no co-citation
    edge and no edge between two documents. *)
Theorem citation_graph_without_sharing (documents : list document) :
  NoDup (map doc_name documents) ->
  NoDup (flat_map doc_keys documents) ->
  (forall d d', In d documents -> In d' documents -> ~ In (doc_name d) (doc_keys d')) ->
  exists G,
    build_citation_network documents = Some G
    /\ Nx.nodes G = flat_map doc_nodes documents
    /\ Nx.edges G = flat_map doc_edges documents
    /\ List.length (Nx.nodes G)
       = List.length documents
         + list_sum (map (fun d => List.length (doc_keys d)) documents)
    /\ filter is_co_citation (Nx.edges G) = []
    /\ (forall u v a, In ((u, v), a) (Nx.edges G) ->
                      In u (map doc_name documents) /\ ~ In v (map doc_name documents)).
Proof.
  intros Hn Hk Hx.
  rewrite (build_citation_network_eq documents Hn).
  rewrite (co_citations_none documents Hk). cbn [fold_left].
  rewrite add_document_fold.
  - cbn [Nx.nodes Nx.edges app]. eexists. split; [reflexivity|].
    cbn [Nx.nodes Nx.edges]. split; [reflexivity|]. split; [reflexivity|].
    split; [apply doc_nodes_length|]. split; [apply doc_edges_untagged|].
    intros u v a H. apply in_flat_map in H. destruct H as [d [Hd H]].
    unfold doc_edges in H. apply doc_edges_In in H. destruct H as [Eu Hv].
    subst u. split.
    + apply in_map. exact Hd.
    + intros H. apply (proj1 (in_map_iff doc_name documents v)) in H.
      destruct H as [d' [E' Hd']].
      apply (Hx d' d Hd' Hd). rewrite E'. exact Hv.
  - cbn [Nx.nodes Nx.empty Dict.keys map app]. now apply interleaved_NoDup.
  - intros d s _ [].
Qed.

Transparent CitationSpec.citations_of CitationAnalyzer.extract_citations.

(** C2, as stated, fails: two documents that share two citation keys
    are joined by one edge, which carries the key met last. *)
Lemma two_sharing_one_edge :
  shared_keys (Document "1" Scenario.twice_cited [("filename", "a.txt")])
              (Document "2" "Relying on AIR 1950 SC 27 and (2020) 5 SCC 123."
                        [("filename", "b.txt")])
  = ["case_citations:(2020) 5 SCC 123"; "case_citations:AIR 1950 SC 27"]
  /\ exists G,
       build_citation_network Scenario.two_sharing = Some G
       /\ Nx.edges_between G "a.txt" "b.txt"
          = [(("a.txt", "b.txt"), [("shared", "case_citations:AIR 1950 SC 27")])].
Proof.
  split; [vm_compute; reflexivity|].
  eexists. split; vm_compute; reflexivity.
Qed.

Lemma co_citation_single_edge_witness :
  exists G a k',
    build_citation_network Scenario.two_sharing = Some G
    /\ Nx.edges_from_to G "a.txt" "b.txt" = [(("a.txt", "b.txt"), a)]
    /\ Dict.get a "shared" = Some k'
    /\ In k' (shared_keys (Document "1" Scenario.twice_cited [("filename", "a.txt")])
                          (Document "2" "Relying on AIR 1950 SC 27 and (2020) 5 SCC 123."
                                    [("filename", "b.txt")]))
    /\ exists earlier later,
         processing_order Scenario.two_sharing = (earlier ++ k' :: later)%list
         /\ (forall k0,
               In k0 (shared_keys
                        (Document "1" Scenario.twice_cited [("filename", "a.txt")])
                        (Document "2" "Relying on AIR 1950 SC 27 and (2020) 5 SCC 123."
                                  [("filename", "b.txt")])) ->
               In k0 (earlier ++ [k'])%list)
         /\ (forall k0,
               In k0 later ->
               ~ In k0 (shared_keys
                          (Document "1" Scenario.twice_cited [("filename", "a.txt")])
                          (Document "2" "Relying on AIR 1950 SC 27 and (2020) 5 SCC 123."
                                    [("filename", "b.txt")]))).
Proof.
  apply (co_citation_single_edge Scenario.two_sharing []
           [] [] (Document "1" Scenario.twice_cited [("filename", "a.txt")])
           (Document "2" "Relying on AIR 1950 SC 27 and (2020) 5 SCC 123."
                     [("filename", "b.txt")])
           "case_citations:AIR 1950 SC 27").
  - reflexivity.
  - vm_compute. repeat constructor; simpl; intuition discriminate.
  - vm_compute. tauto.
  - vm_compute. tauto.
Defined.

(** C4, as stated, fails: two documents with distinct names that share
    no citation key, the first named like the key the second cites, give
    a graph of two nodes, not of 2 + 1, and an edge between the two
    document nodes. *)
Lemma named_like_key_collides :
  NoDup (map doc_name Scenario.named_like_key)
  /\ NoDup (flat_map doc_keys Scenario.named_like_key)
  /\ List.length Scenario.named_like_key
     + list_sum (map (fun d => List.length (doc_keys d)) Scenario.named_like_key) = 3
  /\ exists G,
       build_citation_network Scenario.named_like_key = Some G
       /\ List.length (Nx.nodes G) = 2
       /\ Nx.edges G = [(("b.txt", "case_citations:(2020) 5 SCC 123"), [])]
       /\ map fst (Nx.nodes G) = map doc_name Scenario.named_like_key.
Proof.
  split; [vm_compute; repeat constructor; simpl; intuition discriminate|].
  split; [vm_compute; repeat constructor; simpl; intuition discriminate|].
  split; [vm_compute; reflexivity|].
  eexists. split; [vm_compute; reflexivity|].
  split; [reflexivity|]. split; reflexivity.
Qed.

Lemma citation_graph_without_sharing_witness :
  exists G,
    build_citation_network Scenario.two_apart = Some G
    /\ Nx.nodes G = flat_map doc_nodes Scenario.two_apart
    /\ Nx.edges G = flat_map doc_edges Scenario.two_apart
    /\ List.length (Nx.nodes G)
       = List.length Scenario.two_apart
         + list_sum (map (fun d => List.length (doc_keys d)) Scenario.two_apart)
    /\ filter is_co_citation (Nx.edges G) = []
    /\ (forall u v a, In ((u, v), a) (Nx.edges G) ->
                      In u (map doc_name Scenario.two_apart)
                      /\ ~ In v (map doc_name Scenario.two_apart)).
Proof.
  apply (citation_graph_without_sharing Scenario.two_apart).
  - vm_compute. repeat constructor; simpl; intuition discriminate.
  - vm_compute. repeat constructor; simpl; intuition discriminate.
  - intros d d' Hd Hd'. vm_compute in Hd, Hd'.
    destruct Hd as [<-|[<-|[]]]; destruct Hd' as [<-|[<-|[]]];
      vm_compute; intuition discriminate.
Defined.

End GraphClaims.

(* ================================================================== *)
(** * legal_document_comparison.py: the sequence ratio *)

Section RatioFacts.
Import Difflib.

Lemma scan_is_no_index (blo bhi : nat) (rest_a : seq_t) :
  forall i j2len best, scan_is [] blo bhi rest_a i j2len best = best.
Proof.
  induction rest_a as [|ai rest IH]; intros i j2len best; cbn [scan_is b2j_get scan_js].
  - reflexivity.
  - apply IH.
Qed.

(** Nothing of a sequence matches the empty sequence. *)
Lemma blocks_empty_b (a : seq_t) :
  get_matching_blocks a [] = [(List.length a, 0, 0)].
Proof.
  unfold get_matching_blocks. cbn [List.length blocks_in].
  unfold find_longest_match. change (chain_b []) with (@nil (ascii * list nat)).
  rewrite scan_is_no_index. cbn [fst snd size Nat.sub extend_left].
  rewrite Nat.sub_0_r.
  assert (E : extend_right (List.length a) a [] (List.length a) 0 (0, 0, 0) = (0, 0, 0)).
  { destruct (List.length a) as [|n]; [reflexivity|].
    cbn [extend_right Nat.add]. rewrite Nat.ltb_irrefl, andb_false_r. reflexivity. }
  rewrite E. reflexivity.
Qed.

Lemma blocks_empty_a (b : seq_t) :
  get_matching_blocks [] b = [(0, List.length b, 0)].
Proof. reflexivity. Qed.

Lemma ratio_empty_b (a : seq_t) :
  a <> [] -> (ratio a [] == 0)%Q.
Proof.
  intros H. unfold ratio. rewrite blocks_empty_b. cbn [map list_sum fold_right size snd].
  destruct a as [|c a]; [contradiction|]. cbn [List.length Nat.add].
  change (inject_Z (Z.of_nat (0 + 0))) with 0%Q.
  unfold Qdiv. now rewrite Qmult_0_r, Qmult_0_l.
Qed.

Lemma ratio_empty_a (b : seq_t) :
  b <> [] -> (ratio [] b == 0)%Q.
Proof.
  intros H. unfold ratio. rewrite blocks_empty_a. cbn [map list_sum fold_right size snd].
  destruct b as [|c b]; [contradiction|]. cbn [List.length Nat.add].
  change (inject_Z (Z.of_nat (0 + 0))) with 0%Q.
  unfold Qdiv. now rewrite Qmult_0_r, Qmult_0_l.
Qed.

Lemma ratio_with_empty (a : seq_t) : (ratio a [] == ratio [] a)%Q.
Proof.
  destruct a as [|c a]; [reflexivity|].
  rewrite ratio_empty_b, ratio_empty_a by discriminate. reflexivity.
Qed.

End RatioFacts.

Section RatioClaims.
Import LegalDocumentComparison.

(** C8, as stated, fails: the similarity of "tide" and "diet" is 25, that
    of "diet" and "tide" is 50. *)
Lemma tide_diet_asymmetric :
  (_calculate_similarity "tide" "diet" == 25)%Q
  /\ (_calculate_similarity "diet" "tide" == 50)%Q
  /\ ~ (_calculate_similarity "tide" "diet" == _calculate_similarity "diet" "tide")%Q.
Proof.
  split; [vm_compute; reflexivity|]. split; [vm_compute; reflexivity|].
  vm_compute. discriminate.
Qed.

(** C8, amended.  [_calculate_similarity(A, B)] equals
    [_calculate_similarity(B, A)] when one of the two texts is empty or
    when the two are equal; it need not for other texts. *)
Theorem similarity_symmetric_cases (text1 text2 : string) :
  text1 = "" \/ text2 = "" \/ text1 = text2 ->
  (_calculate_similarity text1 text2 == _calculate_similarity text2 text1)%Q.
Proof.
  unfold _calculate_similarity. intros [H|[H|H]]; subst.
  - cbn [list_ascii_of_string]. now rewrite ratio_with_empty.
  - cbn [list_ascii_of_string]. now rewrite ratio_with_empty.
  - reflexivity.
Qed.

Lemma similarity_symmetric_cases_witness :
  (_calculate_similarity "governing law" "" == _calculate_similarity "" "governing law")%Q.
Proof.
  apply (similarity_symmetric_cases "governing law" ""). right. left. reflexivity.
Defined.

End RatioClaims.

(* ================================================================== *)
(** * document_comparison.py: the word-set similarity *)

Section FloatFacts.
Local Open Scope Z_scope.
Import Float.






End FloatFacts.

Section WordSetFacts.
Import Str DocumentComparison SimilaritySpec.

Lemma word_pattern_compiles :
  Re.compile "\b\w+\b" = Some (Re.Pattern Re.no_flags 0 word_re).
Proof. vm_compute. reflexivity. Qed.

Lemma word_set_eq (text : string) :
  word_set text
  = Some (nodup string_dec
            (map CitationAnalyzer.match_string
               (map (Re.found_of (lower text) 0)
                  (Re.scan Re.no_flags word_re None (lower text) 0 0)))).
Proof.
  unfold word_set, Re.findall. rewrite word_pattern_compiles. reflexivity.
Qed.

Lemma is_word_lower (c : ascii) : is_word (lower_char c) = is_word c.
Proof.
  destruct c as [[] [] [] [] [] [] [] []]; reflexivity.
Qed.

Lemma has_word_char_lower (text : string) :
  has_word_char (lower text) = has_word_char text.
Proof.
  induction text as [|c t IH]; cbn [lower has_word_char]; [reflexivity|].
  now rewrite is_word_lower, IH.
Qed.

(** In a text without word characters the pattern [\b\w+\b] matches
    nowhere. *)
Lemma scan_no_word (t : string) :
  has_word_char t = false ->
  forall (p : option ascii) (i : nat),
    match p with Some c => is_word c | None => false end = false ->
    Re.scan Re.no_flags word_re p t i 0 = [].
Proof.
  induction t as [|c t IH]; intros Ht p i Hp.
  - cbn [Re.scan]. unfold Re.match_here, word_re. cbn [Re.m].
    unfold Re.word_before, Re.word_after. cbn [Re.prev Re.rest].
    rewrite Hp. reflexivity.
  - cbn [has_word_char] in Ht. apply orb_false_iff in Ht. destruct Ht as [Hc Ht].
    cbn [Re.scan]. unfold Re.match_here, word_re. cbn [Re.m].
    unfold Re.word_before, Re.word_after. cbn [Re.prev Re.rest].
    rewrite Hp, Hc. cbn [xorb]. apply IH; assumption.
Qed.

Lemma word_set_no_word (text : string) :
  has_word_char text = false -> word_set text = Some [].
Proof.
  intros H. rewrite word_set_eq, scan_no_word; [reflexivity | | reflexivity].
  now rewrite has_word_char_lower.
Qed.


End WordSetFacts.
Section WordRun.
Import Str Re DocumentComparison SimilaritySpec.
Variable k : state -> option state.
Hypothesis Hk :
  forall s, word_before s = true -> word_after s = false -> exists e, k s = Some e.



End WordRun.

Section WordFound.
Import Str Re DocumentComparison SimilaritySpec.






End WordFound.

Section RoundFacts.
Import Float SimilaritySpec.








End RoundFacts.

Section SimilarityClaims.
Import Str DocumentComparison SimilaritySpec.



End SimilarityClaims.

(* ================================================================== *)
(** * Further properties: extraction and similarity *)

Section MoreExtraction.
Import Str CitationAnalyzer CitationSpec.

(** For every text [extract_citations] returns the four categories, in
    the order of the pattern table; no list has a repeated citation, and
    the graph keys [type:citation] built from the result are pairwise
    distinct, also across categories. *)
Theorem extract_citations_categories (text : string) :
  exists citations,
    extract_citations text = Some citations
    /\ Dict.keys citations
       = ["case_citations"; "statute_citations"; "constitution_citations";
          "section_citations"]
    /\ (forall category l, In (category, l) citations -> NoDup l)
    /\ NoDup (keys_of citations).
Proof.
  exists (citations_of text). split; [apply extract_citations_total|].
  pose proof (keys_of_NoDup text) as Hk.
  destruct (citations_of_shape text) as [u1 [u2 [u3 [u4 [E [H1 [H2 [H3 H4]]]]]]]].
  rewrite E in *. split; [reflexivity|]. split; [|exact Hk].
  intros category l [H|[H|[H|[H|[]]]]];
    pose proof (f_equal snd H) as Hl; cbn [snd] in Hl; subst l; assumption.
Qed.

End MoreExtraction.

Section MoreSimilarity.
Import Str DocumentComparison SimilaritySpec.

Lemma filter_split_length (A : Type) (f : A -> bool) (l : list A) :
  List.length (filter f l) + List.length (filter (fun x => negb (f x)) l)
  = List.length l.
Proof.
  induction l as [|x l IH]; simpl; [reflexivity|].
  destruct (f x); simpl; lia.
Qed.

Lemma intersection_length_sym (l1 l2 : list string) :
  NoDup l1 -> NoDup l2 ->
  List.length (intersection l1 l2) = List.length (intersection l2 l1).
Proof.
  intros H1 H2. unfold intersection. apply Permutation_length.
  apply NoDup_Permutation; try (apply NoDup_filter; assumption).
  intros x. rewrite !filter_In, !mem_In. tauto.
Qed.

Lemma union_length (l1 l2 : list string) :
  List.length (union l1 l2) + List.length (intersection l2 l1)
  = List.length l1 + List.length l2.
Proof.
  unfold union, intersection. rewrite length_app.
  pose proof (filter_split_length string (fun w => mem w l1) l2). lia.
Qed.

Lemma word_set_NoDup (text : string) (words : list string) :
  word_set text = Some words -> NoDup words.
Proof.
  rewrite word_set_eq. intros H.
  apply (f_equal (fun o => match o with Some l => l | None => [] end)) in H.
  cbv beta iota in H. subst words. apply NoDup_nodup.
Qed.

(** The word-set similarity does not depend on the order of its two
    arguments. *)
Theorem text_similarity_symmetric (text1 text2 : string) :
  _calculate_text_similarity text1 text2 = _calculate_text_similarity text2 text1.
Proof.
  unfold _calculate_text_similarity.
  destruct (word_set text1) as [w1|] eqn:E1; destruct (word_set text2) as [w2|] eqn:E2;
    try reflexivity.
  pose proof (word_set_NoDup _ _ E1) as N1. pose proof (word_set_NoDup _ _ E2) as N2.
  pose proof (intersection_length_sym w1 w2 N1 N2) as Hi.
  pose proof (union_length w1 w2) as U1. pose proof (union_length w2 w1) as U2.
  assert (Hu : List.length (union w1 w2) = List.length (union w2 w1)) by lia.
  rewrite Hi, Hu. reflexivity.
Qed.

Lemma filter_all (A : Type) (f : A -> bool) (l : list A) :
  (forall a, In a l -> f a = true) -> filter f l = l.
Proof.
  induction l as [|x l IH]; intros H; [reflexivity|]. cbn [filter].
  rewrite (H x (or_introl eq_refl)). f_equal. apply IH. intros a Ha. apply H. now right.
Qed.

Lemma filter_none (A : Type) (f : A -> bool) (l : list A) :
  (forall a, In a l -> f a = false) -> filter f l = [].
Proof.
  induction l as [|x l IH]; intros H; [reflexivity|]. cbn [filter].
  rewrite (H x (or_introl eq_refl)). apply IH. intros a Ha. apply H. now right.
Qed.

Lemma intersection_self (l : list string) : intersection l l = l.
Proof.
  unfold intersection. apply filter_all. intros a Ha. now apply mem_In.
Qed.

Lemma union_self (l : list string) : union l l = l.
Proof.
  unfold union. rewrite filter_none; [apply app_nil_r|].
  intros a Ha. apply negb_false_iff. now apply mem_In.
Qed.

Lemma rhe_exact (c b : Z) : (0 < b)%Z -> Float.rhe (c * b) b = c.
Proof.
  intros Hb. unfold Float.rhe. rewrite Z.div_mul, Z.mod_mul by lia.
  simpl. destruct b; lia.
Qed.

Lemma true_div_same (u : Z) :
  (0 < u)%Z -> Float.true_div u u = Float.Double (2 ^ 52) 52.
Proof.
  intros Hu. unfold Float.true_div.
  replace (52 + Z.log2 u - Z.log2 u)%Z with 52%Z by lia.
  replace (u * 2 ^ 52 <? 2 ^ 52 * u)%Z with false
    by (symmetry; apply Z.ltb_ge; lia).
  rewrite (Z.mul_comm u), rhe_exact by exact Hu. reflexivity.
Qed.

Lemma round_one (u : Z) :
  (0 < u)%Z -> (Float.value (Float.round (Float.true_div u u) 4) == 1)%Q.
Proof.
  intros Hu. rewrite (true_div_same u Hu). vm_compute. reflexivity.
Qed.

(** The similarity of a text with itself is 1 when its word set is not
    empty, and 0 when it is (so for a text without word characters). *)
Theorem text_similarity_self (text : string) :
  exists words r,
    word_set text = Some words
    /\ _calculate_text_similarity text text = Some r
    /\ (r == match words with [] => 0 | _ :: _ => 1 end)%Q
    /\ (has_word_char text = false -> words = []).
Proof.
  destruct (word_set text) as [words|] eqn:E;
    [|rewrite word_set_eq in E; discriminate].
  exists words. unfold _calculate_text_similarity. rewrite E.
  rewrite intersection_self, union_self.
  eexists. split; [reflexivity|]. split; [reflexivity|]. split.
  - destruct words as [|w l]; [reflexivity|].
    cbn [List.length Nat.ltb Nat.leb]. apply round_one. lia.
  - intros H. rewrite (word_set_no_word text H) in E.
    apply (f_equal (fun o => match o with Some l => l | None => [] end)) in E.
    now subst.
Qed.

End MoreSimilarity.

Section MoreRatio.
Import LegalDocumentComparison.

(** Two empty texts are 100 per cent similar for the sequence ratio; an
    empty text and a text that is not empty are 0 per cent similar, in
    either order. *)
Theorem similarity_with_empty (text : string) :
  text <> "" ->
  (_calculate_similarity "" "" == 100)%Q
  /\ (_calculate_similarity text "" == 0)%Q
  /\ (_calculate_similarity "" text == 0)%Q.
Proof.
  intros H. unfold _calculate_similarity. split; [reflexivity|].
  assert (Hl : list_ascii_of_string text <> []).
  { destruct text; [contradiction | discriminate]. }
  cbn [list_ascii_of_string]. split.
  - rewrite ratio_empty_b by exact Hl. reflexivity.
  - rewrite ratio_empty_a by exact Hl. reflexivity.
Qed.

Lemma similarity_with_empty_witness :
  (_calculate_similarity "" "" == 100)%Q
  /\ (_calculate_similarity "term" "" == 0)%Q
  /\ (_calculate_similarity "" "term" == 0)%Q.
Proof. apply (similarity_with_empty "term"). discriminate. Defined.

End MoreRatio.

(* ================================================================== *)
(** * Further properties: the citation graph *)

Section MoreGraph.
Import Str CitationAnalyzer CitationSpec GraphSpec.
Opaque CitationSpec.citations_of CitationAnalyzer.extract_citations.

(** ** The names of the nodes *)

Lemma add_node_keys (G : Nx.DiGraph) (s : string) (a : Nx.attrs) (n : string) :
  In n (Dict.keys (Nx.nodes (Nx.add_node G s a)))
  <-> n = s \/ In n (Dict.keys (Nx.nodes G)).
Proof.
  unfold Nx.add_node. destruct (Dict.get (Nx.nodes G) s); cbn [Nx.nodes];
    apply dict_keys_set.
Qed.

Lemma add_edge_keys (G : Nx.DiGraph) (u v : string) (a : Nx.attrs) (n : string) :
  In n (Dict.keys (Nx.nodes (Nx.add_edge G u v a)))
  <-> n = u \/ n = v \/ In n (Dict.keys (Nx.nodes G)).
Proof.
  unfold Nx.add_edge. cbn [Nx.nodes].
  destruct (Nx.has_node G u) eqn:Eu.
  - apply has_node_In in Eu.
    destruct (Nx.has_node G v) eqn:Ev.
    + apply has_node_In in Ev. intuition (subst; assumption).
    + cbn [Nx.nodes]. rewrite dict_keys_set. intuition (subst; assumption).
  - match goal with |- context [Nx.has_node ?H v] => destruct (Nx.has_node H v) eqn:Ev end.
    + apply has_node_In in Ev. cbn [Nx.nodes] in *. rewrite dict_keys_set in *.
      intuition (subst; auto).
    + cbn [Nx.nodes]. rewrite !dict_keys_set. intuition.
Qed.

Lemma add_typed_keys (name : string) (G : Nx.DiGraph) (tk : string * string) (n : string) :
  In n (Dict.keys (Nx.nodes (add_typed name G tk)))
  <-> n = name \/ n = snd tk \/ In n (Dict.keys (Nx.nodes G)).
Proof.
  unfold add_typed. rewrite add_edge_keys.
  destruct (Nx.has_node G (snd tk)) eqn:E; cbn [negb].
  - tauto.
  - rewrite add_node_keys. tauto.
Qed.

Lemma add_typed_fold_keys (name : string) (tks : list (string * string)) (n : string) :
  forall G,
    In name (Dict.keys (Nx.nodes G)) ->
    (In n (Dict.keys (Nx.nodes (fold_left (add_typed name) tks G)))
     <-> In n (Dict.keys (Nx.nodes G)) \/ In n (map snd tks)).
Proof.
  induction tks as [|tk tks IH]; intros G Hname; cbn [fold_left map In].
  - tauto.
  - rewrite IH by (apply add_typed_keys; now left).
    rewrite add_typed_keys. intuition (subst; auto).
Qed.

Lemma add_document_keys (G : Nx.DiGraph) (d : document) (n : string) :
  In n (Dict.keys (Nx.nodes (add_document G d)))
  <-> In n (Dict.keys (Nx.nodes G)) \/ n = doc_name d \/ In n (doc_keys d).
Proof.
  unfold add_document. rewrite add_typed_fold_keys by (apply add_node_keys; now left).
  rewrite add_node_keys. unfold doc_typed_keys, doc_keys. rewrite typed_keys_snd. tauto.
Qed.

Lemma add_documents_keys (documents : list document) (n : string) :
  forall G,
    In n (Dict.keys (Nx.nodes (fold_left add_document documents G)))
    <-> In n (Dict.keys (Nx.nodes G))
        \/ In n (map doc_name documents) \/ In n (flat_map doc_keys documents).
Proof.
  induction documents as [|d rest IH]; intros G; cbn [fold_left map flat_map In].
  - tauto.
  - rewrite IH, add_document_keys, in_app_iff. intuition (subst; auto).
Qed.

Lemma add_shared_fold_keys (ts : list (string * (string * string))) (n : string) :
  forall G,
    In n (Dict.keys (Nx.nodes (fold_left add_shared ts G)))
    <-> In n (Dict.keys (Nx.nodes G))
        \/ exists t, In t ts /\ (n = fst (snd t) \/ n = snd (snd t)).
Proof.
  induction ts as [|t ts IH]; intros G; cbn [fold_left In].
  - split; [tauto | intros [H|[t [[] _]]]; exact H].
  - rewrite IH.
    assert (E : forall m, In m (Dict.keys (Nx.nodes (add_shared G t)))
                <-> m = fst (snd t) \/ m = snd (snd t) \/ In m (Dict.keys (Nx.nodes G))).
    { intros m. unfold add_shared. destruct t as [k [x y]]. cbn [fst snd].
      apply add_edge_keys. }
    rewrite E. split.
    + intros [[H|[H|H]]|[t' [Ht' H]]].
      * right. exists t. split; [now left | now left].
      * right. exists t. split; [now left | now right].
      * now left.
      * right. exists t'. split; [now right | exact H].
    + intros [H|[t' [[<-|Ht'] H]]].
      * left. tauto.
      * left. tauto.
      * right. exists t'. now split.
Qed.

(** The end points of a co-citation are names of documents that cite
    its key, the first before the second in the list of citers. *)
Lemma co_citations_sound (documents : list document) (k x y : string) :
  In (k, (x, y)) (co_citations (index_documents (map doc_entry documents))) ->
  (exists d, In d documents /\ doc_name d = x /\ In k (doc_keys d))
  /\ (exists d, In d documents /\ doc_name d = y /\ In k (doc_keys d)).
Proof.
  unfold co_citations. intros H. apply in_flat_map in H.
  destruct H as [[k0 l] [He Hp]]. cbn [fst snd] in Hp.
  destruct (1 <? List.length l); [|contradiction].
  apply (proj1 (in_map_iff _ _ _)) in Hp. destruct Hp as [p [E Hp]].
  pose proof (f_equal fst E) as Ek. pose proof (f_equal snd E) as Exy.
  cbn [fst snd] in Ek, Exy. subst k0 p.
  apply index_documents_entry in He; [|apply doc_entries_NoDup]. subst l.
  apply pairs_In in Hp. destruct Hp as [Hx Hy].
  split; apply citers_In; assumption.
Qed.

Lemma network_eq (documents : list document) :
  NoDup (map doc_name documents) ->
  build_citation_network documents = Some (network documents).
Proof. apply build_citation_network_eq. Qed.

Lemma network_keys (documents : list document) (n : string) :
  In n (Dict.keys (Nx.nodes (network documents)))
  <-> In n (map doc_name documents) \/ In n (flat_map doc_keys documents).
Proof.
  unfold network.
  rewrite add_shared_fold_keys, add_documents_keys. cbn [Nx.nodes Nx.empty Dict.keys map In].
  split.
  - intros [[[]|H]|[t [Ht H]]]; [exact H|].
    destruct t as [k [x y]]. cbn [fst snd] in H.
    destruct (co_citations_sound documents k x y Ht) as [[d1 [H1 [E1 _]]] [d2 [H2 [E2 _]]]].
    left. destruct H as [->| ->]; [rewrite <- E1 | rewrite <- E2]; now apply in_map.
  - intros H. left. now right.
Qed.

(** For documents with pairwise distinct names the nodes of the graph
    are the names of the documents and the citation keys of the
    documents, and nothing else. *)
Theorem citation_graph_nodes (documents : list document) (n : string) :
  NoDup (map doc_name documents) ->
  exists G,
    build_citation_network documents = Some G
    /\ (In n (Dict.keys (Nx.nodes G))
        <-> In n (map doc_name documents) \/ In n (flat_map doc_keys documents)).
Proof.
  intros Hnd. exists (network documents). split; [now apply network_eq|].
  apply network_keys.
Qed.

(** ** The edges *)

Lemma add_edge_edge_keys (G : Nx.DiGraph) (u v : string) (a : Nx.attrs) (f : Nx.edge) :
  In f (map fst (Nx.edges (Nx.add_edge G u v a)))
  <-> f = (u, v) \/ In f (map fst (Nx.edges G)).
Proof. rewrite add_edge_edges. apply edge_set_keys. Qed.

Lemma add_typed_edge_keys (name : string) (G : Nx.DiGraph) (tk : string * string)
  (f : Nx.edge) :
  In f (map fst (Nx.edges (add_typed name G tk)))
  <-> f = (name, snd tk) \/ In f (map fst (Nx.edges G)).
Proof.
  unfold add_typed. rewrite add_edge_edge_keys.
  destruct (negb (Nx.has_node G (snd tk))); [rewrite add_node_edges|]; tauto.
Qed.

Lemma add_typed_fold_edge_keys (name : string) (tks : list (string * string))
  (f : Nx.edge) :
  forall G,
    In f (map fst (Nx.edges (fold_left (add_typed name) tks G)))
    <-> In f (map fst (Nx.edges G)) \/ (fst f = name /\ In (snd f) (map snd tks)).
Proof.
  induction tks as [|tk tks IH]; intros G; cbn [fold_left map In].
  - tauto.
  - rewrite IH, add_typed_edge_keys. destruct f as [u v]. cbn [fst snd]. split.
    + intros [[E|H]|H]; [|tauto|tauto].
      right. split; [now apply (f_equal fst) in E | left; now apply (f_equal snd) in E].
    + intros [H|[Hu [Hv|Hv]]]; [tauto | | tauto].
      left. left. cbn in Hu, Hv. now subst.
Qed.

Lemma add_document_edge_keys (G : Nx.DiGraph) (d : document) (f : Nx.edge) :
  In f (map fst (Nx.edges (add_document G d)))
  <-> In f (map fst (Nx.edges G)) \/ (fst f = doc_name d /\ In (snd f) (doc_keys d)).
Proof.
  unfold add_document. rewrite add_typed_fold_edge_keys, add_node_edges.
  unfold doc_typed_keys, doc_keys. rewrite typed_keys_snd. tauto.
Qed.

Lemma add_documents_edge_keys (documents : list document) (f : Nx.edge) :
  forall G,
    In f (map fst (Nx.edges (fold_left add_document documents G)))
    <-> In f (map fst (Nx.edges G))
        \/ exists d, In d documents /\ fst f = doc_name d /\ In (snd f) (doc_keys d).
Proof.
  induction documents as [|d rest IH]; intros G; cbn [fold_left In].
  - split; [tauto | intros [H|[d [[] _]]]; exact H].
  - rewrite IH, add_document_edge_keys. split.
    + intros [[H|H]|[d' [Hd' H]]].
      * now left.
      * right. exists d. split; [now left | exact H].
      * right. exists d'. split; [now right | exact H].
    + intros [H|[d' [[<-|Hd'] H]]].
      * left. now left.
      * left. now right.
      * right. exists d'. now split.
Qed.

Lemma add_shared_fold_edge_keys (ts : list (string * (string * string))) (f : Nx.edge) :
  forall G,
    In f (map fst (Nx.edges (fold_left add_shared ts G)))
    <-> In f (map fst (Nx.edges G)) \/ In f (map snd ts).
Proof.
  induction ts as [|t ts IH]; intros G; cbn [fold_left map In].
  - tauto.
  - rewrite IH.
    assert (E : In f (map fst (Nx.edges (add_shared G t)))
                <-> f = snd t \/ In f (map fst (Nx.edges G))).
    { unfold add_shared. rewrite add_edge_edge_keys.
      destruct t as [k [x y]]. cbn [fst snd]. tauto. }
    rewrite E. intuition (subst; auto).
Qed.

(** ** The pairs of citing documents *)

Lemma pairs_split (l : list string) (x y : string) :
  In (x, y) (pairs l) -> exists l1 l2 l3, l = (l1 ++ x :: l2 ++ y :: l3)%list.
Proof.
  induction l as [|a later IH]; cbn [pairs]; [intros []|].
  rewrite in_app_iff. intros [H|H].
  - apply (proj1 (in_map_iff _ _ _)) in H. destruct H as [z [E Hz]].
    pose proof (f_equal fst E) as E1. pose proof (f_equal snd E) as E2.
    cbn [fst snd] in E1, E2. subst a z.
    destruct (in_split _ _ Hz) as [l2 [l3 ->]].
    exists [], l2, l3. reflexivity.
  - destruct (IH H) as [l1 [l2 [l3 ->]]].
    exists (a :: l1), l2, l3. reflexivity.
Qed.

Lemma citers_cons (k : string) (e : string * Dict.dict (list string))
  (l : Dict.dict (Dict.dict (list string))) :
  citers k (e :: l)
  = if mem k (keys_of (snd e)) then fst e :: citers k l else citers k l.
Proof. unfold citers. cbn [filter]. destruct (mem k (keys_of (snd e))); reflexivity. Qed.

Lemma citers_split (k : string) (documents : list document) :
  forall (l1 : list string) (x : string) (r : list string),
    citers k (map doc_entry documents) = (l1 ++ x :: r)%list ->
    exists D1 d D2,
      documents = (D1 ++ d :: D2)%list
      /\ doc_name d = x /\ In k (doc_keys d)
      /\ citers k (map doc_entry D1) = l1
      /\ citers k (map doc_entry D2) = r.
Proof.
  induction documents as [|d0 rest IH]; intros l1 x r; cbn [map].
  - unfold citers. cbn [filter map]. destruct l1; discriminate.
  - rewrite citers_cons. cbn [doc_entry fst snd].
    destruct (mem k (keys_of (citations_of (doc_text d0)))) eqn:Em.
    + destruct l1 as [|a l1]; cbn [app]; intros E.
      * exists [], d0, rest.
        pose proof (f_equal (fun l => hd x l) E) as Eh.
        pose proof (f_equal (@tl string) E) as Et. cbn [hd tl] in Eh, Et.
        split; [reflexivity|]. split; [exact Eh|].
        split; [now apply mem_In|]. split; [reflexivity | exact Et].
      * pose proof (f_equal (fun l => hd x l) E) as Eh.
        pose proof (f_equal (@tl string) E) as Et. cbn [hd tl] in Eh, Et.
        destruct (IH _ _ _ Et) as [D1 [d [D2 [-> [Hn [Hk [H1 H2]]]]]]].
        exists (d0 :: D1), d, D2.
        split; [reflexivity|]. split; [exact Hn|]. split; [exact Hk|].
        split; [|exact H2].
        cbn [map]. rewrite citers_cons. cbn [doc_entry fst snd].
        rewrite Em, H1, Eh. reflexivity.
    + intros E. destruct (IH _ _ _ E) as [D1 [d [D2 [-> [Hn [Hk [H1 H2]]]]]]].
      exists (d0 :: D1), d, D2.
      split; [reflexivity|]. split; [exact Hn|]. split; [exact Hk|].
      split; [|exact H2].
      cbn [map]. rewrite citers_cons. cbn [doc_entry fst snd].
      rewrite Em. exact H1.
Qed.

(** A co-citation of the third loop joins two documents that both cite
    its key, the first one earlier in the list of documents. *)
Lemma co_citations_ordered (documents : list document) (k x y : string) :
  In (k, (x, y)) (co_citations (index_documents (map doc_entry documents))) ->
  exists l1 d1 l2 d2 l3,
    documents = (l1 ++ d1 :: l2 ++ d2 :: l3)%list
    /\ doc_name d1 = x /\ doc_name d2 = y
    /\ In k (doc_keys d1) /\ In k (doc_keys d2).
Proof.
  unfold co_citations. intros H. apply in_flat_map in H.
  destruct H as [[k0 l] [He Hp]]. cbn [fst snd] in Hp.
  destruct (1 <? List.length l); [|contradiction].
  apply (proj1 (in_map_iff _ _ _)) in Hp. destruct Hp as [p [E Hp]].
  pose proof (f_equal fst E) as Ek. pose proof (f_equal snd E) as Exy.
  cbn [fst snd] in Ek, Exy. subst k0 p.
  apply index_documents_entry in He; [|apply doc_entries_NoDup]. subst l.
  destruct (pairs_split _ _ _ Hp) as [c1 [c2 [c3 Ec]]].
  destruct (citers_split k documents _ _ _ Ec) as [D1 [d1 [D2 [-> [N1 [K1 [_ E2]]]]]]].
  destruct (citers_split k D2 _ _ _ E2) as [D2' [d2 [D3 [-> [N2 [K2 _]]]]]].
  exists D1, d1, D2', d2, D3.
  split; [reflexivity|]. split; [exact N1|]. split; [exact N2|].
  split; [exact K1 | exact K2].
Qed.

Lemma citers_not_citing (k : string) (documents : list document) :
  (forall d, In d documents -> ~ In k (doc_keys d)) ->
  citers k (map doc_entry documents) = [].
Proof.
  induction documents as [|d rest IH]; intros H; [reflexivity|].
  cbn [map]. rewrite citers_cons. cbn [doc_entry fst snd].
  replace (mem k (keys_of (citations_of (doc_text d)))) with false.
  - apply IH. intros d' Hd'. apply H. now right.
  - symmetry. apply mem_false. apply (H d). now left.
Qed.

Lemma co_citations_complete (l1 l2 l3 : list document) (d1 d2 : document) (k : string) :
  In k (doc_keys d1) -> In k (doc_keys d2) ->
  In (k, (doc_name d1, doc_name d2))
     (co_citations (index_documents (map doc_entry (l1 ++ d1 :: l2 ++ d2 :: l3)%list))).
Proof.
  intros K1 K2. set (documents := (l1 ++ d1 :: l2 ++ d2 :: l3)%list).
  assert (Ec : citers k (map doc_entry documents)
               = (citers k (map doc_entry l1)
                  ++ doc_name d1 :: citers k (map doc_entry l2)
                  ++ doc_name d2 :: citers k (map doc_entry l3))%list).
  { unfold documents. rewrite map_app. cbn [map]. rewrite map_app. cbn [map].
    rewrite citers_app, (citers_cons_citing k d1) by exact K1.
    rewrite citers_app, (citers_cons_citing k d2) by exact K2. reflexivity. }
  unfold co_citations. apply in_flat_map.
  exists (k, citers k (map doc_entry documents)). split.
  - apply index_documents_cited; [apply doc_entries_NoDup|].
    rewrite Ec. destruct (citers k (map doc_entry l1)); discriminate.
  - cbn [fst snd].
    replace (1 <? List.length (citers k (map doc_entry documents))) with true.
    + apply in_map. rewrite Ec. apply pairs_before.
    + symmetry. apply Nat.ltb_lt. rewrite Ec.
      rewrite length_app. cbn [List.length]. rewrite length_app. cbn [List.length]. lia.
Qed.

(** For documents with pairwise distinct names there is an edge from
    [u] to [v] exactly when [u] is a document and [v] one of its
    citation keys, or [u] and [v] are two documents that share a
    citation key, [u] the earlier one in the list. *)
Theorem citation_graph_edges (documents : list document) (u v : string) :
  NoDup (map doc_name documents) ->
  exists G,
    build_citation_network documents = Some G
    /\ (In (u, v) (map fst (Nx.edges G))
        <-> (exists d, In d documents /\ doc_name d = u /\ In v (doc_keys d))
            \/ (exists k l1 d1 l2 d2 l3,
                   documents = (l1 ++ d1 :: l2 ++ d2 :: l3)%list
                   /\ doc_name d1 = u /\ doc_name d2 = v
                   /\ In k (doc_keys d1) /\ In k (doc_keys d2))).
Proof.
  intros Hnd. rewrite (build_citation_network_eq documents Hnd).
  eexists. split; [reflexivity|].
  rewrite add_shared_fold_edge_keys, add_documents_edge_keys.
  cbn [Nx.edges Nx.empty map In fst snd]. split.
  - intros [[[]|[d [Hd [Eu Hv]]]]|H].
    + left. exists d. split; [exact Hd|]. split; [now symmetry | exact Hv].
    + right. apply (proj1 (in_map_iff _ _ _)) in H. destruct H as [[k [x y]] [E Ht]].
      cbn [snd] in E. pose proof (f_equal fst E) as Ex. pose proof (f_equal snd E) as Ey.
      cbn [fst snd] in Ex, Ey. subst x y.
      destruct (co_citations_ordered documents k u v Ht)
        as [l1 [d1 [l2 [d2 [l3 H]]]]].
      exists k, l1, d1, l2, d2, l3. exact H.
  - intros [[d [Hd [Eu Hv]]]|[k [l1 [d1 [l2 [d2 [l3 [E [E1 [E2 [K1 K2]]]]]]]]]]].
    + left. right. exists d. split; [exact Hd|]. split; [now symmetry | exact Hv].
    + right. apply in_map_iff. exists (k, (u, v)). split; [reflexivity|].
      rewrite E, <- E1, <- E2. now apply co_citations_complete.
Qed.

(** ** The attributes of the edges *)

Lemma edge_set_In (es : list (Nx.edge * Nx.attrs)) (e f : Nx.edge) (a b : Nx.attrs) :
  In (f, b) (Nx.edge_set es e a) -> (f = e /\ b = a) \/ In (f, b) es.
Proof.
  induction es as [|[g c] t IH]; cbn [Nx.edge_set In].
  - intros [E|[]]. left.
    split; [now apply (f_equal fst) in E | now apply (f_equal snd) in E].
  - destruct (Nx.edge_eqb e g) eqn:Eg; cbn [In].
    + apply edge_eqb_eq in Eg. subst g. intros [E|H]; [|tauto].
      left. split; [now apply (f_equal fst) in E | now apply (f_equal snd) in E].
    + intros [E|H]; [tauto|]. destruct (IH H); tauto.
Qed.

Lemma edge_get_In (es : list (Nx.edge * Nx.attrs)) (e : Nx.edge) (a : Nx.attrs) :
  Nx.edge_get es e = Some a -> In (e, a) es.
Proof.
  induction es as [|[g c] t IH]; cbn [Nx.edge_get In]; [discriminate|].
  destruct (Nx.edge_eqb e g) eqn:Eg.
  - apply edge_eqb_eq in Eg. subst g. intros E. left.
    apply (f_equal (fun o => match o with Some x => x | None => c end)) in E.
    cbv beta iota in E. now subst.
  - intros H. right. auto.
Qed.

(** What holds of every edge before [add_edge], and of the updated
    attributes of the edge it sets, holds of every edge after it. *)
Lemma add_edge_attrs (P : Nx.edge -> Nx.attrs -> Prop) (G : Nx.DiGraph)
  (u v : string) (attr : Nx.attrs) :
  (forall e a, In (e, a) (Nx.edges G) -> P e a) ->
  (forall d, (d = [] \/ In ((u, v), d) (Nx.edges G)) -> P (u, v) (Nx.update d attr)) ->
  forall e a, In (e, a) (Nx.edges (Nx.add_edge G u v attr)) -> P e a.
Proof.
  intros HG Hnew e a. rewrite add_edge_edges. intros H.
  apply edge_set_In in H. destruct H as [[-> ->]|H]; [|auto].
  apply Hnew. destruct (Nx.edge_get (Nx.edges G) (u, v)) eqn:E.
  - right. now apply edge_get_In.
  - now left.
Qed.

Lemma add_typed_untagged (name : string) (G : Nx.DiGraph) (tk : string * string) :
  (forall e a, In (e, a) (Nx.edges G) -> a = []) ->
  forall e a, In (e, a) (Nx.edges (add_typed name G tk)) -> a = [].
Proof.
  intros HG. unfold add_typed.
  apply (add_edge_attrs (fun _ a => a = [])).
  - destruct (negb (Nx.has_node G (snd tk))); [rewrite add_node_edges|]; exact HG.
  - intros d [->|H]; [reflexivity|]. cbn [Nx.update fold_left].
    destruct (negb (Nx.has_node G (snd tk))); [rewrite add_node_edges in H|];
      exact (HG _ _ H).
Qed.

Lemma add_documents_untagged (documents : list document) :
  forall G,
    (forall e a, In (e, a) (Nx.edges G) -> a = []) ->
    forall e a, In (e, a) (Nx.edges (fold_left add_document documents G)) -> a = [].
Proof.
  induction documents as [|d rest IH]; intros G HG; cbn [fold_left]; [exact HG|].
  apply IH. unfold add_document.
  generalize (doc_typed_keys d). intros tks.
  assert (H0 : forall e a, In (e, a) (Nx.edges (Nx.add_node G (doc_name d) [("type", "document")])) -> a = []).
  { rewrite add_node_edges. exact HG. }
  revert H0. generalize (Nx.add_node G (doc_name d) [("type", "document")]).
  induction tks as [|tk tks IHt]; intros G0 H0; cbn [fold_left]; [exact H0|].
  apply IHt. now apply add_typed_untagged.
Qed.

Lemma add_shared_fold_attrs (T ts : list (string * (string * string))) :
  (forall t, In t ts -> In t T) ->
  forall G,
    (forall e a, In (e, a) (Nx.edges G) ->
                 a = [] \/ exists k, a = [("shared", k)] /\ In (k, e) T) ->
    forall e a, In (e, a) (Nx.edges (fold_left add_shared ts G)) ->
                a = [] \/ exists k, a = [("shared", k)] /\ In (k, e) T.
Proof.
  induction ts as [|t ts IH]; intros Hin G HG; cbn [fold_left]; [exact HG|].
  apply IH; [intros t' Ht'; apply Hin; now right|].
  unfold add_shared.
  apply (add_edge_attrs
           (fun e a => a = [] \/ exists k, a = [("shared", k)] /\ In (k, e) T));
    [exact HG|].
  intros d Hd. right. exists (fst t). split.
  - assert (Ed : d = [] \/ exists k, d = [("shared", k)]).
    { destruct Hd as [->|Hd]; [now left|].
      destruct (HG _ _ Hd) as [->|[k [-> _]]]; [now left | right; now exists k]. }
    destruct Ed as [->|[k ->]]; reflexivity.
  - specialize (Hin t (or_introl eq_refl)).
    destruct t as [k [x y]]. exact Hin.
Qed.

(** For documents with pairwise distinct names an edge either has no
    attribute, or its only attribute is [shared], and then its value is
    a citation key that both end points cite, the source being the
    earlier of the two documents. *)
Theorem citation_graph_shared_attribute (documents : list document)
  (u v : string) (a : Nx.attrs) :
  NoDup (map doc_name documents) ->
  exists G,
    build_citation_network documents = Some G
    /\ (In ((u, v), a) (Nx.edges G) ->
        a = []
        \/ exists k l1 d1 l2 d2 l3,
             a = [("shared", k)]
             /\ documents = (l1 ++ d1 :: l2 ++ d2 :: l3)%list
             /\ doc_name d1 = u /\ doc_name d2 = v
             /\ In k (doc_keys d1) /\ In k (doc_keys d2)).
Proof.
  intros Hnd. rewrite (build_citation_network_eq documents Hnd).
  eexists. split; [reflexivity|].
  intros H.
  apply (add_shared_fold_attrs
           (co_citations (index_documents (map doc_entry documents)))) in H.
  - destruct H as [->|[k [-> Hk]]]; [now left|]. right.
    destruct (co_citations_ordered documents k u v Hk) as [l1 [d1 [l2 [d2 [l3 H]]]]].
    exists k, l1, d1, l2, d2, l3. split; [reflexivity | exact H].
  - auto.
  - intros e a' H'. left.
    apply (add_documents_untagged documents Nx.empty) in H'; [exact H'|].
    intros ? ? [].
Qed.

End MoreGraph.

(* ================================================================== *)
(** * Further properties: the attributes of the nodes *)

Section NodeTypes.
Import Str CitationAnalyzer CitationSpec GraphSpec.
Opaque CitationSpec.citations_of CitationAnalyzer.extract_citations.

Lemma add_edge_node_present (G : Nx.DiGraph) (u v : string) (a : Nx.attrs) (n : string) :
  In n (Dict.keys (Nx.nodes G)) ->
  Dict.get (Nx.nodes (Nx.add_edge G u v a)) n = Dict.get (Nx.nodes G) n.
Proof.
  intros Hn. unfold Nx.add_edge. cbn [Nx.nodes].
  assert (E1 : Dict.get (Nx.nodes (if Nx.has_node G u then G
                                   else Nx.Graph (Dict.set (Nx.nodes G) u []) (Nx.edges G))) n
               = Dict.get (Nx.nodes G) n).
  { destruct (Nx.has_node G u) eqn:Eu; [reflexivity|]. cbn [Nx.nodes].
    apply dict_get_set_other. intros ->.
    apply has_node_In in Hn. congruence. }
  match goal with |- context [Nx.has_node ?H v] => set (G1 := H) in * end.
  destruct (Nx.has_node G1 v) eqn:Ev; [exact E1|]. cbn [Nx.nodes].
  rewrite dict_get_set_other; [exact E1|]. intros ->.
  unfold Nx.has_node in Ev. rewrite E1 in Ev.
  apply has_node_In in Hn. unfold Nx.has_node in Hn. congruence.
Qed.

Lemma add_edge_node_other (G : Nx.DiGraph) (u v : string) (a : Nx.attrs) (n : string) :
  n <> u -> n <> v ->
  Dict.get (Nx.nodes (Nx.add_edge G u v a)) n = Dict.get (Nx.nodes G) n.
Proof.
  intros Hu Hv. unfold Nx.add_edge. cbn [Nx.nodes].
  assert (E1 : Dict.get (Nx.nodes (if Nx.has_node G u then G
                                   else Nx.Graph (Dict.set (Nx.nodes G) u []) (Nx.edges G))) n
               = Dict.get (Nx.nodes G) n).
  { destruct (Nx.has_node G u); [reflexivity|]. cbn [Nx.nodes].
    apply dict_get_set_other. congruence. }
  match goal with |- context [Nx.has_node ?H v] => set (G1 := H) in * end.
  destruct (Nx.has_node G1 v); [exact E1|]. cbn [Nx.nodes].
  rewrite dict_get_set_other; [exact E1 | congruence].
Qed.

Lemma add_node_node_other (G : Nx.DiGraph) (s : string) (a : Nx.attrs) (n : string) :
  n <> s -> Dict.get (Nx.nodes (Nx.add_node G s a)) n = Dict.get (Nx.nodes G) n.
Proof.
  intros Hs. unfold Nx.add_node.
  destruct (Dict.get (Nx.nodes G) s); cbn [Nx.nodes];
    apply dict_get_set_other; congruence.
Qed.

Lemma add_node_node_same (G : Nx.DiGraph) (s : string) (a : Nx.attrs) :
  Dict.get (Nx.nodes (Nx.add_node G s a)) s
  = Some (Nx.update (match Dict.get (Nx.nodes G) s with Some old => old | None => [] end) a).
Proof.
  unfold Nx.add_node.
  destruct (Dict.get (Nx.nodes G) s); cbn [Nx.nodes]; apply dict_get_set_same.
Qed.

(** ** Nodes that are present keep their attributes in the loops that
       add citations and co-citations. *)

Lemma add_typed_node_present (name : string) (G : Nx.DiGraph) (tk : string * string)
  (n : string) :
  In n (Dict.keys (Nx.nodes G)) ->
  Dict.get (Nx.nodes (add_typed name G tk)) n = Dict.get (Nx.nodes G) n.
Proof.
  intros Hn. unfold add_typed.
  destruct (Nx.has_node G (snd tk)) eqn:E; cbn [negb].
  - now apply add_edge_node_present.
  - rewrite add_edge_node_present by (apply add_node_keys; now right).
    apply add_node_node_other. intros ->.
    apply has_node_In in Hn. congruence.
Qed.

Lemma add_typed_fold_node_present (name : string) (tks : list (string * string))
  (n : string) :
  forall G,
    In n (Dict.keys (Nx.nodes G)) ->
    Dict.get (Nx.nodes (fold_left (add_typed name) tks G)) n = Dict.get (Nx.nodes G) n.
Proof.
  induction tks as [|tk tks IH]; intros G Hn; cbn [fold_left]; [reflexivity|].
  rewrite IH by (apply add_typed_keys; tauto).
  now apply add_typed_node_present.
Qed.

Lemma add_shared_fold_node_present (ts : list (string * (string * string))) (n : string) :
  forall G,
    In n (Dict.keys (Nx.nodes G)) ->
    Dict.get (Nx.nodes (fold_left add_shared ts G)) n = Dict.get (Nx.nodes G) n.
Proof.
  induction ts as [|t ts IH]; intros G Hn; cbn [fold_left]; [reflexivity|].
  assert (E : Dict.get (Nx.nodes (add_shared G t)) n = Dict.get (Nx.nodes G) n).
  { unfold add_shared. now apply add_edge_node_present. }
  rewrite IH; [exact E|].
  apply has_node_In. unfold Nx.has_node. rewrite E.
  apply has_node_In in Hn. exact Hn.
Qed.

(** ** Document nodes *)

Lemma typed_document_present (G : Nx.DiGraph) (n : string) :
  typed_document G n -> In n (Dict.keys (Nx.nodes G)).
Proof.
  intros [a [H _]]. apply has_node_In. unfold Nx.has_node. now rewrite H.
Qed.

Lemma add_document_typed (G : Nx.DiGraph) (d : document) (n : string) :
  typed_document G n \/ n = doc_name d -> typed_document (add_document G d) n.
Proof.
  intros H. unfold add_document.
  assert (H0 : typed_document (Nx.add_node G (doc_name d) [("type", "document")]) n).
  { destruct (String.eqb_spec n (doc_name d)) as [->|Hne].
    - eexists. split; [apply add_node_node_same|].
      cbn [Nx.update fold_left fst snd]. apply dict_get_set_same.
    - destruct H as [[a [H1 H2]]|H]; [|contradiction].
      exists a. split; [|exact H2]. now rewrite add_node_node_other. }
  destruct H0 as [a [H1 H2]]. exists a. split; [|exact H2].
  rewrite add_typed_fold_node_present; [exact H1|].
  apply has_node_In. unfold Nx.has_node. now rewrite H1.
Qed.

Lemma add_documents_typed (documents : list document) (n : string) :
  forall G,
    typed_document G n \/ In n (map doc_name documents) ->
    typed_document (fold_left add_document documents G) n.
Proof.
  induction documents as [|d rest IH]; intros G; cbn [fold_left map In].
  - intros [H|[]]. exact H.
  - intros H. apply IH.
    destruct H as [H|[H|H]]; [| |now right]; left; apply add_document_typed; auto.
Qed.

(** ** Citation nodes *)

Lemma typed_keys_In (text t k : string) :
  In (t, k) (typed_keys_of (citations_of text)) ->
  (t = "case_citations" \/ t = "statute_citations"
   \/ t = "constitution_citations" \/ t = "section_citations")
  /\ exists c, k = citation_str t c.
Proof.
  destruct (citations_of_shape text) as [u1 [u2 [u3 [u4 [-> _]]]]].
  unfold typed_keys_of. cbn [flat_map fst snd]. rewrite app_nil_r, !in_app_iff.
  intros H.
  assert (G : forall T u, In (t, k) (map (fun c => (T, citation_str T c)) u) ->
                          t = T /\ exists c, k = citation_str t c).
  { intros T u Hin. apply (proj1 (in_map_iff _ _ _)) in Hin.
    destruct Hin as [c [E _]].
    pose proof (f_equal fst E) as E1. pose proof (f_equal snd E) as E2.
    cbn [fst snd] in E1, E2. subst T. split; [reflexivity|]. now exists c. }
  destruct H as [H|[H|[H|H]]]; apply G in H; destruct H as [-> H]; split; auto.
Qed.

(** The citation type can be read off a citation key. *)
Lemma typed_key_unique (text text' t t' k : string) :
  In (t, k) (typed_keys_of (citations_of text)) ->
  In (t', k) (typed_keys_of (citations_of text')) ->
  t = t'.
Proof.
  intros H H'. apply typed_keys_In in H. apply typed_keys_In in H'.
  destruct H as [Ht [c ->]]. destruct H' as [Ht' [c' E]].
  unfold citation_str in E.
  destruct Ht as [ -> | [ -> | [ -> | -> ] ] ]; destruct Ht' as [ -> | [ -> | [ -> | -> ] ] ];
    try reflexivity; cbn [append] in E; discriminate E.
Qed.

Lemma add_typed_citation (documents : list document) (d : document) (G : Nx.DiGraph)
  (tk : string * string) (k : string) :
  In d documents -> In tk (doc_typed_keys d) -> k <> doc_name d ->
  typed_citation documents G k ->
  typed_citation documents (add_typed (doc_name d) G tk) k.
Proof.
  intros Hd Htk Hk HG a. unfold add_typed.
  destruct (String.eqb_spec k (snd tk)) as [->|Hne].
  - destruct (Nx.has_node G (snd tk)) eqn:E; cbn [negb].
    + rewrite add_edge_node_present by now apply has_node_In. apply HG.
    + rewrite add_edge_node_present by (apply add_node_keys; now left).
      rewrite add_node_node_same.
      unfold Nx.has_node in E. destruct (Dict.get (Nx.nodes G) (snd tk)); [discriminate|].
      cbn [Nx.update fold_left fst snd Dict.set]. intros Ea.
      exists (fst tk), d. split; [exact Hd|]. split; [now destruct tk|].
      apply (f_equal (fun o => match o with Some x => x | None => a end)) in Ea.
      now symmetry.
  - rewrite add_edge_node_other by assumption.
    destruct (negb (Nx.has_node G (snd tk))); [|apply HG].
    rewrite add_node_node_other by assumption. apply HG.
Qed.

Lemma add_document_citation (documents : list document) (d : document) (G : Nx.DiGraph)
  (k : string) :
  In d documents -> k <> doc_name d ->
  typed_citation documents G k ->
  typed_citation documents (add_document G d) k.
Proof.
  intros Hd Hk HG. unfold add_document.
  assert (H0 : typed_citation documents (Nx.add_node G (doc_name d) [("type", "document")]) k).
  { intros a. rewrite add_node_node_other by assumption. apply HG. }
  revert H0. generalize (Nx.add_node G (doc_name d) [("type", "document")]).
  assert (Hin : forall tk, In tk (doc_typed_keys d) -> In tk (doc_typed_keys d)) by auto.
  revert Hin. generalize (doc_typed_keys d) at 1 3. intros tks.
  induction tks as [|tk tks IH]; intros Hin G0 H0; cbn [fold_left]; [exact H0|].
  apply IH; [intros tk' H'; apply Hin; now right|].
  apply add_typed_citation; auto. apply Hin. now left.
Qed.

Lemma add_documents_citation (documents : list document) (k : string) :
  ~ In k (map doc_name documents) ->
  forall rest G,
    (forall d, In d rest -> In d documents) ->
    typed_citation documents G k ->
    typed_citation documents (fold_left add_document rest G) k.
Proof.
  intros Hk. induction rest as [|d rest IH]; intros G Hin HG; cbn [fold_left]; [exact HG|].
  apply IH; [intros d' H'; apply Hin; now right|].
  apply add_document_citation; auto.
  - apply Hin. now left.
  - intros ->. apply Hk. apply in_map. apply Hin. now left.
Qed.

Lemma add_shared_fold_node_other (ts : list (string * (string * string))) (n : string) :
  (forall t, In t ts -> n <> fst (snd t) /\ n <> snd (snd t)) ->
  forall G,
    Dict.get (Nx.nodes (fold_left add_shared ts G)) n = Dict.get (Nx.nodes G) n.
Proof.
  induction ts as [|t ts IH]; intros Hts G; cbn [fold_left]; [reflexivity|].
  rewrite IH by (intros t' H'; apply Hts; now right).
  unfold add_shared. destruct (Hts t (or_introl eq_refl)).
  now apply add_edge_node_other.
Qed.

Lemma network_document_node (documents : list document) (d : document) :
  In d documents -> typed_document (network documents) (doc_name d).
Proof.
  intros Hd. unfold network.
  destruct (add_documents_typed documents (doc_name d) Nx.empty) as [a [H1 H2]].
  { right. now apply in_map. }
  exists a. split; [|exact H2].
  rewrite add_shared_fold_node_present; [exact H1|].
  apply has_node_In. unfold Nx.has_node. now rewrite H1.
Qed.

Lemma network_citation_node (documents : list document) (d : document) (t k : string) :
  In d documents ->
  In (t, k) (doc_typed_keys d) ->
  ~ In k (map doc_name documents) ->
  Dict.get (Nx.nodes (network documents)) k = Some [("type", t)].
Proof.
  intros Hd Htk Hk. unfold network.
  rewrite add_shared_fold_node_other.
  - assert (Hp : In k (Dict.keys (Nx.nodes (fold_left add_document documents Nx.empty)))).
    { apply add_documents_keys. right. right. apply in_flat_map. exists d.
      split; [exact Hd|]. unfold doc_keys. rewrite <- typed_keys_snd.
      apply (in_map snd) in Htk. exact Htk. }
    apply has_node_In in Hp. unfold Nx.has_node in Hp.
    destruct (Dict.get (Nx.nodes (fold_left add_document documents Nx.empty)) k)
      as [a|] eqn:Ea; [|discriminate].
    assert (H0 : typed_citation documents Nx.empty k).
    { intros a0 H. discriminate H. }
    destruct (add_documents_citation documents k Hk documents Nx.empty
                (fun _ H => H) H0 a Ea) as [t' [d' [Hd' [Htk' ->]]]].
    unfold doc_typed_keys in Htk, Htk'.
    rewrite (typed_key_unique _ _ _ _ _ Htk Htk'). reflexivity.
  - intros [k0 [x y]] Ht. cbn [fst snd].
    destruct (co_citations_sound documents k0 x y Ht) as [[d1 [H1 [E1 _]]] [d2 [H2 [E2 _]]]].
    split; intros ->; apply Hk; [rewrite <- E1 | rewrite <- E2]; now apply in_map.
Qed.

(** For documents with pairwise distinct names the node of every
    document has the type [document], whatever else the documents cite. *)
Theorem citation_graph_document_nodes (documents : list document) (d : document) :
  NoDup (map doc_name documents) ->
  In d documents ->
  exists G a,
    build_citation_network documents = Some G
    /\ Dict.get (Nx.nodes G) (doc_name d) = Some a
    /\ Dict.get a "type" = Some "document".
Proof.
  intros Hnd Hd. destruct (network_document_node documents d Hd) as [a [H1 H2]].
  exists (network documents), a. split; [now apply network_eq|]. now split.
Qed.

(** For documents with pairwise distinct names, the node of a citation
    key that is not the name of a document has one attribute, its
    citation type. *)
Theorem citation_graph_citation_nodes (documents : list document) (d : document)
  (t k : string) :
  NoDup (map doc_name documents) ->
  In d documents ->
  In (t, k) (doc_typed_keys d) ->
  ~ In k (map doc_name documents) ->
  exists G,
    build_citation_network documents = Some G
    /\ Dict.get (Nx.nodes G) k = Some [("type", t)].
Proof.
  intros Hnd Hd Htk Hk. exists (network documents).
  split; [now apply network_eq | now apply (network_citation_node documents d)].
Qed.

End NodeTypes.

(* ================================================================== *)
(** * The graph properties on two documents that share two keys *)

Section GraphWitnesses.
Import Str CitationAnalyzer CitationSpec.
Transparent CitationSpec.citations_of CitationAnalyzer.extract_citations.

Lemma citation_graph_nodes_witness :
  exists G,
    build_citation_network Scenario.two_sharing = Some G
    /\ (In "case_citations:AIR 1950 SC 27" (Dict.keys (Nx.nodes G))
        <-> In "case_citations:AIR 1950 SC 27" (map doc_name Scenario.two_sharing)
            \/ In "case_citations:AIR 1950 SC 27" (flat_map doc_keys Scenario.two_sharing)).
Proof.
  apply (citation_graph_nodes Scenario.two_sharing "case_citations:AIR 1950 SC 27").
  vm_compute. repeat constructor; simpl; intuition discriminate.
Defined.

Lemma citation_graph_edges_witness :
  exists G,
    build_citation_network Scenario.two_sharing = Some G
    /\ (In ("a.txt", "b.txt") (map fst (Nx.edges G))
        <-> (exists d, In d Scenario.two_sharing /\ doc_name d = "a.txt"
                       /\ In "b.txt" (doc_keys d))
            \/ (exists k l1 d1 l2 d2 l3,
                   Scenario.two_sharing = (l1 ++ d1 :: l2 ++ d2 :: l3)%list
                   /\ doc_name d1 = "a.txt" /\ doc_name d2 = "b.txt"
                   /\ In k (doc_keys d1) /\ In k (doc_keys d2))).
Proof.
  apply (citation_graph_edges Scenario.two_sharing "a.txt" "b.txt").
  vm_compute. repeat constructor; simpl; intuition discriminate.
Defined.

Lemma citation_graph_shared_attribute_witness :
  exists G,
    build_citation_network Scenario.two_sharing = Some G
    /\ (In (("a.txt", "b.txt"), [("shared", "case_citations:AIR 1950 SC 27")]) (Nx.edges G) ->
        [("shared", "case_citations:AIR 1950 SC 27")] = []
        \/ exists k l1 d1 l2 d2 l3,
             [("shared", "case_citations:AIR 1950 SC 27")] = [("shared", k)]
             /\ Scenario.two_sharing = (l1 ++ d1 :: l2 ++ d2 :: l3)%list
             /\ doc_name d1 = "a.txt" /\ doc_name d2 = "b.txt"
             /\ In k (doc_keys d1) /\ In k (doc_keys d2)).
Proof.
  apply (citation_graph_shared_attribute Scenario.two_sharing "a.txt" "b.txt"
           [("shared", "case_citations:AIR 1950 SC 27")]).
  vm_compute. repeat constructor; simpl; intuition discriminate.
Defined.

Lemma citation_graph_document_nodes_witness :
  exists G a,
    build_citation_network Scenario.two_sharing = Some G
    /\ Dict.get (Nx.nodes G) "b.txt" = Some a
    /\ Dict.get a "type" = Some "document".
Proof.
  apply (citation_graph_document_nodes Scenario.two_sharing
           (Document "2" "Relying on AIR 1950 SC 27 and (2020) 5 SCC 123."
                     [("filename", "b.txt")])).
  - vm_compute. repeat constructor; simpl; intuition discriminate.
  - vm_compute. tauto.
Defined.

Lemma citation_graph_citation_nodes_witness :
  exists G,
    build_citation_network Scenario.two_sharing = Some G
    /\ Dict.get (Nx.nodes G) "case_citations:AIR 1950 SC 27"
       = Some [("type", "case_citations")].
Proof.
  apply (citation_graph_citation_nodes Scenario.two_sharing
           (Document "2" "Relying on AIR 1950 SC 27 and (2020) 5 SCC 123."
                     [("filename", "b.txt")])
           "case_citations" "case_citations:AIR 1950 SC 27").
  - vm_compute. repeat constructor; simpl; intuition discriminate.
  - vm_compute. tauto.
  - vm_compute. tauto.
  - vm_compute. intuition discriminate.
Defined.

End GraphWitnesses.

(* ================================================================== *)
(** * Further properties: which provisions are missing *)

Section MoreProvisions.
Import Str ContractRiskAnalyzer RiskSpec ProvisionSpec.

(** A match the search finds starts at some split of the text. *)
Lemma search_from_found (fl : Re.flags) (r : Re.re) (t : string) :
  forall (p : option ascii) (i : nat),
    Re.search_from fl r p t i <> None ->
    exists pre suf,
      t = pre ++ suf
      /\ Re.match_here fl r (Re.State (last_char p pre) suf (i + String.length pre) [])
         <> None.
Proof.
  induction t as [|c t IH]; intros p i; cbn [Re.search_from].
  - destruct (Re.match_here fl r (Re.State p "" i [])) eqn:E; [|congruence].
    intros _. exists "", "". split; [reflexivity|].
    cbn [last_char String.length]. rewrite Nat.add_0_r, E. discriminate.
  - destruct (Re.match_here fl r (Re.State p (String c t) i [])) eqn:E.
    + intros _. exists "", (String c t). split; [reflexivity|].
      cbn [last_char String.length]. rewrite Nat.add_0_r, E. discriminate.
    + intros H. destruct (IH _ _ H) as [pre [suf [-> Hm]]].
      exists (String c pre), suf. split; [reflexivity|].
      cbn [last_char String.length]. now rewrite <- plus_n_Sm.
Qed.

(** Without [IGNORECASE] a literal matches its own characters only. *)
Lemma m_lits_inv (fl : Re.flags) (w : string) (tail : Re.re)
  (k : Re.state -> option Re.state) :
  Re.ignorecase fl = false ->
  forall (p : option ascii) (s : string) (i : nat) (cs : list (nat * (nat * nat))),
    Re.m fl (lits w tail) k (Re.State p s i cs) <> None ->
    exists suf,
      s = w ++ suf
      /\ Re.m fl tail k (Re.State (last_char p w) suf (i + String.length w) cs) <> None.
Proof.
  intros Hic. induction w as [|c w IH]; intros p s i cs; cbn [lits].
  - intros H. exists s. split; [reflexivity|].
    cbn [last_char String.length]. now rewrite Nat.add_0_r.
  - cbn [Re.m]. unfold Re.eat. cbn [Re.rest Re.pos Re.caps].
    destruct s as [|c' s]; [congruence|].
    unfold Re.lit_mem. rewrite Hic.
    destruct (Ascii.eqb_spec c c') as [<-|Hne]; [|congruence].
    intros H. destruct (IH _ _ _ _ H) as [suf [-> Hm]].
    exists suf. split; [reflexivity|].
    cbn [last_char String.length]. now rewrite <- plus_n_Sm.
Qed.

(** The pattern [\b w \b] matches only where [w] stands as a whole word. *)
Lemma match_here_word_inv (fl : Re.flags) (w pre s : string) (c0 c1 : ascii) (t : string)
  (i : nat) :
  Re.ignorecase fl = false ->
  w = String c0 t -> is_word c0 = true ->
  last_char None w = Some c1 -> is_word c1 = true ->
  Re.match_here fl (Re.Seq Re.WordB (lits w (Re.Seq Re.WordB Re.Empty)))
    (Re.State (last_char None pre) s i []) <> None ->
  exists suf, s = w ++ suf /\ ends_nonword pre = true /\ starts_nonword suf = true.
Proof.
  intros Hic Hw H0 Hl H1. unfold Re.match_here. cbn [Re.m].
  destruct (xorb (Re.word_before (Re.State (last_char None pre) s i []))
                 (Re.word_after (Re.State (last_char None pre) s i []))) eqn:Hb;
    [|congruence].
  match goal with
  | |- context [Re.m fl (lits w ?tl) ?K ?S] =>
      destruct (Re.m fl (lits w tl) K S) eqn:Em; [|congruence]
  end.
  intros _.
  match type of Em with
  | Re.m fl (lits w ?tl) ?K (Re.State ?p0 ?s1 ?i1 ?cs1) = _ =>
      destruct (m_lits_inv fl w tl K Hic p0 s1 i1 cs1) as [suf [-> Hm]];
        [rewrite Em; discriminate|]
  end.
  exists suf. split; [reflexivity|].
  unfold Re.word_before, Re.word_after in Hb. cbn [Re.prev Re.rest] in Hb.
  rewrite Hw in Hb. cbn [append] in Hb. rewrite H0 in Hb.
  split.
  - unfold ends_nonword. destruct (last_char None pre); [|reflexivity].
    destruct (is_word a); [discriminate Hb | reflexivity].
  - cbn [Re.m] in Hm.
    unfold Re.word_before, Re.word_after in Hm. cbn [Re.prev Re.rest] in Hm.
    rewrite Hw, last_char_cons, <- Hw, Hl, H1 in Hm.
    unfold starts_nonword. destruct suf as [|c s']; [reflexivity|].
    destruct (is_word c); [|reflexivity]. cbn [xorb] in Hm. congruence.
Qed.

(** A word that begins and ends with a word character, and whose
    escaped form compiles to its own characters between two word
    boundaries, is found by the search exactly when it stands in the
    text as a whole word. *)
Lemma search_whole_word (w text_lower : string) (c0 c1 : ascii) (t : string) :
  Re.compile ("\b" ++ Re.escape w ++ "\b")
  = Some (Re.Pattern Re.no_flags 0
            (Re.Seq Re.WordB (lits w (Re.Seq Re.WordB Re.Empty)))) ->
  w = String c0 t -> is_word c0 = true ->
  last_char None w = Some c1 -> is_word c1 = true ->
  exists r,
    Re.search ("\b" ++ Re.escape w ++ "\b") text_lower Re.no_flags = Some r
    /\ (r <> None <-> whole_word w text_lower).
Proof.
  intros Hc Hw H0 Hl H1. unfold Re.search. rewrite Hc.
  cbn [Re.p_flags Re.p_re]. eexists. split; [reflexivity|]. split.
  - intros H. apply search_from_found in H. destruct H as [pre [suf [-> Hm]]].
    eapply match_here_word_inv in Hm; try eassumption; [|reflexivity].
    destruct Hm as [suf' [-> [Hp Hs]]]. exists pre, suf'. auto.
  - intros [pre [suf [-> [Hp Hs]]]]. apply search_from_split.
    eapply match_here_word; try eassumption; reflexivity.
Qed.

Lemma search_plain_word (w text_lower : string) :
  plain_word w ->
  exists r,
    Re.search ("\b" ++ Re.escape w ++ "\b") text_lower Re.no_flags = Some r
    /\ (r <> None <-> whole_word w text_lower).
Proof.
  intros [Hc [c0 [t [c1 [Hw [H0 [Hl H1]]]]]]].
  eapply search_whole_word; eassumption.
Qed.

Lemma synonym_found_spec (text_lower : string) (synonyms : list string) :
  Forall plain_word synonyms ->
  exists b,
    synonym_found text_lower synonyms = Some b
    /\ (b = true <-> exists s, In s synonyms /\ whole_word s text_lower).
Proof.
  induction synonyms as [|s rest IH]; intros Hall; cbn [synonym_found].
  - exists false. split; [reflexivity|]. split; [discriminate|].
    intros [s [[] _]].
  - inversion Hall as [|? ? Hs Hrest]; subst.
    destruct (search_plain_word s text_lower Hs) as [r [-> Hr]].
    destruct r as [mt|].
    + exists true. split; [reflexivity|]. split; [|reflexivity].
      intros _. exists s. split; [now left|]. apply Hr. discriminate.
    + destruct (IH Hrest) as [b [-> Hb]]. exists b. split; [reflexivity|].
      rewrite Hb. split.
      * intros [s' [Hin Hw]]. exists s'. split; [now right | exact Hw].
      * intros [s' [[<-|Hin] Hw]].
        -- exfalso. apply Hr in Hw. now apply Hw.
        -- exists s'. now split.
Qed.

Lemma provision_found_spec (text_lower provision : string) :
  lower provision = provision ->
  plain_word provision ->
  Forall plain_word (_get_provision_synonyms provision) ->
  exists b,
    provision_found text_lower provision = Some b
    /\ (b = true <-> mentioned provision text_lower).
Proof.
  intros Hl Hp Hs. unfold provision_found, mentioned. rewrite Hl.
  destruct (search_plain_word provision text_lower Hp) as [r [-> Hr]].
  destruct r as [mt|].
  - exists true. split; [reflexivity|]. split; [|reflexivity].
    intros _. left. apply Hr. discriminate.
  - destruct (synonym_found_spec text_lower _ Hs) as [b [-> Hb]].
    exists b. split; [reflexivity|]. rewrite Hb. split.
    + intros H. now right.
    + intros [H|H]; [|exact H]. exfalso. apply Hr in H. now apply H.
Qed.

Lemma missing_loop_filter (text_lower : string) (f : string -> bool)
  (provisions : list string) :
  (forall p, In p provisions -> provision_found text_lower p = Some (f p)) ->
  forall missing,
    missing_loop text_lower provisions missing
    = Some (missing ++ filter (fun p => negb (f p)) provisions)%list.
Proof.
  induction provisions as [|p rest IH]; intros Hf missing; cbn [missing_loop filter].
  - now rewrite app_nil_r.
  - rewrite (Hf p (or_introl eq_refl)).
    rewrite IH by (intros q Hq; apply Hf; now right).
    destruct (f p); cbn [negb]; [reflexivity|].
    now rewrite <- app_assoc.
Qed.

Lemma standard_provisions_plain :
  Forall (fun p => lower p = p /\ plain_word p
                   /\ Forall plain_word (_get_provision_synonyms p))
         (standard_provisions init).
Proof.
  assert (Hplain : forall w c0 t c1,
             Re.compile ("\b" ++ Re.escape w ++ "\b")
             = Some (Re.Pattern Re.no_flags 0
                       (Re.Seq Re.WordB (lits w (Re.Seq Re.WordB Re.Empty)))) ->
             w = String c0 t -> is_word c0 = true ->
             last_char None w = Some c1 -> is_word c1 = true -> plain_word w).
  { intros w c0 t c1 Hc Hw H0 Hl H1. split; [exact Hc|].
    exists c0, t, c1. auto. }
  assert (Hsyn : forall p l, _get_provision_synonyms p = l ->
                             Forall plain_word l ->
                             Forall plain_word (_get_provision_synonyms p)).
  { intros p l <- H. exact H. }
  cbn [standard_provisions init].
  repeat (apply Forall_cons || apply Forall_nil);
    (split; [vm_compute; reflexivity|]);
    (split; [eapply Hplain; [vm_compute; reflexivity | reflexivity ..]|]);
    (eapply Hsyn; [vm_compute; reflexivity|]);
    repeat (apply Forall_cons || apply Forall_nil);
    (eapply Hplain; [vm_compute; reflexivity | reflexivity ..]).
Qed.

Lemma provision_found_standard (text_lower p : string) :
  In p (standard_provisions init) ->
  exists b, provision_found text_lower p = Some b
            /\ (b = true <-> mentioned p text_lower).
Proof.
  intros Hp.
  pose proof (proj1 (Forall_forall _ _) standard_provisions_plain p Hp) as [Hl [Hw Hs]].
  now apply provision_found_spec.
Qed.

Lemma find_missing_provisions_filter (text : string) :
  find_missing_provisions init text
  = Some (filter (fun p => negb (match provision_found (lower text) p with
                                 | Some b => b | None => false end))
                 (standard_provisions init)).
Proof.
  unfold find_missing_provisions.
  rewrite (missing_loop_filter (lower text)
             (fun p => match provision_found (lower text) p with
                       | Some b => b | None => false end)); [reflexivity|].
  intros p Hp. destruct (provision_found_standard (lower text) p Hp) as [b [E _]].
  now rewrite E.
Qed.

(** [find_missing_provisions] returns the standard provisions, in
    their order, that the text does not mention: a provision is left
    out exactly when it, or one of its synonyms, stands in the
    lower-cased text as a whole word. *)
Theorem find_missing_provisions_unmentioned (text : string) :
  exists missing keep,
    find_missing_provisions init text = Some missing
    /\ missing = filter keep (standard_provisions init)
    /\ forall p, In p missing
                 <-> In p (standard_provisions init) /\ ~ mentioned p (lower text).
Proof.
  eexists. eexists. split; [apply find_missing_provisions_filter|].
  split; [reflexivity|].
  intros p. rewrite filter_In. split.
  - intros [Hp Hn]. split; [exact Hp|]. intros Hm.
    destruct (provision_found_standard (lower text) p Hp) as [b [E Hb]].
    rewrite E in Hn. apply Hb in Hm. subst b. discriminate.
  - intros [Hp Hn]. split; [exact Hp|].
    destruct (provision_found_standard (lower text) p Hp) as [b [E Hb]]. rewrite E.
    destruct b; [|reflexivity]. exfalso. apply Hn, Hb. reflexivity.
Qed.

End MoreProvisions.

(* ================================================================== *)
(** * Further properties: where a match can lie *)

Section MatchBounds.
Import Re.
Variable fl : flags.
Variable N : nat.
Variable Q : state -> Prop.

(** A repetition, for a body that only moves forward. *)
Lemma rep_forward (a : re) (lo : nat) (hi : option nat) (greedy : bool)
  (k : state -> option state) (s0 : state) :
  (forall (k : state -> option state) (s e : state),
      pos s + String.length (rest s) = N ->
      (forall s' e', pos s' + String.length (rest s') = N -> pos s <= pos s' ->
                     k s' = Some e' -> Q e') ->
      m fl a k s = Some e -> Q e) ->
  (forall s' e', pos s' + String.length (rest s') = N -> pos s0 <= pos s' ->
                 k s' = Some e' -> Q e') ->
  forall (fuel cnt : nat) (s e : state),
    pos s + String.length (rest s) = N -> pos s0 <= pos s ->
    (fix loop (fuel cnt : nat) (s : state) {struct fuel} : option state :=
       match fuel with
       | O => None
       | S fuel' =>
           let more (_ : unit) :=
             if below cnt hi
             then m fl a (fun s' => if pos s <? pos s'
                                    then loop fuel' (S cnt) s' else None) s
             else None in
           let stop (_ : unit) := if lo <=? cnt then k s else None in
           if greedy
           then match more tt with Some e => Some e | None => stop tt end
           else match stop tt with Some e => Some e | None => more tt end
       end) fuel cnt s = Some e ->
    Q e.
Proof.
  intros IHa Hk. induction fuel as [|fuel IHf]; intros cnt s e Hs Hle; [discriminate|].
  cbv zeta.
  match goal with
  | |- (if greedy then match ?M with _ => _ end else match ?S with _ => _ end) = _ -> _ =>
      assert (Hmore : forall e1, M = Some e1 -> Q e1);
        [|assert (Hstop : forall e1, S = Some e1 -> Q e1)]
  end.
  - intros e1. destruct (below cnt hi); [|discriminate].
    apply IHa; [exact Hs|]. intros s' e' Hs' Hle'.
    destruct (pos s <? pos s'); [|discriminate].
    apply IHf; [exact Hs' | lia].
  - intros e1. destruct (lo <=? cnt); [|discriminate]. apply Hk; assumption.
  - destruct greedy.
    + match goal with |- match ?X with _ => _ end = _ -> _ => destruct X as [e0|] eqn:Em end.
      * intros E. replace e with e0 by congruence.
        apply Hmore; first [reflexivity | exact Em].
      * apply Hstop.
    + match goal with |- match ?X with _ => _ end = _ -> _ => destruct X as [e0|] eqn:Em end.
      * intros E. replace e with e0 by congruence.
        apply Hstop; first [reflexivity | exact Em].
      * apply Hmore.
Qed.

(** The matcher only moves forward, and what is left of the text
    shrinks as the position grows: whatever holds of every result of
    the continuation from such states holds of the result. *)
Lemma m_forward (r : re) :
  forall (k : state -> option state) (s e : state),
    pos s + String.length (rest s) = N ->
    (forall s' e', pos s' + String.length (rest s') = N -> pos s <= pos s' ->
                   k s' = Some e' -> Q e') ->
    m fl r k s = Some e -> Q e.
Proof.
  assert (Heat : forall (f : ascii -> bool) (k : state -> option state) (s e : state),
             pos s + String.length (rest s) = N ->
             (forall s' e', pos s' + String.length (rest s') = N -> pos s <= pos s' ->
                            k s' = Some e' -> Q e') ->
             eat f k s = Some e -> Q e).
  { intros f k s e Hs Hk. unfold eat. destruct (rest s) as [|c t] eqn:Er; [discriminate|].
    destruct (f c); [|discriminate]. apply Hk; cbn [pos rest].
    - cbn [String.length] in Hs. lia.
    - lia. }
  induction r as [ | x | | c | neg items | a IHa b IHb | a IHa b IHb
                   | a IHa lo hi greedy | i a IHa | | | | | neg a IHa | neg a IHa ];
    intros k s e Hs Hk.
  - cbn [m]. apply Hk; [exact Hs | lia].
  - cbn [m]. apply Heat; assumption.
  - cbn [m]. apply Heat; assumption.
  - cbn [m]. apply Heat; assumption.
  - cbn [m]. apply Heat; assumption.
  - cbn [m]. apply IHa; [exact Hs|]. intros s' e' Hs' Hle. apply IHb; [exact Hs'|].
    intros s'' e'' Hs'' Hle'. apply Hk; [exact Hs'' | lia].
  - cbn [m]. destruct (m fl a k s) as [e0|] eqn:Ea.
    + intros E. apply (IHa k s e Hs Hk). rewrite Ea. exact E.
    + apply IHb; assumption.
  - exact (rep_forward a lo hi greedy k s IHa Hk
             (S (String.length (rest s))) 0 s e Hs (le_n _)).
  - cbn [m]. apply IHa; [exact Hs|]. intros s' e' Hs' Hle.
    apply Hk; cbn [pos rest]; assumption.
  - cbn [m]. destruct (at_bol fl s); [|discriminate]. apply Hk; [exact Hs | lia].
  - cbn [m]. destruct (at_eol fl s); [|discriminate]. apply Hk; [exact Hs | lia].
  - cbn [m]. destruct (rest s) eqn:Er; [|discriminate].
    apply Hk; [rewrite Er; exact Hs | lia].
  - cbn [m]. destruct (xorb (word_before s) (word_after s)); [|discriminate].
    apply Hk; [exact Hs | lia].
  - cbn [m]. destruct (m fl a Some s) as [s'|].
    + destruct neg; [discriminate|]. apply Hk; cbn [pos rest]; [exact Hs | lia].
    + destruct neg; [|discriminate]. apply Hk; [exact Hs | lia].
  - cbn [m].
    match goal with |- (if ?X then _ else _) = _ -> _ => destruct X end; [|discriminate].
    apply Hk; [exact Hs | lia].
Qed.

End MatchBounds.

Section ScanBounds.
Import Re.

(** A match at a position ends between that position and the end of
    the text. *)
Lemma match_here_bounds (fl : flags) (r : re) (p : option ascii) (t : string) (i : nat)
  (mt : rmatch) :
  match_here fl r (State p t i []) = Some mt ->
  m_start mt = i /\ i <= m_end mt /\ m_end mt <= i + String.length t.
Proof.
  unfold match_here.
  destruct (m fl r Some (State p t i [])) as [e|] eqn:E; [|discriminate].
  intros H.
  assert (Hq : i <= pos e /\ pos e <= i + String.length t).
  { revert E.
    apply (m_forward fl (i + String.length t)
             (fun e => i <= pos e /\ pos e <= i + String.length t) r Some).
    - reflexivity.
    - cbn [pos]. intros s' e' Hs' Hle E'.
      replace e' with s' by congruence. lia. }
  apply (f_equal (fun o => match o with Some x => x | None => mt end)) in H.
  cbv beta iota in H. subst mt. cbn [m_start m_end pos]. lia.
Qed.

(** Every match of a scan lies in the part of the text that is scanned. *)
Lemma scan_bounds (fl : flags) (r : re) (t : string) :
  forall (p : option ascii) (i skip : nat) (mt : rmatch),
    In mt (scan fl r p t i skip) ->
    i <= m_start mt /\ m_start mt <= m_end mt /\ m_end mt <= i + String.length t.
Proof.
  induction t as [|c t IH]; intros p i skip mt; cbn [scan].
  - destruct skip; [|intros []].
    destruct (match_here fl r (State p "" i [])) as [mt0|] eqn:E; [|intros []].
    intros [<-|[]]. apply match_here_bounds in E. lia.
  - destruct skip as [|skip].
    + destruct (match_here fl r (State p (String c t) i [])) as [mt0|] eqn:E.
      * intros [<-|H].
        -- apply match_here_bounds in E. lia.
        -- apply IH in H. cbn [String.length]. lia.
      * intros H. apply IH in H. cbn [String.length]. lia.
    + intros H. apply IH in H. cbn [String.length]. lia.
Qed.

Lemma finditer_bounds (pattern text : string) (fl : flags) (ms : list rmatch)
  (mt : rmatch) :
  finditer pattern text fl = Some ms -> In mt ms ->
  m_start mt <= m_end mt /\ m_end mt <= String.length text.
Proof.
  unfold finditer. destruct (compile pattern) as [c|]; [|discriminate].
  intros E Hin.
  apply (f_equal (fun o => match o with Some x => x | None => [] end)) in E.
  cbv beta iota in E. subst ms. apply scan_bounds in Hin. lia.
Qed.

End ScanBounds.

Section SliceFacts.
Import Str.

Lemma substring_nil (i n : nat) : substring i n "" = "".
Proof. destruct i, n; reflexivity. Qed.

Lemma substring_app (s : string) :
  forall i n1 n2 : nat,
    substring i (n1 + n2) s = substring i n1 s ++ substring (i + n1) n2 s.
Proof.
  induction s as [|c s IH]; intros i n1 n2.
  - now rewrite !substring_nil.
  - destruct i as [|i].
    + destruct n1 as [|n1].
      * reflexivity.
      * cbn [Nat.add substring append]. f_equal. apply (IH 0).
    + cbn [Nat.add substring]. apply IH.
Qed.

Lemma substring_length_le (s : string) :
  forall i n : nat, String.length (substring i n s) <= n.
Proof.
  induction s as [|c s IH]; intros i n.
  - rewrite substring_nil. cbn. lia.
  - destruct i as [|i].
    + destruct n as [|n]; cbn [substring String.length]; [lia|].
      specialize (IH 0 n). lia.
    + cbn [substring]. apply IH.
Qed.

Lemma substring_all (s : string) : substring 0 (String.length s) s = s.
Proof.
  induction s as [|c s IH]; [reflexivity|].
  cbn [String.length substring]. now rewrite IH.
Qed.

Lemma substring_beyond (s : string) :
  forall i n : nat, String.length s <= i -> substring i n s = "".
Proof.
  induction s as [|c s IH]; intros i n H.
  - apply substring_nil.
  - destruct i as [|i]; cbn [String.length] in H; [lia|].
    cbn [substring]. apply IH. lia.
Qed.

(** A slice splits at every point between its ends. *)
Lemma slice_split (s : string) (a b c : nat) :
  a <= b -> b <= c -> slice s a c = slice s a b ++ slice s b c.
Proof.
  intros H1 H2. unfold slice.
  replace (c - a) with ((b - a) + (c - b)) by lia.
  rewrite substring_app. replace (a + (b - a)) with b by lia. reflexivity.
Qed.

Lemma slice_length_le (s : string) (a b : nat) : String.length (slice s a b) <= b - a.
Proof. apply substring_length_le. Qed.

Lemma slice_all (s : string) : slice s 0 (String.length s) = s.
Proof. unfold slice. rewrite Nat.sub_0_r. apply substring_all. Qed.

End SliceFacts.

Section MatchLists.
Import Str ContractRiskAnalyzer RiskSpec MatchSpec.

Lemma record_matches_entries (text : string) (ms : list Re.rmatch) :
  forall (l : list term_match) (n : nat),
    fold_left (record_match text) ms (l, n)
    = ((l ++ map (entry_of text) ms)%list, n + List.length ms).
Proof.
  induction ms as [|mt ms IH]; intros l n; cbn [fold_left map List.length].
  - now rewrite app_nil_r, Nat.add_0_r.
  - unfold record_match at 2. rewrite IH. rewrite <- app_assoc.
    cbn [app]. f_equal. lia.
Qed.

Lemma scan_pattern_entries (text pattern : string) (l : list term_match) (n : nat) :
  compiles (regex_of pattern) = true ->
  scan_pattern text (l, n) pattern
  = Some ((l ++ map (entry_of text) (matches_of text pattern))%list,
          n + List.length (matches_of text pattern)).
Proof.
  intros Hc. unfold scan_pattern, matches_of, regex_of in *.
  destruct (is_regex pattern);
    destruct (finditer_compiles _ text Re.IGNORECASE Hc) as [ms ->];
    now rewrite record_matches_entries.
Qed.

Lemma scan_patterns_entries (text : string) (patterns : list string) :
  forallb (fun p => compiles (regex_of p)) patterns = true ->
  forall (l : list term_match) (n : nat),
    scan_patterns text patterns (l, n)
    = Some ((l ++ found_in text patterns)%list,
            n + List.length (found_in text patterns)).
Proof.
  induction patterns as [|p ps IH]; intros Hc l n;
    cbn [scan_patterns found_in flat_map].
  - cbn [List.length]. now rewrite app_nil_r, Nat.add_0_r.
  - cbn [forallb] in Hc. apply andb_prop in Hc. destruct Hc as [Hp Hps].
    rewrite (scan_pattern_entries text p l n Hp).
    rewrite (IH Hps). unfold found_in.
    rewrite length_app, length_map, <- app_assoc, Nat.add_assoc. reflexivity.
Qed.

Lemma found_in_length (text : string) (patterns : list string) :
  List.length (found_in text patterns) = raw_count text patterns.
Proof.
  unfold found_in, raw_count.
  induction patterns as [|p ps IH]; [reflexivity|].
  cbn [flat_map map]. rewrite length_app, length_map, IH.
  unfold list_sum. cbn [fold_right]. f_equal.
  unfold matches_of, match_count. now destruct (Re.finditer _ _ _).
Qed.

Lemma category_matches_length (text category : string) :
  List.length (category_matches text category) = raw_match_count text category.
Proof.
  unfold category_matches, raw_match_count.
  destruct (Dict.get (risk_patterns init) category); [apply found_in_length | reflexivity].
Qed.

(** One round of the loop over the categories. *)
Lemma scan_category_entries (text category : string) (patterns : list string)
  (a : analysis) :
  String.eqb category "missing_provisions" = false ->
  forallb (fun p => compiles (regex_of p)) patterns = true ->
  scan_category text a (category, patterns)
  = Some (set_category category
            (CategoryEntry (Nat.min 100 (List.length (found_in text patterns) * 10))
                           (List.length (found_in text patterns)))
            (file_matches category (found_in text patterns) a)).
Proof.
  intros Hm Hc. unfold scan_category. rewrite Hm.
  rewrite (scan_patterns_entries text patterns Hc). reflexivity.
Qed.

Lemma scan_category_skipped (text : string) (patterns : list string) (a : analysis) :
  scan_category text a ("missing_provisions", patterns) = Some a.
Proof. reflexivity. Qed.

(** The loop over the categories of [__init__], list by list. *)
Lemma scan_categories_init_lists (text : string) :
  exists a,
    scan_categories text (risk_patterns init) (Analysis 0 [] [] [] [] [] []) = Some a
    /\ ambiguous_clauses a = category_matches text "ambiguity"
    /\ one_sided_terms a = category_matches text "one_sided_terms"
    /\ liability_issues a = category_matches text "liability_issues"
    /\ other_issues a
       = (category_matches text "termination_risks"
          ++ category_matches text "confidentiality_risks"
          ++ category_matches text "ip_risks")%list.
Proof.
  repeat match goal with
  | |- context [category_matches ?t ?c] =>
      let ps := eval vm_compute in
                (match Dict.get (risk_patterns init) c with
                 | Some ps => ps | None => [] end) in
      change (category_matches t c) with (found_in t ps)
  end.
  cbn [risk_patterns init scan_categories].
  repeat (first [ rewrite scan_category_skipped
                | rewrite scan_category_entries by (vm_compute; reflexivity) ];
          cbv beta iota).
  repeat match goal with
  | |- context [found_in text ?ps] =>
      let F := fresh "F" in generalize (found_in text ps); intros F
  end.
  eexists. split; [reflexivity|].
  split; [reflexivity|]. split; [reflexivity|]. split; [reflexivity|].
  cbv -[app]. cbn [app]. now rewrite <- app_assoc.
Qed.

Lemma analyze_contract_files (text : string) (a : analysis) :
  analyze_contract init text = Some a ->
  ambiguous_clauses a = category_matches text "ambiguity"
  /\ one_sided_terms a = category_matches text "one_sided_terms"
  /\ liability_issues a = category_matches text "liability_issues"
  /\ other_issues a
     = (category_matches text "termination_risks"
        ++ category_matches text "confidentiality_risks"
        ++ category_matches text "ip_risks")%list.
Proof.
  intros Ea.
  destruct (scan_categories_init_lists text) as [a1 [Es [L1 [L2 [L3 L4]]]]].
  destruct (find_missing_provisions_total text) as [missing Em].
  unfold analyze_contract in Ea. rewrite Es, Em in Ea. cbv beta iota zeta in Ea.
  pose proof (f_equal (fun o => match o with
                                | Some x => ambiguous_clauses x | None => [] end) Ea) as H1.
  pose proof (f_equal (fun o => match o with
                                | Some x => one_sided_terms x | None => [] end) Ea) as H2.
  pose proof (f_equal (fun o => match o with
                                | Some x => liability_issues x | None => [] end) Ea) as H3.
  pose proof (f_equal (fun o => match o with
                                | Some x => other_issues x | None => [] end) Ea) as H4.
  cbn [ambiguous_clauses one_sided_terms liability_issues other_issues] in H1, H2, H3, H4.
  rewrite <- H1, <- H2, <- H3, <- H4.
  split; [exact L1|]. split; [exact L2|]. split; [exact L3 | exact L4].
Qed.

(** [analyze_contract] files the matches of the first three categories
    under their own keys and those of the three others, one after the
    other, under [other_issues]; the [matches] entry of a category is
    the number of the entries filed for it. *)
Theorem analyze_contract_match_lists (text : string) :
  exists a,
    analyze_contract init text = Some a
    /\ ambiguous_clauses a = category_matches text "ambiguity"
    /\ one_sided_terms a = category_matches text "one_sided_terms"
    /\ liability_issues a = category_matches text "liability_issues"
    /\ other_issues a
       = (category_matches text "termination_risks"
          ++ category_matches text "confidentiality_risks"
          ++ category_matches text "ip_risks")%list
    /\ forall c e, In (c, e) (risk_categories a) ->
                   matches e = List.length (category_matches text c).
Proof.
  destruct (analyze_contract_closed_form text) as [a [missing [Ea [Em [_ [Hcats _]]]]]].
  destruct (analyze_contract_files text a Ea) as [L1 [L2 [L3 L4]]].
  exists a. split; [exact Ea|].
  split; [exact L1|]. split; [exact L2|]. split; [exact L3|]. split; [exact L4|].
  intros c e Hin. rewrite Hcats in Hin.
  apply (proj1 (in_map_iff _ _ _)) in Hin. destruct Hin as [c' [E _]].
  pose proof (f_equal fst E) as Ec. pose proof (f_equal snd E) as Ee.
  cbn [fst snd] in Ec, Ee. subst c' e. cbn [matches].
  symmetry. apply category_matches_length.
Qed.

(** ** The context of a match *)

Lemma entry_in_context (text : string) (mt : Re.rmatch) :
  Re.m_start mt <= Re.m_end mt -> Re.m_end mt <= String.length text ->
  in_context text (entry_of text mt).
Proof.
  intros H1 H2. unfold in_context, entry_of. cbn [context term Nat.max].
  unfold Re.group0.
  set (s := Re.m_start mt) in *. set (e := Re.m_end mt) in *.
  set (L := String.length text) in *.
  set (a := s - 50). set (d := Nat.min L (e + 50)).
  assert (Ha : a <= s) by (unfold a; lia).
  assert (Hd : e <= d) by (unfold d; lia).
  assert (HL : d <= L) by (unfold d; lia).
  exists (slice text a s), (slice text e d). split; [|split; [|split]].
  - rewrite (slice_split text a s d) by lia.
    now rewrite (slice_split text s e d) by lia.
  - pose proof (slice_length_le text a s). unfold a in *. lia.
  - pose proof (slice_length_le text e d). unfold d in *. lia.
  - exists (slice text 0 a), (slice text d L).
    rewrite <- (slice_split text a d L) by lia.
    rewrite <- (slice_split text 0 a L) by lia.
    unfold L. now rewrite slice_all.
Qed.

Lemma found_in_context (text : string) (patterns : list string) (tm : term_match) :
  In tm (found_in text patterns) -> in_context text tm.
Proof.
  unfold found_in. intros H. apply in_flat_map in H. destruct H as [p [_ H]].
  apply (proj1 (in_map_iff _ _ _)) in H. destruct H as [mt [<- Hmt]].
  unfold matches_of in Hmt.
  destruct (Re.finditer (regex_of p) text Re.IGNORECASE) as [ms|] eqn:E; [|destruct Hmt].
  destruct (finditer_bounds _ _ _ _ _ E Hmt). now apply entry_in_context.
Qed.

Lemma category_matches_context (text category : string) (tm : term_match) :
  In tm (category_matches text category) -> in_context text tm.
Proof.
  unfold category_matches.
  destruct (Dict.get (risk_patterns init) category); [apply found_in_context | intros []].
Qed.

(** Every entry that [analyze_contract] files holds, as its context, a
    piece of the text that is the matched term with 50 characters at
    most before it and 50 at most after it. *)
Theorem analyze_contract_contexts (text : string) :
  exists a,
    analyze_contract init text = Some a
    /\ forall tm,
         In tm (ambiguous_clauses a ++ one_sided_terms a
                ++ liability_issues a ++ other_issues a)%list ->
         in_context text tm.
Proof.
  destruct (analyze_contract_closed_form text) as [a [missing [Ea _]]].
  destruct (analyze_contract_files text a Ea) as [L1 [L2 [L3 L4]]].
  exists a. split; [exact Ea|].
  intros tm. rewrite L1, L2, L3, L4, !in_app_iff.
  intros [H|[H|[H|[H|[H|H]]]]]; revert H; apply category_matches_context.
Qed.

End MatchLists.

(* ================================================================== *)
(** * Further properties: the citation report and the plot *)

Section ReportFacts.
Import Str CitationAnalyzer CitationSpec GraphSpec CitationReport.

Lemma key_eqb_eq (a b : citation_key) : key_eqb a b = true <-> a = b.
Proof.
  destruct a as [a1 a2], b as [b1 b2]. unfold key_eqb. cbn [fst snd].
  rewrite andb_true_iff, !String.eqb_eq. split.
  - intros [-> ->]. reflexivity.
  - intros E. split; [now apply (f_equal fst) in E | now apply (f_equal snd) in E].
Qed.

Lemma bump_fresh (freq : list (citation_key * nat)) (c : citation_key) :
  ~ In c (map fst freq) -> bump freq c = (freq ++ [(c, 1)])%list.
Proof.
  induction freq as [|[k n] t IH]; cbn [bump map fst In app]; intros H; [reflexivity|].
  destruct (key_eqb c k) eqn:E.
  - apply key_eqb_eq in E. subst. exfalso. apply H. now left.
  - rewrite IH; [reflexivity|]. intros Hin. apply H. now right.
Qed.

(** A list without repetition is counted once each. *)
Lemma bump_all_once (l : list citation_key) :
  forall freq,
    NoDup (map fst freq ++ l)%list ->
    fold_left bump l freq = (freq ++ map (fun c => (c, 1)) l)%list.
Proof.
  induction l as [|c l IH]; intros freq H; cbn [fold_left map].
  - now rewrite app_nil_r.
  - assert (Hc : ~ In c (map fst freq)).
    { intros Hin. apply NoDup_remove_2 in H. apply H. apply in_or_app. now left. }
    rewrite (bump_fresh freq c Hc). rewrite IH.
    + rewrite <- app_assoc. reflexivity.
    + rewrite map_app. cbn [map fst]. rewrite <- app_assoc. exact H.
Qed.

(** The stable sort leaves items of one and the same count in place. *)
Lemma sorted_desc_constant (n : nat) (l : list (citation_key * nat)) :
  Forall (fun x => snd x = n) l -> sorted_desc l = l.
Proof.
  unfold sorted_desc. induction l as [|x l IH]; intros H; [reflexivity|].
  inversion H as [|? ? Hx Hl]; subst. cbn [fold_right]. rewrite (IH Hl).
  destruct l as [|y t]; [reflexivity|]. cbn [insert_desc].
  inversion Hl as [|? ? Hy _]; subst. rewrite Hy, Nat.leb_refl. reflexivity.
Qed.

Lemma citation_pairs_keys (citations : Dict.dict (list string)) :
  map (fun tc => citation_str (fst tc) (snd tc)) (citation_pairs citations)
  = keys_of citations.
Proof.
  unfold citation_pairs, keys_of.
  induction citations as [|e l IH]; cbn [flat_map]; [reflexivity|].
  rewrite map_app, IH, map_map. reflexivity.
Qed.

Lemma citation_pairs_length (citations : Dict.dict (list string)) :
  list_sum (Dict.values (map (fun e => (fst e, List.length (snd e))) citations))
  = List.length (citation_pairs citations).
Proof.
  unfold citation_pairs, Dict.values.
  induction citations as [|e l IH]; [reflexivity|].
  cbn [flat_map map snd]. rewrite length_app, length_map.
  unfold list_sum. cbn [fold_right]. f_equal. exact IH.
Qed.

(** The report counts every citation once: the total is the number of
    the citations found, and the five top citations are the first five
    of them, in the order of extraction, each with the frequency 1. *)
Theorem citation_report_counts_once (text : string) :
  exists citations r,
    extract_citations text = Some citations
    /\ generate_citation_report text = Some r
    /\ all_citations r = citations
    /\ citation_counts r = map (fun e => (fst e, List.length (snd e))) citations
    /\ total_citations r = List.length (citation_pairs citations)
    /\ top_citations r = firstn 5 (map (fun c => (c, 1)) (citation_pairs citations)).
Proof.
  pose proof (extract_citations_total text) as E.
  pose proof (keys_of_NoDup text) as Hnd.
  exists (citations_of text). unfold generate_citation_report. rewrite E.
  eexists. split; [reflexivity|]. split; [reflexivity|].
  cbn [all_citations citation_counts total_citations top_citations].
  split; [reflexivity|]. split; [reflexivity|].
  split; [apply citation_pairs_length|].
  rewrite bump_all_once.
  - cbn [app]. rewrite (sorted_desc_constant 1); [reflexivity|].
    apply Forall_forall. intros x Hx.
    apply (proj1 (in_map_iff _ _ _)) in Hx. destruct Hx as [c [<- _]]. reflexivity.
  - cbn [map app]. rewrite <- citation_pairs_keys in Hnd.
    exact (NoDup_map_inv _ _ Hnd).
Qed.

(** ** Labels *)

Lemma label_length (node : string) : String.length (label node) <= 30.
Proof.
  unfold label. destruct (30 <? String.length node) eqn:E.
  - assert (H : forall a b, String.length (a ++ b) = String.length a + String.length b).
    { induction a as [|c a IH]; intros b; cbn [append String.length]; [reflexivity|].
      now rewrite IH. }
    rewrite H. pose proof (slice_length_le node 0 27). cbn [String.length]. lia.
  - apply Nat.ltb_ge in E. exact E.
Qed.

Lemma label_short (node : string) : String.length node <= 30 -> label node = node.
Proof.
  intros H. unfold label. apply Nat.ltb_ge in H. now rewrite H.
Qed.

Lemma labels_get (keys : list string) (n v : string) :
  forall d0 : Dict.dict string,
    Dict.get (fold_left (fun d node => Dict.set d node (label node)) keys d0) n = Some v ->
    (In n keys /\ v = label n) \/ Dict.get d0 n = Some v.
Proof.
  induction keys as [|k ks IH]; intros d0; cbn [fold_left].
  - now right.
  - intros H. destruct (IH _ H) as [[Hin Hv]|Hg].
    + left. split; [now right | exact Hv].
    + destruct (String.eqb_spec k n) as [->|Hne].
      * rewrite dict_get_set_same in Hg. left. split; [now left|].
        apply (f_equal (fun o => match o with Some x => x | None => v end)) in Hg.
        now symmetry.
      * rewrite dict_get_set_other in Hg by exact Hne. now right.
Qed.

Lemma labels_total (keys : list string) (n : string) :
  forall d0 : Dict.dict string,
    In n keys \/ Dict.get d0 n = Some (label n) ->
    Dict.get (fold_left (fun d node => Dict.set d node (label node)) keys d0) n
    = Some (label n).
Proof.
  induction keys as [|k ks IH]; intros d0 H; cbn [fold_left].
  - destruct H as [[]|H]. exact H.
  - apply IH. destruct (String.eqb_spec k n) as [->|Hne].
    + right. apply dict_get_set_same.
    + destruct H as [[H|H]|H]; [contradiction | now left |].
      right. rewrite dict_get_set_other by exact Hne. exact H.
Qed.

(** Every node of a built graph has one of the five known types. *)
Lemma network_node_type (documents : list document) (n : string) :
  In n (Dict.keys (Nx.nodes (network documents))) ->
  In (node_type (network documents) n)
     ["document"; "case_citations"; "statute_citations";
      "constitution_citations"; "section_citations"].
Proof.
  intros Hn. apply network_keys in Hn. unfold node_type.
  destruct (in_dec string_dec n (map doc_name documents)) as [Hd|Hd].
  - apply (proj1 (in_map_iff _ _ _)) in Hd. destruct Hd as [d [<- Hd]].
    destruct (network_document_node documents d Hd) as [a [-> ->]]. now left.
  - destruct Hn as [Hn|Hn]; [contradiction|].
    apply in_flat_map in Hn. destruct Hn as [d [Hin Hk]].
    unfold doc_keys in Hk. rewrite <- typed_keys_snd in Hk.
    apply (proj1 (in_map_iff _ _ _)) in Hk. destruct Hk as [[t k] [E Htk]].
    cbn [snd] in E. subst k.
    rewrite (network_citation_node documents d t n Hin Htk Hd).
    cbn [Dict.get]. rewrite String.eqb_refl.
    apply typed_keys_In in Htk. destruct Htk as [Ht _].
    destruct Ht as [ -> | [ -> | [ -> | -> ] ] ]; cbn [In]; tauto.
Qed.

(** For documents with pairwise distinct names no node of the plot is
    gray: every node has one of the five known types.  Every node has a
    label, and only nodes have one.  The label is the name of its node,
    cut to 27 characters and three dots when the name has more than 30
    characters, so no label is longer than 30. *)
Theorem plot_colors_and_labels (documents : list document) :
  NoDup (map doc_name documents) ->
  exists G,
    build_citation_network documents = Some G
    /\ List.length (colors G) = List.length (Nx.nodes G)
    /\ ~ In "gray" (colors G)
    /\ (forall node lbl,
          Dict.get (labels G) node = Some lbl ->
          In node (Dict.keys (Nx.nodes G))
          /\ String.length lbl <= 30
          /\ (String.length node <= 30 -> lbl = node))
    /\ (forall node,
          In node (Dict.keys (Nx.nodes G)) ->
          exists lbl,
            Dict.get (labels G) node = Some lbl
            /\ lbl = (if 30 <? String.length node
                      then slice node 0 27 ++ "..." else node)).
Proof.
  intros Hnd. exists (network documents). split; [now apply network_eq|].
  split; [|split; [|split]].
  - unfold colors, Dict.keys. now rewrite !length_map.
  - unfold colors. intros Hin.
    apply (proj1 (in_map_iff _ _ _)) in Hin. destruct Hin as [n [E Hn]].
    apply network_node_type in Hn. revert E.
    generalize dependent (node_type (network documents) n). intros t Ht.
    cbn [In] in Ht.
    destruct Ht as [<-|[<-|[<-|[<-|[<-|[]]]]]]; cbn; discriminate.
  - intros node lbl H. unfold labels in H. apply labels_get in H.
    destruct H as [[Hin ->]|H]; [|discriminate H].
    split; [exact Hin|]. split; [apply label_length | apply label_short].
  - intros node Hin. exists (label node). split; [|reflexivity].
    unfold labels. apply labels_total. now left.
Qed.

End ReportFacts.

(* ================================================================== *)
(** * Further properties: the type of a clause *)

Section ClauseFacts.
Import Str LegalAnalysisTools ClauseType.

(** The item [max] picks: nothing before it is as large, nothing after
    it is larger. *)
Lemma max_item_first (items : list (string * nat)) :
  forall best : string * nat,
    exists pre post,
      best :: items = (pre ++ max_item best items :: post)%list
      /\ (forall x, In x pre -> snd x < snd (max_item best items))
      /\ (forall x, In x post -> snd x <= snd (max_item best items)).
Proof.
  induction items as [|x t IH]; intros best; cbn [max_item].
  - exists [], []. split; [reflexivity|]. split; intros ? [].
  - destruct (snd best <? snd x) eqn:E.
    + apply Nat.ltb_lt in E.
      destruct (IH x) as [pre [post [Hs [Hpre Hpost]]]].
      exists (best :: pre), post. split; [cbn [app]; now rewrite <- Hs|].
      split; [|exact Hpost].
      intros y [<-|Hy]; [|now apply Hpre].
      destruct pre as [|z pre]; cbn [app] in Hs.
      * pose proof (f_equal (fun l => hd x l) Hs) as Hh. cbn [hd] in Hh.
        rewrite <- Hh. exact E.
      * pose proof (f_equal (fun l => hd x l) Hs) as Hh. cbn [hd] in Hh.
        subst z. specialize (Hpre x (or_introl eq_refl)). lia.
    + apply Nat.ltb_ge in E.
      destruct (IH best) as [pre [post [Hs [Hpre Hpost]]]].
      destruct pre as [|z pre]; cbn [app] in Hs.
      * pose proof (f_equal (fun l => hd best l) Hs) as Hh. cbn [hd] in Hh.
        pose proof (f_equal (@tl _) Hs) as Ht. cbn [tl] in Ht.
        exists [], (x :: post). split; [cbn [app]; rewrite <- Hh; do 2 f_equal; exact Ht|].
        split; [intros ? []|].
        intros y [<-|Hy]; [rewrite <- Hh; exact E | now apply Hpost].
      * pose proof (f_equal (fun l => hd best l) Hs) as Hh. cbn [hd] in Hh.
        pose proof (f_equal (@tl _) Hs) as Ht. cbn [tl] in Ht. subst z.
        exists (best :: x :: pre), post. split; [cbn [app]; do 2 f_equal; exact Ht|].
        split; [|exact Hpost].
        intros y [<-|[<-|Hy]].
        -- apply Hpre. now left.
        -- specialize (Hpre best (or_introl eq_refl)). lia.
        -- apply Hpre. now right.
Qed.

Lemma max_value_zero (values : list nat) :
  max_value values = 0 <-> forall n, In n values -> n = 0.
Proof.
  unfold max_value. induction values as [|v t IH]; cbn [fold_right In].
  - split; [intros _ ? [] | reflexivity].
  - split.
    + intros H n [<-|Hn]; [lia|]. apply IH; [lia | exact Hn].
    + intros H. rewrite (proj2 IH) by (intros n Hn; apply H; now right).
      rewrite (H v (or_introl eq_refl)). reflexivity.
Qed.

Lemma count_keywords_length (text_lower : string) (keywords : list string) :
  count_keywords text_lower keywords
  = List.length (filter (fun keyword => contains (lower keyword) text_lower) keywords).
Proof.
  unfold count_keywords.
  induction (filter _ keywords) as [|k t IH]; [reflexivity|].
  cbn [map List.length]. unfold list_sum in *. cbn [fold_right]. now rewrite IH.
Qed.

Lemma count_keywords_le (text_lower : string) (keywords : list string) :
  count_keywords text_lower keywords <= List.length keywords.
Proof. rewrite count_keywords_length. apply filter_length_le. Qed.

Lemma count_keywords_zero (text_lower : string) (keywords : list string) :
  count_keywords text_lower keywords = 0
  <-> forall keyword, In keyword keywords -> contains (lower keyword) text_lower = false.
Proof.
  rewrite count_keywords_length.
  induction keywords as [|k t IH]; cbn [filter In].
  - split; [intros _ ? [] | reflexivity].
  - destruct (contains (lower k) text_lower) eqn:E; cbn [List.length].
    + split; [discriminate|]. intros H. specialize (H k (or_introl eq_refl)). congruence.
    + rewrite IH. split.
      * intros H keyword [<-|Hk]; [exact E | now apply H].
      * intros H keyword Hk. apply H. now right.
Qed.

(** A table with distinct keys is counted entry by entry. *)
Lemma count_matches_map (text_lower : string) (table : Dict.dict (list string)) :
  NoDup (Dict.keys table) ->
  count_matches text_lower table
  = map (fun e => (fst e, count_keywords text_lower (snd e))) table.
Proof.
  unfold count_matches. intros Hnd.
  change (map (fun e => (fst e, count_keywords text_lower (snd e))) table)
    with ([] ++ map (fun e => (fst e, count_keywords text_lower (snd e))) table)%list.
  assert (H : NoDup (Dict.keys (@nil (string * nat)) ++ Dict.keys table)%list) by exact Hnd.
  revert H. clear Hnd. generalize (@nil (string * nat)).
  induction table as [|e t IH]; intros d H; cbn [fold_left map].
  - now rewrite app_nil_r.
  - assert (He : ~ In (fst e) (Dict.keys d)).
    { intros Hin. cbn [Dict.keys map] in H. apply NoDup_remove_2 in H.
      apply H. apply in_or_app. now left. }
    rewrite (dict_set_fresh _ d (fst e) _ He).
    rewrite IH.
    + rewrite <- app_assoc. reflexivity.
    + rewrite dict_keys_app. cbn [Dict.keys map app]. rewrite <- app_assoc.
      exact H.
Qed.

(** [identify_clause_type] answers [unknown] with confidence 0 exactly
    when no keyword of the table occurs in the lower-cased text.
    Otherwise it answers the first clause type of the table with the
    largest number of keywords that occur, and the confidence is 20
    for each such keyword, 100 at most. *)
Theorem identify_clause_type_best (text : string) :
  let r := identify_clause_type text in
  let count := fun e : string * list string => count_keywords (lower text) (snd e) in
  (clause_type r = "unknown" /\ confidence r = 0
   /\ forall e keyword, In e clause_keywords -> In keyword (snd e) ->
                        contains (lower keyword) (lower text) = false)
  \/ (exists pre best post,
         clause_keywords = (pre ++ best :: post)%list
         /\ clause_type r = fst best
         /\ confidence r = Nat.min 100 (count best * 20)
         /\ 1 <= count best
         /\ 20 <= confidence r <= 100
         /\ (forall e, In e pre -> count e < count best)
         /\ (forall e, In e post -> count e <= count best)).
Proof.
  cbv zeta. unfold identify_clause_type.
  assert (Hnd : NoDup (Dict.keys clause_keywords)).
  { vm_compute. repeat constructor; simpl; intuition discriminate. }
  rewrite (count_matches_map (lower text) clause_keywords Hnd).
  set (count := fun e : string * list string => count_keywords (lower text) (snd e)).
  set (f := fun e : string * list string => (fst e, count_keywords (lower text) (snd e))).
  assert (Hv : Dict.values (map f clause_keywords) = map count clause_keywords).
  { unfold Dict.values. rewrite map_map. reflexivity. }
  destruct (max_value (Dict.values (map f clause_keywords)) =? 0) eqn:Ez.
  - left. apply Nat.eqb_eq in Ez.
    assert (Hr : classify (map f clause_keywords) = Clause "unknown" 0).
    { unfold classify. destruct (map f clause_keywords); [reflexivity|]. now rewrite Ez. }
    rewrite Hr. split; [reflexivity|]. split; [reflexivity|].
    intros e keyword He Hk. rewrite Hv in Ez.
    pose proof (proj1 (max_value_zero _) Ez (count e) (in_map count _ _ He)) as H0.
    exact (proj1 (count_keywords_zero _ _) H0 keyword Hk).
  - right. apply Nat.eqb_neq in Ez.
    destruct clause_keywords as [|e0 rest] eqn:Et; [exfalso; apply Ez; reflexivity|].
    cbn [map]. unfold classify.
    change (f e0 :: map f rest) with (map f (e0 :: rest)).
    apply Nat.eqb_neq in Ez. rewrite Ez. cbn [map].
    destruct (max_item_first (map f rest) (f e0)) as [pre [post [Hs [Hpre Hpost]]]].
    set (b := max_item (f e0) (map f rest)) in *.
    change (f e0 :: map f rest) with (map f (e0 :: rest)) in Hs.
    apply map_eq_app in Hs. destruct Hs as [pre0 [tl0 [Hsplit [Hp Ht]]]].
    destruct tl0 as [|best post0]; [discriminate Ht|].
    cbn [map] in Ht.
    pose proof (f_equal (fun l => hd b l) Ht) as Hb. cbn [hd] in Hb.
    pose proof (f_equal (@tl _) Ht) as Hpo. cbn [tl] in Hpo.
    exists pre0, best, post0.
    assert (Hcnt : snd b = count best) by (rewrite <- Hb; reflexivity).
    assert (Hfst : fst b = fst best) by (rewrite <- Hb; reflexivity).
    cbn [clause_type confidence]. rewrite Hcnt, Hfst.
    assert (Hpre' : forall e, In e pre0 -> count e < count best).
    { intros e He. rewrite <- Hcnt. apply (Hpre (f e)). rewrite <- Hp. now apply in_map. }
    assert (Hpost' : forall e, In e post0 -> count e <= count best).
    { intros e He. rewrite <- Hcnt. apply (Hpost (f e)). rewrite <- Hpo. now apply in_map. }
    assert (Hpos : 1 <= count best).
    { apply Nat.eqb_neq in Ez. rewrite Hv in Ez.
      destruct (Nat.eq_dec (count best) 0) as [H0|H0]; [|lia].
      exfalso. apply Ez. apply max_value_zero. intros n Hn.
      apply (proj1 (in_map_iff _ _ _)) in Hn. destruct Hn as [e [<- He]].
      rewrite Hsplit in He. apply in_app_or in He.
      destruct He as [He|[<-|He]].
      - specialize (Hpre' e He). lia.
      - exact H0.
      - specialize (Hpost' e He). lia. }
    split; [exact Hsplit|]. split; [reflexivity|]. split; [reflexivity|].
    split; [exact Hpos|]. split; [lia|]. split; assumption.
Qed.

End ClauseFacts.

(* ================================================================== *)
(** * Further properties: the key differences of a diff *)

Section KeyDifferenceFacts.
Import Str KeyDifferences.

Lemma flush_significant (diffs current : list string) :
  flush diffs current
  = (diffs ++ map (join " ") (filter significant [current]))%list.
Proof.
  unfold flush, significant. cbn [filter].
  destruct current as [|x t].
  - cbn. now rewrite app_nil_r.
  - destruct (2 <? List.length (x :: t)); cbn [map]; [reflexivity | now rewrite app_nil_r].
Qed.

Lemma filter_head (f : list string -> bool) (x : list string) (l : list (list string)) :
  filter f (x :: l) = (filter f [x] ++ filter f l)%list.
Proof. cbn [filter]. now destruct (f x). Qed.

Lemma prefix_marks (item : string) :
  prefix "+ " item = true -> prefix "- " item = false.
Proof.
  destruct item as [|c t]; [discriminate|]. cbn [prefix].
  destruct (Ascii.ascii_dec "+" c) as [<-|]; [reflexivity | discriminate].
Qed.

Lemma step_addition (a r ca cr : list string) (item : string) :
  prefix "+ " item = true ->
  step (LoopState (KeyDiffs a r) ca cr) item
  = LoopState (KeyDiffs a (flush r cr)) (ca ++ [payload item])%list [].
Proof. intros E. unfold step. rewrite E. now destruct cr. Qed.

Lemma step_removal (a r ca cr : list string) (item : string) :
  prefix "+ " item = false -> prefix "- " item = true ->
  step (LoopState (KeyDiffs a r) ca cr) item
  = LoopState (KeyDiffs (flush a ca) r) [] (cr ++ [payload item])%list.
Proof. intros E1 E2. unfold step. rewrite E1, E2. now destruct ca. Qed.

Lemma step_other (a r ca cr : list string) (item : string) :
  prefix "+ " item = false -> prefix "- " item = false ->
  step (LoopState (KeyDiffs a r) ca cr) item
  = LoopState (KeyDiffs (flush a ca) (flush r cr)) [] [].
Proof. intros E1 E2. unfold step. now rewrite E1, E2. Qed.

(** The loop, from any state: what it adds to the two lists are the
    significant runs that are still open or to come. *)
Lemma loop_runs (diff : list string) :
  forall (a r ca cr : list string),
    let st := fold_left step diff (LoopState (KeyDiffs a r) ca cr) in
    flush (added (result st)) (current_addition st)
    = (a ++ map (join " ") (filter significant (runs Addition ca diff)))%list
    /\ flush (removed (result st)) (current_removal st)
       = (r ++ map (join " ") (filter significant (runs Removal cr diff)))%list.
Proof.
  induction diff as [|item rest IH]; intros a r ca cr; cbv zeta.
  - cbn [fold_left result added removed current_addition current_removal runs].
    split; apply flush_significant.
  - cbn [fold_left runs of_kind].
    destruct (prefix "+ " item) eqn:Ep.
    + rewrite (step_addition a r ca cr item Ep).
      rewrite (prefix_marks item Ep). cbn [negb andb].
      destruct (IH a (flush r cr) (ca ++ [payload item])%list []) as [H1 H2].
      split; [exact H1|]. rewrite H2, flush_significant.
      rewrite <- app_assoc, <- map_app, <- filter_head. reflexivity.
    + cbn [negb andb]. destruct (prefix "- " item) eqn:Em.
      * rewrite (step_removal a r ca cr item Ep Em).
        destruct (IH (flush a ca) r [] (cr ++ [payload item])%list) as [H1 H2].
        split; [|exact H2]. rewrite H1, flush_significant.
        rewrite <- app_assoc, <- map_app, <- filter_head. reflexivity.
      * rewrite (step_other a r ca cr item Ep Em).
        destruct (IH (flush a ca) (flush r cr) [] []) as [H1 H2].
        split.
        -- rewrite H1, flush_significant. rewrite <- app_assoc, <- map_app, <- filter_head. reflexivity.
        -- rewrite H2, flush_significant. rewrite <- app_assoc, <- map_app, <- filter_head. reflexivity.
Qed.

(** [_extract_key_differences] lists, in the order of the diff, the
    maximal runs of consecutive additions that have more than two
    items, each joined by blanks, and in the same way the runs of
    removals; an item of any other kind ends both runs, an addition
    ends a run of removals and a removal a run of additions. *)
Theorem extract_key_differences_runs (diff : list string) :
  added (_extract_key_differences diff)
  = map (join " ") (filter significant (runs Addition [] diff))
  /\ removed (_extract_key_differences diff)
     = map (join " ") (filter significant (runs Removal [] diff)).
Proof.
  unfold _extract_key_differences. cbn [added removed].
  destruct (loop_runs diff [] [] [] []) as [H1 H2]. cbv zeta in H1, H2.
  split; [exact H1 | exact H2].
Qed.

End KeyDifferenceFacts.

(* ================================================================== *)
(** * Further properties: the document manager *)

Section ManagerFacts.
Import Str DocumentManager.

Lemma set_keys_eq (V W : Type) (d1 : Dict.dict V) (d2 : Dict.dict W)
  (k : string) (v : V) (w : W) :
  Dict.keys d1 = Dict.keys d2 ->
  Dict.keys (Dict.set d1 k v) = Dict.keys (Dict.set d2 k w).
Proof.
  revert d2. induction d1 as [|[k1 v1] t1 IH]; intros [|[k2 v2] t2];
    cbn [Dict.keys map fst Dict.set]; intros E; try discriminate E.
  - reflexivity.
  - pose proof (f_equal (fun l => hd k l) E) as Eh. cbn [hd] in Eh. subst k2.
    pose proof (f_equal (@tl _) E) as Et. cbn [tl] in Et.
    destruct (String.eqb k k1); cbn [map fst].
    + now rewrite Et.
    + f_equal. now apply IH.
Qed.

Lemma del_keys_eq (V W : Type) (d1 : Dict.dict V) (d2 : Dict.dict W) (k : string) :
  Dict.keys d1 = Dict.keys d2 ->
  match del d1 k, del d2 k with
  | Some r1, Some r2 => Dict.keys r1 = Dict.keys r2
  | None, None => True
  | _, _ => False
  end.
Proof.
  revert d2. induction d1 as [|[k1 v1] t1 IH]; intros [|[k2 v2] t2];
    cbn [Dict.keys map fst del]; intros E; try discriminate E.
  - exact I.
  - pose proof (f_equal (fun l => hd k l) E) as Eh. cbn [hd] in Eh. subst k2.
    pose proof (f_equal (@tl _) E) as Et. cbn [tl] in Et.
    destruct (String.eqb k k1); [exact Et|].
    specialize (IH t2 Et).
    destruct (del t1 k), (del t2 k); try contradiction; [|exact I].
    cbn [Dict.keys map fst]. f_equal. exact IH.
Qed.

Lemma del_present (V : Type) (d : Dict.dict V) (k : string) :
  In k (Dict.keys d) -> exists r, del d k = Some r.
Proof.
  induction d as [|[k1 v1] t IH]; cbn [Dict.keys map fst In del]; [intros []|].
  intros H. destruct (String.eqb_spec k k1) as [->|Hne]; [eauto|].
  destruct H as [H|H]; [congruence|]. destruct (IH H) as [r ->]. eauto.
Qed.

Lemma del_keys (V : Type) (d r : Dict.dict V) (k k' : string) :
  NoDup (Dict.keys d) -> del d k = Some r ->
  (In k' (Dict.keys r) <-> k' <> k /\ In k' (Dict.keys d)).
Proof.
  revert r. induction d as [|[k1 v1] t IH]; intros r Hnd; cbn [del]; [discriminate|].
  cbn [Dict.keys map fst] in Hnd. inversion Hnd as [|? ? Hn Hd]; subst.
  destruct (String.eqb_spec k k1) as [->|Hne].
  - intros E. apply (f_equal (fun o => match o with Some x => x | None => r end)) in E.
    cbv beta iota in E. subst r. cbn [Dict.keys map fst In]. split.
    + intros H. split; [intros ->; contradiction | now right].
    + intros [H1 [H2|H2]]; [congruence | exact H2].
  - destruct (del t k) as [r'|] eqn:Er; [|discriminate]. intros E.
    apply (f_equal (fun o => match o with Some x => x | None => r end)) in E.
    cbv beta iota in E. subst r. cbn [Dict.keys map fst In].
    rewrite (IH r' Hd eq_refl). split.
    + intros [<-|[H1 H2]]; [split; [congruence | now left] | split; [exact H1 | now right]].
    + intros [H1 [H2|H2]]; [now left | right; now split].
Qed.

Lemma del_NoDup (V : Type) (d r : Dict.dict V) (k : string) :
  NoDup (Dict.keys d) -> del d k = Some r -> NoDup (Dict.keys r).
Proof.
  revert r. induction d as [|[k1 v1] t IH]; intros r Hnd; cbn [del]; [discriminate|].
  cbn [Dict.keys map fst] in Hnd. inversion Hnd as [|? ? Hn Hd]; subst.
  destruct (String.eqb_spec k k1) as [->|Hne].
  - intros E. apply (f_equal (fun o => match o with Some x => x | None => r end)) in E.
    cbv beta iota in E. now subst r.
  - destruct (del t k) as [r'|] eqn:Er; [|discriminate]. intros E.
    apply (f_equal (fun o => match o with Some x => x | None => r end)) in E.
    cbv beta iota in E. subst r. cbn [Dict.keys map fst]. constructor.
    + intros H. apply (del_keys V t r' k k1 Hd Er) in H. now apply Hn.
    + now apply IH.
Qed.

Lemma del_get_other (V : Type) (d r : Dict.dict V) (k k' : string) :
  del d k = Some r -> k' <> k -> Dict.get r k' = Dict.get d k'.
Proof.
  revert r. induction d as [|[k1 v1] t IH]; intros r; cbn [del]; [discriminate|].
  destruct (String.eqb_spec k k1) as [->|Hne].
  - intros E Hk. apply (f_equal (fun o => match o with Some x => x | None => r end)) in E.
    cbv beta iota in E. subst r. cbn [Dict.get].
    destruct (String.eqb_spec k' k1); [congruence | reflexivity].
  - destruct (del t k) as [r'|] eqn:Er; [|discriminate]. intros E Hk.
    apply (f_equal (fun o => match o with Some x => x | None => r end)) in E.
    cbv beta iota in E. subst r. cbn [Dict.get].
    destruct (String.eqb k' k1); [reflexivity|]. now apply IH.
Qed.

(** What every manager that starts empty keeps: the two dictionaries
    have the same keys, in the same order, and the current document,
    if there is a document at all, is one of them. *)
Lemma reachable_wf (self : self_t) :
  reachable self ->
  Dict.keys (documents self) = Dict.keys (document_metadata self)
  /\ NoDup (Dict.keys (documents self))
  /\ match current_document_id self with
     | Some c => In c (Dict.keys (documents self))
     | None => documents self = []
     end.
Proof.
  induction 1 as [ | self text path type uuid4 uuid1 Hr [IH1 [IH2 IH3]]
                   | self self' doc_id Hr [IH1 [IH2 IH3]] Hrem ].
  - cbn. split; [reflexivity|]. split; [constructor | reflexivity].
  - cbn [add_document fst documents document_metadata current_document_id].
    split; [now apply set_keys_eq|]. split; [now apply dict_set_NoDup|].
    apply dict_keys_set. now left.
  - unfold remove_document in Hrem.
    destruct (Dict.get (documents self) doc_id) as [text|] eqn:Eg.
    + pose proof (del_keys_eq _ _ (documents self) (document_metadata self) doc_id IH1)
        as Hk.
      destruct (del (documents self) doc_id) as [ds|] eqn:Ed;
        destruct (del (document_metadata self) doc_id) as [ms|] eqn:Em;
        try contradiction; try discriminate Hrem.
      apply (f_equal (fun o => match o with Some x => x | None => self end)) in Hrem.
      cbv beta iota in Hrem. subst self'.
      cbn [documents document_metadata current_document_id].
      split; [exact Hk|]. split; [exact (del_NoDup _ _ _ _ IH2 Ed)|].
      destruct (current_document_id self) as [c|];
        [|rewrite IH3 in Eg; discriminate Eg].
      destruct (String.eqb_spec c doc_id) as [->|Hne].
      * destruct ds as [|[first v] ds']; [reflexivity | now left].
      * apply (del_keys _ _ _ _ c IH2 Ed). now split.
    + apply (f_equal (fun o => match o with Some x => x | None => self end)) in Hrem.
      cbv beta iota in Hrem. subst self'. now split.
Qed.

Lemma list_from_total (meta : Dict.dict metadata) (ids : list string) :
  (forall k, In k ids -> In k (Dict.keys meta)) ->
  exists l, list_from meta ids = Some l /\ map fst l = ids.
Proof.
  induction ids as [|k ids IH]; intros H; cbn [list_from].
  - now exists [].
  - destruct (Dict.get meta k) as [md|] eqn:E.
    + destruct IH as [l [-> Hl]]; [intros k' Hk'; apply H; now right|].
      eexists. split; [reflexivity|]. cbn [map fst]. now rewrite Hl.
    + exfalso. apply dict_get_None in E. apply E, H. now left.
Qed.

(** No sequence of additions and removals brings a manager that starts
    empty to raise [KeyError]: every lookup answers, the listing has
    one entry for each document, with distinct identifiers, and the
    lookup of the current document finds nothing only in an empty
    manager. *)
Theorem manager_never_fails (self : self_t) :
  reachable self ->
  (forall doc_id, exists r, get_document self doc_id = Some r)
  /\ (forall doc_id, exists self', remove_document self doc_id = Some self')
  /\ (exists l, list_documents self = Some l
                /\ map fst l = Dict.keys (documents self)
                /\ NoDup (map fst l))
  /\ (get_document self None = Some (None, None) <-> documents self = []).
Proof.
  intros Hr. destruct (reachable_wf self Hr) as [Hk [Hnd Hc]].
  assert (Hget : forall d, In d (Dict.keys (documents self)) ->
                           exists text meta,
                             Dict.get (documents self) d = Some text
                             /\ Dict.get (document_metadata self) d = Some meta).
  { intros d Hd.
    destruct (Dict.get (documents self) d) as [text|] eqn:E1;
      [|apply dict_get_None in E1; contradiction].
    destruct (Dict.get (document_metadata self) d) as [meta|] eqn:E2;
      [eauto|]. apply dict_get_None in E2. rewrite <- Hk in E2. contradiction. }
  split; [|split; [|split]].
  - intros doc_id. unfold get_document.
    destruct (match doc_id with Some d => Some d | None => current_document_id self end)
      as [d|]; [|eauto].
    destruct (Dict.get (documents self) d) as [text|] eqn:E1; [|eauto].
    destruct (Hget d) as [text' [meta [_ ->]]]; [|eauto].
    apply dict_get_In in E1. apply (in_map fst) in E1. exact E1.
  - intros doc_id. unfold remove_document.
    destruct (Dict.get (documents self) doc_id) as [text|] eqn:E1; [|eauto].
    apply dict_get_In in E1. apply (in_map fst) in E1. cbn [fst] in E1.
    destruct (del_present _ (documents self) doc_id E1) as [ds ->].
    fold (Dict.keys (documents self)) in E1. rewrite Hk in E1.
    destruct (del_present _ (document_metadata self) doc_id E1) as [ms ->]. eauto.
  - unfold list_documents.
    destruct (list_from_total (document_metadata self) (Dict.keys (documents self)))
      as [l [El Hl]]; [intros k Hin; now rewrite <- Hk|].
    exists l. split; [exact El|]. split; [exact Hl | now rewrite Hl].
  - unfold get_document. destruct (current_document_id self) as [c|].
    + destruct (Hget c Hc) as [text [meta [-> ->]]]. split; [discriminate|].
      intros E. rewrite E in Hc. destruct Hc.
    + split; [intros _; exact Hc | reflexivity].
Qed.

(** What is added can be looked up, by the identifier that is returned
    and as the current document: the text, and metadata with the
    length of the text; the other documents stay as they are.  An
    identifier that is in use already replaces the document it names,
    so the number of documents grows only for a fresh identifier. *)
Theorem add_then_get (self : self_t) (document_text file_path doc_type uuid4 uuid1 : string) :
  let self' := fst (add_document self document_text file_path doc_type uuid4 uuid1) in
  let doc_id := snd (add_document self document_text file_path doc_type uuid4 uuid1) in
  let meta := Metadata file_path (basename file_path) doc_type
                       (String.length document_text) uuid1 in
  doc_id = slice uuid4 0 8
  /\ get_document self' (Some doc_id) = Some (Some document_text, Some meta)
  /\ get_document self' None = Some (Some document_text, Some meta)
  /\ (forall other, other <> doc_id ->
                    get_document self' (Some other) = get_document self (Some other))
  /\ List.length (documents self')
     = match Dict.get (documents self) doc_id with
       | Some _ => List.length (documents self)
       | None => S (List.length (documents self))
       end.
Proof.
  cbv zeta. cbn [add_document fst snd]. set (doc_id := slice uuid4 0 8).
  unfold get_document. cbn [documents document_metadata current_document_id].
  rewrite !dict_get_set_same.
  split; [reflexivity|]. split; [reflexivity|]. split; [reflexivity|]. split.
  - intros other Hne.
    rewrite !dict_get_set_other by congruence. reflexivity.
  - generalize (documents self). intros d.
    induction d as [|[k v] t IH]; cbn [Dict.set Dict.get List.length]; [reflexivity|].
    destruct (String.eqb doc_id k); cbn [List.length]; [reflexivity|].
    rewrite IH. now destruct (Dict.get t doc_id).
Qed.

(** After a removal from a manager that started empty the document is
    gone and the others are as before; the removal of an unknown
    identifier changes nothing.  When the current document is removed,
    the first of the remaining documents becomes the current one. *)
Theorem remove_then_get (self : self_t) (doc_id : string) :
  reachable self ->
  exists self',
    remove_document self doc_id = Some self'
    /\ get_document self' (Some doc_id) = Some (None, None)
    /\ (forall other, other <> doc_id ->
                      get_document self' (Some other) = get_document self (Some other))
    /\ (Dict.get (documents self) doc_id = None -> self' = self)
    /\ (current_document_id self = Some doc_id ->
        current_document_id self' = hd_error (Dict.keys (documents self'))).
Proof.
  intros Hr. destruct (reachable_wf self Hr) as [Hk [Hnd Hc]].
  unfold remove_document.
  destruct (Dict.get (documents self) doc_id) as [text|] eqn:E1.
  - pose proof E1 as Hin. apply dict_get_In in Hin. apply (in_map fst) in Hin.
    cbn [fst] in Hin. fold (Dict.keys (documents self)) in Hin.
    pose proof (del_keys_eq _ _ (documents self) (document_metadata self) doc_id Hk) as Hdk.
    destruct (del_present _ (documents self) doc_id Hin) as [ds Ed].
    rewrite Ed in *.
    destruct (del (document_metadata self) doc_id) as [ms|] eqn:Em; [|contradiction].
    eexists. split; [reflexivity|].
    assert (Hgone : Dict.get ds doc_id = None).
    { apply dict_get_None. intros H.
      apply (del_keys _ _ _ _ doc_id Hnd Ed) in H. now destruct H. }
    unfold get_document. cbn [documents document_metadata current_document_id].
    rewrite Hgone. split; [reflexivity|]. split; [|split].
    + intros other Hne.
      rewrite (del_get_other _ _ _ _ other Ed Hne), (del_get_other _ _ _ _ other Em Hne).
      reflexivity.
    + discriminate.
    + intros ->. rewrite String.eqb_refl. now destruct ds as [|[first v] ds'].
  - exists self. split; [reflexivity|].
    unfold get_document. rewrite E1. split; [reflexivity|].
    split; [reflexivity|]. split; [reflexivity|].
    intros Ec. rewrite Ec in Hc. apply dict_get_None in E1. contradiction.
Qed.

(** ** The file name *)

Lemma string_app_assoc (a b c : string) : (a ++ b) ++ c = a ++ b ++ c.
Proof. induction a as [|x a IH]; cbn [append]; [reflexivity | now rewrite IH]. Qed.

Lemma string_app_nil_r (a : string) : a ++ "" = a.
Proof. induction a as [|x a IH]; cbn [append]; [reflexivity | now rewrite IH]. Qed.

Lemma mem_char_app (c : ascii) (a b : string) :
  mem_char c (a ++ b) = mem_char c a || mem_char c b.
Proof.
  induction a as [|x a IH]; cbn [append mem_char]; [reflexivity|].
  now rewrite IH, orb_assoc.
Qed.

Lemma basename_from_split (p : string) :
  forall pre mid : string,
    (pre = "" \/ exists d, pre = d ++ "/") ->
    mem_char "/" mid = false ->
    exists dir,
      pre ++ mid ++ p = dir ++ basename_from (mid ++ p) p
      /\ (dir = "" \/ exists d, dir = d ++ "/")
      /\ mem_char "/" (basename_from (mid ++ p) p) = false.
Proof.
  induction p as [|c t IH]; intros pre mid Hpre Hmid; cbn [basename_from].
  - exists pre. rewrite string_app_nil_r. auto.
  - destruct (Ascii.eqb_spec c "/") as [->|Hne].
    + destruct (IH (pre ++ mid ++ "/") "") as [dir [E [Hd Hb]]].
      * right. exists (pre ++ mid). now rewrite string_app_assoc.
      * reflexivity.
      * cbn [append] in E, Hb. exists dir. split; [|now split].
        rewrite <- E. rewrite !string_app_assoc. reflexivity.
    + destruct (IH pre (mid ++ String c "")) as [dir [E [Hd Hb]]].
      * exact Hpre.
      * rewrite mem_char_app, Hmid. cbn [mem_char orb].
        destruct (Ascii.eqb_spec "/" c); [congruence | reflexivity].
      * rewrite string_app_assoc in E, Hb. cbn [append] in E, Hb.
        exists dir. now split.
Qed.

(** The file name that is stored with a document is the last component
    of its path: the path ends with it, what comes before it is empty
    or ends with a slash, and there is no slash in it. *)
Theorem stored_filename (self : self_t)
  (document_text file_path doc_type uuid4 uuid1 : string) :
  let self' := fst (add_document self document_text file_path doc_type uuid4 uuid1) in
  exists meta dir,
    Dict.get (document_metadata self') (slice uuid4 0 8) = Some meta
    /\ file_path = dir ++ filename meta
    /\ (dir = "" \/ exists d, dir = d ++ "/")
    /\ mem_char "/" (filename meta) = false.
Proof.
  cbv zeta. cbn [add_document fst document_metadata].
  rewrite dict_get_set_same. eexists.
  destruct (basename_from_split file_path "" "" (or_introl eq_refl) eq_refl)
    as [dir [E [Hd Hb]]].
  cbn [append] in E, Hb. exists dir. split; [reflexivity|].
  cbn [filename]. unfold basename. now split.
Qed.

End ManagerFacts.

(* ================================================================== *)
(** * Further properties: the suggestions for an analysed contract *)

Section SuggestionFacts.
Import Str ContractRiskAnalyzer RiskSpec MatchSpec Suggestions.

Lemma general_advice_length (a : analysis) :
  1 <= List.length (general_advice (suggest_improvements a)) <= 4.
Proof.
  unfold suggest_improvements.
  destruct (score_below a 30), (score_below a 60), (nonempty (ambiguous_clauses a)),
    (nonempty (one_sided_terms a)), (nonempty (liability_issues a));
    cbn [general_advice List.length app]; lia.
Qed.

Lemma general_advice_head (a : analysis) :
  hd_error (general_advice (suggest_improvements a))
  = Some (if score_below a 30 then low_risk_advice
          else if score_below a 60 then moderate_risk_advice
          else high_risk_advice).
Proof.
  unfold suggest_improvements.
  destruct (score_below a 30), (score_below a 60), (nonempty (ambiguous_clauses a)),
    (nonempty (one_sided_terms a)), (nonempty (liability_issues a)); reflexivity.
Qed.

Lemma specific_suggestions_eq (a : analysis) :
  specific_suggestions (suggest_improvements a)
  = (map (fun item => replace_term (term item)) (firstn 3 (ambiguous_clauses a))
     ++ map add_provision (missing_provisions a))%list.
Proof.
  unfold suggest_improvements.
  destruct (ambiguous_clauses a) as [|x t] eqn:E; cbn [nonempty].
  - reflexivity.
  - reflexivity.
Qed.

(** For every text, the suggestions for its analysis open with the
    advice for the level of the risk score, hold four pieces of general
    advice at most, and propose a replacement for each of the first
    three ambiguous terms that were matched and an addition for every
    missing provision, in this order: 13 suggestions at most. *)
Theorem suggestions_for_analysis (text : string) :
  exists a missing,
    analyze_contract init text = Some a
    /\ find_missing_provisions init text = Some missing
    /\ specific_suggestions (suggest_improvements a)
       = (map (fun item => replace_term (term item))
              (firstn 3 (category_matches text "ambiguity"))
          ++ map add_provision missing)%list
    /\ List.length (specific_suggestions (suggest_improvements a))
       = Nat.min 3 (raw_match_count text "ambiguity") + List.length missing
    /\ List.length (specific_suggestions (suggest_improvements a)) <= 13
    /\ 1 <= List.length (general_advice (suggest_improvements a)) <= 4
    /\ hd_error (general_advice (suggest_improvements a))
       = Some (if score_below a 30 then low_risk_advice
               else if score_below a 60 then moderate_risk_advice
               else high_risk_advice).
Proof.
  destruct (analyze_contract_closed_form text) as [a [missing [Ea [Em [Hm _]]]]].
  destruct (analyze_contract_files text a Ea) as [L1 _].
  exists a, missing. split; [exact Ea|]. split; [exact Em|].
  assert (Hs : specific_suggestions (suggest_improvements a)
               = (map (fun item => replace_term (term item))
                      (firstn 3 (category_matches text "ambiguity"))
                  ++ map add_provision missing)%list).
  { rewrite specific_suggestions_eq, L1, Hm. reflexivity. }
  assert (Hl : List.length (specific_suggestions (suggest_improvements a))
               = Nat.min 3 (raw_match_count text "ambiguity") + List.length missing).
  { rewrite Hs, length_app, !length_map, length_firstn, category_matches_length.
    reflexivity. }
  split; [exact Hs|]. split; [exact Hl|]. split; [|split].
  - rewrite Hl. rewrite find_missing_provisions_filter in Em.
    apply (f_equal (fun o => match o with Some x => x | None => [] end)) in Em.
    cbv beta iota in Em. rewrite <- Em.
    match goal with
    | |- context [filter ?f ?l] => pose proof (filter_length_le f l) as Hf
    end.
    change (List.length (standard_provisions init)) with 10 in Hf. lia.
  - apply general_advice_length.
  - apply general_advice_head.
Qed.

End SuggestionFacts.

(* ================================================================== *)
(** * Further properties: the metadata of a text *)

Section MetadataFacts.
Import Str EnhancedDocumentProcessor.

(** A pattern that starts with [^] and is not multi-line matches
    nowhere after the first character. *)
Lemma scan_bol_later (r : Re.re) (t : string) :
  forall (c : ascii) (i : nat),
    Re.scan Re.no_flags (Re.Seq Re.Bol r) (Some c) t i 0 = [].
Proof.
  assert (H : forall c t i,
             Re.match_here Re.no_flags (Re.Seq Re.Bol r) (Re.State (Some c) t i []) = None).
  { intros c t0 i. reflexivity. }
  induction t as [|x t IH]; intros c i; cbn [Re.scan]; rewrite H; [reflexivity | apply IH].
Qed.

Lemma drop_to_prev (t : string) :
  forall (p : option ascii) (n : nat),
    (p <> None \/ (1 <= n /\ t <> "")) -> fst (drop_to p t n) <> None.
Proof.
  induction t as [|c t IH]; intros p n H.
  - destruct n; cbn [drop_to fst]; destruct H as [H|[_ H]]; congruence.
  - destruct n as [|n]; cbn [drop_to].
    + cbn [fst]. destruct H as [H|[H _]]; [exact H | lia].
    + apply IH. left. discriminate.
Qed.

(** The scan for the simple section format, which starts at the
    position 8, finds nothing. *)
Lemma simple_sections_none (text : string) (c : Re.pattern) :
  Re.compile simple_section_pattern = Some c ->
  finditer_pos c text MULTILINE = [].
Proof.
  assert (Hc : exists r, Re.compile simple_section_pattern
                         = Some (Re.Pattern Re.no_flags 2 (Re.Seq Re.Bol r))
                         /\ Re.scan Re.no_flags (Re.Seq Re.Bol r) None "" 0 0 = []).
  { let c := eval vm_compute in (Re.compile simple_section_pattern) in
    match c with
    | Some (Re.Pattern _ _ (Re.Seq Re.Bol ?r)) => exists r
    end.
    split; [vm_compute; reflexivity | vm_compute; reflexivity]. }
  destruct Hc as [r [Hc Hnil]]. rewrite Hc. intros E.
  apply (f_equal (fun o => match o with Some x => x | None => c end)) in E.
  cbv beta iota in E. subst c. unfold finditer_pos. cbn [Re.p_flags Re.p_re].
  destruct text as [|x text]; [exact Hnil|].
  pose proof (drop_to_prev (String x text) None
                (Nat.min MULTILINE (String.length (String x text)))) as Hp.
  destruct (drop_to None (String x text)
              (Nat.min MULTILINE (String.length (String x text)))) as [p t].
  cbn [fst] in Hp. destruct p as [c|].
  - apply scan_bol_later.
  - exfalso. apply Hp; [|reflexivity]. right. split; [|discriminate].
    unfold MULTILINE. cbn [String.length]. lia.
Qed.

Lemma add_section_map (text : string) (ms : list Re.rmatch) :
  forall l,
    fold_left (add_section text) ms l
    = (l ++ map (fun mt => (Re.group_or_empty text mt 1,
                            strip (Re.group_or_empty text mt 2))) ms)%list.
Proof.
  induction ms as [|mt ms IH]; intros l; cbn [fold_left map].
  - now rewrite app_nil_r.
  - rewrite IH. unfold add_section. now rewrite <- app_assoc.
Qed.

Lemma add_group0_map (text : string) (ms : list Re.rmatch) :
  forall l,
    fold_left (fun l mt => l ++ [Re.group0 text mt])%list ms l
    = (l ++ map (Re.group0 text) ms)%list.
Proof.
  induction ms as [|mt ms IH]; intros l; cbn [fold_left map].
  - now rewrite app_nil_r.
  - rewrite IH. now rewrite <- app_assoc.
Qed.

Lemma add_unique_NoDup (text : string) (ms : list Re.rmatch) :
  forall l,
    NoDup l /\ ~ In "" l ->
    NoDup (fold_left (add_unique text) ms l)
    /\ ~ In "" (fold_left (add_unique text) ms l).
Proof.
  induction ms as [|mt ms IH]; intros l [Hnd He]; cbn [fold_left]; [now split|].
  apply IH. unfold add_unique.
  destruct (Re.group0 text mt) as [|c s] eqn:Eg; [now split|].
  destruct (mem (String c s) l) eqn:Em; [now split|].
  apply mem_false in Em. split.
  - apply NoDup_app; [exact Hnd | repeat constructor; intros [] |].
    intros x Hx [<-|[]]. contradiction.
  - intros H. apply in_app_or in H. destruct H as [H|[H|[]]]; [contradiction | discriminate].
Qed.

Lemma add_unique_In (text : string) (ms : list Re.rmatch) (x : string) :
  forall l,
    In x (fold_left (add_unique text) ms l)
    -> In x l \/ In x (map (Re.group0 text) ms).
Proof.
  induction ms as [|mt ms IH]; intros l; cbn [fold_left map In]; [now left|].
  intros H. apply IH in H. destruct H as [H|H]; [|tauto].
  unfold add_unique in H.
  destruct (Re.group0 text mt) as [|c s] eqn:Eg; [now left|].
  destruct (mem (String c s) l); [now left|].
  apply in_app_or in H. destruct H as [H|[<-|[]]]; [now left | right; now left].
Qed.

(** [extract_metadata] never fails.  Its sections are the matches of
    the pattern for "Section n" and "Article n" alone, in the order of
    the text: the scan for the format "1. Title" is given the value of
    [re.MULTILINE] as its starting position and finds nothing.  The
    entities, the statutes and the case citations are matched pieces
    of the text, none of them empty, none of them twice; the dates are
    all the matches of the date pattern. *)
Theorem extract_metadata_lists (text : string) :
  exists md section_matches date_matches,
    extract_metadata text = Some md
    /\ Re.finditer section_pattern text Re.no_flags = Some section_matches
    /\ sections md
       = map (fun mt => (Re.group_or_empty text mt 1,
                         strip (Re.group_or_empty text mt 2))) section_matches
    /\ Re.finditer date_pattern text Re.no_flags = Some date_matches
    /\ dates md = map (Re.group0 text) date_matches
    /\ NoDup (entities md) /\ ~ In "" (entities md)
    /\ NoDup (statutes md) /\ ~ In "" (statutes md)
    /\ NoDup (case_citations md) /\ ~ In "" (case_citations md).
Proof.
  assert (Hcomp : forall p, RiskSpec.compiles p = true ->
                            exists c, Re.compile p = Some c
                                      /\ forall t, Re.finditer p t Re.no_flags
                                                   = Some (finditer_compiled c t)).
  { intros p. unfold RiskSpec.compiles, Re.finditer, finditer_compiled.
    destruct (Re.compile p) as [c|]; [|discriminate]. intros _.
    exists c. split; [reflexivity|]. intros t. now destruct (Re.p_flags c). }
  destruct (Hcomp section_pattern eq_refl) as [c1 [E1 F1]].
  destruct (Hcomp simple_section_pattern eq_refl) as [c2 [E2 _]].
  destruct (Hcomp date_pattern eq_refl) as [c3 [E3 F3]].
  destruct (Hcomp entity_pattern eq_refl) as [c4 [E4 _]].
  destruct (Hcomp statute_pattern eq_refl) as [c5 [E5 _]].
  destruct (Hcomp case_pattern eq_refl) as [c6 [E6 _]].
  unfold extract_metadata. rewrite E1, E2, E3, E4, E5, E6.
  eexists. exists (finditer_compiled c1 text), (finditer_compiled c3 text).
  split; [reflexivity|]. cbn [sections dates entities statutes case_citations].
  split; [apply F1|]. split.
  - rewrite (simple_sections_none text c2 E2). cbn [fold_left].
    now rewrite add_section_map.
  - split; [apply F3|]. split; [now rewrite add_group0_map|].
    assert (H0 : NoDup (@nil string) /\ ~ In "" (@nil string))
      by (split; [constructor | intros []]).
    destruct (add_unique_NoDup text (finditer_compiled c4 text) [] H0) as [A1 A2].
    destruct (add_unique_NoDup text (finditer_compiled c5 text) [] H0) as [B1 B2].
    destruct (add_unique_NoDup text (finditer_compiled c6 text) [] H0) as [C1 C2].
    repeat (split; [assumption|]). assumption.
Qed.

End MetadataFacts.

(* ================================================================== *)
(** * Further properties: contract details and summaries *)

Section DetailFacts.
Import Str LegalAnalysisTools.

Lemma find_date_total (text : string) (pats : list string) :
  forallb RiskSpec.compiles pats = true ->
  exists date, find_date text pats = Some date.
Proof.
  induction pats as [|p rest IH]; cbn [forallb find_date]; [eauto|].
  intros H. apply andb_prop in H. destruct H as [Hp Hrest].
  destruct (search_compiles p text Re.IGNORECASE Hp) as [[mt|] ->]; [eauto|].
  now apply IH.
Qed.

Lemma extract_contract_details_eq (text : string) :
  exists date parties_matches money_matches,
    find_date text date_patterns = Some date
    /\ Re.finditer parties_pattern text Re.IGNORECASE = Some parties_matches
    /\ Re.finditer money_pattern text Re.no_flags = Some money_matches
    /\ extract_contract_details text
       = Some (Details date (fold_left (add_party text) parties_matches [])
                       (fold_left (add_financial_term text) money_matches [])).
Proof.
  destruct (find_date_total text date_patterns eq_refl) as [date Ed].
  destruct (finditer_compiles parties_pattern text Re.IGNORECASE eq_refl) as [pm Ep].
  destruct (finditer_compiles money_pattern text Re.no_flags eq_refl) as [mm Em].
  exists date, pm, mm. unfold extract_contract_details.
  rewrite Ed, Ep, Em. repeat split.
Qed.

Lemma document_type_known (text : string) :
  In (_determine_document_type text)
     ["consulting_agreement"; "employment_agreement"; "license_agreement"; "nda";
      "purchase_agreement"; "lease_agreement"; "contract"].
Proof.
  unfold _determine_document_type.
  repeat match goal with
         | |- context [if ?b then _ else _] => destruct b
         end; cbn [In]; tauto.
Qed.

(** [generate_legal_summary] never fails, and neither does
    [extract_contract_details]: the summary takes the parties and the
    financial terms of the details as they are, has the effective date
    as its only date, if there is one, and one of the seven document
    types. *)
Theorem legal_summary_of_details (text : string) :
  exists d s,
    extract_contract_details text = Some d
    /\ generate_legal_summary text = Some s
    /\ sum_parties s = parties d
    /\ sum_financial_terms s = financial_terms d
    /\ dates s = match effective_date d with
                 | Some v => [("effective_date", v)]
                 | None => []
                 end
    /\ document_type s = _determine_document_type text
    /\ In (document_type s)
          ["consulting_agreement"; "employment_agreement"; "license_agreement"; "nda";
           "purchase_agreement"; "lease_agreement"; "contract"].
Proof.
  destruct (extract_contract_details_eq text) as [date [pm [mm [_ [_ [_ Ed]]]]]].
  destruct (finditer_compiles section_pattern text Re.IGNORECASE eq_refl) as [sm Es].
  destruct (search_compiles gov_law_pattern text Re.IGNORECASE eq_refl) as [gm Eg].
  eexists. eexists. split; [exact Ed|].
  unfold generate_legal_summary. rewrite Ed, Es, Eg.
  split; [reflexivity|].
  cbn [sum_parties sum_financial_terms dates document_type parties financial_terms
       effective_date].
  split; [reflexivity|]. split; [reflexivity|]. split; [reflexivity|].
  split; [reflexivity | apply document_type_known].
Qed.

(** ** Financial terms *)

(** A match of the scan starts where the pattern matches what is left
    of the text. *)
Lemma scan_match_here (fl : Re.flags) (r : Re.re) (t : string) :
  forall (p : option ascii) (i skip : nat) (mt : Re.rmatch),
    In mt (Re.scan fl r p t i skip) ->
    exists p',
      Re.match_here fl r
        (Re.State p' (slice t (Re.m_start mt - i) (String.length t)) (Re.m_start mt) [])
      = Some mt.
Proof.
  induction t as [|c t IH]; intros p i skip mt; cbn [Re.scan].
  - destruct skip; [|intros []].
    destruct (Re.match_here fl r (Re.State p "" i [])) as [mt0|] eqn:E; [|intros []].
    intros [<-|[]]. exists p.
    pose proof (match_here_bounds _ _ _ _ _ _ E) as [Hs _].
    rewrite Hs, Nat.sub_diag. exact E.
  - assert (Hstep : forall k, slice (String c t) (S k) (String.length (String c t))
                              = slice t k (String.length t)).
    { intros k. unfold slice. cbn [String.length substring Nat.sub]. reflexivity. }
    assert (Hrest : forall skip' mt',
               In mt' (Re.scan fl r (Some c) t (S i) skip') ->
               exists p', Re.match_here fl r
                            (Re.State p' (slice (String c t) (Re.m_start mt' - i)
                                                (String.length (String c t)))
                                      (Re.m_start mt') []) = Some mt').
    { intros skip' mt' H. pose proof (scan_bounds _ _ _ _ _ _ _ H) as [Hb _].
      apply IH in H. destruct H as [p' H]. exists p'.
      replace (Re.m_start mt' - i) with (S (Re.m_start mt' - S i)) by lia.
      rewrite Hstep. exact H. }
    destruct skip as [|skip]; [|apply Hrest].
    destruct (Re.match_here fl r (Re.State p (String c t) i [])) as [mt0|] eqn:E;
      [|apply Hrest].
    intros [<-|H]; [|now apply (Hrest _ _ H)].
    exists p. pose proof (match_here_bounds _ _ _ _ _ _ E) as [Hs _].
    rewrite Hs, Nat.sub_diag. unfold slice. rewrite Nat.sub_0_r, substring_all. exact E.
Qed.

(** A pattern that starts with a literal matches, without
    [IGNORECASE], only where this character stands, and the match is
    not empty. *)
Lemma match_here_literal (fl : Re.flags) (x : ascii) (r : Re.re) (p : option ascii)
  (t : string) (i : nat) (mt : Re.rmatch) :
  Re.ignorecase fl = false ->
  Re.match_here fl (Re.Seq (Re.Lit x) r) (Re.State p t i []) = Some mt ->
  exists t', t = String x t' /\ i < Re.m_end mt.
Proof.
  intros Hic. unfold Re.match_here. cbn [Re.m]. unfold Re.eat. cbn [Re.rest Re.pos Re.caps].
  destruct t as [|c t']; [discriminate|].
  unfold Re.lit_mem. rewrite Hic.
  destruct (Ascii.eqb_spec x c) as [<-|Hne]; [|discriminate].
  destruct (Re.m fl r Some (Re.State (Some x) t' (S i) [])) as [e|] eqn:E; [|discriminate].
  intros H. exists t'. split; [reflexivity|].
  assert (Hq : S i <= Re.pos e).
  { revert E. apply (m_forward fl (S i + String.length t') (fun e => S i <= Re.pos e) r Some).
    - reflexivity.
    - cbn [Re.pos]. intros s' e' _ Hle E'. replace e' with s' by congruence. exact Hle. }
  apply (f_equal (fun o => match o with Some v => Re.m_end v | None => 0 end)) in H.
  cbn [Re.m_end] in H. lia.
Qed.

Lemma slice_head (s : string) (a b : nat) (c : ascii) (t : string) :
  slice s a (String.length s) = String c t -> a < b ->
  slice s a b = String c (slice s (S a) b).
Proof.
  intros H Hab.
  assert (H1 : slice s a (S a) = String c "").
  { unfold slice in *. replace (S a - a) with 1 by lia.
    revert a H Hab. induction s as [|x s IH]; intros a H Hab.
    - rewrite substring_nil in H. discriminate.
    - destruct a as [|a].
      + cbn [String.length Nat.sub substring] in H. cbn [substring].
        apply (f_equal (fun z => match z with String y _ => y | EmptyString => c end)) in H.
        cbv beta iota in H. subst x. now destruct s.
      + cbn [substring]. cbn [String.length Nat.sub substring] in H.
        apply (IH a H). lia. }
  rewrite (slice_split s a (S a) b) by lia. rewrite H1. reflexivity.
Qed.

Lemma add_financial_terms_map (text : string) (ms : list Re.rmatch) :
  forall l,
    fold_left (add_financial_term text) ms l
    = (l ++ map (fun mt => FinancialTerm (Re.group0 text mt)
                             (slice text (Nat.max 0 (Re.m_start mt - 50))
                                    (Nat.min (String.length text) (Re.m_end mt + 50))))
                ms)%list.
Proof.
  induction ms as [|mt ms IH]; intros l; cbn [fold_left map].
  - now rewrite app_nil_r.
  - rewrite IH. unfold add_financial_term. now rewrite <- app_assoc.
Qed.

(** Every financial term that [extract_contract_details] reports has
    an amount that starts with the dollar sign, and as its context a
    piece of the text: the amount with 50 characters at most before it
    and 50 at most after it. *)
Theorem financial_terms_in_context (text : string) :
  exists d,
    extract_contract_details text = Some d
    /\ forall ft, In ft (financial_terms d) ->
         exists digits before after,
           amount ft = String "$" digits
           /\ fin_context ft = before ++ amount ft ++ after
           /\ String.length before <= 50 /\ String.length after <= 50
           /\ exists x y, text = x ++ fin_context ft ++ y.
Proof.
  destruct (extract_contract_details_eq text) as [date [pm [mm [_ [_ [Em Ed]]]]]].
  eexists. split; [exact Ed|]. cbn [financial_terms].
  intros ft Hft. rewrite add_financial_terms_map in Hft. cbn [app] in Hft.
  apply (proj1 (in_map_iff _ _ _)) in Hft. destruct Hft as [mt [<- Hmt]].
  cbn [amount fin_context].
  destruct (finditer_bounds _ _ _ _ _ Em Hmt) as [Hse HeL].
  assert (Hc : exists r, Re.compile money_pattern
                         = Some (Re.Pattern Re.no_flags 1 (Re.Seq (Re.Lit "$") r))).
  { let c := eval vm_compute in (Re.compile money_pattern) in
    match c with
    | Some (Re.Pattern _ _ (Re.Seq (Re.Lit _) ?r)) => exists r
    end.
    vm_compute. reflexivity. }
  destruct Hc as [r Hc].
  unfold Re.finditer in Em. rewrite Hc in Em. cbn [Re.p_flags Re.p_re] in Em.
  apply (f_equal (fun o => match o with Some x => x | None => [] end)) in Em.
  cbv beta iota in Em. subst mm.
  apply scan_match_here in Hmt. destruct Hmt as [p' Hm].
  rewrite Nat.sub_0_r in Hm.
  apply match_here_literal in Hm; [|reflexivity].
  destruct Hm as [t' [Ht Hlt]].
  destruct (entry_in_context text mt Hse HeL) as [before [after [Hctx [Hb [Ha Hxy]]]]].
  unfold MatchSpec.entry_of in Hctx, Hxy.
  cbn [ContractRiskAnalyzer.context ContractRiskAnalyzer.term] in Hctx, Hxy.
  exists (slice text (S (Re.m_start mt)) (Re.m_end mt)), before, after.
  split; [|split; [exact Hctx|]].
  - unfold Re.group0. now apply (slice_head text _ _ "$" t').
  - split; [exact Hb|]. split; [exact Ha | exact Hxy].
Qed.

(** ** The type of a document *)

Lemma lower_app (a b : string) : lower (a ++ b) = lower a ++ lower b.
Proof. induction a as [|c a IH]; cbn [append lower]; [reflexivity | now rewrite IH]. Qed.

Lemma prefix_app (s t : string) : prefix s (s ++ t) = true.
Proof.
  induction s as [|c s IH]; cbn [append]; [now destruct t|].
  cbn [prefix]. destruct (Ascii.ascii_dec c c); [exact IH | congruence].
Qed.

Lemma contains_app (sub pre suf : string) : contains sub (pre ++ sub ++ suf) = true.
Proof.
  induction pre as [|c pre IH]; cbn [append].
  - destruct (sub ++ suf) eqn:E; cbn [contains]; rewrite <- E, prefix_app; reflexivity.
  - cbn [contains]. rewrite IH. apply orb_true_r.
Qed.

(** The first rule wins, in any letter case: a text in which
    "consulting agreement" or "consulting services" occurs, in capital
    or small letters, is a consulting agreement, whatever else occurs
    in it. *)
Theorem consulting_rule_first (pre k suf : string) :
  lower k = "consulting agreement" \/ lower k = "consulting services" ->
  _determine_document_type (pre ++ k ++ suf) = "consulting_agreement".
Proof.
  intros H. unfold _determine_document_type. rewrite !lower_app.
  destruct H as [-> | ->]; rewrite contains_app; [reflexivity|].
  rewrite orb_true_r. reflexivity.
Qed.

End DetailFacts.

(* ================================================================== *)
(** * Further properties: the bounds of the sequence ratio *)

Section RatioBounds.
Import Difflib BlockSpec.
Variables alo ahi blo bhi : nat.

Lemma j2len_before_fits (i : nat) (d : j2len_t) (j : nat) :
  row_fits alo blo bhi i d ->
  j2len_before d j = 0
  \/ (1 <= j2len_before d j /\ j2len_before d j + alo <= i
      /\ j2len_before d j + blo <= j).
Proof.
  intros Hd. destruct j as [|j']; cbn [j2len_before]; [now left|].
  induction d as [|[j0 k0] t IH]; cbn [j2len_get]; [now left|].
  destruct (j' =? j0) eqn:E.
  - apply Nat.eqb_eq in E. subst j0. right.
    destruct (Hd j' k0 (or_introl eq_refl)) as [H1 [H2 [H3 _]]]. lia.
  - apply IH. intros j k H. apply Hd. now right.
Qed.

Lemma scan_js_fits (i : nat) (j2len : j2len_t) (js : list nat) :
  alo <= i -> i < ahi -> row_fits alo blo bhi i j2len ->
  forall newj2len best,
    row_fits alo blo bhi (S i) newj2len -> block_fits alo blo bhi ahi best ->
    row_fits alo blo bhi (S i) (fst (scan_js i blo bhi j2len js newj2len best))
    /\ block_fits alo blo bhi ahi (snd (scan_js i blo bhi j2len js newj2len best)).
Proof.
  intros Hlo Hhi Hrow. induction js as [|j rest IH]; intros newj2len best Hn Hb;
    cbn [scan_js].
  - now split.
  - destruct (j <? blo) eqn:E1; [now apply IH|].
    destruct (bhi <=? j) eqn:E2; [now split|].
    apply Nat.ltb_ge in E1. apply Nat.leb_gt in E2.
    pose proof (j2len_before_fits i j2len j Hrow) as Hk.
    apply IH.
    + intros j0 k0 [E|H]; [|now apply Hn].
      pose proof (f_equal fst E) as Ej. pose proof (f_equal snd E) as Ek.
      cbn [fst snd] in Ej, Ek. subst j0 k0. lia.
    + destruct (size best <? j2len_before j2len j + 1); [|exact Hb].
      unfold block_fits, size. cbn [fst snd]. lia.
Qed.

Lemma scan_is_fits (b2j : b2j_t) (rest_a : seq_t) :
  forall i j2len best,
    alo <= i -> i + List.length rest_a <= ahi ->
    row_fits alo blo bhi i j2len -> block_fits alo blo bhi ahi best ->
    block_fits alo blo bhi ahi (scan_is b2j blo bhi rest_a i j2len best).
Proof.
  induction rest_a as [|ai rest IH]; intros i j2len best Hlo Hhi Hrow Hb;
    cbn [scan_is]; [exact Hb|].
  cbn [List.length] in Hhi.
  assert (Hi : i < ahi) by lia.
  destruct (scan_js_fits i j2len (b2j_get b2j ai) Hlo Hi Hrow [] best) as [H1 H2];
    [intros ? ? [] | exact Hb |].
  destruct (scan_js i blo bhi j2len (b2j_get b2j ai) [] best) as [newj2len best'].
  cbn [fst snd] in H1, H2. apply IH; try assumption; lia.
Qed.

Lemma extend_left_fits (fuel : nat) (a b : seq_t) :
  forall best, block_fits alo blo bhi ahi best -> block_fits alo blo bhi ahi (extend_left fuel a b alo blo best).
Proof.
  induction fuel as [|fuel IH]; intros [[bi bj] k] Hb; cbn [extend_left]; [exact Hb|].
  destruct ((alo <? bi) && (blo <? bj) && same (elt a (bi - 1)) (elt b (bj - 1))) eqn:E;
    [|exact Hb].
  apply andb_prop in E. destruct E as [E _]. apply andb_prop in E. destruct E as [E1 E2].
  apply Nat.ltb_lt in E1, E2. apply IH.
  unfold block_fits, size in *. cbn [fst snd] in *. lia.
Qed.

Lemma extend_right_fits (fuel : nat) (a b : seq_t) :
  forall best, block_fits alo blo bhi ahi best -> block_fits alo blo bhi ahi (extend_right fuel a b ahi bhi best).
Proof.
  induction fuel as [|fuel IH]; intros [[bi bj] k] Hb; cbn [extend_right]; [exact Hb|].
  destruct ((bi + k <? ahi) && (bj + k <? bhi) && same (elt a (bi + k)) (elt b (bj + k)))
    eqn:E; [|exact Hb].
  apply andb_prop in E. destruct E as [E _]. apply andb_prop in E. destruct E as [E1 E2].
  apply Nat.ltb_lt in E1, E2. apply IH.
  unfold block_fits, size in *. cbn [fst snd] in *. lia.
Qed.

(** The longest match of a window lies in the window. *)
Lemma find_longest_match_fits (a b : seq_t) (b2j : b2j_t) :
  alo <= ahi -> blo <= bhi ->
  block_fits alo blo bhi ahi (find_longest_match a b b2j alo ahi blo bhi).
Proof.
  intros Ha Hb. unfold find_longest_match.
  apply extend_right_fits, extend_left_fits, scan_is_fits.
  - lia.
  - rewrite length_firstn. lia.
  - intros ? ? [].
  - unfold block_fits, size. cbn [fst snd]. lia.
Qed.

End RatioBounds.

Section RatioBounds2.
Import Difflib BlockSpec.

Lemma blocks_in_sum (fuel : nat) (a b : seq_t) (b2j : b2j_t) :
  forall alo ahi blo bhi,
    alo <= ahi -> blo <= bhi ->
    list_sum (map size (blocks_in fuel a b b2j alo ahi blo bhi)) + alo <= ahi
    /\ list_sum (map size (blocks_in fuel a b b2j alo ahi blo bhi)) + blo <= bhi.
Proof.
  induction fuel as [|fuel IH]; intros alo ahi blo bhi Ha Hb; cbn [blocks_in].
  - cbn. lia.
  - pose proof (find_longest_match_fits alo ahi blo bhi a b b2j Ha Hb) as Hf.
    unfold BlockSpec.block_fits in Hf.
    destruct (find_longest_match a b b2j alo ahi blo bhi) as [[i j] k].
    unfold block_fits, size in Hf. cbn [fst snd] in Hf.
    destruct (k =? 0); [cbn; lia|].
    assert (Hl : forall l1 l2 : list block,
               list_sum (map size (l1 ++ (i, j, k) :: l2))
               = list_sum (map size l1) + k + list_sum (map size l2)).
    { intros l1 l2. rewrite map_app, list_sum_app. cbn [map]. unfold list_sum at 2.
      cbn [fold_right]. unfold size at 2. cbn [snd]. fold (list_sum (map size l2)). lia. }
    rewrite Hl.
    match goal with
    | |- list_sum (map size ?l1) + k + list_sum (map size ?l2) + _ <= _ /\ _ =>
        assert (H1 : list_sum (map size l1) + alo <= i
                     /\ list_sum (map size l1) + blo <= j);
          [|assert (H2 : list_sum (map size l2) + (i + k) <= ahi
                         /\ list_sum (map size l2) + (j + k) <= bhi);
            [|revert H1 H2;
              generalize (list_sum (map size l1)); generalize (list_sum (map size l2));
              intros n2 n1 H1 H2; lia]]
    end.
    + destruct ((alo <? i) && (blo <? j)); [apply IH; lia | cbn; lia].
    + destruct ((i + k <? ahi) && (j + k <? bhi)); [apply IH; lia | cbn; lia].
Qed.

Lemma collapse_sum (l : list block) :
  forall cur, list_sum (map size (collapse l cur)) = size cur + list_sum (map size l).
Proof.
  assert (Hc : forall x l, list_sum (x :: l) = x + list_sum l) by reflexivity.
  induction l as [|[[i2 j2] k2] rest IH]; intros [[i1 j1] k1]; cbn [collapse].
  - change (size (i1, j1, k1)) with k1. destruct (k1 =? 0) eqn:E.
    + apply Nat.eqb_eq in E. subst. reflexivity.
    + cbn [map]. rewrite Hc. change (size (i1, j1, k1)) with k1. cbn. lia.
  - change (size (i1, j1, k1)) with k1. cbn [map]. rewrite Hc.
    change (size (i2, j2, k2)) with k2.
    destruct ((i1 + k1 =? i2) && (j1 + k1 =? j2)).
    + rewrite IH. change (size (i1, j1, k1 + k2)) with (k1 + k2). lia.
    + rewrite map_app, list_sum_app, IH. change (size (i2, j2, k2)) with k2.
      destruct (k1 =? 0) eqn:E.
      * apply Nat.eqb_eq in E. subst. cbn [map]. change (list_sum []) with 0. lia.
      * cbn [map]. rewrite Hc. change (size (i1, j1, k1)) with k1.
        change (list_sum []) with 0. lia.
Qed.

(** The matched elements are elements of both sequences. *)
Lemma matching_blocks_sum (a b : seq_t) :
  list_sum (map size (get_matching_blocks a b)) <= List.length a
  /\ list_sum (map size (get_matching_blocks a b)) <= List.length b.
Proof.
  unfold get_matching_blocks. rewrite map_app, list_sum_app, collapse_sum.
  change (size (0, 0, 0)) with 0.
  change (list_sum (map size [(List.length a, List.length b, 0)])) with 0.
  pose proof (blocks_in_sum (S (List.length a)) a b (chain_b b)
                0 (List.length a) 0 (List.length b) (Nat.le_0_l _) (Nat.le_0_l _)) as H.
  revert H.
  generalize (list_sum (map size (blocks_in (S (List.length a)) a b (chain_b b)
                                    0 (List.length a) 0 (List.length b)))).
  intros n H. lia.
Qed.

Lemma ratio_bounds (a b : seq_t) : (0 <= ratio a b)%Q /\ (ratio a b <= 1)%Q.
Proof.
  unfold ratio. destruct (matching_blocks_sum a b) as [Ha Hb].
  set (M := list_sum (map size (get_matching_blocks a b))) in *. clearbody M.
  destruct (List.length a + List.length b) as [|n] eqn:E.
  - split; [discriminate | apply Qle_refl].
  - assert (Hpos : (0 < inject_Z (Z.of_nat (S n)))%Q).
    { unfold Qlt. cbn. lia. }
    split.
    + apply Qle_shift_div_l; [exact Hpos|]. rewrite Qmult_0_l.
      unfold Qle, Qmult, inject_Z. cbn [Qnum Qden]. lia.
    + apply Qle_shift_div_r; [exact Hpos|]. rewrite Qmult_1_l.
      unfold Qle, Qmult, inject_Z. cbn [Qnum Qden]. lia.
Qed.

End RatioBounds2.

Section SimilarityBounds.
Import LegalDocumentComparison.

(** The sequence similarity of two texts is a percentage: it lies
    between 0 and 100. *)
Theorem similarity_is_percentage (text1 text2 : string) :
  (0 <= _calculate_similarity text1 text2)%Q
  /\ (_calculate_similarity text1 text2 <= 100)%Q.
Proof.
  unfold _calculate_similarity.
  destruct (ratio_bounds (list_ascii_of_string text1) (list_ascii_of_string text2))
    as [H0 H1].
  split.
  - apply Qmult_le_0_compat; [exact H0 | discriminate].
  - setoid_replace (100 : Q) with (1 * 100)%Q at 2 by reflexivity.
    apply Qmult_le_compat_r; [exact H1 | discriminate].
Qed.

End SimilarityBounds.

(* ================================================================== *)
(** * Further properties: a text compared with itself *)

Section IndexFacts.
Import Difflib BlockSpec.

Lemma b2j_get_add (d : b2j_t) (x : ascii) (i : nat) (c : ascii) :
  b2j_get (b2j_add d x i) c
  = if Ascii.eqb c x then (b2j_get d c ++ [i])%list else b2j_get d c.
Proof.
  induction d as [|[y js] t IH]; cbn [b2j_add b2j_get].
  - destruct (Ascii.eqb c x); reflexivity.
  - destruct (Ascii.eqb_spec x y) as [->|Hne]; cbn [b2j_get].
    + destruct (Ascii.eqb c y); reflexivity.
    + destruct (Ascii.eqb_spec c y) as [->|Hc].
      * destruct (Ascii.eqb_spec y x); [congruence | reflexivity].
      * exact IH.
Qed.

Lemma index_b_get (b : seq_t) (c : ascii) :
  forall (i : nat) (d : b2j_t),
    b2j_get (index_b b i d) c = (b2j_get d c ++ positions c b i)%list.
Proof.
  induction b as [|x t IH]; intros i d; cbn [index_b positions].
  - now rewrite app_nil_r.
  - rewrite IH, b2j_get_add.
    destruct (Ascii.eqb c x); [now rewrite <- app_assoc | reflexivity].
Qed.

Lemma b2j_add_keys (d : b2j_t) (x : ascii) (i : nat) :
  NoDup (map fst d) ->
  NoDup (map fst (b2j_add d x i))
  /\ forall c, In c (map fst (b2j_add d x i)) <-> c = x \/ In c (map fst d).
Proof.
  induction d as [|[y js] t IH]; cbn [b2j_add map fst]; intros Hnd.
  - split; [repeat constructor; intros [] | intros c; cbn; intuition].
  - inversion Hnd as [|? ? Hn Ht]; subst.
    destruct (Ascii.eqb_spec x y) as [->|Hne]; cbn [map fst].
    + split; [exact Hnd | intros c; cbn [In]; intuition].
    + destruct (IH Ht) as [H1 H2]. split.
      * constructor; [|exact H1]. intros H. apply H2 in H.
        destruct H as [H|H]; [congruence | contradiction].
      * intros c. cbn [In]. rewrite H2. intuition.
Qed.

Lemma index_b_keys (b : seq_t) :
  forall (i : nat) (d : b2j_t), NoDup (map fst d) -> NoDup (map fst (index_b b i d)).
Proof.
  induction b as [|x t IH]; intros i d H; cbn [index_b]; [exact H|].
  apply IH. now apply b2j_add_keys.
Qed.

Lemma b2j_get_absent (d : b2j_t) (c : ascii) :
  ~ In c (map fst d) -> b2j_get d c = [].
Proof.
  induction d as [|[y js] t IH]; cbn [b2j_get map fst In]; [reflexivity|].
  intros H. destruct (Ascii.eqb_spec c y) as [->|Hne]; [exfalso; apply H; now left|].
  apply IH. intros Hin. apply H. now right.
Qed.

Lemma b2j_get_filter (f : ascii * list nat -> bool) (d : b2j_t) (c : ascii) :
  NoDup (map fst d) ->
  b2j_get (filter f d) c = b2j_get d c \/ b2j_get (filter f d) c = [].
Proof.
  induction d as [|[y js] t IH]; cbn [filter b2j_get map fst]; intros Hnd; [now left|].
  inversion Hnd as [|? ? Hn Ht]; subst.
  destruct (f (y, js)); cbn [b2j_get].
  - destruct (Ascii.eqb c y); [now left | now apply IH].
  - destruct (Ascii.eqb_spec c y) as [->|Hne]; [|now apply IH].
    right. apply b2j_get_absent. intros H.
    apply (proj1 (in_map_iff _ _ _)) in H. destruct H as [e [E He]].
    apply filter_In in He. apply Hn. rewrite <- E. apply in_map. tauto.
Qed.

(** [b2j] knows all the positions of an element, or none. *)
Lemma chain_b_get (b : seq_t) (c : ascii) :
  b2j_get (chain_b b) c = positions c b 0 \/ b2j_get (chain_b b) c = [].
Proof.
  assert (E : b2j_get (index_b b 0 []) c = positions c b 0).
  { now rewrite index_b_get. }
  unfold chain_b. destruct (200 <=? List.length b); [|now left].
  destruct (b2j_get_filter
              (fun e => negb (List.length b / 100 + 1 <? List.length (snd e)))
              (index_b b 0 []) c) as [H|H].
  - apply index_b_keys. constructor.
  - left. now rewrite H.
  - now right.
Qed.

Lemma positions_In (c : ascii) (b : seq_t) :
  forall i0 j,
    In j (positions c b i0) <-> i0 <= j /\ nth_error b (j - i0) = Some c.
Proof.
  induction b as [|x t IH]; intros i0 j; cbn [positions].
  - split; [intros [] | intros [_ H]]. now destruct (j - i0).
  - assert (Ht : In j (positions c t (S i0))
                 <-> i0 < j /\ nth_error (x :: t) (j - i0) = Some c).
    { rewrite IH. split.
      - intros [H1 H2]. split; [lia|].
        replace (j - i0) with (S (j - S i0)) by lia. exact H2.
      - intros [H1 H2]. split; [lia|].
        replace (j - i0) with (S (j - S i0)) in H2 by lia. exact H2. }
    destruct (Ascii.eqb_spec c x) as [->|Hne]; cbn [In]; rewrite ?Ht.
    + split.
      * intros [<-|[H1 H2]]; [|split; [lia | exact H2]].
        split; [lia|]. now rewrite Nat.sub_diag.
      * intros [H1 H2]. destruct (Nat.eq_dec i0 j) as [E|E]; [now left|].
        right. split; [lia | exact H2].
    + split.
      * intros [H1 H2]. split; [lia | exact H2].
      * intros [H1 H2]. split; [|exact H2].
        destruct (Nat.eq_dec i0 j) as [E|E]; [|lia].
        subst. rewrite Nat.sub_diag in H2. cbn in H2. congruence.
Qed.

Lemma positions_sorted (c : ascii) (b : seq_t) :
  forall i0, StronglySorted lt (positions c b i0).
Proof.
  induction b as [|x t IH]; intros i0; cbn [positions]; [constructor|].
  destruct (Ascii.eqb c x); [|apply IH].
  constructor; [apply IH|]. apply Forall_forall. intros j Hj.
  apply positions_In in Hj. lia.
Qed.

(** What the scan of the row [i] needs of the positions it visits. *)
Lemma row_positions (a : seq_t) (i : nat) (c : ascii) :
  nth_error a i = Some c ->
  let js := b2j_get (chain_b a) c in
  StronglySorted lt js
  /\ (forall j, In j js -> j < List.length a /\ nth_error a j = Some c)
  /\ (indexed_at (chain_b a) a i = true -> In i js)
  /\ (indexed_at (chain_b a) a i = false -> js = []).
Proof.
  intros Hi. cbv zeta.
  assert (Hidx : indexed_at (chain_b a) a i = indexed (chain_b a) c).
  { unfold indexed_at. now rewrite Hi. }
  rewrite Hidx. unfold indexed.
  destruct (chain_b_get a c) as [E|E]; rewrite E.
  - split; [apply positions_sorted|]. split; [|split].
    + intros j Hj. apply positions_In in Hj. rewrite Nat.sub_0_r in Hj.
      destruct Hj as [_ Hj]. split; [|exact Hj].
      apply nth_error_Some. congruence.
    + intros _. apply positions_In. rewrite Nat.sub_0_r. split; [lia | exact Hi].
    + destruct (positions c a 0); [reflexivity | discriminate].
  - split; [constructor|]. split; [intros j []|]. split; [discriminate | reflexivity].
Qed.

End IndexFacts.

Section DiagonalFacts.
Import Difflib BlockSpec.
Variable a : seq_t.

Lemma run_before_step (m : nat) :
  run_before (chain_b a) a (S m)
  = if indexed_at (chain_b a) a m then run_before (chain_b a) a m + 1 else 0.
Proof. reflexivity. Qed.

Lemma j2len_get_In (d : j2len_t) (j k : nat) :
  NoDup (map fst d) -> In (j, k) d -> j2len_get d j = k.
Proof.
  induction d as [|[j0 k0] t IH]; cbn [map fst j2len_get In]; intros Hnd H; [destruct H|].
  inversion Hnd as [|? ? Hn Ht]; subst.
  destruct (Nat.eqb_spec j j0) as [->|Hne].
  - destruct H as [E|H]; [now apply (f_equal snd) in E|].
    exfalso. apply Hn. apply (in_map fst) in H. exact H.
  - destruct H as [E|H]; [apply (f_equal fst) in E; cbn in E; congruence|].
    now apply IH.
Qed.

Lemma j2len_get_absent (d : j2len_t) (j : nat) :
  ~ In j (map fst d) -> j2len_get d j = 0.
Proof.
  induction d as [|[j0 k0] t IH]; cbn [map fst j2len_get In]; intros H; [reflexivity|].
  destruct (Nat.eqb_spec j j0) as [->|Hne]; [exfalso; apply H; now left|].
  apply IH. intros Hin. apply H. now right.
Qed.

Lemma sorted_NoDup (l : list nat) : StronglySorted lt l -> NoDup l.
Proof.
  induction 1 as [|x l Hs IH Hx]; constructor; [|exact IH].
  intros Hin. apply (proj1 (Forall_forall _ _) Hx) in Hin. lia.
Qed.

(** The row that the scan of the positions [js] leaves. *)
Lemma scan_js_row (i : nat) (d : j2len_t) (js : list nat) :
  (forall j, In j js -> j < List.length a) ->
  forall newj2len best,
    fst (scan_js i 0 (List.length a) d js newj2len best)
    = (rev (map (fun j => (j, j2len_before d j + 1)) js) ++ newj2len)%list.
Proof.
  induction js as [|j rest IH]; intros Hjs newj2len best; cbn [scan_js map rev].
  - reflexivity.
  - assert (Hj : j < List.length a) by (apply Hjs; now left).
    apply Nat.leb_gt in Hj. rewrite Hj. cbn [Nat.ltb Nat.leb].
    rewrite IH by (intros j' H'; apply Hjs; now right).
    now rewrite <- app_assoc.
Qed.

Lemma row_get (d : j2len_t) (js : list nat) (j : nat) :
  NoDup js ->
  j2len_get (rev (map (fun j => (j, j2len_before d j + 1)) js)) j
  = if in_dec Nat.eq_dec j js then j2len_before d j + 1 else 0.
Proof.
  intros Hnd.
  assert (Hk : map fst (rev (map (fun j => (j, j2len_before d j + 1)) js)) = rev js).
  { rewrite <- map_rev, map_map. cbn [fst]. now rewrite map_id. }
  destruct (in_dec Nat.eq_dec j js) as [Hin|Hin].
  - apply j2len_get_In.
    + rewrite Hk. now apply NoDup_rev.
    + apply in_rev. rewrite rev_involutive.
      apply (in_map (fun j => (j, j2len_before d j + 1))) in Hin. exact Hin.
  - apply j2len_get_absent. rewrite Hk. intros H. apply in_rev in H. contradiction.
Qed.

(** The best block stays on the diagonal, and is as long as every run
    of indexed elements met so far. *)
Lemma scan_js_best (i : nat) (d : j2len_t) (js : list nat) :
  StronglySorted lt js ->
  (forall j, In j js -> j < List.length a) ->
  (forall j, In j js -> j2len_before d j + 1 <= run_before (chain_b a) a (S i)) ->
  (forall j, In j js -> j2len_before d j + 1 <= run_before (chain_b a) a (S j)) ->
  (In i js -> j2len_before d i + 1 = run_before (chain_b a) a (S i)) ->
  forall newj2len best,
    diagonal best ->
    (forall m, m <= i -> run_before (chain_b a) a m <= size best) ->
    (In i js \/ run_before (chain_b a) a (S i) <= size best) ->
    diagonal (snd (scan_js i 0 (List.length a) d js newj2len best))
    /\ (forall m, m <= S i ->
                  run_before (chain_b a) a m
                  <= size (snd (scan_js i 0 (List.length a) d js newj2len best))).
Proof.
  induction js as [|j rest IH]; intros Hs Hlt H1 H2 H3 newj2len best Hd Hb Hi;
    cbn [scan_js].
  - cbn [snd]. split; [exact Hd|]. intros m Hm.
    destruct (Nat.eq_dec m (S i)) as [->|Hne]; [|apply Hb; lia].
    destruct Hi as [[]|Hi]. exact Hi.
  - assert (Hj : j < List.length a) by (apply Hlt; now left).
    apply Nat.leb_gt in Hj. rewrite Hj. change (j <? 0) with false. cbv iota.
    inversion Hs as [|? ? Hs' Hall]; subst.
    set (k := j2len_before d j + 1).
    assert (Hk1 : k <= run_before (chain_b a) a (S i)) by (apply H1; now left).
    assert (Hk2 : k <= run_before (chain_b a) a (S j)) by (apply H2; now left).
    assert (Hnew : diagonal (if size best <? k then (i + 1 - k, j + 1 - k, k) else best)
                   /\ size best <= size (if size best <? k
                                         then (i + 1 - k, j + 1 - k, k) else best)
                   /\ (In i rest
                       \/ run_before (chain_b a) a (S i)
                          <= size (if size best <? k
                                   then (i + 1 - k, j + 1 - k, k) else best))).
    { destruct (lt_eq_lt_dec j i) as [[Hlt'|Heq]|Hgt].
      - assert (Hle : k <= size best).
        { specialize (Hb (S j)). lia. }
        apply Nat.ltb_ge in Hle. rewrite Hle. split; [exact Hd|]. split; [lia|].
        destruct Hi as [[E|Hi]|Hi]; [lia | now left | now right].
      - subst j. assert (Ek : k = run_before (chain_b a) a (S i)) by (apply H3; now left).
        destruct (size best <? k) eqn:E.
        + apply Nat.ltb_lt in E. split; [reflexivity|].
          unfold size. cbn [snd]. fold (size best). split; [lia|]. right. lia.
        + apply Nat.ltb_ge in E. split; [exact Hd|]. split; [lia|]. right. lia.
      - assert (Hdone : run_before (chain_b a) a (S i) <= size best).
        { destruct Hi as [[E|Hi]|Hi]; [lia | | exact Hi].
          apply (proj1 (Forall_forall _ _) Hall) in Hi. lia. }
        assert (Hle : k <= size best) by lia.
        apply Nat.ltb_ge in Hle. rewrite Hle. split; [exact Hd|]. split; [lia|].
        now right. }
    destruct Hnew as [Hd' [Hge Hi']].
    apply IH; try assumption.
    + intros j' H'. apply Hlt. now right.
    + intros j' H'. apply H1. now right.
    + intros j' H'. apply H2. now right.
    + intros H'. apply H3. now right.
    + intros m Hm. exact (Nat.le_trans _ _ _ (Hb m Hm) Hge).
Qed.

(** The rows of the scan of a sequence against itself: after the row
    before [i] the lengths of [j2len] are bounded by the runs of
    indexed elements, and exact on the diagonal. *)
Lemma scan_is_diagonal (rest : seq_t) :
  forall (i : nat) (d : j2len_t) (best : block),
    (forall k, nth_error rest k = nth_error a (i + k)) ->
    (forall j, j2len_before d j <= run_before (chain_b a) a i
               /\ j2len_before d j <= run_before (chain_b a) a j) ->
    j2len_before d i = run_before (chain_b a) a i ->
    diagonal best ->
    (forall m, m <= i -> run_before (chain_b a) a m <= size best) ->
    diagonal (scan_is (chain_b a) 0 (List.length a) rest i d best).
Proof.
  induction rest as [|c rest IH]; intros i d best Hrest Hrow Hdiag Hd Hb;
    cbn [scan_is]; [exact Hd|].
  assert (Hc : nth_error a i = Some c).
  { specialize (Hrest 0). rewrite Nat.add_0_r in Hrest. now rewrite <- Hrest. }
  destruct (row_positions a i c Hc) as [Hs [Hjs [Hin Hnone]]].
  set (js := b2j_get (chain_b a) c) in *.
  assert (Hidx : forall j, In j js -> indexed_at (chain_b a) a i = true
                                      /\ indexed_at (chain_b a) a j = true).
  { intros j Hj.
    assert (Hi : indexed_at (chain_b a) a i = true).
    { destruct (indexed_at (chain_b a) a i) eqn:E; [reflexivity|].
      rewrite (Hnone eq_refl) in Hj. destruct Hj. }
    split; [exact Hi|]. destruct (Hjs j Hj) as [_ Hcj].
    unfold indexed_at in *. now rewrite Hcj, Hc in *. }
  pose proof (scan_js_row i d js (fun j H => proj1 (Hjs j H)) [] best) as Hrow'.
  rewrite app_nil_r in Hrow'.
  destruct (scan_js_best i d js Hs (fun j H => proj1 (Hjs j H))) with
    (newj2len := @nil (nat * nat)) (best := best) as [Hd' Hb'].
  - intros j Hj. rewrite run_before_step, (proj1 (Hidx j Hj)).
    specialize (Hrow j). lia.
  - intros j Hj. rewrite run_before_step, (proj2 (Hidx j Hj)).
    specialize (Hrow j). lia.
  - intros Hi. rewrite run_before_step, (proj1 (Hidx i Hi)). lia.
  - exact Hd.
  - exact Hb.
  - destruct (indexed_at (chain_b a) a i) eqn:E.
    + left. now apply Hin.
    + right. rewrite run_before_step, E. lia.
  - destruct (scan_js i 0 (List.length a) d js [] best) as [newj2len best'].
    cbn [fst snd] in Hrow', Hd', Hb'. subst newj2len.
    assert (Hget : forall j,
               j2len_before (rev (map (fun j => (j, j2len_before d j + 1)) js)) (S j)
               = if in_dec Nat.eq_dec j js then j2len_before d j + 1 else 0).
    { intros j. cbn [j2len_before]. apply row_get. now apply sorted_NoDup. }
    apply IH.
    + intros k. specialize (Hrest (S k)). cbn [nth_error] in Hrest.
      rewrite Hrest. f_equal. lia.
    + intros [|j]; [cbn [j2len_before]; lia|].
      rewrite Hget. destruct (in_dec Nat.eq_dec j js) as [Hj|Hj]; [|lia].
      rewrite !run_before_step, (proj1 (Hidx j Hj)), (proj2 (Hidx j Hj)).
      specialize (Hrow j). lia.
    + rewrite Hget, run_before_step.
      destruct (in_dec Nat.eq_dec i js) as [Hi|Hi].
      * rewrite (proj1 (Hidx i Hi)). lia.
      * destruct (indexed_at (chain_b a) a i) eqn:E; [|reflexivity].
        exfalso. apply Hi. now apply Hin.
    + exact Hd'.
    + exact Hb'.
Qed.

Lemma extend_left_diagonal (fuel : nat) :
  forall k, fuel + k <= List.length a ->
            extend_left fuel a a 0 0 (fuel, fuel, k) = (0, 0, k + fuel).
Proof.
  induction fuel as [|f IH]; intros k Hk; cbn [extend_left].
  - now rewrite Nat.add_0_r.
  - assert (Hs : same (elt a (S f - 1)) (elt a (S f - 1)) = true).
    { unfold elt. destruct (nth_error a (S f - 1)) as [x|] eqn:E.
      - cbn [same]. apply Ascii.eqb_refl.
      - apply nth_error_None in E. lia. }
    rewrite Hs. cbn [Nat.ltb Nat.leb andb].
    replace (S f - 1) with f by lia. rewrite IH by lia. f_equal. lia.
Qed.

Lemma extend_right_diagonal (fuel : nat) :
  forall k, k + fuel = List.length a ->
            extend_right fuel a a (List.length a) (List.length a) (0, 0, k)
            = (0, 0, List.length a).
Proof.
  induction fuel as [|f IH]; intros k Hk; cbn [extend_right].
  - f_equal. lia.
  - assert (Hs : same (elt a (0 + k)) (elt a (0 + k)) = true).
    { unfold elt. destruct (nth_error a (0 + k)) as [x|] eqn:E.
      - cbn [same]. apply Ascii.eqb_refl.
      - apply nth_error_None in E. lia. }
    rewrite Hs. assert (Hlt : (0 + k <? List.length a) = true) by (apply Nat.ltb_lt; lia).
    rewrite Hlt. cbn [andb]. apply IH. lia.
Qed.

(** The longest match of a sequence with itself is the sequence. *)
Lemma find_longest_match_self :
  find_longest_match a a (chain_b a) 0 (List.length a) 0 (List.length a)
  = (0, 0, List.length a).
Proof.
  unfold find_longest_match.
  replace (firstn (List.length a - 0) (skipn 0 a)) with a
    by (cbn [skipn]; now rewrite Nat.sub_0_r, firstn_all).
  pose proof (scan_is_fits 0 (List.length a) 0 (List.length a) (chain_b a) a 0 [] (0, 0, 0))
    as Hfit.
  pose proof (scan_is_diagonal a 0 [] (0, 0, 0)) as Hdiag.
  destruct (scan_is (chain_b a) 0 (List.length a) a 0 [] (0, 0, 0)) as [[bi bj] k].
  assert (Hf : block_fits 0 0 (List.length a) (List.length a) (bi, bj, k)).
  { apply Hfit; [lia | lia | intros ? ? [] |].
    unfold block_fits, size. cbn [fst snd]. lia. }
  assert (Hd : diagonal (bi, bj, k)).
  { apply Hdiag.
    - intros k0. reflexivity.
    - intros j. destruct j; cbn [j2len_before j2len_get run_before]; lia.
    - reflexivity.
    - reflexivity.
    - intros m Hm. replace m with 0 by lia. cbn. lia. }
  unfold diagonal in Hd. unfold block_fits, size in Hf. cbn [fst snd] in Hd, Hf. subst bj.
  cbn [fst snd]. rewrite Nat.sub_0_r.
  rewrite extend_left_diagonal by lia.
  cbn [fst snd size]. unfold size. cbn [snd].
  apply extend_right_diagonal. lia.
Qed.

End DiagonalFacts.

Section SelfSimilarity.
Import Difflib LegalDocumentComparison.

Lemma blocks_self (a : seq_t) (n : nat) :
  List.length a = S n ->
  get_matching_blocks a a = [(0, 0, S n); (S n, S n, 0)].
Proof.
  intros Hn. unfold get_matching_blocks. cbn [blocks_in].
  rewrite find_longest_match_self. rewrite !Hn.
  cbn [Nat.eqb Nat.add]. rewrite !Nat.ltb_irrefl.
  cbn [andb app collapse Nat.add Nat.eqb size snd fst]. reflexivity.
Qed.

Lemma ratio_self (a : seq_t) : (ratio a a == 1)%Q.
Proof.
  unfold ratio. destruct (List.length a) as [|n] eqn:Hn.
  - cbn [Nat.add]. reflexivity.
  - rewrite (blocks_self a n Hn). cbn [map]. unfold size. cbn [snd list_sum fold_right].
    cbn [Nat.add]. rewrite Nat.add_0_r.
    unfold Qeq, Qdiv, Qmult, Qinv, inject_Z. cbn [Qnum Qden].
    destruct (Z.of_nat (S (n + S n))) eqn:E; cbn [Qnum Qden]; lia.
Qed.

(** A text is 100 per cent similar to itself for the sequence ratio,
    whatever its length and however often its characters occur. *)
Theorem similarity_with_itself (text : string) :
  (_calculate_similarity text text == 100)%Q.
Proof.
  unfold _calculate_similarity. rewrite ratio_self. reflexivity.
Qed.

End SelfSimilarity.

(* ================================================================== *)
(** * Further properties: the sections of a document *)

Section SectionFacts.
Import Str LegalDocumentComparison.

Lemma first_section_total (document : string) (pats : list string) :
  forallb RiskSpec.compiles pats = true ->
  exists r, first_section document pats = Some r.
Proof.
  induction pats as [|p rest IH]; cbn [forallb first_section]; [eauto|].
  intros H. apply andb_prop in H. destruct H as [Hp Hrest].
  destruct (search_compiles p document Re.IGNORECASE_DOTALL Hp) as [[mt|] ->]; [eauto|].
  now apply IH.
Qed.

Lemma common_patterns_compile :
  forallb (fun name => forallb RiskSpec.compiles (section_patterns name))
          common_sections = true.
Proof. vm_compute. reflexivity. Qed.

(** [extract_section] does not fail for a common section name. *)
Lemma extract_section_common (document name : string) :
  In name common_sections -> exists r, extract_section document name = Some r.
Proof.
  intros H. apply first_section_total.
  exact (proj1 (forallb_forall _ _) common_patterns_compile name H).
Qed.

Lemma alias_sections_keys (title content : string) (names : list string) :
  forall (sections : Dict.dict string) (k : string),
    In k (Dict.keys
            (fold_left (fun secs common_section =>
                          if LegalAnalysisTools.contains common_section title
                          then Dict.set secs common_section content else secs)
                       names sections)) ->
    In k (Dict.keys sections) \/ In k names.
Proof.
  induction names as [|n rest IH]; intros sections k; cbn [fold_left]; [now left|].
  intros H. apply IH in H. destruct H as [H|H]; [|right; now right].
  destruct (LegalAnalysisTools.contains n title); [|now left].
  apply dict_keys_set in H. destruct H as [->|H]; [right; now left | now left].
Qed.

Lemma add_header_sections_keys (document : string) (ms : list Re.rmatch) :
  forall sections : Dict.dict string,
    exists sections',
      add_header_sections document ms sections = Some sections'
      /\ forall k, In k (Dict.keys sections') ->
                   In k (Dict.keys sections) \/ In k common_sections
                   \/ exists mt, In mt ms
                                 /\ k = lower (strip (Re.group_or_empty document mt 2)).
Proof.
  induction ms as [|mt rest IH]; intros sections; cbn [add_header_sections].
  - exists sections. split; [reflexivity | now left].
  - unfold add_header_section.
    destruct (search_compiles next_header_pattern (from document (Re.m_end mt))
                Re.no_flags eq_refl) as [nx ->].
    match goal with
    | |- context [add_header_sections document rest ?S] =>
        destruct (IH S) as [sections' [E Hk]]
    end.
    exists sections'. split; [exact E|].
    intros k Hin. apply Hk in Hin.
    destruct Hin as [Hin|[Hin|[mt' [Hm Ek]]]].
    + unfold alias_sections in Hin. apply alias_sections_keys in Hin.
      destruct Hin as [Hin|Hin]; [|right; now left].
      apply dict_keys_set in Hin. destruct Hin as [->|Hin]; [|now left].
      right. right. exists mt. split; [now left | reflexivity].
    + right. now left.
    + right. right. exists mt'. split; [now right | exact Ek].
Qed.

Lemma add_named_sections_keys (document : string) (names : list string) :
  (forall name, In name names -> exists r, extract_section document name = Some r) ->
  forall sections : Dict.dict string,
    exists sections',
      add_named_sections document names sections = Some sections'
      /\ forall k, In k (Dict.keys sections') ->
                   In k (Dict.keys sections) \/ In k names.
Proof.
  induction names as [|n rest IH]; intros Hn sections; cbn [add_named_sections].
  - exists sections. split; [reflexivity | now left].
  - assert (Hrest : forall name, In name rest ->
                                 exists r, extract_section document name = Some r)
      by (intros name H; apply Hn; now right).
    assert (Hsame : exists sections',
               add_named_sections document rest sections = Some sections'
               /\ forall k, In k (Dict.keys sections') ->
                            In k (Dict.keys sections) \/ In k (n :: rest)).
    { destruct (IH Hrest sections) as [s' [E Hk]].
      exists s'. split; [exact E|].
      intros k Hin. apply Hk in Hin. destruct Hin; [now left | right; now right]. }
    destruct (Dict.get sections n) as [old|]; [exact Hsame|].
    destruct (Hn n (or_introl eq_refl)) as [r ->].
    destruct r as [[|c t]|]; [exact Hsame | | exact Hsame].
    destruct (IH Hrest (Dict.set sections n (String c t))) as [s' [E Hk]].
    exists s'. split; [exact E|].
    intros k Hin. apply Hk in Hin. destruct Hin as [Hin|Hin]; [|right; now right].
    apply dict_keys_set in Hin. destruct Hin as [->|Hin]; [right; now left | now left].
Qed.

(** [_extract_all_sections] never fails, and every key of its result
    is a common section name or the title of a heading of the
    document, stripped and in small letters. *)
Theorem extract_all_sections_keys (document : string) :
  exists headings sections,
    Re.finditer header_pattern document Re.no_flags = Some headings
    /\ _extract_all_sections document = Some sections
    /\ forall k, In k (Dict.keys sections) ->
                 In k common_sections
                 \/ exists mt, In mt headings
                               /\ k = lower (strip (Re.group_or_empty document mt 2)).
Proof.
  destruct (finditer_compiles header_pattern document Re.no_flags eq_refl) as [ms Em].
  destruct (add_header_sections_keys document ms []) as [s1 [E1 H1]].
  destruct (add_named_sections_keys document common_sections
              (fun name H => extract_section_common document name H) s1)
    as [s2 [E2 H2]].
  exists ms, s2. split; [exact Em|]. unfold _extract_all_sections.
  rewrite Em, E1. split; [exact E2|].
  intros k Hk. apply H2 in Hk. destruct Hk as [Hk|Hk]; [|now left].
  apply H1 in Hk. destruct Hk as [[]|[Hk|Hk]]; [now left | now right].
Qed.

End SectionFacts.

(* ================================================================== *)
(** * The properties with a premise, on concrete inputs *)

Section MoreWitnesses.
Import Str CitationAnalyzer CitationSpec CitationReport DocumentManager.
Transparent CitationSpec.citations_of CitationAnalyzer.extract_citations.

Lemma plot_colors_and_labels_witness :
  exists G,
    build_citation_network Scenario.two_sharing = Some G
    /\ List.length (colors G) = List.length (Nx.nodes G)
    /\ ~ In "gray" (colors G)
    /\ (forall node lbl,
          Dict.get (labels G) node = Some lbl ->
          In node (Dict.keys (Nx.nodes G))
          /\ String.length lbl <= 30
          /\ (String.length node <= 30 -> lbl = node))
    /\ (forall node,
          In node (Dict.keys (Nx.nodes G)) ->
          exists lbl,
            Dict.get (labels G) node = Some lbl
            /\ lbl = (if 30 <? String.length node
                      then slice node 0 27 ++ "..." else node)).
Proof.
  apply (plot_colors_and_labels Scenario.two_sharing).
  vm_compute. repeat constructor; simpl; intuition discriminate.
Defined.

Lemma manager_never_fails_witness :
  (forall doc_id,
      exists r,
        get_document (fst (add_document init "Lease of the premises." "/tmp/lease.txt"
                             "contract" "0f8fad5b-d9cb-469f-a165-70867728950e"
                             "6fa459ea-ee8a-11e3-ac10-0800200c9a66")) doc_id = Some r)
  /\ (forall doc_id,
         exists self',
           remove_document (fst (add_document init "Lease of the premises."
                                   "/tmp/lease.txt" "contract"
                                   "0f8fad5b-d9cb-469f-a165-70867728950e"
                                   "6fa459ea-ee8a-11e3-ac10-0800200c9a66")) doc_id
           = Some self')
  /\ (exists l,
         list_documents (fst (add_document init "Lease of the premises." "/tmp/lease.txt"
                                "contract" "0f8fad5b-d9cb-469f-a165-70867728950e"
                                "6fa459ea-ee8a-11e3-ac10-0800200c9a66")) = Some l
         /\ map fst l
            = Dict.keys (documents (fst (add_document init "Lease of the premises."
                                           "/tmp/lease.txt" "contract"
                                           "0f8fad5b-d9cb-469f-a165-70867728950e"
                                           "6fa459ea-ee8a-11e3-ac10-0800200c9a66")))
         /\ NoDup (map fst l))
  /\ (get_document (fst (add_document init "Lease of the premises." "/tmp/lease.txt"
                           "contract" "0f8fad5b-d9cb-469f-a165-70867728950e"
                           "6fa459ea-ee8a-11e3-ac10-0800200c9a66")) None
      = Some (None, None)
      <-> documents (fst (add_document init "Lease of the premises." "/tmp/lease.txt"
                            "contract" "0f8fad5b-d9cb-469f-a165-70867728950e"
                            "6fa459ea-ee8a-11e3-ac10-0800200c9a66")) = []).
Proof.
  apply (manager_never_fails
           (fst (add_document init "Lease of the premises." "/tmp/lease.txt" "contract"
                   "0f8fad5b-d9cb-469f-a165-70867728950e"
                   "6fa459ea-ee8a-11e3-ac10-0800200c9a66"))).
  apply reach_add. apply reach_init.
Defined.

Lemma remove_then_get_witness :
  exists self',
    remove_document (fst (add_document init "Lease of the premises." "/tmp/lease.txt"
                            "contract" "0f8fad5b-d9cb-469f-a165-70867728950e"
                            "6fa459ea-ee8a-11e3-ac10-0800200c9a66")) "0f8fad5b"
    = Some self'
    /\ get_document self' (Some "0f8fad5b") = Some (None, None)
    /\ (forall other, other <> "0f8fad5b" ->
                      get_document self' (Some other)
                      = get_document (fst (add_document init "Lease of the premises."
                                             "/tmp/lease.txt" "contract"
                                             "0f8fad5b-d9cb-469f-a165-70867728950e"
                                             "6fa459ea-ee8a-11e3-ac10-0800200c9a66"))
                                     (Some other))
    /\ (Dict.get (documents (fst (add_document init "Lease of the premises."
                                    "/tmp/lease.txt" "contract"
                                    "0f8fad5b-d9cb-469f-a165-70867728950e"
                                    "6fa459ea-ee8a-11e3-ac10-0800200c9a66")))
                 "0f8fad5b" = None ->
        self' = fst (add_document init "Lease of the premises." "/tmp/lease.txt"
                       "contract" "0f8fad5b-d9cb-469f-a165-70867728950e"
                       "6fa459ea-ee8a-11e3-ac10-0800200c9a66"))
    /\ (current_document_id (fst (add_document init "Lease of the premises."
                                    "/tmp/lease.txt" "contract"
                                    "0f8fad5b-d9cb-469f-a165-70867728950e"
                                    "6fa459ea-ee8a-11e3-ac10-0800200c9a66"))
        = Some "0f8fad5b" ->
        current_document_id self' = hd_error (Dict.keys (documents self'))).
Proof.
  apply (remove_then_get
           (fst (add_document init "Lease of the premises." "/tmp/lease.txt" "contract"
                   "0f8fad5b-d9cb-469f-a165-70867728950e"
                   "6fa459ea-ee8a-11e3-ac10-0800200c9a66")) "0f8fad5b").
  apply reach_add. apply reach_init.
Defined.

Lemma consulting_rule_first_witness :
  LegalAnalysisTools._determine_document_type
    ("MASTER " ++ "Consulting Services" ++ " under a software license")
  = "consulting_agreement".
Proof.
  apply (consulting_rule_first "MASTER " "Consulting Services" " under a software license").
  right. vm_compute. reflexivity.
Defined.

End MoreWitnesses.

